(* ===== verification/_CoqProject ===== *)
-Q . S2P
Prelude.v
Committee.v
Crypto.v
SigServer.v
SampleLib.v
Message.v
VoteLog.v
Aggreator.v
Elector.v
Coin.v
Commitor.v
Pool.v
PoolRun.v
Store.v
NutsDB.v
Spb.v
Synchronizer.v
Port.v
Mempool.v
Report.v
Regex.v
Python.v
Consistency.v
LogStats.v
Core.v
Node.v
Errors.v
Typing.v
Origin.v
Network.v
Transport.v
System.v
SystemPlay.v
Wire.v
TsKeys.v
Config.v
Boot.v
CommandLine.v
Cluster.v
Bench.v
Testbed.v
SampleWorld.v
Witnesses.v
NodeWitnesses.v
BootWitnesses.v
BenchWitnesses.v
SystemWitnesses.v
TransportWitnesses.v
ServiceWitnesses.v
LogWitnesses.v
