(* ===== verification/Prelude.v ===== *)
(** * A verification of the sMVBA node (Go sources under src/)

    The program is a node of a Byzantine fault tolerant replication system.  Its
    consensus is the sMVBA protocol: per epoch and round every node broadcasts a
    block in two phases (strong provable broadcast), the nodes toss a common coin
    that elects a leader, and two rounds of votes decide whether the leader's
    block is committed.  Blocks refer by digest to payload blocks, which the
    mempool spreads and fetches.

    ** Parts and files

    The development follows the packages of the program, bottom up:
    - Prelude.v (this file): errors (src/core/error.go), 64-bit integers, the
      monad [GoM] of stateful code that may panic, relations respected by such
      code, nested maps, runs of a component, bounded channels, the serialiser
      interface [Gob].
    - Committee.v: src/core/config.go.
    - Crypto.v: src/crypto/crypto.go over an abstract library [CryptoLib];
      SigServer.v: the goroutines of its signing service.
    - Message.v: src/core/smvba/consensus/message.go.
    - VoteLog.v: the abstract specification of vote counting; Aggreator.v:
      src/core/smvba/consensus/aggreator.go, which refines it.
    - Elector.v: src/core/smvba/consensus/elector.go; Coin.v: the dealing of the
      threshold keys (src/crypto/crypto.go) and what the elector makes of them.
    - Commitor.v and Report.v: src/core/smvba/consensus/commitor.go, the ordering
      of decided blocks and the goroutine that reports them.
    - Pool.v: the ring buffer and the batches of src/pool/pool.go; PoolRun.v: its
      goroutines.  Store.v: src/store/store.go over an abstract database [DB];
      NutsDB.v: src/store/nutsdb.go, which implements it.
    - Spb.v: src/core/smvba/consensus/spb.go.
    - Synchronizer.v and Mempool.v: src/mempool.  Port.v: the interface between
      the core and the mempool, which the core is verified against and which
      Mempool.v implements.
    - Core.v: src/core/smvba/consensus/core.go, the consensus core with its
      broadcast goroutines; Errors.v: what its error returns mean; Typing.v: what its
      maps, goroutines and sent messages hold.
    - Node.v: core, mempool and synchronizer composed, as src/node/node.go and
      src/core/smvba/consensus/consensus.go wire them.
    - Network.v: src/network, src/core/transmitor.go, src/mempool/transmit.go, as
      functions on messages and connections; Transport.v: the same code as goroutines
      with bounded channels; Wire.v: src/mempool/message.go on top of both.
    - Origin.v and System.v: a committee whose members all run the node of Node.v,
      with the links of Network.v between them; SystemPlay.v: computed runs of it.
    - Regex.v and Python.v: what the Python scripts use of their language, regular
      expressions, exceptions, numerals and words.  Consistency.v:
      src/benchmark/consistency.py, which compares what the nodes have logged;
      LogStats.v: src/benchmark/benchmark/logs.py and the lines that the program logs
      at the level Info.
    - TsKeys.v: threshold keys as text (src/crypto/crypto.go); Config.v:
      src/config/config.go; Boot.v: src/main.go, src/logger and the reading of the
      configuration in src/node/node.go; CommandLine.v: the flags of src/main.go;
      Cluster.v: the members of a committee waiting for each other (consensus.go,
      mempool.go, network.go).
    - Bench.v: the local benchmark (local.py, config.py, commands.py and utils.py under
      src/benchmark/benchmark, and its task in src/benchmark/fabfile.py).  Testbed.v: the
      benchmark on many machines (src/benchmark/alibaba/remote.py).
    - SampleLib.v, SampleWorld.v, Witnesses.v, NodeWitnesses.v, BootWitnesses.v,
      BenchWitnesses.v, SystemWitnesses.v, TransportWitnesses.v, ServiceWitnesses.v,
      LogWitnesses.v: concrete instances of the interfaces, concrete runs, and each
      theorem with hypotheses applied to one.

    Definitions have the names of the Go functions; a method [T.f] is [T_f] when
    [f] alone would be ambiguous.  A Go struct is a record whose fields carry a
    two-letter prefix.

    ** State and concurrency

    A handler is a function in [GoM]: it maps the state to a returned value and a
    new state, or to a panic.  Errors are values of [result].  Goroutines are
    modelled where the code shares memory between them:
    - a broadcast instance (Spb.v) is a set of threads with a program counter; a
      step is one access to an atomic field or one critical section, and all
      interleavings are considered;
    - the synchronizer (Synchronizer.v) interleaves its loop, its waiting
      goroutines and writes to the store;
    - the core (Core.v) interleaves turns of the core's loop with the steps of the
      broadcast goroutines, deliveries by the network, and changes of the store
      and the mempool.  A turn of the loop is one step: the loop alone writes the
      core's fields, and of what other goroutines write it reads in a turn at most
      the lock and then the block hash of one instance, of which the hash is
      written first and the lock is never taken back;
    - the whole node (Node.v) interleaves the turns of core, mempool and
      synchronizer, and refines both of the preceding systems;
    - the start of a committee (Cluster.v) interleaves the starts of its members and the
      goroutines that bind their ports;
    - a committee (System.v) interleaves the steps of its members and the deliveries
      on the links between them;
    - the transport, the signing service and the pool (Transport.v, SigServer.v,
      PoolRun.v) interleave their goroutines over channels of the sizes that the code
      gives them; a step that would block is not enabled.
    In the other files channels are lists, oldest message first, and unbounded.
    Delivery on the node's receive channel is arbitrary up to Node.v, so the theorems
    about the node hold against any messages of other nodes; in System.v a member
    receives what the other members have sent.

    Integers are [Z]; [wrap64] is written where the code adds to an epoch or round
    that a message controls.

    ** What the theorems show

    Each property has an identifier, C1 to C40.
    - A committee of correct members: what is committed was proposed, one block per
      proposer and epoch (C1); the broadcasts of a proposer hold the same block
      everywhere (C2); the halts of a round name the block of the elected leader or the
      one of node 0 (C11), so two of them agree unless one names node 0's (C12).
      Agreement on one block per epoch fails: C13 is a run of four correct members in
      which two of them commit different blocks for the same epoch.
    - The core: its broadcast instances behave as specified (C3), it does not panic
      on messages of members (C6), it commits only complete blocks (C7), sends its
      done message and coin share once (C8), never undoes progress, with one exception at
      the end of the 64-bit epochs (C9); its messages
      verify everywhere (C18), a message it reports an error for starts and sends
      nothing (C19), its data is well-typed (C20), and its epochs are 64-bit numbers (C21).
    - Broadcast: messages are announced once, to the network and to the own core, and
      are justified, in all interleavings (C4, C5), and goroutines end (C31).
    - Commit: order and progress (C10, C14).
    - The whole node: no block that waits for payloads is forgotten between mempool,
      synchronizer and core (C15); proposals that waited for payloads come back
      complete and are taken up (C16, C17).
    - Transport: links deliver in order and completely, but for the messages that are
      dropped while the other side cannot be dialled (C22, C23); a member that was dialled
      and does not read stops the sender for all (C24), and a core with a full channel
      stops forever when it sends to itself (C25).
    - Votes: contrary verdicts on final votes need contrary votes of more than [f]
      members (C26), which members that run the code can give (prevotes are answered
      twice); the refinement of the vote logs (C27), with the sizes of committees whose quorums intersect (C28).
    - Leader: at most one per round (C29); with the dealt keys the shares of a quorum
      elect one, the same on all nodes (C30).
    - The mempool can serve what it lets the core propose, unless the core writes over it
      in the store that they share (C32); the synchronizer reports only complete blocks
      (C33); the store answers every notification whose key is written (C34); signing
      service (C35), pool (C36).
    - The parser of the logs reads back what the nodes have logged (C37).
    - Start: members wait for each other, although their ports are bound in goroutines of
      their own (C38); the local benchmark generates files with
      which every node starts, and all come online (C39), and so does the benchmark on
      many machines, which uploads them to the hosts of the nodes (C40).
    Other theorems, without identifier, exhibit behaviour of the code that its users
    should know: races, unsigned fields, votes counted twice, unauthenticated
    messages, prevotes answered twice, blocks proposed again and
    ignored, digests that do not separate their parts.  Others
    support the benchmark: its script leaves no node running, the consistency check
    raises no false alarm, and the figures of the summary exist exactly when something
    was measured.

    ** Assumptions

    Code outside the repository is a type class: [CryptoLib] (ed25519, SHA-256,
    threshold BLS), [DB] (a database) and [Nuts] (nutsdb), [Gob] (encoding/gob),
    [JsonStruct] and [JsonMap] (encoding/json), [KyberKeys] (kyber's key data),
    [KyberPoly] (kyber's secret sharing), [Cobra] (the library of the command line),
    [PyJson] (Python's json), [Host] (the shell, tmux and the clock of a machine),
    [Fabric] (commands and files on other machines).  Laws
    are separate classes and appear as hypotheses of the theorems that need them:
    [CoinLaw] (a combined signature has at least three bytes, each in range),
    [BlsLaws] (a signature combined from enough shares verifies and is unique), [DBLaws] and [NutsLaws]
    (writes succeed and are read back), [DBErrors] (a missing key is reported with an
    error of the database's own), [KyberPolyLaws] (shares of one polynomial combine),
    [CobraLaw] (a command with values for its flags is run with them), [PyJsonLaws] (the
    Go decoder reads what Python writes, and the reverse), [HostLaws] and [FabricLaws] (the
    commands of the benchmarks do to files and sessions what their manuals say), [MempoolPortAsks] (the mempool asks its synchronizer
    only about blocks of the core), [GobLaw] and the JSON and kyber laws (decoding an
    encoded value gives the value).

    ** Bounds

    Loops of the code that are not structural have a bound that is shown to be
    enough: the commit loop runs at most once per buffered block
    ([commit_loop_done]), [serveConn] once per value of the stream
    ([serveConn_enough]), the search for a regular expression (Regex.v) at most once per
    character.
    [settle] of SystemPlay.v lets a member work for at most 100 turns after a delivery;
    it only chooses which run is computed, and every computed run is one of the system
    ([play_system_run]).  Loops that run forever are modelled by their turns.

    The theorems about a committee hold for runs in which no data other than a
    consensus block of the run is stored under its digest.  That the code can break
    this without a collision of the hash function is shown by [payload_digest_clash].

    ** Not modelled

    - The socket calls: a connection is a list of bytes or messages, a bound port a
      member of a set, and the outcomes of dialling and accepting are parameters.  A
      connection may break, but does not recover by itself.
    - The reading of the words of a command line by cobra; lines of the logs at other
      levels than Info.
    - Floating-point arithmetic: the figures of the log statistics are exact quotients.
    - What the scripts print on the terminal, the progress bar, the scripts under
      src/benchmark/aws, and the renting of machines from cloud providers
      (src/benchmark/alibaba/instance.py).
    - Time, which appears only as an argument of the synchronizer's tick; timers fire at
      any moment.
    - Members that do not follow the program, in System.v; against their messages the
      theorems about a single node hold. *)

From stdpp Require Import base gmap list strings pretty.

(** ** Scope and notations of the development *)

Declare Scope go_scope.
Delimit Scope go_scope with go.
#[global] Open Scope Z_scope.

(** ** Fixed-width integers

    Go's [int], [int64] and [core.NodeID] are 64-bit two's complement numbers
    on the platforms the program runs on.  They are [Z]; [wrap64] is written
    where the code adds to a number that a message or an unbounded counter
    controls. *)

Definition wrap64 (z : Z) : Z := (z + 2 ^ 63) mod 2 ^ 64 - 2 ^ 63.

Definition in_int64 (z : Z) : Prop := - 2 ^ 63 <= z < 2 ^ 63.

Lemma wrap64_id z : in_int64 z → wrap64 z = z.
Proof. unfold wrap64, in_int64. intros H. rewrite Z.mod_small; lia. Qed.

Lemma wrap64_range z : in_int64 (wrap64 z).
Proof.
  unfold wrap64, in_int64.
  pose proof (Z.mod_pos_bound (z + 2 ^ 63) (2 ^ 64)). lia.
Qed.

Lemma wrap64_succ z : in_int64 z → z < 2 ^ 63 - 1 → wrap64 (z + 1) = z + 1.
Proof. unfold in_int64. intros. apply wrap64_id. unfold in_int64. lia. Qed.

Lemma wrap64_max : wrap64 (2 ^ 63 - 1 + 1) = - 2 ^ 63.
Proof. reflexivity. Qed.

(** Bytes are integers in [0, 256). *)
Abbreviation byte := Z (only parsing).
Definition is_byte (b : byte) : Prop := 0 <= b < 256.

(** ** Errors (src/core/error.go) *)

(** The error values the program builds, plus those that a library returns. *)
Inductive goerror : Type :=
  | ErrSignature (msgTyp : Z)
  | ErrReference (msgTyp round node : Z)
  | ErrOneMoreMessage (msgTyp epoch round author : Z)
  | ErrFullMemory (author : Z)
  | ErrStoreNotExist
  | ErrNotFoundKey
  | ErrLib (what : string).

#[export] Instance goerror_eq_dec : EqDecision goerror.
Proof. solve_decision. Defined.

(** [fmt.Errorf] of core/error.go: the text of each error. *)
Definition Error (e : goerror) : string :=
  match e with
  | ErrSignature t =>
      "[type-" +:+ pretty t +:+ "] message signature verify error"
  | ErrReference t r n =>
      "[type-" +:+ pretty t +:+ "-round-" +:+ pretty r +:+ "-node-"
        +:+ pretty n +:+ "] not receive all block reference "
  | ErrOneMoreMessage t epoch round a =>
      "[type-" +:+ pretty t +:+ "-epoch-" +:+ pretty round +:+ "-round-"
        +:+ pretty epoch +:+ "] receive one more message from "
        +:+ pretty a +:+ " "
  | ErrFullMemory a =>
      "author " +:+ pretty a +:+ " Mempool memory is full"
  | ErrStoreNotExist => "storeNotExist"
  | ErrNotFoundKey => "not found key"
  | ErrLib w => w
  end.

(** The [(T, error)] result of a fallible Go function: the callers never look
    at the value when the error is set, so it is a sum. *)
Inductive result (A : Type) : Type :=
  | Ok (a : A)
  | Err (e : goerror).
Arguments Ok {_} _.
Arguments Err {_} _.

#[export] Instance result_eq_dec `{EqDecision A} : EqDecision (result A).
Proof. solve_decision. Defined.

Definition is_ok {A} (r : result A) : bool :=
  match r with Ok _ => true | Err _ => false end.

(** ** Stateful code that may panic

    A handler is a function from the state it mutates to an outcome: either a
    returned value with the new state, or a Go panic, which ends the process. *)

Inductive outcome (S A : Type) : Type :=
  | Returns (a : A) (s : S)
  | Crash (why : string).
Arguments Returns {_ _} _ _.
Arguments Crash {_ _} _.

Definition GoM (S A : Type) : Type := S → outcome S A.

#[export] Instance GoM_ret S : MRet (GoM S) := λ A a s, Returns a s.
#[export] Instance GoM_bind S : MBind (GoM S) := λ A B k m s,
  match m s with
  | Returns a s' => k a s'
  | Crash w => Crash w
  end.

Definition panic {S A} (why : string) : GoM S A := λ _, Crash why.
Definition read {S A} (f : S → A) : GoM S A := λ s, Returns (f s) s.
Definition modify {S} (f : S → S) : GoM S unit := λ s, Returns tt (f s).
(** [act f] runs a pure state transformer that also returns a value. *)
Definition act {S A} (f : S → A * S) : GoM S A := λ s, Returns (f s).1 (f s).2.

(** The state after a computation, when it returns. *)
Definition exec {S A} (m : GoM S A) (s : S) : option S :=
  match m s with Returns _ s' => Some s' | Crash _ => None end.

(** [wp m Q s]: from [s], [m] returns (no panic) and the result satisfies [Q].
    [wlp] is the same but lets [m] panic. *)
Definition wp {S A} (m : GoM S A) (Q : A → S → Prop) (s : S) : Prop :=
  match m s with Returns a s' => Q a s' | Crash _ => False end.
Definition wlp {S A} (m : GoM S A) (Q : A → S → Prop) (s : S) : Prop :=
  match m s with Returns a s' => Q a s' | Crash _ => True end.

Section wp_rules.
Context {S A B : Type}.
Implicit Types (m : GoM S A) (k : A → GoM S B).

Lemma wp_bind m k Q s : wp m (λ a, wp (k a) Q) s → wp (m ≫= k) Q s.
Proof. unfold wp, mbind, GoM_bind. by destruct (m s). Qed.
Lemma wlp_bind m k Q s : wlp m (λ a, wlp (k a) Q) s → wlp (m ≫= k) Q s.
Proof. unfold wlp, mbind, GoM_bind. by destruct (m s). Qed.
Lemma wp_mono m (Q Q' : A → S → Prop) s :
  (∀ a s', Q a s' → Q' a s') → wp m Q s → wp m Q' s.
Proof. unfold wp. destruct (m s); auto. Qed.
Lemma wlp_mono m (Q Q' : A → S → Prop) s :
  (∀ a s', Q a s' → Q' a s') → wlp m Q s → wlp m Q' s.
Proof. unfold wlp. destruct (m s); auto. Qed.
Lemma wp_wlp m (Q : A → S → Prop) s : wp m Q s → wlp m Q s.
Proof. unfold wp, wlp. by destruct (m s). Qed.
Lemma wp_run m (Q : A → S → Prop) s :
  wp m Q s ↔ ∃ a s', m s = Returns a s' ∧ Q a s'.
Proof. unfold wp. destruct (m s); naive_solver. Qed.
End wp_rules.

(** *** Relations that a computation respects

    [respects R m]: whenever [m] returns, the state it leaves is related to the
    one it started from.  [safe I m]: from a state in [I], [m] returns, in a
    state in [I].  Both are compositional, so that a property of a handler
    follows from the ones of its steps. *)
Section respects.
Context {S : Type}.

Definition respects {A} (R : relation S) (m : GoM S A) : Prop :=
  ∀ s, wlp m (λ _ s', R s s') s.

Definition safe {A} (I : S → Prop) (m : GoM S A) : Prop :=
  ∀ s, I s → wp m (λ _ s', I s') s.

Lemma respects_ret {A} (R : relation S) `{!Reflexive R} (a : A) : respects R (mret a).
Proof. intros s. unfold wlp. simpl. reflexivity. Qed.
Lemma respects_panic {A} (R : relation S) why : respects R (panic why : GoM S A).
Proof. by intros s. Qed.
Lemma respects_read {A} (R : relation S) `{!Reflexive R} (f : S → A) :
  respects R (read f).
Proof. intros s. unfold wlp. simpl. reflexivity. Qed.
Lemma respects_modify (R : relation S) (f : S → S) :
  (∀ s, R s (f s)) → respects R (modify f).
Proof. intros Hf s. apply Hf. Qed.
Lemma respects_bind {A B} (R : relation S) `{!Transitive R} (m : GoM S A)
    (k : A → GoM S B) :
  respects R m → (∀ a, respects R (k a)) → respects R (m ≫= k).
Proof.
  intros Hm Hk s. apply wlp_bind. eapply wlp_mono; [|apply Hm]. simpl.
  intros a s1 H1. eapply wlp_mono; [|apply Hk]. simpl. intros b s2 H2. by etrans.
Qed.
Lemma respects_bind_panic {A B} (R : relation S) why (k : A → GoM S B) :
  respects R (panic why ≫= k).
Proof. by intros s. Qed.
Lemma respects_bind_ret {A B} (R : relation S) (a : A) (k : A → GoM S B) :
  respects R (k a) → respects R (mret a ≫= k).
Proof. done. Qed.
Lemma respects_act {A} (R : relation S) (f : S → A * S) :
  (∀ s, R s (f s).2) → respects R (act f).
Proof. intros Hf s. apply Hf. Qed.
Lemma respects_run {A} (R : relation S) (m : GoM S A) s a s' :
  respects R m → m s = Returns a s' → R s s'.
Proof. intros Hm He. specialize (Hm s). unfold wlp in Hm. by rewrite He in Hm. Qed.

Lemma safe_ret {A} (I : S → Prop) (a : A) : safe I (mret a).
Proof. by intros s. Qed.
Lemma safe_read {A} (I : S → Prop) (f : S → A) : safe I (read f).
Proof. by intros s. Qed.
Lemma safe_modify (I : S → Prop) (f : S → S) : (∀ s, I s → I (f s)) → safe I (modify f).
Proof. intros Hf s Hs. by apply Hf. Qed.
Lemma safe_bind {A B} (I : S → Prop) (m : GoM S A) (k : A → GoM S B) :
  safe I m → (∀ a, safe I (k a)) → safe I (m ≫= k).
Proof.
  intros Hm Hk s Hs. apply wp_bind. eapply wp_mono; [|by apply Hm]. simpl.
  intros a s1 H1. by apply Hk.
Qed.
Lemma safe_act {A} (I : S → Prop) (f : S → A * S) : (∀ s, I s → I (f s).2) → safe I (act f).
Proof. intros Hf s Hs. by apply Hf. Qed.
Lemma safe_run {A} (I : S → Prop) (m : GoM S A) s :
  safe I m → I s → ∃ a s', m s = Returns a s' ∧ I s'.
Proof. intros Hm Hs. by apply wp_run, Hm. Qed.
Lemma safe_bind_ret {A B} (I : S → Prop) (a : A) (k : A → GoM S B) :
  safe I (k a) → safe I (mret a ≫= k).
Proof. done. Qed.
Lemma safe_returns {A} (I : S → Prop) (m : GoM S A) s :
  safe I m → I s → ∃ a s', m s = Returns a s'.
Proof. intros Hm Hs. destruct (safe_run I m s Hm Hs) as (a & s' & ? & _). eauto. Qed.
End respects.

(** [respects_steps] reduces a handler to its basic steps and tries [tac] on each. *)
Ltac respects_steps tac :=
  repeat lazymatch goal with
    | |- respects _ (panic _ ≫= _) => apply respects_bind_panic
    | |- respects _ (_ ≫= _) => refine (respects_bind _ _ _ _ _); [|intros ?]
    | |- respects _ (mret _) => refine (respects_ret _ _)
    | |- respects _ (panic _) => apply respects_panic
    | |- respects _ (read _) => refine (respects_read _ _)
    | |- respects _ (match ?x with _ => _ end) => destruct x eqn:?
    | |- _ => solve [tac]
    end.

(** The same for [safe]. *)
Ltac safe_steps tac :=
  repeat lazymatch goal with
    | |- safe _ (_ ≫= _) => apply safe_bind; [|intros ?]
    | |- safe _ (mret _) => apply safe_ret
    | |- safe _ (read _) => apply safe_read
    | |- safe _ (match ?x with _ => _ end) => destruct x eqn:?
    | |- _ => solve [tac]
    end.

Create HintDb go discriminated.
Create Rewrite HintDb go.

(** [go_case] splits on the innermost scrutinee of the goal, keeping the
    equation. *)
Ltac go_case :=
  match goal with
  | |- context [match ?x with _ => _ end] =>
      lazymatch x with
      | context [match _ with _ => _ end] => fail
      | _ => destruct x eqn:?
      end
  end.

(** The same in a hypothesis. *)
Ltac go_case_in H :=
  match type of H with
  | context [match ?x with _ => _ end] =>
      lazymatch x with
      | context [match _ with _ => _ end] => fail
      | _ => destruct x eqn:?
      end
  end.

(** ** Two-level maps

    Most of the node's tables are Go maps of maps whose inner map is created
    on first use.  [lookup2] reads one entry, [insert2] writes it and creates
    the inner map when it is missing, [touch] only creates the inner map. *)

Section map2.
Context {A : Type}.
Implicit Types (m : gmap Z (gmap Z A)) (e r : Z).

Definition lookup2 m e r : option A := m !! e ≫= λ items, items !! r.
Definition touch m e : gmap Z (gmap Z A) :=
  match m !! e with Some _ => m | None => <[e := ∅]> m end.
Definition insert2 m e r (a : A) : gmap Z (gmap Z A) :=
  <[e := <[r := a]> (default ∅ (m !! e))]> m.

Lemma lookup2_insert2 m e r e' r' a :
  lookup2 (insert2 m e r a) e' r' =
    if decide (e = e' ∧ r = r') then Some a else lookup2 m e' r'.
Proof.
  unfold lookup2, insert2. destruct (decide (e = e')) as [->|He].
  - rewrite lookup_insert_eq. simpl. destruct (decide (r = r')) as [->|Hr].
    + rewrite lookup_insert_eq, decide_True; auto.
    + rewrite lookup_insert_ne, decide_False by naive_solver.
      by destruct (m !! e').
  - rewrite lookup_insert_ne, decide_False by naive_solver. done.
Qed.
Lemma lookup2_insert2_eq m e r a : lookup2 (insert2 m e r a) e r = Some a.
Proof. rewrite lookup2_insert2. by rewrite decide_True. Qed.
Lemma lookup2_insert2_ne m e r e' r' a :
  (e, r) ≠ (e', r') → lookup2 (insert2 m e r a) e' r' = lookup2 m e' r'.
Proof. intros. rewrite lookup2_insert2, decide_False; naive_solver. Qed.
Lemma lookup2_touch m e e' r' : lookup2 (touch m e) e' r' = lookup2 m e' r'.
Proof.
  unfold lookup2, touch. destruct (m !! e) eqn:He; [done|].
  destruct (decide (e = e')) as [->|].
  - by rewrite lookup_insert_eq, He.
  - by rewrite lookup_insert_ne.
Qed.
Lemma lookup2_empty e r : lookup2 (∅ : gmap Z (gmap Z A)) e r = None.
Proof. unfold lookup2. by rewrite lookup_empty. Qed.
End map2.

#[export] Hint Rewrite @lookup2_insert2_eq @lookup2_touch @lookup2_empty : go.

(** ** Running a component over a sequence of inputs *)

Section runs.
Context {S I O : Type} (step : S → I → O * S).

(** The outputs of a run, in order, and its final state. *)
Fixpoint run (s : S) (xs : list I) : list O * S :=
  match xs with
  | [] => ([], s)
  | i :: xs => let '(o, s') := step s i in
               let '(os, s'') := run s' xs in (o :: os, s'')
  end.

Definition outputs s xs := (run s xs).1.
Definition final s xs := (run s xs).2.

Lemma outputs_cons s i xs :
  outputs s (i :: xs) = (step s i).1 :: outputs (step s i).2 xs.
Proof.
  unfold outputs. simpl. destruct (step s i) as [o s'].
  simpl. by destruct (run s' xs).
Qed.
Lemma final_cons s i xs : final s (i :: xs) = final (step s i).2 xs.
Proof.
  unfold final. simpl. destruct (step s i) as [o s'].
  simpl. by destruct (run s' xs).
Qed.
Lemma final_app s xs js : final s (xs ++ js) = final (final s xs) js.
Proof.
  revert s. induction xs as [|i xs IH]; intros s; [done|].
  simpl. by rewrite !final_cons, IH.
Qed.
Lemma outputs_app s xs js :
  outputs s (xs ++ js) = outputs s xs ++ outputs (final s xs) js.
Proof.
  revert s. induction xs as [|i xs IH]; intros s; [done|].
  simpl. by rewrite !outputs_cons, final_cons, IH.
Qed.
Lemma length_outputs s xs : length (outputs s xs) = length xs.
Proof.
  revert s. induction xs as [|i xs IH]; intros s; [done|].
  rewrite outputs_cons. simpl. by rewrite IH.
Qed.

(** Invariants of a run. *)
Lemma final_invariant (P : S → Prop) s xs :
  P s → (∀ s i, P s → P (step s i).2) → P (final s xs).
Proof.
  intros Hs Hstep. revert s Hs. induction xs as [|i xs IH]; intros s Hs; [done|].
  rewrite final_cons. auto.
Qed.
End runs.

(** A relation between the states of two machines that each step preserves,
    with equal outputs, makes their runs produce the same outputs. *)
Section simulation.
Context {S T I O : Type} (step1 : S → I → O * S) (step2 : T → I → O * T).
Context (R : S → T → Prop).
Hypothesis step_sim : ∀ s t i, R s t →
  (step1 s i).1 = (step2 t i).1 ∧ R (step1 s i).2 (step2 t i).2.

Lemma outputs_sim s t xs : R s t → outputs step1 s xs = outputs step2 t xs.
Proof.
  revert s t. induction xs as [|i xs IH]; intros s t HR; [done|].
  destruct (step_sim s t i HR) as [Ho HR'].
  rewrite !outputs_cons, Ho. f_equal. auto.
Qed.
Lemma final_sim s t xs : R s t → R (final step1 s xs) (final step2 t xs).
Proof.
  revert s t. induction xs as [|i xs IH]; intros s t HR; [done|].
  destruct (step_sim s t i HR) as [_ HR']. rewrite !final_cons. auto.
Qed.
End simulation.

(** How many elements of a list satisfy a boolean test. *)
Definition countb {A} (f : A → bool) (l : list A) : nat :=
  length (List.filter f l).

Lemma countb_nil {A} (f : A → bool) : countb f [] = 0%nat.
Proof. done. Qed.
Lemma countb_cons {A} (f : A → bool) x l :
  countb f (x :: l) = ((if f x then 1 else 0) + countb f l)%nat.
Proof. unfold countb. simpl. by destruct (f x). Qed.
Lemma countb_app {A} (f : A → bool) l k :
  countb f (l ++ k) = (countb f l + countb f k)%nat.
Proof. unfold countb. by rewrite List.filter_app, length_app. Qed.
Lemma countb_snoc {A} (f : A → bool) l x :
  countb f (l ++ [x]) = (countb f l + if f x then 1 else 0)%nat.
Proof. rewrite countb_app. unfold countb at 2. simpl. by destruct (f x). Qed.
Lemma countb_split {A} (f : A → bool) l :
  (countb f l + countb (λ x, negb (f x)) l = length l)%nat.
Proof.
  unfold countb. induction l as [|x l IH]; simpl; [done|].
  destruct (f x); simpl; lia.
Qed.
Lemma countb_0 {A} (f : A → bool) l : countb f l = 0%nat ↔ ∀ x, x ∈ l → f x = false.
Proof.
  unfold countb. induction l as [|x l IH]; simpl.
  - split; [|done]. intros _ x Hx. by apply not_elem_of_nil in Hx.
  - destruct (f x) eqn:E; simpl.
    + split; [done|]. intros H. specialize (H x (list_elem_of_here _ _)). congruence.
    + rewrite IH. setoid_rewrite elem_of_cons. naive_solver.
Qed.
Lemma countb_all {A} (f : A → bool) l :
  countb f l = length l ↔ ∀ x, x ∈ l → f x = true.
Proof.
  pose proof (countb_split f l) as Hs.
  pose proof (countb_0 (λ x, negb (f x)) l) as H0.
  split.
  - intros Hc x Hx. apply negb_false_iff. apply H0; [lia|done].
  - intros H. enough (countb (λ x, negb (f x)) l = 0%nat) by lia.
    apply H0. intros x Hx. by rewrite H.
Qed.

(** A list that is not longer and agrees wherever both are defined is a
    prefix. *)
Lemma prefix_by_lookup {A} (l1 l2 : list A) :
  (length l1 <= length l2)%nat →
  (∀ k x y, l1 !! k = Some x → l2 !! k = Some y → x = y) →
  l1 `prefix_of` l2.
Proof.
  intros Hle Hk. exists (drop (length l1) l2). apply list_eq. intros k.
  destruct (decide (k < length l1)%nat) as [Hlt|Hge].
  - rewrite lookup_app_l by done.
    destruct (lookup_lt_is_Some_2 l1 k Hlt) as [x Hx].
    destruct (lookup_lt_is_Some_2 l2 k) as [y Hy]; [lia|].
    by rewrite Hx, Hy, (Hk k x y).
  - rewrite lookup_app_r, lookup_drop by lia. f_equal. lia.
Qed.

(** An invariant of every step holds in every reachable state. *)
Lemma rtc_invariant {A} (R : relation A) (I : A → Prop) x y :
  rtc R x y → I x → (∀ a b, I a → R a b → I b) → I y.
Proof. intros Hr Hx Hstep. induction Hr; eauto. Qed.

(** ** Serialisation

    [encoding/gob] for one type: bytes are what an encoder writes to a fresh
    buffer.  The law is what the package documents for a struct of exported
    fields of basic types, slices and arrays. *)
Class Gob (A : Type) : Type := {
  gob_Encode : A → result (list byte);
  gob_Decode : list byte → result A
}.

Class GobLaw (A : Type) {G : Gob A} : Prop :=
  gob_round_trip : ∀ a, ∃ data, gob_Encode a = Ok data ∧ gob_Decode data = Ok a.

(** ** Unsigned 64-bit integers *)
Definition wrapU64 (z : Z) : Z := z mod 2 ^ 64.

(** ** Channels *)

(** Sending waits while the channel is full: [None] is waiting. *)
Definition chan_send {A} (capacity : Z) (x : A) (ch : list A) : option (list A) :=
  if decide (Z.of_nat (length ch) < capacity) then Some (ch ++ [x]) else None.

Definition chan_recv {A} (ch : list A) : option (A * list A) :=
  match ch with [] => None | x :: ch => Some (x, ch) end.

Definition held {A} (o : option A) : list A := match o with Some x => [x] | None => [] end.

Lemma chan_send_Some {A} cap (x : A) ch ch' :
  chan_send cap x ch = Some ch' ↔ Z.of_nat (length ch) < cap ∧ ch' = ch ++ [x].
Proof. unfold chan_send. case_decide; naive_solver. Qed.

Lemma chan_send_None {A} cap (x : A) ch : chan_send cap x ch = None ↔ cap <= Z.of_nat (length ch).
Proof. unfold chan_send. case_decide; naive_solver lia. Qed.

Lemma chan_recv_Some {A} (x : A) ch ch' : chan_recv ch = Some (x, ch') ↔ ch = x :: ch'.
Proof. destruct ch; naive_solver. Qed.

Lemma chan_recv_None {A} (ch : list A) : chan_recv ch = None ↔ ch = [].
Proof. by destruct ch. Qed.

(** ** Sums *)

Lemma sum_list_with_snoc {A} (f : A → nat) l x :
  (sum_list_with f (l ++ [x]) = sum_list_with f l + f x)%nat.
Proof. rewrite sum_list_with_app. simpl. lia. Qed.

Lemma sum_list_with_insert {A} (f : A → nat) l k x y :
  l !! k = Some x → (sum_list_with f (<[k := y]> l) + f x = sum_list_with f l + f y)%nat.
Proof.
  revert k. induction l as [|z l IH]; intros [|k]; simpl; try done.
  - intros [= ->]. lia.
  - intros Hk. specialize (IH k Hk). lia.
Qed.
