(* ===== verification/Committee.v ===== *)
(** * The committee (src/core/config.go)

    Node identities, the parameters of a node, the committee table with its
    lookups and broadcasts, and the two vote thresholds.  The theorems say for
    which committee sizes the thresholds have the intersection property that
    the protocol's agreement argument needs. *)

From stdpp Require Import base gmap list strings.
From S2P Require Import Prelude.

(** [core.NodeID] *)
Abbreviation NodeID := Z.

Definition NONE : NodeID := -1.

(** Which protocol a node runs. *)
Definition MVBA : Z := 0.
Definition SMVBA : Z := 1.
Definition VABA : Z := 2.
Definition MERCURY : Z := 3.

(** [core.Parameters] *)
Record Parameters : Type := mkParameters {
  SyncTimeout : Z;
  NetwrokDelay : Z;
  MinBlockDelay : Z;
  DDos : bool;
  Faults : Z;
  RetryDelay : Z;
  Protocol : Z;
  MaxPayloadSize : Z;
  MaxQueenSize : Z;
  MinPayloadDelay : Z;
  SyncRetryDelay : Z
}.

Definition DefaultParameters : Parameters := {|
  SyncTimeout := 500;
  NetwrokDelay := 2000;
  MinBlockDelay := 0;
  DDos := false;
  Faults := 0;
  RetryDelay := 5000;
  Protocol := SMVBA;
  MaxPayloadSize := 1000;
  MaxQueenSize := 10000;
  MinPayloadDelay := 200;
  SyncRetryDelay := 10000
|}.

(** [core.Authority]; a public key is its bytes ([crypto.PublickKey]). *)
Record Authority : Type := mkAuthority {
  au_Name : list byte;
  au_Id : NodeID;
  au_Addr : string;
  au_MempoolAddr : string
}.

(** The zero value that a Go map returns for a missing key. *)
Definition zero_Authority : Authority := mkAuthority [] 0 "" "".

Record Committee : Type := mkCommittee {
  Authorities : gmap NodeID Authority
}.

Section committee.
Implicit Types (c : Committee).

(** [Committee.ID]: the range loop visits the table in an unspecified order
    and returns the first match. *)
Definition Committee_ID c (name : list byte) : NodeID :=
  match List.find (λ p, bool_decide (au_Name p.2 = name))
          (map_to_list (Authorities c)) with
  | Some (id, _) => id
  | None => NONE
  end.

Definition Committee_Size c : Z := Z.of_nat (size (Authorities c)).

Definition Committee_Name c (id : NodeID) : list byte :=
  au_Name (default zero_Authority (Authorities c !! id)).

Definition Committee_Address c (id : NodeID) : string :=
  au_Addr (default zero_Authority (Authorities c !! id)).

Definition Committee_BroadCast c (id : NodeID) : list string :=
  map (λ p, au_Addr p.2)
    (List.filter (λ p, negb (bool_decide (p.1 = id)))
       (map_to_list (Authorities c))).

Definition Committee_MempoolAddress c (id : NodeID) : string :=
  au_MempoolAddr (default zero_Authority (Authorities c !! id)).

Definition Committee_MempoolBroadCast c (id : NodeID) : list string :=
  map (λ p, au_MempoolAddr p.2)
    (List.filter (λ p, negb (bool_decide (p.1 = id)))
       (map_to_list (Authorities c))).

(** Go's integer division truncates: [Z.quot]. *)
Definition Committee_HightThreshold c : Z :=
  let n := Committee_Size c in 2 * Z.quot (n - 1) 3 + 1.

Definition Committee_LowThreshold c : Z :=
  let n := Committee_Size c in Z.quot (n - 1) 3 + 1.

(** The fault bound [f] that both thresholds are written in. *)
Definition max_faults c : Z := Z.quot (Committee_Size c - 1) 3.

(** The members of the committee. *)
Definition members c : gset NodeID := dom (Authorities c).
End committee.

(** ** Arithmetic of the thresholds *)

Section thresholds.
Implicit Types (c : Committee).

Lemma Committee_Size_nonneg c : 0 <= Committee_Size c.
Proof. unfold Committee_Size. lia. Qed.

Lemma size_members c : Z.of_nat (size (members c)) = Committee_Size c.
Proof. unfold members, Committee_Size. by rewrite size_dom. Qed.

Lemma HightThreshold_faults c :
  Committee_HightThreshold c = 2 * max_faults c + 1.
Proof. reflexivity. Qed.
Lemma LowThreshold_faults c :
  Committee_LowThreshold c = max_faults c + 1.
Proof. reflexivity. Qed.

Lemma max_faults_nonneg c : 0 <= max_faults c.
Proof.
  unfold max_faults. pose proof (Committee_Size_nonneg c).
  Z.quot_rem_to_equations. lia.
Qed.

Lemma max_faults_size c :
  0 < Committee_Size c →
  3 * max_faults c + 1 <= Committee_Size c <= 3 * max_faults c + 3.
Proof.
  unfold max_faults. intros H. Z.quot_rem_to_equations. lia.
Qed.

Lemma HightThreshold_pos c : 1 <= Committee_HightThreshold c.
Proof. rewrite HightThreshold_faults. pose proof (max_faults_nonneg c). lia. Qed.

Lemma size_mod3 c :
  0 < Committee_Size c →
  Committee_Size c mod 3 = 1 ↔ Committee_Size c = 3 * max_faults c + 1.
Proof.
  unfold max_faults. intros H. Z.to_euclidean_division_equations. lia.
Qed.
End thresholds.

#[export] Hint Resolve max_faults_nonneg Committee_Size_nonneg
  HightThreshold_pos : go.

(** ** Broadcast reaches every other member *)

Section broadcast.
Implicit Types (c : Committee).

Lemma elem_of_BroadCast c id a :
  a ∈ Committee_BroadCast c id ↔
    ∃ i au, i ≠ id ∧ Authorities c !! i = Some au ∧ a = au_Addr au.
Proof.
  unfold Committee_BroadCast. rewrite list_elem_of_In, in_map_iff.
  setoid_rewrite List.filter_In. setoid_rewrite <- list_elem_of_In.
  split.
  - intros ([i au] & <- & Hin & Hne). rewrite elem_of_map_to_list in Hin.
    rewrite negb_true_iff, bool_decide_eq_false in Hne. simpl in *. eauto 6.
  - intros (i & au & Hne & Hlk & ->). exists (i, au).
    rewrite elem_of_map_to_list, negb_true_iff, bool_decide_eq_false. auto.
Qed.

Lemma length_filter_ne (l : list (NodeID * Authority)) id :
  NoDup l.*1 →
  length (List.filter (λ p, negb (bool_decide (p.1 = id))) l)
    = (length l - if decide (id ∈ l.*1) then 1 else 0)%nat.
Proof.
  induction l as [|[i au] l IH]; simpl; intros Hnd; [done|].
  apply NoDup_cons in Hnd as [Hni Hnd]. specialize (IH Hnd).
  destruct (decide (i = id)) as [->|Hne].
  - rewrite bool_decide_eq_true_2 by done. simpl.
    rewrite decide_False in IH by done. rewrite decide_True by set_solver. lia.
  - rewrite bool_decide_eq_false_2 by done. simpl. rewrite IH.
    destruct (decide (id ∈ l.*1)) as [Hin|Hin].
    + rewrite decide_True by set_solver.
      destruct l; [set_solver|simpl; lia].
    + rewrite decide_False by set_solver. lia.
Qed.
End broadcast.

(** ** Properties *)

(** A set of members with at least [HightThreshold] elements. *)
Definition quorum (c : Committee) (Q : gset NodeID) : Prop :=
  Q ⊆ members c ∧ Committee_HightThreshold c <= Z.of_nat (size Q).

(** Two quorums of the committee always share a member outside every set of at
    most [f] members. *)
Definition quorums_intersect (c : Committee) : Prop :=
  ∀ Q1 Q2 B : gset NodeID,
    quorum c Q1 → quorum c Q2 → Z.of_nat (size B) <= max_faults c →
    ∃ i, i ∈ Q1 ∧ i ∈ Q2 ∧ i ∉ B.

Lemma quorum_overlap c Q1 Q2 :
  quorum c Q1 → quorum c Q2 →
  2 * Committee_HightThreshold c - Committee_Size c
    <= Z.of_nat (size (Q1 ∩ Q2)).
Proof.
  intros [Hs1 Hq1] [Hs2 Hq2].
  assert (size (Q1 ∪ Q2) <= size (members c))%nat as Hu
    by (apply subseteq_size; set_solver).
  pose proof (size_union_alt Q1 Q2) as Ha.
  assert (Q2 = (Q2 ∖ Q1) ∪ (Q1 ∩ Q2)) as Hsplit.
  { apply set_eq. intros x. destruct (decide (x ∈ Q1)); set_solver. }
  assert (size Q2 = size (Q2 ∖ Q1) + size (Q1 ∩ Q2))%nat as Hb.
  { rewrite Hsplit at 1. apply size_union. set_solver. }
  pose proof (size_members c). lia.
Qed.

Lemma large_not_subset (X B : gset NodeID) :
  (size B < size X)%nat → ∃ i, i ∈ X ∧ i ∉ B.
Proof.
  intros Hlt. destruct (decide (X ⊆ B)) as [Hsub|Hn].
  - apply subseteq_size in Hsub. lia.
  - destruct (set_choose_or_empty (X ∖ B)) as [[i Hi]|He].
    + exists i. set_solver.
    + exfalso. apply Hn. set_solver.
Qed.

Lemma quorum_meet c (Q1 Q2 B : gset NodeID) :
  Committee_Size c = 3 * max_faults c + 1 →
  quorum c Q1 → quorum c Q2 → Z.of_nat (size B) <= max_faults c →
  ∃ i, i ∈ Q1 ∧ i ∈ Q2 ∧ i ∉ B.
Proof.
  intros Hn H1 H2 HB. pose proof (quorum_overlap c Q1 Q2 H1 H2) as Ho.
  rewrite HightThreshold_faults in Ho.
  destruct (large_not_subset (Q1 ∩ Q2) B) as (i & Hi & Hb); [lia|].
  exists i. set_solver.
Qed.

Lemma subset_of_size (X : gset NodeID) (k : nat) :
  (k <= size X)%nat → ∃ Y : gset NodeID, Y ⊆ X ∧ size Y = k.
Proof.
  intros Hk. exists (list_to_set (take k (elements X))). split.
  - intros x Hx. rewrite elem_of_list_to_set in Hx.
    apply elem_of_elements, (elem_of_submseteq (take k (elements X))); [done|].
    apply sublist_submseteq, sublist_take.
  - rewrite size_list_to_set.
    2: { apply (sublist_NoDup _ (elements X)); [apply NoDup_elements|].
         apply sublist_take. }
    rewrite length_take. unfold size, set_size in *. simpl in *. lia.
Qed.

(** Every committee whose size is not of the form [3f+1] has two quorums that
    meet in at most [f] members. *)
Lemma quorums_apart c :
  0 < Committee_Size c → Committee_Size c <> 3 * max_faults c + 1 →
  ∃ Q1 Q2 : gset NodeID, quorum c Q1 ∧ quorum c Q2 ∧
    Z.of_nat (size (Q1 ∩ Q2)) <= max_faults c.
Proof.
  intros Hpos Hne. pose proof (max_faults_size c Hpos) as Hsz.
  pose proof (size_members c) as Hm. pose proof (max_faults_nonneg c) as Hf.
  set (k := Z.to_nat (Committee_HightThreshold c)).
  assert (Z.of_nat k = 2 * max_faults c + 1) as Hk
    by (unfold k; rewrite HightThreshold_faults; lia).
  destruct (subset_of_size (members c) k) as (Q1 & Hsub1 & Hsz1); [lia|].
  destruct (subset_of_size Q1 (2 * k - size (members c))) as (Y & HsubY & HszY);
    [lia|].
  assert (size (members c ∖ Q1) = size (members c) - k)%nat as HR.
  { rewrite size_difference by done. lia. }
  destruct (subset_of_size (members c ∖ Q1) (k - size Y)) as (R & HsubR & HszR);
    [lia|].
  assert (Q1 ∩ (R ∪ Y) = Y) as Hmeet.
  { apply set_eq. intros x. specialize (HsubR x). specialize (HsubY x).
    set_solver. }
  exists Q1, (R ∪ Y). unfold quorum. rewrite HightThreshold_faults, Hmeet.
  split_and!; [done|lia| |..].
  - intros x Hx. specialize (HsubR x). specialize (HsubY x).
    specialize (Hsub1 x). set_solver.
  - rewrite size_union; [lia|]. intros x Hx1 Hx2.
    specialize (HsubR x). specialize (HsubY x). set_solver.
  - lia.
Qed.

(** C28 The thresholds give quorum intersection exactly for the
    committee sizes [3f+1]: for such a committee any two sets of
    [HightThreshold] members share a member outside any [f] faulty ones, and for
    every other non-empty committee there are two such sets that do not. *)
Theorem HightThreshold_quorums_intersect c :
  0 < Committee_Size c →
  quorums_intersect c ↔ Committee_Size c mod 3 = 1.
Proof.
  intros Hpos. rewrite size_mod3 by done. split.
  - intros Hint. destruct (decide (Committee_Size c = 3 * max_faults c + 1))
      as [|Hne]; [done|].
    destruct (quorums_apart c Hpos Hne) as (Q1 & Q2 & H1 & H2 & Hle).
    destruct (Hint Q1 Q2 (Q1 ∩ Q2) H1 H2 Hle) as (i & Hi1 & Hi2 & Hni).
    set_solver.
  - intros Hn Q1 Q2 B H1 H2 HB. by apply (quorum_meet c).
Qed.

(** The members that are not faulty always contain a quorum, so waiting for
    [HightThreshold] votes never waits for a faulty member. *)
Theorem HightThreshold_reachable c (B : gset NodeID) :
  0 < Committee_Size c → Z.of_nat (size B) <= max_faults c →
  quorum c (members c ∖ B).
Proof.
  intros Hpos HB. split; [set_solver|].
  pose proof (max_faults_size c Hpos) as Hsz. pose proof (size_members c) as Hm.
  rewrite HightThreshold_faults.
  assert (members c = (members c ∖ B) ∪ (members c ∩ B)) as Hs.
  { apply set_eq. intros x. destruct (decide (x ∈ B)); set_solver. }
  assert (size (members c) = size (members c ∖ B) + size (members c ∩ B))%nat as Ha.
  { rewrite Hs at 1. apply size_union. set_solver. }
  assert (size (members c ∩ B) <= size B)%nat by (apply subseteq_size; set_solver).
  lia.
Qed.

(** A committee of the members [0 .. n-1]. *)
Definition sample_Committee (n : nat) : Committee :=
  mkCommittee (list_to_map
    (map (λ i, (Z.of_nat i,
      mkAuthority (Z.of_nat i :: replicate 31 7) (Z.of_nat i) "" "")) (seq 0 n))).

Lemma HightThreshold_quorums_intersect_witness :
  0 < Committee_Size (sample_Committee 4) ∧ quorums_intersect (sample_Committee 4).
Proof.
  split; [by vm_compute|].
  apply (HightThreshold_quorums_intersect (sample_Committee 4)); by vm_compute.
Defined.
