(* ===== verification/Crypto.v ===== *)
(** * Cryptography (src/crypto/crypto.go)

    Digests and the hasher, signatures, signature shares, the signing service,
    and the hexadecimal encoding of keys.  SHA-256, ed25519 and the threshold
    BLS scheme of the kyber library are a parameter, the class [CryptoLib]:
    every theorem of the development holds for any such library, and the ones
    that rely on a law of it name the law as a hypothesis. *)

From stdpp Require Import base gmap list strings.
From S2P Require Import Prelude.

(** ** The libraries the package calls *)

Class CryptoLib : Type := {
  (** crypto/sha256 *)
  sha256_Sum256 : list byte → list byte;
  (** crypto/ed25519: [Sign privateKey message], [Verify publicKey message sig] *)
  ed25519_Sign : list byte → list byte → list byte;
  ed25519_Verify : list byte → list byte → list byte → bool;
  (** kyber/share, kyber/sign/tbls and kyber/sign/bls *)
  PriShare : Type;
  PubPoly : Type;
  tbls_Sign : PriShare → list byte → result (list byte);
  tbls_Recover : PubPoly → list byte → list (list byte) → Z → Z →
    result (list byte);
  bls_Verify : PubPoly → list byte → list byte → result unit;
  (** [Threshold] of a public polynomial: the number of shares that determine it *)
  poly_Threshold : PubPoly → Z
}.

(** ** Digests *)

Definition HashSize : nat := 32.

(** [crypto.Digest], a 32-byte array. *)
Abbreviation Digest := (list byte).

(** The value [crypto.Digest{}]. *)
Definition zero_Digest : Digest := replicate HashSize 0.

(** [strconv.AppendInt(nil, i, 2)]: the binary numeral of [i], most
    significant digit first, with a leading minus sign when [i < 0]. *)
Fixpoint bin_digits (p : positive) : list byte :=
  match p with
  | xH => [49]
  | xO p => bin_digits p ++ [48]
  | xI p => bin_digits p ++ [49]
  end.

Definition AppendInt2 (i : Z) : list byte :=
  match i with
  | Z0 => [48]
  | Zpos p => bin_digits p
  | Zneg p => 45 :: bin_digits p
  end.

Section crypto.
Context {CL : CryptoLib}.

(** [crypto.Hasher] *)
Record Hasher : Type := mkHasher { hasher_data : list byte }.

Definition NewHasher : Hasher := mkHasher [].

Definition Hasher_Add (h : Hasher) (data : list byte) : Hasher :=
  mkHasher (hasher_data h ++ data).

(** The digest, and the hasher that the deferred function resets. *)
Definition Hasher_Sum256 (h : Hasher) (data : list byte) : Digest * Hasher :=
  (sha256_Sum256 (hasher_data h ++ data), mkHasher []).

(** ** Signatures *)

Record PrivateKey : Type := mkPrivateKey { Prikey : list byte }.

Record SecretShareKey : Type := mkSecretShareKey {
  ssk_PubPoly : PubPoly;
  ssk_PriShare : PriShare;
  ssk_N : Z;
  ssk_T : Z
}.

(** [crypto.Signature] is its bytes. [ed25519.Verify] panics on a public key
    that is not 32 bytes long: [None] is that panic. *)
Definition Signature_Verify (sig : list byte) (pub : list byte) (d : Digest)
  : option bool :=
  if decide (length pub = 32%nat) then Some (ed25519_Verify pub d sig)
  else None.

(** [crypto.SignatureShare] is its bytes; its check accepts everything. *)
Definition SignatureShare_Verify (share : list byte) (d : Digest) : bool := true.

Definition VerifyTs (skey : SecretShareKey) (d : Digest) (intact : list byte)
  : result unit := bls_Verify (ssk_PubPoly skey) d intact.

Definition CombineIntactTSPartial (sigShares : list (list byte))
    (skey : SecretShareKey) (d : Digest) : result (list byte) :=
  tbls_Recover (ssk_PubPoly skey) d sigShares (ssk_T skey) (ssk_N skey).

(** ** The signing service

    A goroutine answers the requests of a channel: [serve] is one turn of its
    loop on a request.  A request of another type gets no answer. *)

Definition SIG : Z := 0.
Definition SHARE : Z := 1.

Inductive sig_ret : Type :=
  | RetSignature (sig : list byte)
  | RetShare (share : list byte).

Record sigReq : Type := mkSigReq {
  sr_typ : Z;
  sr_digest : Digest;
  sr_ret : option sig_ret;
  sr_err : option goerror
}.

Record SigService : Type := mkSigService {
  PriKey : PrivateKey;
  ShareKey : SecretShareKey
}.

Definition SigService_serve (s : SigService) (req : sigReq) : option sigReq :=
  if decide (sr_typ req = SIG) then
    Some (mkSigReq (sr_typ req) (sr_digest req)
      (Some (RetSignature (ed25519_Sign (Prikey (PriKey s)) (sr_digest req))))
      (sr_err req))
  else if decide (sr_typ req = SHARE) then
    Some (match tbls_Sign (ssk_PriShare (ShareKey s)) (sr_digest req) with
          | Ok partialSig =>
              mkSigReq (sr_typ req) (sr_digest req)
                (Some (RetShare partialSig)) None
          | Err e =>
              mkSigReq (sr_typ req) (sr_digest req) (Some (RetShare [])) (Some e)
          end)
  else None.

(** The request blocks until the answer arrives; a type assertion that fails
    leaves the zero signature, as in the code. *)
Definition SigService_RequestSignature (s : SigService) (d : Digest)
  : result (list byte) :=
  match SigService_serve s (mkSigReq SIG d None None) with
  | Some req => match sr_ret req with
                | Some (RetSignature sig) => Ok sig
                | _ => Ok []
                end
  | None => Ok []
  end.

Definition SigService_RequestTsSugnature (s : SigService) (d : Digest)
  : result (list byte) :=
  match SigService_serve s (mkSigReq SHARE d None None) with
  | Some req =>
      match sr_err req with
      | Some e => Err e
      | None => match sr_ret req with
                | Some (RetShare sig) => Ok sig
                | _ => Ok []
                end
      end
  | None => Ok []
  end.

Lemma RequestSignature_sign s d :
  SigService_RequestSignature s d = Ok (ed25519_Sign (Prikey (PriKey s)) d).
Proof. reflexivity. Qed.

Lemma RequestTsSugnature_sign s d :
  SigService_RequestTsSugnature s d = tbls_Sign (ssk_PriShare (ShareKey s)) d.
Proof.
  unfold SigService_RequestTsSugnature, SigService_serve. simpl.
  by destruct (tbls_Sign _ _).
Qed.
End crypto.

(** A public and a private key that belong together: what ed25519 documents of
    a generated pair. *)
Definition keypair {CL : CryptoLib} (pub priv : list byte) : Prop :=
  length pub = 32%nat ∧ ∀ m, ed25519_Verify pub m (ed25519_Sign priv m) = true.

(** ** Hexadecimal keys (encoding/hex) *)

Definition hex_digit (n : Z) : byte := if decide (n < 10) then 48 + n else 87 + n.

(** [hex.Encode]: two lower-case digits per byte. *)
Fixpoint hex_Encode (src : list byte) : list byte :=
  match src with
  | [] => []
  | b :: src => hex_digit (Z.shiftr b 4) :: hex_digit (Z.land b 15) :: hex_Encode src
  end.

(** [hex.Decode] reads digits of either case. *)
Definition from_hex (c : byte) : option Z :=
  if decide (48 <= c <= 57) then Some (c - 48)
  else if decide (97 <= c <= 102) then Some (c - 97 + 10)
  else if decide (65 <= c <= 70) then Some (c - 65 + 10)
  else None.

Definition ErrLength : goerror := ErrLib "encoding/hex: odd length hex string".
Definition InvalidByteError (c : byte) : goerror :=
  ErrLib ("encoding/hex: invalid byte: " +:+ pretty.pretty c).

Fixpoint hex_Decode (src : list byte) : result (list byte) :=
  match src with
  | [] => Ok []
  | [p] => match from_hex p with
           | None => Err (InvalidByteError p)
           | Some _ => Err ErrLength
           end
  | p :: q :: src =>
      match from_hex p with
      | None => Err (InvalidByteError p)
      | Some a =>
          match from_hex q with
          | None => Err (InvalidByteError q)
          | Some b =>
              match hex_Decode src with
              | Err e => Err e
              | Ok rest => Ok (Z.lor (Z.shiftl a 4) b :: rest)
              end
          end
      end
  end.

Definition EncodePublicKey (pub : list byte) : list byte := hex_Encode pub.
Definition DecodePublicKey (data : list byte) : result (list byte) := hex_Decode data.
Definition EncodePrivateKey (pri : PrivateKey) : list byte := hex_Encode (Prikey pri).
Definition DecodePrivateKey (data : list byte) : result PrivateKey :=
  match hex_Decode data with
  | Ok pri => Ok (mkPrivateKey pri)
  | Err e => Err e
  end.

(** ** Lemmas on numerals *)

Lemma bin_digits_digit p b : b ∈ bin_digits p → b = 48 ∨ b = 49.
Proof. induction p; simpl; set_solver. Qed.

Lemma bin_digits_nonempty p : bin_digits p ≠ [].
Proof. destruct p; simpl; try done; by intros []%app_nil. Qed.

Lemma bin_digits_head p : ∃ l, bin_digits p = 49 :: l.
Proof. induction p as [p [l IH]|p [l IH]|]; simpl; rewrite ?IH; eauto. Qed.

Lemma bin_digits_inj p q : bin_digits p = bin_digits q → p = q.
Proof.
  assert (∀ (p : positive) (d : byte), bin_digits p ++ [d] ≠ [49]) as Hone.
  { intros r d [Hr _]%(app_inj_tail _ []). by apply bin_digits_nonempty in Hr. }
  revert q. induction p as [p IH|p IH|]; intros [q|q|]; simpl; intros Heq;
    try (apply app_inj_tail in Heq as [Heq [=]]; by rewrite (IH q));
    try (by apply Hone in Heq); try (by symmetry in Heq; apply Hone in Heq);
    try done; by apply app_inj_tail in Heq as [_ [=]].
Qed.

Lemma AppendInt2_inj i j : AppendInt2 i = AppendInt2 j → i = j.
Proof.
  destruct i as [|p|p], j as [|q|q]; simpl; intros Heq; try done;
    try (destruct (bin_digits_head p) as [l Hl]);
    try (destruct (bin_digits_head q) as [l' Hl']);
    try congruence.
  - f_equal. by apply bin_digits_inj.
  - f_equal. apply bin_digits_inj. congruence.
Qed.

(** ** Lemmas on hexadecimal *)

Lemma from_hex_digit n : 0 <= n < 16 → from_hex (hex_digit n) = Some n.
Proof.
  intros H. unfold from_hex, hex_digit. repeat case_decide; try lia; f_equal; lia.
Qed.

Lemma nibbles b : is_byte b →
  0 <= Z.shiftr b 4 < 16 ∧ 0 <= Z.land b 15 < 16 ∧
  Z.lor (Z.shiftl (Z.shiftr b 4) 4) (Z.land b 15) = b.
Proof.
  unfold is_byte. intros H.
  change 15 with (Z.ones 4). rewrite Z.land_ones by lia.
  rewrite Z.shiftr_div_pow2 by lia.
  split; [|split].
  - split; [apply Z.div_pos; lia|apply Z.div_lt_upper_bound; lia].
  - apply Z.mod_pos_bound; lia.
  - rewrite <- Z.shiftr_div_pow2, <- Z.land_ones by lia.
    apply Z.bits_inj_iff'. intros k Hk.
    rewrite Z.lor_spec, Z.land_spec.
    destruct (decide (k < 4)).
    + rewrite Z.shiftl_spec_low, Z.ones_spec_low by lia. by rewrite andb_true_r.
    + rewrite Z.shiftl_spec, Z.shiftr_spec, Z.ones_spec_high by lia.
      rewrite andb_false_r, orb_false_r. f_equal. lia.
Qed.

Lemma hex_round_trip src : Forall is_byte src → hex_Decode (hex_Encode src) = Ok src.
Proof.
  induction 1 as [|b src Hb _ IH]; [done|].
  destruct (nibbles b Hb) as (H1 & H2 & H3).
  cbn [hex_Encode hex_Decode]. rewrite !from_hex_digit, IH by done.
  by rewrite H3.
Qed.

Lemma length_hex_Encode src : length (hex_Encode src) = (2 * length src)%nat.
Proof. induction src; simpl; lia. Qed.

Lemma hex_Decode_length src l :
  hex_Decode src = Ok l → length src = (2 * length l)%nat.
Proof.
  remember (length src) as n eqn:Hn. revert src l Hn.
  induction n as [n IH] using lt_wf_ind. intros [|p [|q src]] l Hn; simpl.
  - intros [= <-]. done.
  - by destruct (from_hex p).
  - destruct (from_hex p); [|done]. destruct (from_hex q); [|done].
    destruct (hex_Decode src) eqn:E; [|done]. intros [= <-].
    simpl in Hn. specialize (IH (length src) ltac:(lia) src _ eq_refl E).
    simpl. lia.
Qed.

(** ** Properties *)

(** The numerals that every message hash is built from are
    injective: two integers with the same base-2 text are equal. *)
Theorem AppendInt2_injective i j : AppendInt2 i = AppendInt2 j ↔ i = j.
Proof. split; [apply AppendInt2_inj|congruence]. Qed.

(** Keys survive the hexadecimal files they are kept in:
    decoding an encoded public or private key gives the key back, its text is
    twice as long, and no text of odd length decodes. *)
Theorem key_hex_round_trip (k : list byte) :
  Forall is_byte k →
  DecodePublicKey (EncodePublicKey k) = Ok k ∧
  DecodePrivateKey (EncodePrivateKey (mkPrivateKey k)) = Ok (mkPrivateKey k) ∧
  length (EncodePublicKey k) = (2 * length k)%nat ∧
  ∀ data k', DecodePublicKey data = Ok k' → length data = (2 * length k')%nat.
Proof.
  intros Hk. split_and!.
  - by apply hex_round_trip.
  - unfold DecodePrivateKey, EncodePrivateKey. simpl. by rewrite hex_round_trip.
  - apply length_hex_Encode.
  - apply hex_Decode_length.
Qed.
