(* ===== verification/SigServer.v ===== *)
(** * The goroutines of the signing service (src/crypto/crypto.go)

    [SigService_RequestSignature] and [SigService_RequestTsSugnature] of Crypto.v answer
    at once.  In the program a request goes over a channel of 100 places to the loop of
    the service, which signs or starts a goroutine for a threshold share; the caller
    waits on a channel of its own request.  Here the calls of any number of goroutines
    are interleaved with the loop and its goroutines.

    The theorem: every call returns, with the answer of Crypto.v for its own digest. *)

From stdpp Require Import base gmap list strings.
From S2P Require Import Prelude Crypto.

Inductive call_state : Type :=
  | Sending
  | Waiting
  | Returned.

(** A call and its request, which the service writes to; [ca_done] tells whether the
    channel [Done] of the request holds it. *)
Record call : Type := mkCall {
  ca_req : sigReq;
  ca_done : bool;
  ca_state : call_state
}.

(** The calls so far, the channel of the service, and the goroutines that sign shares *)
Record SigSys : Type := mkSigSys {
  sg_calls : list call;
  sg_reqCh : list nat;
  sg_shares : list nat
}.

Inductive sig_event : Type :=
  | SRequest (typ : Z) (d : Digest)
  | SSend (n : nat)
  | SServe
  | SShare (k : nat)
  | SRecv (n : nat).

Section server.
Context {CL : CryptoLib} (s : SigService).
Implicit Types (st : SigSys) (c : call) (n k : nat).

Definition NewSigServer : SigSys := mkSigSys [] [] [].

(** A new request, as the two methods make it *)
Definition new_request (typ : Z) (d : Digest) : sigReq := mkSigReq typ d None None.

(** [sigReq.done]: the channel has a place, which nobody else uses. *)
Definition sigReq_done (r : sigReq) c : call := mkCall r true (ca_state c).

(** The answer is written to the request of call [n]. *)
Definition answer n st : list call :=
  match sg_calls st !! n with
  | Some c =>
      match SigService_serve s (ca_req c) with
      | Some r => <[n := sigReq_done r c]> (sg_calls st)
      | None => sg_calls st
      end
  | None => sg_calls st
  end.

(** A turn of the loop of [NewSigService] *)
Definition serve_turn st : option SigSys :=
  '(n, ch) ← chan_recv (sg_reqCh st);
  c ← sg_calls st !! n;
  if decide (sr_typ (ca_req c) = SIG) then Some (mkSigSys (answer n st) ch (sg_shares st))
  else if decide (sr_typ (ca_req c) = SHARE) then Some (mkSigSys (sg_calls st) ch (sg_shares st ++ [n]))
  else Some (mkSigSys (sg_calls st) ch (sg_shares st)).

Definition sig_exec (ev : sig_event) st : option SigSys :=
  match ev with
  | SRequest typ d =>
      Some (mkSigSys (sg_calls st ++ [mkCall (new_request typ d) false Sending])
        (sg_reqCh st) (sg_shares st))
  | SSend n =>
      c ← sg_calls st !! n;
      match ca_state c with
      | Sending =>
          ch ← chan_send 100 n (sg_reqCh st);
          Some (mkSigSys (<[n := mkCall (ca_req c) (ca_done c) Waiting]> (sg_calls st)) ch
            (sg_shares st))
      | _ => None
      end
  | SServe => serve_turn st
  | SShare k =>
      n ← sg_shares st !! k;
      Some (mkSigSys (answer n st) (sg_reqCh st) (delete k (sg_shares st)))
  | SRecv n =>
      c ← sg_calls st !! n;
      match ca_state c, ca_done c with
      | Waiting, true =>
          Some (mkSigSys (<[n := mkCall (ca_req c) false Returned]> (sg_calls st))
            (sg_reqCh st) (sg_shares st))
      | _, _ => None
      end
  end.

Fixpoint sig_run (evs : list sig_event) st : option SigSys :=
  match evs with
  | [] => Some st
  | ev :: evs => sig_exec ev st ≫= sig_run evs
  end.

(** *** Answers *)

Definition fresh (r : sigReq) : Prop :=
  (sr_typ r = SIG ∨ sr_typ r = SHARE) ∧ r = new_request (sr_typ r) (sr_digest r).

Definition served (r : sigReq) : Prop :=
  SigService_serve s (new_request (sr_typ r) (sr_digest r)) = Some r.

Definition call_ok (queued : list nat) n c : Prop :=
  match ca_state c, ca_done c with
  | Sending, false => fresh (ca_req c) ∧ n ∉ queued
  | Waiting, false => fresh (ca_req c) ∧ n ∈ queued
  | Waiting, true | Returned, false => served (ca_req c) ∧ n ∉ queued
  | _, true => False
  end.

Record sig_inv st : Prop := mkSigInv {
  gi_nodup : NoDup (sg_reqCh st ++ sg_shares st);
  gi_known : ∀ n, n ∈ sg_reqCh st ++ sg_shares st → is_Some (sg_calls st !! n);
  gi_calls : ∀ n c, sg_calls st !! n = Some c → call_ok (sg_reqCh st ++ sg_shares st) n c
}.

(** A queue of other calls changes nothing. *)
Lemma call_ok_queue q q' n c : (n ∈ q ↔ n ∈ q') → call_ok q n c → call_ok q' n c.
Proof. intros Hq. unfold call_ok. destruct (ca_state c), (ca_done c); by rewrite ?Hq. Qed.

Lemma fresh_served r : fresh r → ∃ r', SigService_serve s r = Some r' ∧ served r'.
Proof.
  intros [[Ht|Ht] ->]; unfold SigService_serve, served; simpl; rewrite Ht.
  - eexists. split; [reflexivity|]. done.
  - rewrite decide_False, decide_True by done. eexists. split; [reflexivity|].
    destruct (tbls_Sign _ _) eqn:Hs; unfold SigService_serve; simpl; by rewrite Hs.
Qed.

(** A queued call is answered: it leaves the queue and has its answer. *)
Lemma answer_inv st q n :
  sig_inv st → (sg_reqCh st ++ sg_shares st) ≡ₚ n :: q →
  ∀ rc sh, rc ++ sh = q → sig_inv (mkSigSys (answer n st) rc sh).
Proof.
  intros [Hnd Hk Hc] Hp rc sh Hq. rewrite Hp in Hnd. apply NoDup_cons in Hnd as [Hn Hnd].
  destruct (Hk n) as [c Hcn]; [rewrite Hp; left|].
  pose proof (Hc n c Hcn) as Hok. unfold call_ok in Hok.
  assert (n ∈ sg_reqCh st ++ sg_shares st) as Hin by (rewrite Hp; left).
  destruct (ca_state c) eqn:Hst, (ca_done c) eqn:Hd; try (by destruct Hok as [_ []]); try done.
  destruct Hok as [Hfresh _]. destruct (fresh_served _ Hfresh) as (r & Hr & Hsv).
  assert (answer n st = <[n := sigReq_done r c]> (sg_calls st)) as Ha.
  { unfold answer. by rewrite Hcn, Hr. }
  split; simpl; rewrite ?Ha, ?Hq; [done| |].
  - intros k Hkq. destruct (decide (k = n)) as [->|]; [done|].
    rewrite list_lookup_insert_ne by done. apply Hk. rewrite Hp. by right.
  - intros k c'. destruct (decide (k = n)) as [->|Hne].
    + rewrite list_lookup_insert_eq by (by eapply lookup_lt_Some). intros [= <-].
      unfold call_ok. simpl. by rewrite Hst.
    + rewrite list_lookup_insert_ne by done. intros Hk'. eapply call_ok_queue; [|by apply Hc].
      rewrite Hp, elem_of_cons. naive_solver.
Qed.

Lemma serve_turn_inv st st' : sig_inv st → serve_turn st = Some st' → sig_inv st'.
Proof.
  intros Hi. unfold serve_turn.
  intros ([n ch] & Hch%chan_recv_Some & (c & Hc & H)%bind_Some)%bind_Some.
  pose proof Hi as [Hnd Hk Hcs]. assert (n ∈ sg_reqCh st ++ sg_shares st) as Hin.
  { rewrite Hch. left. }
  case_decide as Ht; [simplify_eq|case_decide as Ht'; simplify_eq].
  - eapply (answer_inv st (ch ++ sg_shares st) n); [done|by rewrite Hch|done].
  - assert (sg_reqCh st ++ sg_shares st ≡ₚ ch ++ sg_shares st ++ [n]) as Hp.
    { rewrite Hch. simpl. rewrite app_assoc. apply Permutation_cons_append. }
    split; simpl.
    + by rewrite <-Hp.
    + intros k Hkin. apply Hk. by rewrite Hp.
    + intros k c' Hk'. eapply call_ok_queue; [|by apply Hcs]. by rewrite Hp.
  - exfalso. pose proof (Hcs n c Hc) as Hok. unfold call_ok in Hok.
    destruct (ca_state c), (ca_done c); try done; destruct Hok as [Hf ?]; try done.
    by destruct Hf as [[]].
Qed.

Lemma insert_is_Some {A} (l : list A) n k x : is_Some (l !! k) → is_Some (<[n := x]> l !! k).
Proof. rewrite !lookup_lt_is_Some, length_insert. done. Qed.

(** The two methods make requests of their types only. *)
Definition ev_ok (ev : sig_event) : Prop :=
  match ev with SRequest typ _ => typ = SIG ∨ typ = SHARE | _ => True end.

Lemma sig_exec_inv ev st st' :
  ev_ok ev → sig_inv st → sig_exec ev st = Some st' → sig_inv st'.
Proof.
  intros Hev Hi. pose proof Hi as [Hnd Hk Hcs]. destruct ev as [typ d|n| |k|n]; cbn [sig_exec].
  - intros [= <-]. split; simpl; [done| |].
    + intros n Hn. destruct (Hk n Hn) as [c Hc]. exists c. by apply lookup_app_l_Some.
    + intros n c Hc. apply lookup_snoc_Some in Hc as [[_ Hc]|[-> <-]]; [by apply Hcs|].
      split; [done|]. intros Hn%Hk. destruct Hn as [c Hc]. apply lookup_lt_Some in Hc. lia.
  - intros (c & Hc & H)%bind_Some. destruct (ca_state c) eqn:Hst; [|done|done].
    apply bind_Some in H as (ch & [_ ->]%chan_send_Some & [= <-]).
    pose proof (Hcs n c Hc) as Hok. unfold call_ok in Hok. rewrite Hst in Hok.
    destruct (ca_done c) eqn:Hd; [done|]. destruct Hok as [Hf Hn].
    assert ((sg_reqCh st ++ [n]) ++ sg_shares st ≡ₚ n :: sg_reqCh st ++ sg_shares st) as Hp.
    { rewrite <-app_assoc. symmetry. apply Permutation_middle. }
    split; simpl.
    + rewrite Hp. by apply NoDup_cons.
    + intros k. rewrite Hp. intros [->|Hin]%elem_of_cons.
      * rewrite list_lookup_insert_eq by (by eapply lookup_lt_Some). eauto.
      * apply insert_is_Some. auto.
    + intros k c' Hk'. apply list_lookup_insert_Some in Hk' as [(<- & <- & _)|(Hne & Hk')].
      * unfold call_ok. simpl. split; [done|]. rewrite Hp. left.
      * eapply call_ok_queue; [|by apply Hcs]. rewrite Hp, elem_of_cons. naive_solver.
  - by apply serve_turn_inv.
  - intros (n & Hn & [= <-])%bind_Some.
    eapply (answer_inv st (sg_reqCh st ++ delete k (sg_shares st)) n); [done| |done].
    rewrite (delete_Permutation _ _ _ Hn) at 1. by rewrite Permutation_middle.
  - intros (c & Hc & H)%bind_Some. pose proof (Hcs n c Hc) as Hok. unfold call_ok in Hok.
    destruct (ca_state c), (ca_done c); simplify_eq. split; simpl; [done| |].
    + intros k Hin. apply insert_is_Some. auto.
    + intros k c' Hk'. apply list_lookup_insert_Some in Hk' as [(<- & <- & _)|(_ & Hk')]; [done|auto].
Qed.

Lemma sig_run_inv evs st :
  Forall ev_ok evs → sig_run evs NewSigServer = Some st → sig_inv st.
Proof.
  intros Hevs. assert (sig_inv NewSigServer) as Hi.
  { split; simpl; [constructor|by intros n []%not_elem_of_nil|done]. }
  revert Hi. generalize NewSigServer. induction Hevs as [|ev evs Hev _ IH]; intros st0 Hi; simpl.
  { by intros [= <-]. }
  intros (st1 & H1 & H2)%bind_Some. eapply IH; [by eapply sig_exec_inv|done].
Qed.

(** *** Rest *)

Definition is_SRequest (ev : sig_event) : bool :=
  match ev with SRequest _ _ => true | _ => false end.

Definition sig_quiet st : Prop := ∀ ev, is_SRequest ev = false → sig_exec ev st = None.

Definition call_work c : nat :=
  match ca_state c with Sending => 4 | Waiting => 1 | Returned => 0 end.

Definition sig_work st : nat :=
  sum_list_with call_work (sg_calls st) + 2 * length (sg_reqCh st) + length (sg_shares st).

Lemma answer_work n st : sum_list_with call_work (answer n st) = sum_list_with call_work (sg_calls st).
Proof.
  unfold answer. destruct (sg_calls st !! n) as [c|] eqn:Hc; [|done].
  destruct (SigService_serve s (ca_req c)); [|done].
  pose proof (sum_list_with_insert call_work _ _ _ (sigReq_done s0 c) Hc) as Hi.
  change (call_work (sigReq_done s0 c)) with (call_work c) in Hi. lia.
Qed.

Lemma sig_exec_work ev st st' :
  is_SRequest ev = false → sig_exec ev st = Some st' → (sig_work st' < sig_work st)%nat.
Proof.
  unfold sig_work. destruct ev as [|n| |k|n]; [done|intros _..]; cbn [sig_exec].
  - intros (c & Hc & H)%bind_Some. destruct (ca_state c) eqn:Hst; [|done|done].
    apply bind_Some in H as (ch & [_ ->]%chan_send_Some & [= <-]). simpl.
    pose proof (sum_list_with_insert call_work _ _ _ (mkCall (ca_req c) (ca_done c) Waiting) Hc) as Hi.
    unfold call_work in Hi at 2 4. rewrite Hst in Hi. simpl in Hi. rewrite length_app. simpl. lia.
  - unfold serve_turn. intros ([n ch] & Hch%chan_recv_Some & (c & Hc & H)%bind_Some)%bind_Some.
    rewrite Hch. repeat case_decide; simplify_eq; simpl; rewrite ?answer_work, ?length_app; simpl; lia.
  - intros (n & Hn & [= <-])%bind_Some. simpl. rewrite answer_work.
    pose proof (length_delete (sg_shares st) k ltac:(eauto)). pose proof (lookup_lt_Some _ _ _ Hn). lia.
  - intros (c & Hc & H)%bind_Some. destruct (ca_state c) eqn:Hst, (ca_done c); simplify_eq. simpl.
    pose proof (sum_list_with_insert call_work _ _ _ (mkCall (ca_req c) false Returned) Hc) as Hi.
    unfold call_work in Hi at 2 4. rewrite Hst in Hi. simpl in Hi. lia.
Qed.

Lemma sig_quiet_returned st n c :
  sig_inv st → sig_quiet st → sg_calls st !! n = Some c → ca_state c = Returned.
Proof.
  intros [Hnd Hk Hcs] Hq Hc.
  assert (sg_reqCh st = []) as Hch.
  { specialize (Hq SServe eq_refl). cbn [sig_exec] in Hq. unfold serve_turn in Hq.
    destruct (sg_reqCh st) as [|m ch] eqn:Hch; [done|]. simpl in Hq.
    destruct (Hk m) as [c' Hc']; [rewrite ?Hch; left|]. rewrite Hc' in Hq. simpl in Hq.
    by repeat case_decide. }
  assert (sg_shares st = []) as Hsh.
  { specialize (Hq (SShare 0) eq_refl). cbn [sig_exec] in Hq. by destruct (sg_shares st). }
  pose proof (Hcs n c Hc) as Hok. unfold call_ok in Hok. rewrite Hch, Hsh in Hok.
  destruct (ca_state c) eqn:Hst; [| |done].
  - specialize (Hq (SSend n) eq_refl). cbn [sig_exec] in Hq. rewrite Hc in Hq. simpl in Hq.
    by rewrite Hst, Hch in Hq.
  - destruct (ca_done c) eqn:Hd; [|by destruct Hok as [_ []%not_elem_of_nil]].
    specialize (Hq (SRecv n) eq_refl). cbn [sig_exec] in Hq. rewrite Hc in Hq. simpl in Hq.
    by rewrite Hst, Hd in Hq.
Qed.

Lemma sig_run_work evs st st' :
  Forall (λ ev, is_SRequest ev = false) evs → sig_run evs st = Some st' →
  (length evs + sig_work st' <= sig_work st)%nat.
Proof.
  revert st. induction evs as [|ev evs IH]; intros st Hevs; simpl; [by intros [= <-]|].
  apply Forall_cons in Hevs as [Hev Hevs]. intros (st1 & H1 & H2)%bind_Some.
  pose proof (sig_exec_work _ _ _ Hev H1). specialize (IH _ Hevs H2). lia.
Qed.

(** The answer that a call hands to its caller *)
Definition call_answer (r : sigReq) : result (list byte) :=
  if decide (sr_typ r = SIG) then SigService_RequestSignature s (sr_digest r)
  else SigService_RequestTsSugnature s (sr_digest r).

(** What the two methods make of their request after its channel has answered *)
Definition return_of (r : sigReq) : result (list byte) :=
  if decide (sr_typ r = SIG) then
    match sr_ret r with Some (RetSignature sig) => Ok sig | _ => Ok [] end
  else
    match sr_err r with
    | Some e => Err e
    | None => match sr_ret r with Some (RetShare sig) => Ok sig | _ => Ok [] end
    end.

(** C35 Every request for a signature is answered: however the calls of the goroutines, the
    loop of the service and its goroutines interleave, a call that returns has the
    signature of its own digest; without new calls only so many steps are possible; and
    when nobody can go on, every call has returned. *)
Theorem sign_requests_answered evs st :
  Forall ev_ok evs → sig_run evs NewSigServer = Some st →
  (∀ n c, sg_calls st !! n = Some c → ca_state c = Returned →
     return_of (ca_req c) = call_answer (ca_req c)) ∧
  (∀ more st', Forall (λ ev, is_SRequest ev = false) more → sig_run more st = Some st' →
     (length more <= sig_work st)%nat) ∧
  (sig_quiet st → Forall (λ c, ca_state c = Returned) (sg_calls st)).
Proof.
  intros Hevs Hr. pose proof (sig_run_inv _ _ Hevs Hr) as Hi. split_and!.
  - intros n c Hc Hst. pose proof (gi_calls _ Hi n c Hc) as Hok. unfold call_ok in Hok.
    rewrite Hst in Hok. destruct (ca_done c); [done|]. destruct Hok as [Hsv _].
    unfold call_answer, return_of, SigService_RequestSignature, SigService_RequestTsSugnature.
    unfold served, new_request in Hsv. case_decide as Ht.
    + by rewrite <-Ht, Hsv.
    + assert (sr_typ (ca_req c) = SHARE) as Ht'.
      { unfold SigService_serve in Hsv. simpl in Hsv. rewrite decide_False in Hsv by done.
        by destruct (decide _). }
      by rewrite <-Ht', Hsv.
  - intros more st' Hm Hmr. pose proof (sig_run_work _ _ _ Hm Hmr). lia.
  - intros Hq. apply Forall_forall. intros c [n Hc]%list_elem_of_lookup.
    by eapply sig_quiet_returned.
Qed.
End server.
