(* ===== verification/SampleLib.v ===== *)
(** * A sample cryptographic library

    A concrete, executable [CryptoLib] in which the laws that some theorems
    assume hold.  It is used only to evaluate the model on concrete inputs: it
    shows that the hypotheses of the theorems can hold together. *)

From stdpp Require Import base gmap list strings.
From S2P Require Import Prelude Crypto.

(** A 32-byte polynomial hash. *)
Definition sample_hash (m : list byte) : list byte :=
  let h := foldl (λ acc b, (acc * 257 + b + 1) mod (2 ^ 61 - 1)) 5381 m in
  map (λ i, Z.shiftr (h * (2 * Z.of_nat i + 1)) 7 mod 256) (seq 0 32).

(** Three bytes of the signed text stand for the group element. *)
Definition sample_point (d : list byte) : list byte :=
  map (λ b, b mod 256) (take 3 (drop 8 d ++ [0; 0; 0])).

Definition sample_Recover (pub : unit) (d : list byte) (shares : list (list byte))
    (t n : Z) : result (list byte) :=
  if forallb (λ s, match s with i :: m => bool_decide (m = d) | [] => false end) shares
  then Ok (sample_point d)
  else Err (ErrLib "bls: invalid signature").

#[export] Instance sampleLib : CryptoLib := {|
  sha256_Sum256 := sample_hash;
  ed25519_Sign := λ priv m, take 32 priv ++ m;
  ed25519_Verify := λ pub m sig, bool_decide (sig = pub ++ m);
  PriShare := Z;
  PubPoly := unit;
  tbls_Sign := λ i m, Ok (i :: m);
  tbls_Recover := sample_Recover;
  bls_Verify := λ pub d s,
    if decide (s = sample_point d) then Ok tt
    else Err (ErrLib "bls: invalid signature");
  poly_Threshold := λ _, 1
|}.

(** The key of node [i]: the public key is the first half of the private one. *)
Definition sample_pub (i : Z) : list byte := i :: replicate 31 7.
Definition sample_key (i : Z) : PrivateKey := mkPrivateKey (sample_pub i ++ sample_pub i).
Definition sample_svc (i n t : Z) : SigService :=
  mkSigService (sample_key i) (mkSecretShareKey tt i n t).

Lemma sample_keypair i : keypair (sample_pub i) (Prikey (sample_key i)).
Proof. split; [done|]. intros m. by apply bool_decide_eq_true_2. Qed.
