(* ===== verification/Message.v ===== *)
(** * Consensus messages (src/core/smvba/consensus/message.go)

    The consensus block and the eight messages of the protocol, with the
    digest each message is signed under, its constructor and its check.  A
    pointer to a block that may be nil is an [option]. *)

From stdpp Require Import base gmap list strings.
From S2P Require Import Prelude Committee Crypto.

(** ** Constants *)

Definition SPB_ONE_PHASE : Z := 0.
Definition SPB_TWO_PHASE : Z := 1.

Definition VOTE_FLAG_YES : Z := 0.
Definition VOTE_FLAG_NO : Z := 1.

Definition SPBProposalType : Z := 0.
Definition SPBVoteType : Z := 1.
Definition FinishType : Z := 2.
Definition DoneType : Z := 3.
Definition ElectShareType : Z := 4.
Definition PrevoteType : Z := 5.
Definition FinVoteType : Z := 6.
Definition HaltType : Z := 7.

(** ** Data *)

Record ConsensusBlock : Type := mkConsensusBlock {
  cb_Proposer : NodeID;
  cb_PayLoads : list Digest;
  cb_Epoch : Z
}.

Definition NewConsensusBlock (proposer : NodeID) (payloads : list Digest)
    (Epoch : Z) : ConsensusBlock :=
  mkConsensusBlock proposer payloads Epoch.

Record SPBProposal : Type := mkSPBProposal {
  sp_Author : NodeID;
  sp_B : option ConsensusBlock;
  sp_Epoch : Z;
  sp_Round : Z;
  sp_Phase : Z;
  sp_Signature : list byte
}.

Record SPBVote : Type := mkSPBVote {
  sv_Author : NodeID;
  sv_Proposer : NodeID;
  sv_BlockHash : Digest;
  sv_Epoch : Z;
  sv_Round : Z;
  sv_Phase : Z;
  sv_Signature : list byte
}.

Record Finish : Type := mkFinish {
  fi_Author : NodeID;
  fi_BlockHash : Digest;
  fi_Epoch : Z;
  fi_Round : Z;
  fi_Signature : list byte
}.

Record Done : Type := mkDone {
  dn_Author : NodeID;
  dn_Epoch : Z;
  dn_Round : Z;
  dn_Signature : list byte
}.

Record ElectShare : Type := mkElectShare {
  es_Author : NodeID;
  es_Epoch : Z;
  es_Round : Z;
  es_SigShare : list byte
}.

Record Prevote : Type := mkPrevote {
  pv_Author : NodeID;
  pv_Leader : NodeID;
  pv_Epoch : Z;
  pv_Round : Z;
  pv_Flag : Z;
  pv_BlockHash : Digest;
  pv_Signature : list byte
}.

Record FinVote : Type := mkFinVote {
  fv_Author : NodeID;
  fv_Leader : NodeID;
  fv_Epoch : Z;
  fv_Round : Z;
  fv_Flag : Z;
  fv_BlockHash : Digest;
  fv_Signature : list byte
}.

Record Halt : Type := mkHalt {
  ha_Author : NodeID;
  ha_Epoch : Z;
  ha_Round : Z;
  ha_Leader : NodeID;
  ha_BlockHash : Digest;
  ha_Signature : list byte
}.

(** What travels on the consensus channel ([core.Messgae]). *)
Inductive Message : Type :=
  | MSPBProposal (p : SPBProposal)
  | MSPBVote (v : SPBVote)
  | MFinish (f : Finish)
  | MDone (d : Done)
  | MElectShare (e : ElectShare)
  | MPrevote (p : Prevote)
  | MFinVote (v : FinVote)
  | MHalt (h : Halt).

#[export] Instance ConsensusBlock_eq_dec : EqDecision ConsensusBlock.
Proof. solve_decision. Defined.
#[export] Instance SPBProposal_eq_dec : EqDecision SPBProposal.
Proof. solve_decision. Defined.
#[export] Instance SPBVote_eq_dec : EqDecision SPBVote.
Proof. solve_decision. Defined.
#[export] Instance Finish_eq_dec : EqDecision Finish.
Proof. solve_decision. Defined.
#[export] Instance Done_eq_dec : EqDecision Done.
Proof. solve_decision. Defined.
#[export] Instance ElectShare_eq_dec : EqDecision ElectShare.
Proof. solve_decision. Defined.
#[export] Instance Prevote_eq_dec : EqDecision Prevote.
Proof. solve_decision. Defined.
#[export] Instance FinVote_eq_dec : EqDecision FinVote.
Proof. solve_decision. Defined.
#[export] Instance Halt_eq_dec : EqDecision Halt.
Proof. solve_decision. Defined.
#[export] Instance Message_eq_dec : EqDecision Message.
Proof. solve_decision. Defined.

(** The [MsgType] and [Module] methods. *)
Definition SPBProposal_MsgType (m : SPBProposal) : Z := SPBProposalType.
Definition SPBVote_MsgType (m : SPBVote) : Z := SPBVoteType.
Definition Finish_MsgType (m : Finish) : Z := FinishType.
Definition Done_MsgType (m : Done) : Z := DoneType.
Definition ElectShare_MsgType (m : ElectShare) : Z := ElectShareType.
Definition Prevote_MsgType (m : Prevote) : Z := PrevoteType.
Definition FinVote_MsgType (m : FinVote) : Z := FinVoteType.
Definition Halt_MsgType (m : Halt) : Z := HaltType.

Definition SPBProposal_Module (m : SPBProposal) : string := "consensus".
Definition SPBVote_Module (m : SPBVote) : string := "consensus".
Definition Finish_Module (m : Finish) : string := "consensus".
Definition Done_Module (m : Done) : string := "consensus".
Definition ElectShare_Module (m : ElectShare) : string := "consensus".
Definition Prevote_Module (m : Prevote) : string := "consensus".
Definition FinVote_Module (m : FinVote) : string := "consensus".
Definition Halt_Module (m : Halt) : string := "consensus".

(** The methods of [core.Messgae], by the type of the message *)
Definition MsgType (m : Message) : Z :=
  match m with
  | MSPBProposal p => SPBProposal_MsgType p
  | MSPBVote v => SPBVote_MsgType v
  | MFinish f => Finish_MsgType f
  | MDone d => Done_MsgType d
  | MElectShare e => ElectShare_MsgType e
  | MPrevote p => Prevote_MsgType p
  | MFinVote v => FinVote_MsgType v
  | MHalt h => Halt_MsgType h
  end.

Definition Module_ (m : Message) : string :=
  match m with
  | MSPBProposal p => SPBProposal_Module p
  | MSPBVote v => SPBVote_Module v
  | MFinish f => Finish_Module f
  | MDone d => Done_Module d
  | MElectShare e => ElectShare_Module e
  | MPrevote p => Prevote_Module p
  | MFinVote v => FinVote_Module v
  | MHalt h => Halt_Module h
  end.

(** The fields that address a message to a place of the protocol. *)
Definition msg_Author (m : Message) : NodeID :=
  match m with
  | MSPBProposal p => sp_Author p | MSPBVote v => sv_Author v
  | MFinish f => fi_Author f | MDone d => dn_Author d
  | MElectShare e => es_Author e | MPrevote p => pv_Author p
  | MFinVote v => fv_Author v | MHalt h => ha_Author h
  end.

Definition msg_Epoch (m : Message) : Z :=
  match m with
  | MSPBProposal p => sp_Epoch p | MSPBVote v => sv_Epoch v
  | MFinish f => fi_Epoch f | MDone d => dn_Epoch d
  | MElectShare e => es_Epoch e | MPrevote p => pv_Epoch p
  | MFinVote v => fv_Epoch v | MHalt h => ha_Epoch h
  end.

(** ** Digests *)

Notation "h +> d" := (Hasher_Add h d) (at level 50, left associativity) : go_scope.

Section digests.
Context {CL : CryptoLib}.
Local Open Scope go_scope.

Definition sum (h : Hasher) : Digest := (Hasher_Sum256 h []).1.

Definition ConsensusBlock_Hash (b : ConsensusBlock) : Digest :=
  sum (foldl Hasher_Add (NewHasher +> AppendInt2 (cb_Proposer b)) (cb_PayLoads b)
    +> AppendInt2 (cb_Epoch b)).

Definition SPBProposal_Hash (p : SPBProposal) : Digest :=
  let hasher := NewHasher
    +> AppendInt2 (sp_Author p)
    +> AppendInt2 (sp_Epoch p)
    +> AppendInt2 (sp_Round p)
    +> AppendInt2 (sp_Phase p) in
  match sp_B p with
  | Some b => sum (hasher +> ConsensusBlock_Hash b)
  | None => sum hasher
  end.

Definition SPBVote_Hash (v : SPBVote) : Digest :=
  sum (NewHasher
    +> AppendInt2 (sv_Author v)
    +> AppendInt2 (sv_Epoch v)
    +> AppendInt2 (sv_Round v)
    +> AppendInt2 (sv_Phase v)
    +> sv_BlockHash v).

Definition Finish_Hash (f : Finish) : Digest :=
  sum (NewHasher
    +> fi_BlockHash f
    +> AppendInt2 (fi_Author f)
    +> AppendInt2 (fi_Epoch f)
    +> AppendInt2 (fi_Round f)).

Definition Done_Hash (d : Done) : Digest :=
  sum (NewHasher
    +> AppendInt2 (dn_Author d)
    +> AppendInt2 (dn_Epoch d)
    +> AppendInt2 (dn_Round d)).

Definition ElectShare_Hash (e : ElectShare) : Digest :=
  sum (NewHasher
    +> AppendInt2 (es_Epoch e)
    +> AppendInt2 (es_Round e)).

Definition Prevote_Hash (p : Prevote) : Digest :=
  sum (NewHasher
    +> AppendInt2 (pv_Author p)
    +> AppendInt2 (pv_Leader p)
    +> AppendInt2 (pv_Epoch p)
    +> AppendInt2 (pv_Round p)
    +> AppendInt2 (pv_Flag p)
    +> pv_BlockHash p).

Definition FinVote_Hash (p : FinVote) : Digest :=
  sum (NewHasher
    +> AppendInt2 (fv_Author p)
    +> AppendInt2 (fv_Leader p)
    +> AppendInt2 (fv_Epoch p)
    +> AppendInt2 (fv_Round p)
    +> AppendInt2 (fv_Flag p)
    +> fv_BlockHash p).

Definition Halt_Hash (h : Halt) : Digest :=
  sum (NewHasher
    +> AppendInt2 (ha_Author h)
    +> AppendInt2 (ha_Epoch h)
    +> AppendInt2 (ha_Leader h)
    +> ha_BlockHash h).
End digests.

(** ** Constructors

    Each builds the message without its signature, asks the signing service
    for a signature of its digest, and fills it in. *)

Section constructors.
Context {CL : CryptoLib}.

Definition NewSPBProposal (Author : NodeID) (B : option ConsensusBlock)
    (Epoch Round Phase : Z) (sigService : SigService) : result SPBProposal :=
  let proposal sig := mkSPBProposal Author B Epoch Round Phase sig in
  match SigService_RequestSignature sigService (SPBProposal_Hash (proposal [])) with
  | Err e => Err e
  | Ok sig => Ok (proposal sig)
  end.

Definition NewSPBVote (Author Proposer : NodeID) (BlockHash : Digest)
    (Epoch Round Phase : Z) (sigService : SigService) : result SPBVote :=
  let vote sig := mkSPBVote Author Proposer BlockHash Epoch Round Phase sig in
  match SigService_RequestSignature sigService (SPBVote_Hash (vote [])) with
  | Err e => Err e
  | Ok sig => Ok (vote sig)
  end.

Definition NewFinish (Author : NodeID) (BlockHash : Digest) (Epoch Round : Z)
    (sigService : SigService) : result Finish :=
  let finish sig := mkFinish Author BlockHash Epoch Round sig in
  match SigService_RequestSignature sigService (Finish_Hash (finish [])) with
  | Err e => Err e
  | Ok sig => Ok (finish sig)
  end.

Definition NewDone (Author : NodeID) (epoch round : Z)
    (sigService : SigService) : result Done :=
  let done sig := mkDone Author epoch round sig in
  match SigService_RequestSignature sigService (Done_Hash (done [])) with
  | Err e => Err e
  | Ok sig => Ok (done sig)
  end.

Definition NewElectShare (Author : NodeID) (epoch round : Z)
    (sigService : SigService) : result ElectShare :=
  let elect sig := mkElectShare Author epoch round sig in
  match SigService_RequestTsSugnature sigService (ElectShare_Hash (elect [])) with
  | Err e => Err e
  | Ok sig => Ok (elect sig)
  end.

Definition NewPrevote (Author Leader : NodeID) (Epoch Round flag : Z)
    (BlockHash : Digest) (sigService : SigService) : result Prevote :=
  let prevote sig := mkPrevote Author Leader Epoch Round flag BlockHash sig in
  match SigService_RequestSignature sigService (Prevote_Hash (prevote [])) with
  | Err e => Err e
  | Ok sig => Ok (prevote sig)
  end.

(** The composite literal of the code sets no [Leader] field, which therefore
    keeps its zero value whatever [Leader] is passed. *)
Definition NewFinVote (Author Leader : NodeID) (Epoch Round flag : Z)
    (BlockHash : Digest) (sigService : SigService) : result FinVote :=
  let prevote sig := mkFinVote Author 0 Epoch Round flag BlockHash sig in
  match SigService_RequestSignature sigService (FinVote_Hash (prevote [])) with
  | Err e => Err e
  | Ok sig => Ok (prevote sig)
  end.

Definition NewHalt (Author Leader : NodeID) (BlockHash : Digest)
    (Epoch Round : Z) (sigService : SigService) : result Halt :=
  let h sig := mkHalt Author Epoch Round Leader BlockHash sig in
  match SigService_RequestSignature sigService (Halt_Hash (h [])) with
  | Err e => Err e
  | Ok sig => Ok (h sig)
  end.
End constructors.

(** ** Checks

    The [Validator] interface: [None] is the panic of [ed25519.Verify] on the
    empty key that [Committee.Name] returns for an author it does not know. *)

Class Validator (M : Type) : Type := Verify : Committee → M → option bool.

Section checks.
Context {CL : CryptoLib}.

Definition SPBProposal_Verify (committee : Committee) (p : SPBProposal) :=
  Signature_Verify (sp_Signature p) (Committee_Name committee (sp_Author p))
    (SPBProposal_Hash p).
Definition SPBVote_Verify (committee : Committee) (v : SPBVote) :=
  Signature_Verify (sv_Signature v) (Committee_Name committee (sv_Author v))
    (SPBVote_Hash v).
Definition Finish_Verify (committee : Committee) (f : Finish) :=
  Signature_Verify (fi_Signature f) (Committee_Name committee (fi_Author f))
    (Finish_Hash f).
Definition Done_Verify (committee : Committee) (d : Done) :=
  Signature_Verify (dn_Signature d) (Committee_Name committee (dn_Author d))
    (Done_Hash d).
Definition ElectShare_Verify (committee : Committee) (e : ElectShare) :=
  Some (SignatureShare_Verify (es_SigShare e) (ElectShare_Hash e)).
Definition Prevote_Verify (committee : Committee) (p : Prevote) :=
  Signature_Verify (pv_Signature p) (Committee_Name committee (pv_Author p))
    (Prevote_Hash p).
Definition FinVote_Verify (committee : Committee) (p : FinVote) :=
  Signature_Verify (fv_Signature p) (Committee_Name committee (fv_Author p))
    (FinVote_Hash p).
Definition Halt_Verify (committee : Committee) (h : Halt) :=
  Signature_Verify (ha_Signature h) (Committee_Name committee (ha_Author h))
    (Halt_Hash h).

#[export] Instance Message_Validator : Validator Message := λ c m,
  match m with
  | MSPBProposal p => SPBProposal_Verify c p
  | MSPBVote v => SPBVote_Verify c v
  | MFinish f => Finish_Verify c f
  | MDone d => Done_Verify c d
  | MElectShare e => ElectShare_Verify c e
  | MPrevote p => Prevote_Verify c p
  | MFinVote v => FinVote_Verify c v
  | MHalt h => Halt_Verify c h
  end.
End checks.

(** ** Lemmas *)

Section lemmas.
Context {CL : CryptoLib}.
Implicit Types (svc : SigService) (c : Committee).

Lemma Signature_Verify_keypair pub svc d :
  keypair pub (Prikey (PriKey svc)) →
  Signature_Verify (ed25519_Sign (Prikey (PriKey svc)) d) pub d = Some true.
Proof.
  intros [Hlen Hv]. unfold Signature_Verify. rewrite decide_True by done.
  by rewrite Hv.
Qed.

Lemma Signature_Verify_bad_key sig pub d :
  Signature_Verify sig pub d = None ↔ length pub ≠ 32%nat.
Proof. unfold Signature_Verify. case_decide; naive_solver. Qed.

Lemma Committee_Name_unknown c id :
  id ∉ members c → Committee_Name c id = [].
Proof.
  unfold members, Committee_Name. rewrite not_elem_of_dom. by intros ->.
Qed.

(** The digest of a message is SHA-256 of the concatenation of its parts. *)
Lemma sum_data h : sum h = sha256_Sum256 (hasher_data h).
Proof. unfold sum. simpl. by rewrite app_nil_r. Qed.
End lemmas.

(** Equal texts that end in two digests of the same length. *)
Lemma app_digest_inj (a b : list byte) (d d' : Digest) :
  length d = length d' → a ++ d = b ++ d' → a = b ∧ d = d'.
Proof. intros Hl Heq. by apply app_inj_2. Qed.

(** ** Properties *)

Section properties.
Context {CL : CryptoLib}.

(** The messages that a node builds for itself, one case per constructor
    function. *)
Inductive built_by (svc : SigService) (id : NodeID) : Message → Prop :=
  | built_SPBProposal B e r ph p :
      NewSPBProposal id B e r ph svc = Ok p → built_by svc id (MSPBProposal p)
  | built_SPBVote prop d e r ph v :
      NewSPBVote id prop d e r ph svc = Ok v → built_by svc id (MSPBVote v)
  | built_Finish d e r f :
      NewFinish id d e r svc = Ok f → built_by svc id (MFinish f)
  | built_Done e r d :
      NewDone id e r svc = Ok d → built_by svc id (MDone d)
  | built_ElectShare e r s :
      NewElectShare id e r svc = Ok s → built_by svc id (MElectShare s)
  | built_Prevote l e r fl d p :
      NewPrevote id l e r fl d svc = Ok p → built_by svc id (MPrevote p)
  | built_FinVote l e r fl d v :
      NewFinVote id l e r fl d svc = Ok v → built_by svc id (MFinVote v)
  | built_Halt l d e r h :
      NewHalt id l d e r svc = Ok h → built_by svc id (MHalt h).

Lemma built_verifies c svc id m :
  keypair (Committee_Name c id) (Prikey (PriKey svc)) →
  built_by svc id m → Verify c m = Some true.
Proof.
  intros Hk [B e r ph p H|pr d e r ph p H|d e r p H|e r p H|e r p H
    |l e r fl d p H|l e r fl d p H|l d e r p H];
    cbv [NewSPBProposal NewSPBVote NewFinish NewDone NewPrevote NewFinVote
      NewHalt] in H; try rewrite RequestSignature_sign in H;
    try (injection H as <-; by apply Signature_Verify_keypair).
  done.
Qed.

Lemma built_author svc id m : built_by svc id m → msg_Author m = id.
Proof.
  intros [B e r ph p H|pr d e r ph p H|d e r p H|e r p H|e r p H
    |l e r fl d p H|l e r fl d p H|l d e r p H];
    cbv [NewSPBProposal NewSPBVote NewFinish NewDone NewElectShare NewPrevote NewFinVote
      NewHalt] in H; repeat case_match; by simplify_eq.
Qed.

(** Every message a member builds with its own key passes
    the check of every node that knows the member's public key. *)
Theorem built_messages_verify c svc id m :
  keypair (Committee_Name c id) (Prikey (PriKey svc)) →
  built_by svc id m → Verify c m = Some true.
Proof. apply built_verifies. Qed.

(** A message whose author is not in the committee is not
    rejected: checking it panics, whatever its contents, unless it is a coin
    share, which is always accepted. *)
Theorem unknown_author_panics c m :
  msg_Author m ∉ members c →
  Verify c m = (if decide (MsgType m = ElectShareType) then Some true else None).
Proof.
  intros Hn. destruct m; simpl in Hn;
    try (by rewrite decide_False by done; apply Signature_Verify_bad_key;
         rewrite Committee_Name_unknown by done).
  done.
Qed.

(** The final vote that has the fields and the signature of a pre-vote. *)
Definition finvote_of_prevote (p : Prevote) : FinVote :=
  mkFinVote (pv_Author p) (pv_Leader p) (pv_Epoch p) (pv_Round p) (pv_Flag p)
    (pv_BlockHash p) (pv_Signature p).

(** Pre-votes and final votes are signed under the same
    digest: re-labelling a pre-vote as a final vote keeps it valid for its
    author. *)
Theorem prevote_replays_as_finvote c p :
  FinVote_Hash (finvote_of_prevote p) = Prevote_Hash p ∧
  Verify c (MFinVote (finvote_of_prevote p)) = Verify c (MPrevote p).
Proof. done. Qed.

(** Two fields are outside the signature: changing the
    proposer of a vote, or the round of a halt, keeps the message valid. *)
Theorem unsigned_fields c v prop h r :
  Verify c (MSPBVote (mkSPBVote (sv_Author v) prop (sv_BlockHash v) (sv_Epoch v)
    (sv_Round v) (sv_Phase v) (sv_Signature v))) = Verify c (MSPBVote v) ∧
  Verify c (MHalt (mkHalt (ha_Author h) (ha_Epoch h) r (ha_Leader h)
    (ha_BlockHash h) (ha_Signature h))) = Verify c (MHalt h).
Proof. done. Qed.

(** The coin of epoch 1, round 2 is the coin of epoch 3,
    round 0: the digest that the shares sign concatenates the two numerals,
    so shares released for one place are shares of the other. *)
Theorem coin_digest_collision a a' s s' svc :
  ElectShare_Hash (mkElectShare a 1 2 s) = ElectShare_Hash (mkElectShare a' 3 0 s') ∧
  (∀ sh, NewElectShare a 1 2 svc = Ok sh →
     NewElectShare a' 3 0 svc = Ok (mkElectShare a' 3 0 (es_SigShare sh))).
Proof.
  assert (ElectShare_Hash (mkElectShare a 1 2 []) =
          ElectShare_Hash (mkElectShare a' 3 0 [])) as Heq by done.
  split; [done|]. intros sh. unfold NewElectShare.
  rewrite !RequestTsSugnature_sign, Heq.
  destruct (tbls_Sign _ _); [|done]. by intros [= <-].
Qed.

(** The texts under the two digests. *)
Definition prevote_text (p : Prevote) : list byte :=
  AppendInt2 (pv_Author p) ++ AppendInt2 (pv_Leader p) ++
  AppendInt2 (pv_Epoch p) ++ AppendInt2 (pv_Round p) ++
  AppendInt2 (pv_Flag p) ++ pv_BlockHash p.
Definition spbvote_text (v : SPBVote) : list byte :=
  AppendInt2 (sv_Author v) ++ AppendInt2 (sv_Epoch v) ++
  AppendInt2 (sv_Round v) ++ AppendInt2 (sv_Phase v) ++ sv_BlockHash v.

(** Two different texts with the same SHA-256 digest. *)
Definition collide (x y : list byte) : Prop :=
  x ≠ y ∧ sha256_Sum256 x = sha256_Sum256 y.

Lemma digest_or_collision x y :
  sha256_Sum256 x = sha256_Sum256 y → x = y ∨ collide x y.
Proof. intros H. destruct (decide (x = y)); [by left|by right]. Qed.

(** What the digest of a vote does bind: two pre-votes of
    one author, leader, epoch and round under the same digest agree on the
    flag and on the block, and two votes of one author, epoch and round under
    the same digest agree on the phase and on the block, unless their two
    texts are a SHA-256 collision. *)
Theorem vote_digest_binds (p p' : Prevote) (v v' : SPBVote) :
  pv_Author p = pv_Author p' → pv_Leader p = pv_Leader p' →
  pv_Epoch p = pv_Epoch p' → pv_Round p = pv_Round p' →
  length (pv_BlockHash p) = length (pv_BlockHash p') →
  sv_Author v = sv_Author v' → sv_Epoch v = sv_Epoch v' →
  sv_Round v = sv_Round v' →
  length (sv_BlockHash v) = length (sv_BlockHash v') →
  (Prevote_Hash p = Prevote_Hash p' →
     (pv_Flag p = pv_Flag p' ∧ pv_BlockHash p = pv_BlockHash p') ∨
     collide (prevote_text p) (prevote_text p')) ∧
  (SPBVote_Hash v = SPBVote_Hash v' →
     (sv_Phase v = sv_Phase v' ∧ sv_BlockHash v = sv_BlockHash v') ∨
     collide (spbvote_text v) (spbvote_text v')).
Proof.
  intros Ha Hl He Hr Hd Hva Hve Hvr Hvd. split.
  - intros Heq. assert (prevote_text p = prevote_text p' ∨
      collide (prevote_text p) (prevote_text p')) as [Ht|Hc]; [|left|by right].
    { apply digest_or_collision. unfold Prevote_Hash in Heq.
      rewrite !sum_data in Heq. simpl in Heq. unfold prevote_text.
      by rewrite <- !(assoc_L (++)) in Heq. }
    unfold prevote_text in Ht. rewrite Ha, Hl, He, Hr in Ht.
    do 4 apply app_inv_head in Ht.
    apply app_digest_inj in Ht as [Hf%AppendInt2_inj Hb]; done.
  - intros Heq. assert (spbvote_text v = spbvote_text v' ∨
      collide (spbvote_text v) (spbvote_text v')) as [Ht|Hc]; [|left|by right].
    { apply digest_or_collision. unfold SPBVote_Hash in Heq.
      rewrite !sum_data in Heq. simpl in Heq. unfold spbvote_text.
      by rewrite <- !(assoc_L (++)) in Heq. }
    unfold spbvote_text in Ht. rewrite Hva, Hve, Hvr in Ht.
    do 3 apply app_inv_head in Ht.
    apply app_digest_inj in Ht as [Hf%AppendInt2_inj Hb]; done.
Qed.
End properties.
