(* ===== verification/VoteLog.v ===== *)
(** * An abstract specification of vote aggregation

    Every aggregator of the consensus package counts votes of distinct authors
    and answers from what it has counted.  Here that contract is stated once,
    without the counters: a _vote log_ keeps the first vote of each author, in
    the order of arrival, refuses a second vote of an author with
    [ErrOneMoreMessage], and answers an accepted vote with a function of the
    log.  File Aggreator.v shows that the counters of the code implement it. *)

From stdpp Require Import base gmap list strings.
From S2P Require Import Prelude Committee.

Lemma filter_map_swap {A B} (f : A → B) (g : B → bool) l :
  List.filter g (map f l) = map f (List.filter (λ x, g (f x)) l).
Proof. induction l as [|x l IH]; simpl; [done|]. destruct (g (f x)); simpl; by rewrite IH. Qed.

Section authors.
Context {V : Type} (author : V → NodeID).
Implicit Types (l vs : list V) (v : V).

Definition authors l : gset NodeID := list_to_set (map author l).

(** The first vote of each author that is not in the log [l] yet. *)
Fixpoint firsts l vs : list V :=
  match vs with
  | [] => []
  | v :: vs => if decide (author v ∈ authors l) then firsts l vs
               else v :: firsts (l ++ [v]) vs
  end.

(** The non-empty prefixes of a list that extend [l]. *)
Fixpoint prefixes l vs : list (list V) :=
  match vs with
  | [] => []
  | v :: vs => (l ++ [v]) :: prefixes (l ++ [v]) vs
  end.

Lemma authors_app l k : authors (l ++ k) = authors l ∪ authors k.
Proof. unfold authors. by rewrite map_app, list_to_set_app_L. Qed.

Lemma authors_snoc l v : authors (l ++ [v]) = authors l ∪ {[author v]}.
Proof. rewrite authors_app. unfold authors. simpl. set_solver. Qed.

Lemma elem_of_authors l i : i ∈ authors l ↔ ∃ v, v ∈ l ∧ author v = i.
Proof.
  unfold authors. rewrite elem_of_list_to_set, list_elem_of_In, in_map_iff.
  setoid_rewrite list_elem_of_In. naive_solver.
Qed.

Lemma NoDup_log l vs :
  NoDup (map author l) → NoDup (map author (l ++ firsts l vs)).
Proof.
  revert l. induction vs as [|v vs IH]; intros l Hnd; simpl.
  - by rewrite app_nil_r.
  - case_decide as Hin; [by apply IH|].
    replace (l ++ v :: firsts (l ++ [v]) vs)
      with ((l ++ [v]) ++ firsts (l ++ [v]) vs) by by rewrite <- (assoc_L (++)).
    apply IH. rewrite map_app, NoDup_app. split_and!; [done| |apply NoDup_singleton].
    intros x Hx. simpl. rewrite list_elem_of_singleton. intros ->.
    apply Hin. unfold authors. by rewrite elem_of_list_to_set.
Qed.

Lemma NoDup_firsts vs : NoDup (map author (firsts [] vs)).
Proof. apply (NoDup_log [] vs), NoDup_nil_2. Qed.

Lemma authors_firsts l vs : authors l ∪ authors (firsts l vs) = authors l ∪ authors vs.
Proof.
  revert l. induction vs as [|v vs IH]; intros l; simpl; [done|].
  change (v :: vs) with ([v] ++ vs). rewrite authors_app. case_decide as Hin.
  - rewrite IH. unfold authors at 3. simpl. set_solver.
  - change (v :: firsts (l ++ [v]) vs) with ([v] ++ firsts (l ++ [v]) vs).
    specialize (IH (l ++ [v])). rewrite authors_app in IH |- *. set_solver.
Qed.

Lemma firsts_subset l vs v : v ∈ firsts l vs → v ∈ vs.
Proof.
  revert l. induction vs as [|w vs IH]; intros l; simpl; [done|].
  case_decide; rewrite ?elem_of_cons; naive_solver.
Qed.

(** The number of accepted votes is the number of distinct authors. *)
Lemma size_authors l : NoDup (map author l) → size (authors l) = length l.
Proof. intros. unfold authors. rewrite size_list_to_set, length_map; done. Qed.

Lemma length_firsts vs : length (firsts [] vs) = size (authors vs).
Proof.
  rewrite <- size_authors by apply NoDup_firsts.
  pose proof (authors_firsts [] vs) as H. unfold authors at 1 3 in H. simpl in H.
  by rewrite !(left_id_L ∅ (∪)) in H; rewrite H.
Qed.

Lemma prefixes_app l vs ws :
  prefixes l (vs ++ ws) = prefixes l vs ++ prefixes (l ++ vs) ws.
Proof.
  revert l. induction vs as [|v vs IH]; intros l; simpl; [by rewrite app_nil_r|].
  rewrite IH. by rewrite <- (assoc_L (++) l [v]).
Qed.

Lemma length_prefixes l vs p :
  p ∈ prefixes l vs → (length l < length p <= length l + length vs)%nat.
Proof.
  revert l. induction vs as [|v vs IH]; intros l; simpl; [by intros ?%not_elem_of_nil|].
  rewrite elem_of_cons. intros [->|Hin].
  - rewrite length_app. simpl. lia.
  - apply IH in Hin. rewrite length_app in Hin. simpl in Hin. lia.
Qed.

(** Exactly one prefix has a given length. *)
Lemma filter_prefixes l vs (n : nat) (P : list V → bool) :
  (∀ p, P p = true → length p = n) →
  List.filter P (prefixes l vs) =
    if decide (length l < n <= length l + length vs)%nat
    then (let p := l ++ take (n - length l) vs in if P p then [p] else [])
    else [].
Proof.
  intros HP. revert l. induction vs as [|v vs IH]; intros l.
  - simpl. case_decide; [lia|done].
  - cbn [prefixes List.filter length]. rewrite IH, length_app. simpl length.
    destruct (decide (n = length l + 1)%nat) as [->|Hne].
    + repeat case_decide; try lia.
      replace (length l + 1 - length l)%nat with 1%nat by lia. simpl.
      rewrite take_0. by destruct (P (l ++ [v])).
    + destruct (P (l ++ [v])) eqn:E.
      { apply HP in E. rewrite length_app in E. simpl in E. lia. }
      repeat case_decide; try lia; try done.
      destruct (n - length l)%nat as [|k] eqn:Ek; [lia|].
      replace (n - (length l + 1))%nat with k by lia. simpl.
      by rewrite <- (assoc_L (++)).
Qed.
End authors.

Section votelog.
Context {V O : Type} (author : V → NodeID) (dup : V → goerror).
Context (answer : list V → O).
Implicit Types (l vs : list V) (v : V).

Definition log_step l v : result O * list V :=
  if decide (author v ∈ authors author l) then (Err (dup v), l)
  else (Ok (answer (l ++ [v])), l ++ [v]).

(** The answers to the accepted votes. *)
Fixpoint accepted (os : list (result O)) : list O :=
  match os with
  | [] => []
  | Ok o :: os => o :: accepted os
  | Err _ :: os => accepted os
  end.

Lemma log_step_dup l v :
  author v ∈ authors author l → log_step l v = (Err (dup v), l).
Proof. intros. unfold log_step. by rewrite decide_True. Qed.
Lemma log_step_fresh l v :
  author v ∉ authors author l → log_step l v = (Ok (answer (l ++ [v])), l ++ [v]).
Proof. intros. unfold log_step. by rewrite decide_False. Qed.

(** The log after a run is the log of first votes, and the answers are the
    answers to its prefixes. *)
Lemma final_log l vs : final log_step l vs = l ++ firsts author l vs.
Proof.
  revert l. induction vs as [|v vs IH]; intros l; simpl.
  - unfold final. simpl. by rewrite app_nil_r.
  - rewrite final_cons. case_decide as Hd.
    + by rewrite log_step_dup, IH.
    + rewrite log_step_fresh by done. simpl. rewrite IH.
      by rewrite <- (assoc_L (++)).
Qed.

Lemma accepted_log l vs :
  accepted (outputs log_step l vs) = map answer (prefixes l (firsts author l vs)).
Proof.
  revert l. induction vs as [|v vs IH]; intros l; [done|].
  rewrite outputs_cons. cbn [firsts]. case_decide as Hd.
  - rewrite log_step_dup by done. simpl. by rewrite IH.
  - rewrite log_step_fresh by done. simpl. by rewrite IH.
Qed.

(** ** Signals

    An answer [o] is a signal when it is not the neutral answer. *)

(** A run whose answers signal only at one length. *)
Lemma signals_at vs (n : nat) (sig : O → bool) :
  (0 < n)%nat → (∀ p, sig (answer p) = true → length p = n) →
  List.filter sig (accepted (outputs log_step [] vs)) =
    if decide (n <= length (firsts author [] vs))%nat
    then (let o := answer (take n (firsts author [] vs)) in if sig o then [o] else [])
    else [].
Proof.
  intros Hn Hsig. rewrite accepted_log.
  rewrite filter_map_swap, (filter_prefixes [] _ n) by done. simpl.
  rewrite Nat.sub_0_r.
  destruct (decide (n <= length (firsts author [] vs))%nat).
  - rewrite decide_True by lia. by destruct (sig _).
  - by rewrite decide_False by lia.
Qed.

(** A run whose answers never signal. *)
Lemma signals_never vs (sig : O → bool) :
  (∀ p, sig (answer p) = false) →
  List.filter sig (accepted (outputs log_step [] vs)) = [].
Proof.
  intros Hsig. rewrite (signals_at vs 1); [|lia|].
  - case_decide; [|done]. simpl. by rewrite Hsig.
  - intros p. by rewrite Hsig.
Qed.
End votelog.

Section firsts_more.
Context {V : Type} (author : V → NodeID).

Lemma firsts_app (l vs ws : list V) :
  firsts author l (vs ++ ws) =
    firsts author l vs ++ firsts author (l ++ firsts author l vs) ws.
Proof.
  revert l. induction vs as [|v vs IH]; intros l; simpl; [by rewrite app_nil_r|].
  case_decide; [apply IH|]. simpl. rewrite IH.
  by rewrite <- (assoc_L (++) l [v]).
Qed.
Lemma take_firsts_app (n : nat) (vs ws : list V) :
  (n <= length (firsts author [] vs))%nat →
  take n (firsts author [] (vs ++ ws)) = take n (firsts author [] vs).
Proof. intros Hn. rewrite firsts_app, take_app_le; done. Qed.
End firsts_more.
