(* ===== verification/Aggreator.v ===== *)
(** * Vote aggregators (src/core/smvba/consensus/aggreator.go)

    One aggregator per message kind counts the votes of one epoch and round;
    the [Aggreator] keeps a table of them per epoch and round.  A Go
    [map[NodeID]struct{}] is a finite set.

    The theorems show that each aggregator implements the vote log of file
    VoteLog.v with the decision rule of the protocol: when it signals, what it
    signals, and that it signals once. *)

From stdpp Require Import base gmap list strings.
From S2P Require Import Prelude Committee Crypto Message VoteLog.

(** ** Finish messages *)

Record FinishAggreator : Type := mkFinishAggreator { fia_Authors : gset NodeID }.

Definition NewFinishAggreator : FinishAggreator := mkFinishAggreator ∅.

Definition FinishAggreator_Append (f : FinishAggreator) (committee : Committee)
    (finish : Finish) : result bool * FinishAggreator :=
  if decide (fi_Author finish ∈ fia_Authors f) then
    (Err (ErrOneMoreMessage FinishType (fi_Epoch finish) (fi_Round finish)
       (fi_Author finish)), f)
  else
    let f' := mkFinishAggreator ({[fi_Author finish]} ∪ fia_Authors f) in
    if decide (Z.of_nat (size (fia_Authors f')) = Committee_HightThreshold committee)
    then (Ok true, f')
    else (Ok false, f').

(** ** Done messages *)

Definition DONE_LOW_FLAG : Z := 0.
Definition DONE_HIGH_FLAG : Z := 1.
Definition DONE_NONE_FLAG : Z := 2.

Record DoneAggreator : Type := mkDoneAggreator { dna_Authors : gset NodeID }.

Definition NewDoneAggreator : DoneAggreator := mkDoneAggreator ∅.

Definition DoneAggreator_Append (d : DoneAggreator) (committee : Committee)
    (done : Done) : result Z * DoneAggreator :=
  if decide (dn_Author done ∈ dna_Authors d) then
    (Err (ErrOneMoreMessage DoneType (dn_Epoch done) (dn_Round done)
       (dn_Author done)), d)
  else
    let d' := mkDoneAggreator ({[dn_Author done]} ∪ dna_Authors d) in
    let n := Z.of_nat (size (dna_Authors d')) in
    if decide (n = Committee_LowThreshold committee) then (Ok DONE_LOW_FLAG, d')
    else if decide (n = Committee_HightThreshold committee)
    then (Ok DONE_HIGH_FLAG, d')
    else (Ok DONE_NONE_FLAG, d').

(** ** Coin shares *)

Definition RANDOM_LEN : nat := 3.

Record ElectAggreator : Type := mkElectAggreator {
  ea_shares : list (list byte);
  ea_authors : gset NodeID
}.

Definition NewElectAggreator : ElectAggreator := mkElectAggreator [] ∅.

(** The loop over the first [RANDOM_LEN] bytes of the coin, from index [i] on;
    [None] is the panic on an index past the end.  A byte that is not positive
    is 0 and so is its negation. *)
Fixpoint coin_loop (coin : list byte) (i n : nat) (rand : Z) : option Z :=
  match n with
  | O => Some rand
  | S n =>
      match coin !! i with
      | None => None
      | Some b =>
          if decide (0 < b) then coin_loop coin (S i) n (Z.shiftl rand 8 + b)
          else coin_loop coin (S i) n (Z.shiftl rand 8 + (- b) mod 256)
      end
  end.

Section elect.
Context {CL : CryptoLib}.

Definition ElectAggreator_Append (e : ElectAggreator) (committee : Committee)
    (sigService : SigService) (elect : ElectShare)
  : outcome ElectAggreator (result NodeID) :=
  if decide (es_Author elect ∈ ea_authors e) then
    Returns (Err (ErrOneMoreMessage ElectShareType (es_Epoch elect)
      (es_Round elect) (es_Author elect))) e
  else
    let e' := mkElectAggreator (ea_shares e ++ [es_SigShare elect])
                ({[es_Author elect]} ∪ ea_authors e) in
    if decide (Z.of_nat (length (ea_shares e')) = Committee_HightThreshold committee)
    then
      match CombineIntactTSPartial (ea_shares e') (ShareKey sigService)
              (ElectShare_Hash elect) with
      | Err err => Returns (Err err) e'
      | Ok coin =>
          match coin_loop coin 0 RANDOM_LEN 0 with
          | None => Crash "index out of range"
          | Some rand =>
              if decide (Committee_Size committee = 0)
              then Crash "integer divide by zero"
              else Returns (Ok (Z.rem rand (Committee_Size committee))) e'
          end
      end
    else Returns (Ok NONE) e'.
End elect.

(** ** Pre-votes *)

Definition ACTION_YES : Z := 0.
Definition ACTION_NO : Z := 1.
Definition ACTION_COMMIT : Z := 2.
Definition ACTION_NONE : Z := 3.

Record PreVoteAggreator : Type := mkPreVoteAggreator {
  pva_authors : gset NodeID;
  pva_yesNums : Z;
  pva_noNums : Z;
  pva_flag : bool
}.

Definition NewPrevoteAggreator : PreVoteAggreator :=
  mkPreVoteAggreator ∅ 0 0 false.

Definition PreVoteAggreator_Append (p : PreVoteAggreator) (committee : Committee)
    (vote : Prevote) : result Z * PreVoteAggreator :=
  if decide (pv_Author vote ∈ pva_authors p) then
    (Err (ErrOneMoreMessage PrevoteType (pv_Epoch vote) (pv_Round vote)
       (pv_Author vote)), p)
  else
    let authors := {[pv_Author vote]} ∪ pva_authors p in
    let '(yesNums, noNums) :=
      if decide (pv_Flag vote = VOTE_FLAG_NO)
      then (pva_yesNums p, pva_noNums p + 1)
      else (pva_yesNums p + 1, pva_noNums p) in
    if bool_decide (yesNums > 0) && negb (pva_flag p) then
      (Ok ACTION_YES, mkPreVoteAggreator authors yesNums noNums true)
    else
      let p' := mkPreVoteAggreator authors yesNums noNums (pva_flag p) in
      if bool_decide (noNums = Committee_HightThreshold committee) && negb (pva_flag p)
      then (Ok ACTION_NO, p')
      else (Ok ACTION_NONE, p').

(** ** Final votes *)

Record FinVoteAggreator : Type := mkFinVoteAggreator {
  fva_authors : gset NodeID;
  fva_yesNums : Z;
  fva_noNums : Z
}.

Definition NewFinVoteAggreator : FinVoteAggreator := mkFinVoteAggreator ∅ 0 0.

Definition FinVoteAggreator_Append (f : FinVoteAggreator) (committee : Committee)
    (vote : FinVote) : result Z * FinVoteAggreator :=
  if decide (fv_Author vote ∈ fva_authors f) then
    (Err (ErrOneMoreMessage FinVoteType (fv_Epoch vote) (fv_Round vote)
       (fv_Author vote)), f)
  else
    let authors := {[fv_Author vote]} ∪ fva_authors f in
    let '(yesNums, noNums) :=
      if decide (fv_Flag vote = VOTE_FLAG_YES)
      then (fva_yesNums f + 1, fva_noNums f)
      else (fva_yesNums f, fva_noNums f + 1) in
    let f' := mkFinVoteAggreator authors yesNums noNums in
    let th := Committee_HightThreshold committee in
    if decide (yesNums + noNums = th) then
      if decide (yesNums = th) then (Ok ACTION_COMMIT, f')
      else if decide (noNums = th) then (Ok ACTION_NO, f')
      else (Ok ACTION_YES, f')
    else (Ok ACTION_NONE, f').

(** ** The table of aggregators *)

Record Aggreator : Type := mkAggreator {
  ag_committee : Committee;
  ag_finish : gmap Z (gmap Z FinishAggreator);
  ag_done : gmap Z (gmap Z DoneAggreator);
  ag_prevote : gmap Z (gmap Z PreVoteAggreator);
  ag_finvote : gmap Z (gmap Z FinVoteAggreator)
}.

Definition NewAggreator (committee : Committee) : Aggreator :=
  mkAggreator committee ∅ ∅ ∅ ∅.

Section table.
Implicit Types (a : Aggreator).

(** Each looks up the aggregator of the vote's epoch and round, creating it
    on the first vote, and appends the vote to it in place. *)

Definition Aggreator_AddFinishVote a (finish : Finish) : result bool * Aggreator :=
  let item := default NewFinishAggreator
    (lookup2 (ag_finish a) (fi_Epoch finish) (fi_Round finish)) in
  let '(r, item') := FinishAggreator_Append item (ag_committee a) finish in
  (r, mkAggreator (ag_committee a)
        (insert2 (ag_finish a) (fi_Epoch finish) (fi_Round finish) item')
        (ag_done a) (ag_prevote a) (ag_finvote a)).

Definition Aggreator_AddDoneVote a (done : Done) : result Z * Aggreator :=
  let item := default NewDoneAggreator
    (lookup2 (ag_done a) (dn_Epoch done) (dn_Round done)) in
  let '(r, item') := DoneAggreator_Append item (ag_committee a) done in
  (r, mkAggreator (ag_committee a) (ag_finish a)
        (insert2 (ag_done a) (dn_Epoch done) (dn_Round done) item')
        (ag_prevote a) (ag_finvote a)).

Definition Aggreator_AddPreVote a (vote : Prevote) : result Z * Aggreator :=
  let item := default NewPrevoteAggreator
    (lookup2 (ag_prevote a) (pv_Epoch vote) (pv_Round vote)) in
  let '(r, item') := PreVoteAggreator_Append item (ag_committee a) vote in
  (r, mkAggreator (ag_committee a) (ag_finish a) (ag_done a)
        (insert2 (ag_prevote a) (pv_Epoch vote) (pv_Round vote) item')
        (ag_finvote a)).

Definition Aggreator_AddFinVote a (vote : FinVote) : result Z * Aggreator :=
  let item := default NewFinVoteAggreator
    (lookup2 (ag_finvote a) (fv_Epoch vote) (fv_Round vote)) in
  let '(r, item') := FinVoteAggreator_Append item (ag_committee a) vote in
  (r, mkAggreator (ag_committee a) (ag_finish a) (ag_done a) (ag_prevote a)
        (insert2 (ag_finvote a) (fv_Epoch vote) (fv_Round vote) item')).
End table.

(** ** Each aggregator implements a vote log

    The rule of each vote log: what it answers when the accepted votes,
    including the new one, are [l]. *)

Section rules.
Context (c : Committee).
Let th := Committee_HightThreshold c.

Definition finish_rule (l : list Finish) : bool :=
  bool_decide (Z.of_nat (length l) = th).

Definition done_rule (l : list Done) : Z :=
  if decide (Z.of_nat (length l) = Committee_LowThreshold c) then DONE_LOW_FLAG
  else if decide (Z.of_nat (length l) = th) then DONE_HIGH_FLAG
  else DONE_NONE_FLAG.

Definition is_no (p : Prevote) : bool := bool_decide (pv_Flag p = VOTE_FLAG_NO).
Definition is_yes (v : FinVote) : bool := bool_decide (fv_Flag v = VOTE_FLAG_YES).

(** YES on the first vote that is not a NO, NO when the first [th] votes are
    all NO. *)
Definition prevote_rule (l : list Prevote) : Z :=
  if decide (countb (λ p, negb (is_no p)) l = 0%nat) then
    if decide (Z.of_nat (length l) = th) then ACTION_NO else ACTION_NONE
  else if decide (countb (λ p, negb (is_no p)) (removelast l) = 0%nat)
  then ACTION_YES else ACTION_NONE.

(** At the [th]-th vote: COMMIT when all are YES, NO when none is. *)
Definition finvote_rule (l : list FinVote) : Z :=
  if decide (Z.of_nat (length l) = th) then
    if decide (Z.of_nat (countb is_yes l) = th) then ACTION_COMMIT
    else if decide (countb is_yes l = 0%nat) then ACTION_NO
    else ACTION_YES
  else ACTION_NONE.
End rules.

Section refinement.
Context (c : Committee).

Definition finish_log := log_step fi_Author (λ f, ErrOneMoreMessage FinishType
  (fi_Epoch f) (fi_Round f) (fi_Author f)) (finish_rule c).
Definition done_log := log_step dn_Author (λ d, ErrOneMoreMessage DoneType
  (dn_Epoch d) (dn_Round d) (dn_Author d)) (done_rule c).
Definition prevote_log := log_step pv_Author (λ p, ErrOneMoreMessage PrevoteType
  (pv_Epoch p) (pv_Round p) (pv_Author p)) (prevote_rule c).
Definition finvote_log := log_step fv_Author (λ v, ErrOneMoreMessage FinVoteType
  (fv_Epoch v) (fv_Round v) (fv_Author v)) (finvote_rule c).

(** What the counters of an aggregator hold for the log [l]. *)
Definition finish_abs (f : FinishAggreator) (l : list Finish) : Prop :=
  NoDup (map fi_Author l) ∧ fia_Authors f = authors fi_Author l.
Definition done_abs (d : DoneAggreator) (l : list Done) : Prop :=
  NoDup (map dn_Author l) ∧ dna_Authors d = authors dn_Author l.
Definition prevote_abs (p : PreVoteAggreator) (l : list Prevote) : Prop :=
  NoDup (map pv_Author l) ∧ pva_authors p = authors pv_Author l ∧
  pva_yesNums p = Z.of_nat (countb (λ p, negb (is_no p)) l) ∧
  pva_noNums p = Z.of_nat (countb is_no l) ∧
  pva_flag p = bool_decide (0 < countb (λ p, negb (is_no p)) l)%nat.
Definition finvote_abs (f : FinVoteAggreator) (l : list FinVote) : Prop :=
  NoDup (map fv_Author l) ∧ fva_authors f = authors fv_Author l ∧
  fva_yesNums f = Z.of_nat (countb is_yes l) ∧
  fva_noNums f = Z.of_nat (countb (λ v, negb (is_yes v)) l).

Lemma NoDup_author_snoc {V} (author : V → NodeID) l v :
  NoDup (map author l) → author v ∉ authors author l →
  NoDup (map author (l ++ [v])).
Proof.
  intros Hnd Hni. rewrite map_app, NoDup_app. split_and!; [done| |apply NoDup_singleton].
  intros x Hx. simpl. rewrite list_elem_of_singleton. intros ->.
  apply Hni. unfold authors. by rewrite elem_of_list_to_set.
Qed.

Lemma authors_snoc_comm {V} (author : V → NodeID) l v :
  authors author (l ++ [v]) = {[author v]} ∪ authors author l.
Proof. rewrite authors_snoc. set_solver. Qed.

Lemma size_authors_snoc {V} (author : V → NodeID) l v :
  NoDup (map author l) → author v ∉ authors author l →
  size (authors author (l ++ [v])) = length (l ++ [v]).
Proof. intros. by apply size_authors, NoDup_author_snoc. Qed.

Lemma finish_step_refines f l v :
  finish_abs f l →
  (FinishAggreator_Append f c v).1 = (finish_log l v).1 ∧
  finish_abs (FinishAggreator_Append f c v).2 (finish_log l v).2.
Proof.
  intros [Hnd Ha]. unfold FinishAggreator_Append, finish_log, log_step.
  rewrite Ha. destruct (decide (fi_Author v ∈ _)) as [|Hni]; [done|].
  simpl. rewrite <- authors_snoc_comm, size_authors_snoc by done.
  unfold finish_rule. case_decide; simpl;
    [rewrite bool_decide_eq_true_2 by done|rewrite bool_decide_eq_false_2 by done];
    (split; [done|]); split; simpl; auto using NoDup_author_snoc.
Qed.

Lemma done_step_refines d l v :
  done_abs d l →
  (DoneAggreator_Append d c v).1 = (done_log l v).1 ∧
  done_abs (DoneAggreator_Append d c v).2 (done_log l v).2.
Proof.
  intros [Hnd Ha]. unfold DoneAggreator_Append, done_log, log_step.
  rewrite Ha. destruct (decide (dn_Author v ∈ _)) as [|Hni]; [done|].
  simpl. rewrite <- authors_snoc_comm, size_authors_snoc by done.
  unfold done_rule. repeat case_decide; simpl;
    (split; [done|]); split; simpl; auto using NoDup_author_snoc.
Qed.

Lemma prevote_step_refines p l v :
  prevote_abs p l →
  (PreVoteAggreator_Append p c v).1 = (prevote_log l v).1 ∧
  prevote_abs (PreVoteAggreator_Append p c v).2 (prevote_log l v).2.
Proof.
  intros (Hnd & Ha & Hy & Hn & Hf).
  unfold PreVoteAggreator_Append, prevote_log, log_step.
  rewrite Ha. destruct (decide (pv_Author v ∈ _)) as [|Hni]; [done|].
  pose proof (NoDup_author_snoc _ _ _ Hnd Hni) as Hnd'.
  pose proof (countb_split is_no l) as Hs.
  rewrite <- authors_snoc_comm, Hy, Hn, Hf. clear Hy Hn Hf Ha.
  unfold prevote_rule, prevote_abs. cbn [fst snd].
  rewrite removelast_last, !countb_snoc, length_app.
  assert (is_no v = bool_decide (pv_Flag v = VOTE_FLAG_NO)) as Hv by done.
  revert Hs. generalize (countb is_no l), (countb (λ p, negb (is_no p)) l).
  intros no yes Hs. simpl length.
  destruct (decide (pv_Flag v = VOTE_FLAG_NO)) as [Hno|Hno];
    [rewrite bool_decide_eq_true_2 in Hv by done
    |rewrite bool_decide_eq_false_2 in Hv by done]; rewrite Hv;
    repeat case_bool_decide; simpl; repeat case_decide; simpl; try lia;
    (split; [done|]); split_and!; simpl; try done; rewrite ?countb_snoc, ?Hv;
    simpl; try lia; repeat case_bool_decide; simpl in *; (done || lia).
Qed.

Lemma finvote_step_refines f l v :
  finvote_abs f l →
  (FinVoteAggreator_Append f c v).1 = (finvote_log l v).1 ∧
  finvote_abs (FinVoteAggreator_Append f c v).2 (finvote_log l v).2.
Proof.
  intros (Hnd & Ha & Hy & Hn).
  unfold FinVoteAggreator_Append, finvote_log, log_step.
  rewrite Ha. destruct (decide (fv_Author v ∈ _)) as [|Hni]; [done|].
  pose proof (NoDup_author_snoc _ _ _ Hnd Hni) as Hnd'.
  pose proof (countb_split is_yes l) as Hs.
  rewrite <- authors_snoc_comm, Hy, Hn. clear Hy Hn Ha.
  unfold finvote_rule, finvote_abs. cbn [fst snd]. rewrite !countb_snoc, length_app.
  assert (is_yes v = bool_decide (fv_Flag v = VOTE_FLAG_YES)) as Hv by done.
  pose proof (HightThreshold_pos c) as Hth.
  revert Hs. generalize (countb is_yes l), (countb (λ v, negb (is_yes v)) l).
  intros yes no Hs. simpl length.
  destruct (decide (fv_Flag v = VOTE_FLAG_YES)) as [Hyes|Hyes];
    [rewrite bool_decide_eq_true_2 in Hv by done
    |rewrite bool_decide_eq_false_2 in Hv by done]; rewrite Hv; simpl;
    repeat case_decide; simpl; try lia;
    (split; [done|]); split_and!; simpl; try done; rewrite ?Hv; simpl; lia.
Qed.

(** The runs of the four aggregators from their initial states. *)
Definition finish_run := outputs (λ f, FinishAggreator_Append f c) NewFinishAggreator.
Definition done_run := outputs (λ d, DoneAggreator_Append d c) NewDoneAggreator.
Definition prevote_run := outputs (λ p, PreVoteAggreator_Append p c) NewPrevoteAggreator.
Definition finvote_run := outputs (λ f, FinVoteAggreator_Append f c) NewFinVoteAggreator.

Lemma finish_run_log vs : finish_run vs = outputs finish_log [] vs.
Proof.
  apply (outputs_sim _ _ finish_abs); [apply finish_step_refines|].
  split; [apply NoDup_nil_2|done].
Qed.
Lemma done_run_log vs : done_run vs = outputs done_log [] vs.
Proof.
  apply (outputs_sim _ _ done_abs); [apply done_step_refines|].
  split; [apply NoDup_nil_2|done].
Qed.
Lemma prevote_run_log vs : prevote_run vs = outputs prevote_log [] vs.
Proof.
  apply (outputs_sim _ _ prevote_abs); [apply prevote_step_refines|].
  split_and!; [apply NoDup_nil_2|done..].
Qed.
Lemma finvote_run_log vs : finvote_run vs = outputs finvote_log [] vs.
Proof.
  apply (outputs_sim _ _ finvote_abs); [apply finvote_step_refines|].
  split_and!; [apply NoDup_nil_2|done..].
Qed.
End refinement.

(** ** Properties *)

(** C27 Refinement: on every sequence of votes the four
    aggregators give exactly the answers, errors included, of the vote logs
    with their decision rules. *)
Theorem aggregators_refine_vote_logs c fs ds ps vs :
  finish_run c fs = outputs (finish_log c) [] fs ∧
  done_run c ds = outputs (done_log c) [] ds ∧
  prevote_run c ps = outputs (prevote_log c) [] ps ∧
  finvote_run c vs = outputs (finvote_log c) [] vs.
Proof.
  auto using finish_run_log, done_run_log, prevote_run_log, finvote_run_log.
Qed.

(** The answers of a run that are not the neutral one, in order. *)
Definition signals (neutral : Z) (os : list (result Z)) : list Z :=
  List.filter (λ o, negb (bool_decide (o = neutral))) (accepted os).

(** Finish messages: whatever is received and however
    often, the aggregator signals once, when the [HightThreshold]-th distinct
    author is counted, and never if there are fewer authors. *)
Theorem finish_signals_once c fs :
  List.filter id (accepted (finish_run c fs)) =
    if decide (Committee_HightThreshold c <= Z.of_nat (size (authors fi_Author fs)))
    then [true] else [].
Proof.
  pose proof (HightThreshold_pos c) as Hth.
  rewrite finish_run_log. unfold finish_log.
  rewrite (signals_at _ _ _ _ (Z.to_nat (Committee_HightThreshold c))); [|lia|].
  2: { unfold finish_rule. simpl. intros p Hp%bool_decide_eq_true_1. lia. }
  rewrite <- length_firsts. cbv zeta.
  destruct (decide (Committee_HightThreshold c <= _)).
  - rewrite decide_True by lia. unfold finish_rule.
    rewrite bool_decide_eq_true_2; [done|]. rewrite length_take. lia.
  - by rewrite decide_False by lia.
Qed.

Lemma done_signal_at c ds (n : nat) flag :
  (0 < n)%nat → flag ≠ DONE_NONE_FLAG →
  (∀ l, done_rule c l = flag ↔ length l = n) →
  List.filter (λ o, bool_decide (o = flag)) (accepted (done_run c ds)) =
    if decide (n <= size (authors dn_Author ds))%nat then [flag] else [].
Proof.
  intros Hn Hne Hr. rewrite done_run_log. unfold done_log.
  rewrite (signals_at _ _ _ _ n); [|done|].
  2: { intros p Hp%bool_decide_eq_true_1. by apply Hr. }
  rewrite <- length_firsts. simpl. case_decide; [|done].
  assert (done_rule c (take n (firsts dn_Author [] ds)) = flag) as ->.
  { apply Hr. rewrite length_take. lia. }
  by rewrite bool_decide_eq_true_2.
Qed.

(** Done messages: LOW is signalled once, at the
    [LowThreshold]-th distinct author, and HIGH once, at the
    [HightThreshold]-th; but in a committee that tolerates no fault (one to
    three members) the two thresholds coincide and HIGH is never signalled. *)
Theorem done_signals c ds :
  let n := Z.of_nat (size (authors dn_Author ds)) in
  List.filter (λ o, bool_decide (o = DONE_LOW_FLAG)) (accepted (done_run c ds)) =
    (if decide (Committee_LowThreshold c <= n) then [DONE_LOW_FLAG] else []) ∧
  List.filter (λ o, bool_decide (o = DONE_HIGH_FLAG)) (accepted (done_run c ds)) =
    (if decide (0 < max_faults c ∧ Committee_HightThreshold c <= n)
     then [DONE_HIGH_FLAG] else []).
Proof.
  pose proof (max_faults_nonneg c) as Hf. simpl.
  rewrite LowThreshold_faults, HightThreshold_faults. split.
  - rewrite (done_signal_at c ds (Z.to_nat (max_faults c + 1)) DONE_LOW_FLAG);
      [|lia|done|].
    + repeat case_decide; done || lia.
    + intros l. unfold done_rule. rewrite LowThreshold_faults, HightThreshold_faults.
      repeat case_decide; unfold DONE_LOW_FLAG, DONE_HIGH_FLAG, DONE_NONE_FLAG; lia.
  - destruct (decide (max_faults c = 0)) as [H0|H0].
    + rewrite (decide_False (P := 0 < _ ∧ _)) by lia.
      rewrite done_run_log. apply signals_never. intros l.
      apply bool_decide_eq_false_2. unfold done_rule.
      rewrite LowThreshold_faults, HightThreshold_faults, H0.
      repeat case_decide; unfold DONE_LOW_FLAG, DONE_HIGH_FLAG, DONE_NONE_FLAG; lia.
    + rewrite (done_signal_at c ds (Z.to_nat (2 * max_faults c + 1)) DONE_HIGH_FLAG);
        [|lia|done|].
      * repeat case_decide; done || lia.
      * intros l. unfold done_rule. rewrite LowThreshold_faults, HightThreshold_faults.
        repeat case_decide; unfold DONE_LOW_FLAG, DONE_HIGH_FLAG, DONE_NONE_FLAG; lia.
Qed.

(** The verdict of the final votes in [l], all of which count. *)
Definition verdict (l : list FinVote) : Z :=
  if forallb is_yes l then ACTION_COMMIT
  else if existsb is_yes l then ACTION_YES
  else ACTION_NO.

Lemma forallb_countb {A} (f : A → bool) l :
  forallb f l = bool_decide (countb f l = length l).
Proof.
  apply Bool.eq_iff_eq_true. rewrite bool_decide_eq_true, countb_all, List.forallb_forall.
  by setoid_rewrite list_elem_of_In.
Qed.
Lemma existsb_countb {A} (f : A → bool) l :
  existsb f l = bool_decide (countb f l ≠ 0%nat).
Proof.
  unfold countb. induction l as [|x l IH]; [done|]. simpl. destruct (f x); [done|].
  by rewrite IH.
Qed.

Lemma finvote_rule_verdict c l :
  Z.of_nat (length l) = Committee_HightThreshold c → finvote_rule c l = verdict l.
Proof.
  intros Hlen. unfold finvote_rule, verdict.
  rewrite decide_True, forallb_countb, existsb_countb by done.
  pose proof (HightThreshold_pos c). pose proof (countb_split is_yes l).
  repeat case_decide; repeat case_bool_decide; done || lia.
Qed.

(** Final votes: the aggregator signals once, at the
    [HightThreshold]-th distinct author, and its answer is decided by the first
    votes of the first [HightThreshold] authors: commit when all say yes, no
    when all say no, yes when they are mixed. *)
Theorem finvote_signals_verdict c vs :
  let th := Z.to_nat (Committee_HightThreshold c) in
  signals ACTION_NONE (finvote_run c vs) =
    if decide (th <= size (authors fv_Author vs))%nat
    then [verdict (take th (firsts fv_Author [] vs))] else [].
Proof.
  pose proof (HightThreshold_pos c) as Hth. simpl.
  unfold signals. rewrite finvote_run_log. unfold finvote_log.
  rewrite (signals_at _ _ _ _ (Z.to_nat (Committee_HightThreshold c))); [|lia|].
  2: { intros p. unfold finvote_rule. case_decide; [lia|]. done. }
  rewrite <- length_firsts. simpl. case_decide; [|done].
  rewrite finvote_rule_verdict by (rewrite length_take; lia).
  unfold verdict. repeat case_match; done.
Qed.

Lemma verdict_commit l : verdict l = ACTION_COMMIT → ∀ v, v ∈ l → is_yes v = true.
Proof.
  unfold verdict. destruct (forallb is_yes l) eqn:E; [|by destruct (existsb is_yes l)].
  intros _ v Hv. rewrite List.forallb_forall in E.
  apply E. by apply list_elem_of_In.
Qed.
Lemma verdict_no l : verdict l = ACTION_NO → ∀ v, v ∈ l → is_yes v = false.
Proof.
  unfold verdict. destruct (forallb is_yes l); [done|].
  destruct (existsb is_yes l) eqn:E; [done|]. intros _ v Hv.
  rewrite existsb_countb in E. apply bool_decide_eq_false_1 in E.
  apply (countb_0 is_yes l); [lia|done].
Qed.

(** A verdict is backed by a quorum of authors. *)
Lemma verdict_quorum c vs a :
  (∀ v, v ∈ vs → fv_Author v ∈ members c) →
  a ∈ signals ACTION_NONE (finvote_run c vs) →
  ∃ l, a = verdict l ∧ (∀ v, v ∈ l → v ∈ vs) ∧ quorum c (authors fv_Author l).
Proof.
  intros Hmem. rewrite finvote_signals_verdict. case_decide as Hlen; [|set_solver].
  intros ->%list_elem_of_singleton.
  set (l := take _ _). exists l. split; [done|].
  assert (∀ v, v ∈ l → v ∈ vs) as Hsub.
  { intros v Hv. apply (firsts_subset fv_Author []), (elem_of_submseteq l); [done|].
    apply sublist_submseteq, sublist_take. }
  split; [done|]. split.
  - intros i (v & Hv & <-)%elem_of_authors. auto.
  - rewrite size_authors.
    + unfold l. rewrite length_take, length_firsts.
      pose proof (HightThreshold_pos c). lia.
    + unfold l. rewrite <- firstn_map.
      apply (sublist_NoDup _ (map fv_Author (firsts fv_Author [] vs)));
        [apply NoDup_firsts|apply sublist_take].
Qed.

(** C26 Contrary verdicts need contrary votes: in a committee of [3f+1] members, if a node
    sees COMMIT and another sees NO for the final votes that they were given, then at
    least [f+1] members have told the first YES and the second something else; so with at
    most [f] faulty members some member that is not faulty has sent contrary votes. *)
Theorem contrary_verdicts_need_contrary_votes c vs1 vs2 :
  Committee_Size c = 3 * max_faults c + 1 →
  (∀ v, v ∈ vs1 ++ vs2 → fv_Author v ∈ members c) →
  ACTION_COMMIT ∈ signals ACTION_NONE (finvote_run c vs1) →
  ACTION_NO ∈ signals ACTION_NONE (finvote_run c vs2) →
  ∃ S : gset NodeID, S ⊆ members c ∧ max_faults c + 1 <= Z.of_nat (size S) ∧
    ∀ i, i ∈ S → ∃ v1 v2, v1 ∈ vs1 ∧ v2 ∈ vs2 ∧ fv_Author v1 = i ∧ fv_Author v2 = i ∧
      fv_Flag v1 = VOTE_FLAG_YES ∧ fv_Flag v2 ≠ VOTE_FLAG_YES.
Proof.
  intros Hn Hmem H1 H2.
  apply verdict_quorum in H1 as (l1 & Hv1 & Hs1 & Hq1); [|set_solver].
  apply verdict_quorum in H2 as (l2 & Hv2 & Hs2 & Hq2); [|set_solver].
  pose proof (quorum_overlap c _ _ Hq1 Hq2) as Ho. rewrite HightThreshold_faults in Ho.
  exists (authors fv_Author l1 ∩ authors fv_Author l2).
  split_and!; [destruct Hq1; set_solver|lia|]. intros i [Hi1 Hi2]%elem_of_intersection.
  apply elem_of_authors in Hi1 as (v1 & Hin1 & <-). apply elem_of_authors in Hi2 as (v2 & Hin2 & Heq).
  pose proof (verdict_commit _ (eq_sym Hv1) _ Hin1) as Hy.
  pose proof (verdict_no _ (eq_sym Hv2) _ Hin2) as Hno. unfold is_yes in *.
  exists v1, v2. split_and!; auto; [by apply bool_decide_eq_true in Hy|by apply bool_decide_eq_false in Hno].
Qed.

(** ** Pre-votes *)

Definition says_yes (p : Prevote) : bool := negb (is_no p).

Lemma prevote_rule_yes c l v :
  prevote_rule c (l ++ [v]) = ACTION_YES ↔
    countb says_yes l = 0%nat ∧ says_yes v = true.
Proof.
  unfold prevote_rule. rewrite removelast_last, countb_snoc.
  fold says_yes. change (λ p, negb (is_no p)) with says_yes.
  destruct (says_yes v) eqn:E; unfold says_yes in E; rewrite ?E;
    repeat case_decide; unfold ACTION_YES, ACTION_NO, ACTION_NONE;
    split; intros; try lia; try done; destruct_and?; lia.
Qed.

Lemma yes_prefixes c l vs :
  List.filter (λ o, bool_decide (o = ACTION_YES))
    (map (prevote_rule c) (prefixes l vs)) =
    if decide (countb says_yes l = 0%nat ∧ countb says_yes vs ≠ 0%nat)
    then [ACTION_YES] else [].
Proof.
  revert l. induction vs as [|v vs IH]; intros l; simpl.
  - rewrite decide_False; [done|]. unfold countb at 2. simpl. lia.
  - rewrite IH, countb_snoc, countb_cons.
    destruct (decide (prevote_rule c (l ++ [v]) = ACTION_YES)) as [Hy|Hy].
    + rewrite Hy. rewrite bool_decide_eq_true_2 by done.
      apply prevote_rule_yes in Hy as [Hl Hv]. rewrite Hv, Hl.
      rewrite decide_False, decide_True by lia. done.
    + rewrite bool_decide_eq_false_2 by done. rewrite prevote_rule_yes in Hy.
      destruct (says_yes v); repeat case_decide; try done; exfalso; naive_solver lia.
Qed.

(** Pre-votes: YES is signalled once, on the first vote
    that is not a NO, and NO once, exactly when the first [HightThreshold]
    distinct authors all voted NO.  The two do not exclude each other: a YES
    that arrives after the NO signal is signalled too. *)
Theorem prevote_signals c ps :
  let th := Z.to_nat (Committee_HightThreshold c) in
  let log := firsts pv_Author [] ps in
  List.filter (λ o, bool_decide (o = ACTION_YES)) (accepted (prevote_run c ps)) =
    (if existsb says_yes log then [ACTION_YES] else []) ∧
  List.filter (λ o, bool_decide (o = ACTION_NO)) (accepted (prevote_run c ps)) =
    (if decide (th <= length log)%nat then
       if forallb is_no (take th log) then [ACTION_NO] else []
     else []).
Proof.
  pose proof (HightThreshold_pos c) as Hth. simpl. rewrite prevote_run_log. split.
  - unfold prevote_log. rewrite accepted_log, yes_prefixes, existsb_countb.
    case_decide; case_bool_decide; done || (exfalso; naive_solver).
  - unfold prevote_log.
    rewrite (signals_at _ _ _ _ (Z.to_nat (Committee_HightThreshold c))); [|lia|].
    2: { intros p Hp%bool_decide_eq_true_1. revert Hp. unfold prevote_rule.
         repeat case_decide; unfold ACTION_YES, ACTION_NO, ACTION_NONE; lia. }
    case_decide as Hl; [|done]. cbv zeta. set (l := take _ _).
    assert (Z.of_nat (length l) = Committee_HightThreshold c) as Hlen
      by (unfold l; rewrite length_take; lia).
    rewrite forallb_countb. pose proof (countb_split is_no l) as Hs.
    unfold prevote_rule. rewrite (decide_True (P := Z.of_nat _ = _)) by done.
    repeat case_decide; repeat case_bool_decide; done || lia.
Qed.

(** ** The table keeps epochs and rounds apart *)

Definition finvote_here (e r : Z) (v : FinVote) : bool :=
  bool_decide (fv_Epoch v = e ∧ fv_Round v = r).

(** The answers of the table to the votes of one epoch and round. *)
Definition answers_here {V} (here : V → bool) (vs : list V) (os : list (result Z))
  : list (result Z) :=
  map snd (List.filter (λ p, here p.1) (zip vs os)).

Lemma AddFinVote_elsewhere a v e r :
  finvote_here e r v = false →
  lookup2 (ag_finvote (Aggreator_AddFinVote a v).2) e r = lookup2 (ag_finvote a) e r ∧
  ag_committee (Aggreator_AddFinVote a v).2 = ag_committee a.
Proof.
  intros Hne%bool_decide_eq_false_1. unfold Aggreator_AddFinVote.
  destruct (FinVoteAggreator_Append _ _ _). simpl. split; [|done].
  apply lookup2_insert2_ne. naive_solver.
Qed.

Lemma AddFinVote_here a v e r :
  finvote_here e r v = true →
  let item := default NewFinVoteAggreator (lookup2 (ag_finvote a) e r) in
  let step := FinVoteAggreator_Append item (ag_committee a) v in
  (Aggreator_AddFinVote a v).1 = step.1 ∧
  lookup2 (ag_finvote (Aggreator_AddFinVote a v).2) e r = Some step.2 ∧
  ag_committee (Aggreator_AddFinVote a v).2 = ag_committee a.
Proof.
  intros [<- <-]%bool_decide_eq_true_1. unfold Aggreator_AddFinVote. simpl.
  destruct (FinVoteAggreator_Append _ _ _). simpl.
  by rewrite lookup2_insert2_eq.
Qed.

Lemma table_run_here a e r vs :
  answers_here (finvote_here e r) vs (outputs Aggreator_AddFinVote a vs) =
  outputs (λ f, FinVoteAggreator_Append f (ag_committee a))
    (default NewFinVoteAggreator (lookup2 (ag_finvote a) e r))
    (List.filter (finvote_here e r) vs).
Proof.
  revert a. induction vs as [|v vs IH]; intros a; [done|].
  rewrite outputs_cons. unfold answers_here in *. simpl.
  destruct (finvote_here e r v) eqn:Hv; simpl.
  - destruct (AddFinVote_here a v e r Hv) as (H1 & H2 & H3).
    rewrite outputs_cons, IH, H1, H2, H3. done.
  - destruct (AddFinVote_elsewhere a v e r Hv) as (H1 & H2).
    by rewrite IH, H1, H2.
Qed.

(** The table isolates the places of the protocol: however
    the final votes of different epochs and rounds interleave, the answers to
    the votes of one epoch and round are those of one fresh aggregator that
    sees only them. *)
Theorem table_isolates_rounds c e r vs :
  answers_here (finvote_here e r) vs (outputs Aggreator_AddFinVote (NewAggreator c) vs) =
  finvote_run c (List.filter (finvote_here e r) vs).
Proof. rewrite table_run_here. simpl. by rewrite lookup2_empty. Qed.

(** A round can be answered twice: the answer NO to pre-votes does not set the flag, so
    that a later yes vote is answered YES, and the node sends a second, contrary final
    vote. *)
Theorem prevotes_answered_twice c p no yes :
  pva_noNums p + 1 = Committee_HightThreshold c → pva_yesNums p = 0 → pva_flag p = false →
  pv_Flag no = VOTE_FLAG_NO → pv_Flag yes ≠ VOTE_FLAG_NO → pv_Author no ∉ pva_authors p →
  pv_Author yes ∉ pva_authors p → pv_Author yes ≠ pv_Author no →
  let p1 := (PreVoteAggreator_Append p c no).2 in
  (PreVoteAggreator_Append p c no).1 = Ok ACTION_NO ∧
  (PreVoteAggreator_Append p1 c yes).1 = Ok ACTION_YES.
Proof.
  intros Hno Hyes Hflag Hn Hy Han Hay Hne. unfold PreVoteAggreator_Append at 1 2.
  rewrite decide_False by done. rewrite decide_True by done. rewrite Hyes, Hflag, Hno. simpl.
  rewrite bool_decide_eq_true_2 by done. simpl. split; [done|].
  unfold PreVoteAggreator_Append. simpl. rewrite decide_False by set_solver.
  rewrite decide_False by done. done.
Qed.
