(* ===== verification/Elector.v ===== *)
(** * Leader election (src/core/smvba/consensus/elector.go)

    The elector keeps one share aggregator and one leader per epoch and round.
    The theorems describe every run of the elector on the shares of a round:
    when a leader is elected, that there is at most one, that it is a member
    index, that two nodes elect the same one, and that one bad share among the
    first [HightThreshold] leaves the round without a leader. *)

From stdpp Require Import base gmap list strings.
From S2P Require Import Prelude Committee Crypto Message VoteLog Aggreator.

Section elector.
Context {CL : CryptoLib}.

Record Elector : Type := mkElector {
  el_leaders : gmap Z (gmap Z NodeID);
  el_electAggreators : gmap Z (gmap Z ElectAggreator);
  el_sigService : SigService;
  el_committee : Committee
}.

Definition NewElector (sigService : SigService) (committee : Committee) : Elector :=
  mkElector ∅ ∅ sigService committee.

Definition Elector_SetLeader (e : Elector) (epoch round : Z) (leader : NodeID)
  : Elector :=
  mkElector (insert2 (el_leaders e) epoch round leader) (el_electAggreators e)
    (el_sigService e) (el_committee e).

(** The lookup also creates the epoch's table. *)
Definition Elector_Leader (e : Elector) (epoch round : Z) : NodeID * Elector :=
  (default NONE (lookup2 (el_leaders e) epoch round),
   mkElector (touch (el_leaders e) epoch) (el_electAggreators e)
     (el_sigService e) (el_committee e)).

Definition with_electAggreator (e : Elector) (epoch round : Z) (eA : ElectAggreator)
  : Elector :=
  mkElector (el_leaders e) (insert2 (el_electAggreators e) epoch round eA)
    (el_sigService e) (el_committee e).

(** An error of the aggregator is swallowed: the caller sees "no leader". *)
Definition Elector_AddShareVote (e : Elector) (share : ElectShare)
  : outcome Elector (result NodeID) :=
  let eA := default NewElectAggreator
    (lookup2 (el_electAggreators e) (es_Epoch share) (es_Round share)) in
  match ElectAggreator_Append eA (el_committee e) (el_sigService e) share with
  | Crash why => Crash why
  | Returns r eA' =>
      let e' := with_electAggreator e (es_Epoch share) (es_Round share) eA' in
      match r with
      | Err _ => Returns (Ok NONE) e'
      | Ok node =>
          if decide (node = NONE) then Returns (Ok node) e'
          else Returns (Ok node)
                 (Elector_SetLeader e' (es_Epoch share) (es_Round share) node)
      end
  end.

Lemma AddShareVote_committee (e : Elector) share r e' :
  Elector_AddShareVote e share = Returns r e' → el_committee e' = el_committee e.
Proof.
  unfold Elector_AddShareVote. destruct (ElectAggreator_Append _ _ _ _) as [[]|]; [| |done];
    repeat case_decide; intros; by simplify_eq.
Qed.

(** The answers to a sequence of shares. *)
Fixpoint AddShareVotes (e : Elector) (shares : list ElectShare)
  : outcome Elector (list NodeID) :=
  match shares with
  | [] => Returns [] e
  | share :: shares =>
      match Elector_AddShareVote e share with
      | Crash why => Crash why
      | Returns r e' =>
          match AddShareVotes e' shares with
          | Crash why => Crash why
          | Returns nodes e'' =>
              Returns ((match r with Ok node => node | Err _ => NONE end) :: nodes) e''
          end
      end
  end.
End elector.

(** ** The coin as a leader *)

Definition coin_leader (c : Committee) (coin : list byte) : NodeID :=
  Z.rem (default 0 (coin_loop coin 0 RANDOM_LEN 0)) (Committee_Size c).

Lemma coin_loop_bound coin i n rand :
  Forall is_byte coin → (i + n <= length coin)%nat → 0 <= rand →
  ∃ r, coin_loop coin i n rand = Some r ∧ 0 <= r.
Proof.
  intros Hb. revert i rand. induction n as [|n IH]; intros i rand Hl Hr; simpl; [eauto|].
  destruct (lookup_lt_is_Some_2 coin i) as [b Hbi]; [lia|]. rewrite Hbi.
  pose proof (Forall_lookup_1 _ _ _ _ Hb Hbi) as [Hb0 Hb1].
  pose proof (Z.shiftl_nonneg rand 8).
  pose proof (Z.mod_pos_bound (- b) 256).
  case_decide; apply IH; lia.
Qed.

Lemma coin_leader_range c coin :
  0 < Committee_Size c → Forall is_byte coin → (RANDOM_LEN <= length coin)%nat →
  coin_loop coin 0 RANDOM_LEN 0 ≠ None ∧
  0 <= coin_leader c coin < Committee_Size c.
Proof.
  intros Hc Hb Hl. destruct (coin_loop_bound coin 0 RANDOM_LEN 0) as (r & Hr & Hr0);
    [done|lia|lia|].
  unfold coin_leader. rewrite Hr. simpl. split; [done|].
  apply Z.rem_bound_pos; lia.
Qed.

Lemma coin_loop_step coin i n rand b :
  coin !! i = Some b → is_byte b →
  coin_loop coin i (S n) rand = coin_loop coin (S i) n (256 * rand + b).
Proof.
  intros Hi [Hb0 Hb1]. simpl. rewrite Hi, Z.shiftl_mul_pow2 by lia.
  case_decide; [f_equal; lia|]. assert (b = 0) as -> by lia. f_equal.
  rewrite Z.mod_0_l; lia.
Qed.

(** The coin is the first three bytes, read as a big-endian number. *)
Lemma coin_leader_value c a b d rest :
  is_byte a → is_byte b → is_byte d →
  coin_leader c (a :: b :: d :: rest) =
    Z.rem (65536 * a + 256 * b + d) (Committee_Size c).
Proof.
  intros Ha Hb Hd. unfold coin_leader, RANDOM_LEN.
  rewrite (coin_loop_step _ 0 _ _ a), (coin_loop_step _ 1 _ _ b),
    (coin_loop_step _ 2 _ _ d) by done.
  cbn [coin_loop default]. f_equal. simpl. lia.
Qed.

#[local] Arguments coin_loop : simpl never.

(** ** Runs of the elector *)

(** What kyber documents of a recovered signature: it is the marshalled point
    of a group whose elements take more than three bytes. *)
Class CoinLaw {CL : CryptoLib} : Prop :=
  recovered_coin : ∀ pub d shares t n coin,
    tbls_Recover pub d shares t n = Ok coin →
    (RANDOM_LEN <= length coin)%nat ∧ Forall is_byte coin.

(** Adding a share never panics. *)
Lemma AddShareVote_returns {CL : CryptoLib} {Hcoin : CoinLaw} (el : Elector) share :
  Committee_Size (el_committee el) ≠ 0 →
  ∃ r el', Elector_AddShareVote el share = Returns r el' ∧
    el_committee el' = el_committee el.
Proof.
  intros Hn. unfold Elector_AddShareVote, ElectAggreator_Append.
  case_decide; [(do 2 eexists; split; reflexivity)|]. case_decide; [|case_decide; (do 2 eexists; split; reflexivity)].
  destruct (CombineIntactTSPartial _ _ _) as [coin|] eqn:Hc; [|(do 2 eexists; split; reflexivity)].
  assert (Committee_Size (el_committee el) > 0)
    by (pose proof (Committee_Size_nonneg (el_committee el)); lia).
  unfold CombineIntactTSPartial in Hc.
  destruct (recovered_coin _ _ _ _ _ _ Hc) as [Hl Hb].
  destruct (coin_leader_range (el_committee el) coin) as [Hs _]; [lia|done|done|].
  destruct (coin_loop coin 0 RANDOM_LEN 0) as [rand|]; [|done].
  rewrite (decide_False (P := Committee_Size _ = 0)) by done. case_decide; (do 2 eexists; split; reflexivity).
Qed.

Section runs.
Context {CL : CryptoLib} {Hcoin : CoinLaw}.
Context (c : Committee) (svc : SigService) (e r : Z).
Hypothesis Hsize : 0 < Committee_Size c.

Definition round_digest : Digest := ElectShare_Hash (mkElectShare 0 e r []).

(** The rule of the share log: at the [HightThreshold]-th author, the leader
    that the combined coin selects, if the shares combine. *)
Definition elect_rule (l : list ElectShare) : NodeID :=
  if decide (Z.of_nat (length l) = Committee_HightThreshold c) then
    match CombineIntactTSPartial (map es_SigShare l) (ShareKey svc) round_digest with
    | Ok coin => coin_leader c coin
    | Err _ => NONE
    end
  else NONE.

Definition share_log := log_step es_Author (λ s, ErrOneMoreMessage ElectShareType
  (es_Epoch s) (es_Round s) (es_Author s)) elect_rule.

Definition in_round (s : ElectShare) : Prop := es_Epoch s = e ∧ es_Round s = r.

(** The elector's state for the log [l] of this round. *)
Definition elector_abs (el : Elector) (l : list ElectShare) : Prop :=
  el_committee el = c ∧ el_sigService el = svc ∧
  NoDup (map es_Author l) ∧
  default NewElectAggreator (lookup2 (el_electAggreators el) e r) =
    mkElectAggreator (map es_SigShare l) (authors es_Author l).

Lemma ElectShare_Hash_round s : in_round s → ElectShare_Hash s = round_digest.
Proof. intros [He Hr]. unfold round_digest, ElectShare_Hash. by rewrite He, Hr. Qed.

Definition answer_of (x : result NodeID) : NodeID :=
  match x with Ok node => node | Err _ => NONE end.

Lemma elect_rule_member l : elect_rule l = NONE ∨ 0 <= elect_rule l < Committee_Size c.
Proof.
  unfold elect_rule. case_decide; [|by left].
  destruct (CombineIntactTSPartial _ _ _) as [coin|] eqn:E; [|by left].
  right. apply recovered_coin in E as [Hl Hb]. by apply coin_leader_range.
Qed.

Lemma AddShareVote_step el l s :
  elector_abs el l → in_round s →
  ∃ el', Elector_AddShareVote el s = Returns (Ok (answer_of (share_log l s).1)) el' ∧
    elector_abs el' (share_log l s).2 ∧
    lookup2 (el_leaders el') e r =
      (if decide (answer_of (share_log l s).1 = NONE)
       then lookup2 (el_leaders el) e r
       else Some (answer_of (share_log l s).1)).
Proof.
  intros (Hc & Hs & Hnd & HeA) Hin. destruct Hin as [He Hr] eqn:Ein.
  unfold Elector_AddShareVote. rewrite He, Hr, HeA.
  unfold ElectAggreator_Append, share_log, log_step. simpl.
  destruct (decide (es_Author s ∈ authors es_Author l)) as [Hd|Hd].
  { simpl. eexists. split; [done|]. split; [|done].
    split_and!; try done. simpl. by rewrite lookup2_insert2_eq. }
  assert (∀ lds, elector_abs (mkElector lds
    (insert2 (el_electAggreators el) e r (mkElectAggreator
      (map es_SigShare l ++ [es_SigShare s]) ({[es_Author s]} ∪ authors es_Author l)))
    (el_sigService el) (el_committee el)) (l ++ [s])) as Habs.
  { intros lds. split_and!; [done|done|by apply NoDup_author_snoc|]. simpl.
    rewrite lookup2_insert2_eq. simpl. f_equal; [by rewrite map_app|].
    by rewrite authors_snoc_comm. }
  rewrite Hc, Hs. simpl.
  unfold elect_rule. rewrite map_app, !length_app, length_map. simpl.
  case_decide as Hth.
  2: { eexists. split; [done|]. split; [apply Habs|done]. }
  rewrite ElectShare_Hash_round by done.
  destruct (CombineIntactTSPartial _ _ _) as [coin|] eqn:Ecoin.
  2: { eexists. split; [done|]. split; [apply Habs|done]. }
  apply recovered_coin in Ecoin as [Hlen Hb].
  destruct (coin_leader_range c coin Hsize Hb Hlen) as [Hsome Hrange].
  unfold coin_leader in *.
  destruct (coin_loop coin 0 RANDOM_LEN 0) as [rand|]; [|done]. simpl in *.
  rewrite (decide_False (P := Committee_Size c = 0)) by lia.
  rewrite !(decide_False (P := _ = NONE)) by (unfold NONE; lia).
  eexists. split; [done|]. split; [apply Habs|]. simpl.
  by rewrite lookup2_insert2_eq.
Qed.

(** The leader recorded after the answers [nodes]. *)
Definition last_leader (ld : option NodeID) (nodes : list NodeID) : option NodeID :=
  foldl (λ o node, if decide (node = NONE) then o else Some node) ld nodes.

Lemma AddShareVotes_log el l shares :
  elector_abs el l → Forall in_round shares →
  ∃ el', AddShareVotes el shares =
      Returns (map answer_of (outputs share_log l shares)) el' ∧
    lookup2 (el_leaders el') e r =
      last_leader (lookup2 (el_leaders el) e r)
        (map answer_of (outputs share_log l shares)).
Proof.
  intros Habs Hall. revert el l Habs.
  induction Hall as [|s shares Hs _ IH]; intros el l Habs; [by eexists|].
  destruct (AddShareVote_step el l s Habs Hs) as (el1 & Heq & Habs1 & Hld1).
  destruct (IH el1 _ Habs1) as (el2 & Heq2 & Hld2).
  exists el2. rewrite outputs_cons. cbn [AddShareVotes map].
  rewrite Heq, Heq2. split; [done|]. rewrite Hld2, Hld1. done.
Qed.

Lemma filter_answers (os : list (result NodeID)) :
  List.filter (λ n, negb (bool_decide (n = NONE))) (map answer_of os) =
  List.filter (λ n, negb (bool_decide (n = NONE))) (accepted os).
Proof.
  induction os as [|[n|err] os IH]; simpl; [done| |done].
  case_bool_decide; simpl; by rewrite IH.
Qed.

Lemma last_leader_filter ld nodes :
  last_leader ld nodes =
  last_leader ld (List.filter (λ n, negb (bool_decide (n = NONE))) nodes).
Proof.
  revert ld. induction nodes as [|n nodes IH]; intros ld; [done|].
  unfold last_leader in *. simpl. destruct (decide (n = NONE)) as [Hn|Hn].
  - rewrite bool_decide_eq_true_2 by done. simpl. apply IH.
  - rewrite bool_decide_eq_false_2 by done. simpl.
    rewrite decide_False by done. apply IH.
Qed.

(** The leader that a sequence of shares elects, if any. *)
Definition elected (shares : list ElectShare) : option NodeID :=
  let th := Z.to_nat (Committee_HightThreshold c) in
  if decide (th <= size (authors es_Author shares))%nat then
    let node := elect_rule (take th (firsts es_Author [] shares)) in
    if decide (node = NONE) then None else Some node
  else None.

Lemma AddShareVotes_elected shares :
  Forall in_round shares →
  ∃ nodes el', AddShareVotes (NewElector svc c) shares = Returns nodes el' ∧
    List.filter (λ n, negb (bool_decide (n = NONE))) nodes =
      option_list (elected shares) ∧
    (Elector_Leader el' e r).1 = default NONE (elected shares).
Proof.
  intros Hall. pose proof (HightThreshold_pos c) as Hth.
  destruct (AddShareVotes_log (NewElector svc c) [] shares) as (el' & Heq & Hld);
    [|done|].
  { split_and!; [done|done|apply NoDup_nil_2|]. simpl. by rewrite lookup2_empty. }
  eexists _, el'. split; [done|]. simpl. rewrite Hld. simpl. rewrite lookup2_empty.
  rewrite last_leader_filter, !filter_answers.
  assert (List.filter (λ n, negb (bool_decide (n = NONE)))
    (accepted (outputs share_log [] shares)) = option_list (elected shares)) as ->.
  { unfold share_log.
    rewrite (signals_at _ _ _ _ (Z.to_nat (Committee_HightThreshold c))); [|lia|].
    2: { intros p. unfold elect_rule. case_decide; [lia|].
         by rewrite bool_decide_eq_true_2. }
    unfold elected. rewrite <- length_firsts. case_decide; [|done]. cbv zeta.
    case_bool_decide; case_decide; done. }
  split; [done|]. unfold elected. case_decide; [|done]. cbv zeta.
  case_decide; [done|]. simpl. by rewrite decide_False.
Qed.
End runs.

(** ** Properties *)

(** C29 Election: on any sequence of shares of one round, in
    any order and with any repetition, the elector answers with a leader at
    most once, namely when the [HightThreshold]-th distinct author's share
    arrives and the shares combine; the leader is then recorded for the round,
    and it is a number below the size of the committee. *)
Theorem leader_election {CL : CryptoLib} {Hcoin : CoinLaw} c svc e r shares :
  0 < Committee_Size c → Forall (in_round e r) shares →
  ∃ nodes el, AddShareVotes (NewElector svc c) shares = Returns nodes el ∧
    List.filter (λ n, negb (bool_decide (n = NONE))) nodes =
      option_list (elected c svc e r shares) ∧
    (Elector_Leader el e r).1 = default NONE (elected c svc e r shares) ∧
    ∀ ld, elected c svc e r shares = Some ld → 0 <= ld < Committee_Size c.
Proof.
  intros Hc Hall.
  destruct (AddShareVotes_elected c svc e r Hc shares Hall) as (nodes & el & H1 & H2 & H3).
  exists nodes, el. split_and!; [done..|].
  intros ld. unfold elected. case_decide; [|done]. cbv zeta. case_decide; [done|].
  intros [= <-]. destruct (elect_rule_member c svc e r Hc
    (take (Z.to_nat (Committee_HightThreshold c)) (firsts es_Author [] shares))); done.
Qed.

(** What kyber documents of threshold BLS: a signature that is recovered from as many
    shares as the polynomial needs verifies, and a message has one valid signature under
    a public key. *)
Class BlsLaws {CL : CryptoLib} : Prop := {
  recover_verifies : ∀ pub d shares t n s,
    poly_Threshold pub <= t → tbls_Recover pub d shares t n = Ok s → bls_Verify pub d s = Ok tt;
  bls_unique : ∀ pub d s s',
    bls_Verify pub d s = Ok tt → bls_Verify pub d s' = Ok tt → s = s'
}.

(** The number of shares that a key is used with is enough for its polynomial. *)
Definition key_fits {CL : CryptoLib} (svc : SigService) : Prop :=
  poly_Threshold (ssk_PubPoly (ShareKey svc)) <= ssk_T (ShareKey svc).

(** Common coin: two nodes with the same group key that
    both elect a leader for an epoch and round elect the same one, whichever
    shares reached them. *)
Theorem same_leader {CL : CryptoLib} {Hbls : BlsLaws} c svc1 svc2 e r shares1 shares2 l1 l2 :
  ssk_PubPoly (ShareKey svc1) = ssk_PubPoly (ShareKey svc2) → key_fits svc1 → key_fits svc2 →
  elected c svc1 e r shares1 = Some l1 → elected c svc2 e r shares2 = Some l2 →
  l1 = l2.
Proof.
  intros Hpub. unfold key_fits, elected, elect_rule. intros Hf1 Hf2 H1 H2.
  repeat case_decide; try done.
  unfold CombineIntactTSPartial in *. rewrite <- Hpub in *.
  repeat case_match; simplify_eq; try done.
  f_equal. eapply bls_unique; (eapply recover_verifies; [|eassumption]); done.
Qed.

(** One share that does not verify, among those of the
    first [HightThreshold] authors, leaves the round without a leader for good:
    the failed combination is not retried with the shares that follow. *)
Theorem bad_share_blocks_round {CL : CryptoLib} {Hcoin : CoinLaw} c svc e r shares more err :
  let th := Z.to_nat (Committee_HightThreshold c) in
  0 < Committee_Size c → Forall (in_round e r) (shares ++ more) →
  (th <= size (authors es_Author shares))%nat →
  CombineIntactTSPartial (map es_SigShare (take th (firsts es_Author [] shares)))
    (ShareKey svc) (round_digest e r) = Err err →
  ∃ nodes el, AddShareVotes (NewElector svc c) (shares ++ more) = Returns nodes el ∧
    Forall (λ n, n = NONE) nodes ∧ (Elector_Leader el e r).1 = NONE.
Proof.
  intros th Hc Hall Hth Hbad.
  destruct (AddShareVotes_elected c svc e r Hc _ Hall) as (nodes & el & H1 & H2 & H3).
  assert (elected c svc e r (shares ++ more) = None) as Hnone.
  { unfold elected. case_decide; [|done]. cbv zeta. fold th.
    rewrite take_firsts_app by by rewrite length_firsts.
    unfold elect_rule. rewrite Hbad. repeat case_decide; done. }
  rewrite Hnone in H2, H3. exists nodes, el. split_and!; [done| |done].
  apply Forall_forall. intros n Hn. destruct (decide (n = NONE)) as [|Hne]; [done|].
  exfalso. assert (In n (List.filter (λ n, negb (bool_decide (n = NONE))) nodes)) as Hin.
  { apply List.filter_In. rewrite <- list_elem_of_In. split; [done|].
    by rewrite bool_decide_eq_false_2. }
  by rewrite H2 in Hin.
Qed.
