(* ===== verification/Coin.v ===== *)
(** * The common coin with dealt keys (src/crypto/crypto.go, [GenTSKeys])

    [GenTSKeys] deals the shares of a random polynomial.  Kyber's polynomials are a
    parameter, [KyberPoly]; what is relied on is that there are as many shares as asked
    for, that the polynomial needs no more of them than its threshold, and that [tbls.Recover] succeeds on the signature shares of as many different
    holders as the threshold says.

    The theorem puts the parts of the coin together, the dealt keys, the signing service,
    the shares that the core sends ([NewElectShare]) and the elector: nodes that have
    received the shares of a quorum elect a leader, all of them the same. *)

From stdpp Require Import base gmap list strings.
From S2P Require Import Prelude Committee Crypto Message VoteLog Aggreator Elector.

(** ** Kyber *)

(** kyber/share: polynomials over the scalars of a group, from a random stream *)
Class KyberPoly {CL : CryptoLib} : Type := {
  Random : Type;
  Secret : Type;
  PriPoly : Type;
  scalar_Pick : Random → Secret;
  NewPriPoly : Z → Secret → Random → PriPoly;
  poly_Commit : PriPoly → PubPoly;
  poly_Shares : PriPoly → Z → list PriShare
}.

Section coin.
Context {CL : CryptoLib} {KP : KyberPoly}.

(** [r] and [r'] are what the two random streams yield. *)
Definition GenTSKeys (r r' : Random) (t n : Z) : list PriShare * PubPoly :=
  let secret := scalar_Pick r in
  let priPoly := NewPriPoly t secret r' in
  let pubPoly := poly_Commit priPoly in
  let shares := poly_Shares priPoly n in
  (shares, pubPoly).

Class KyberPolyLaws : Prop := {
  commit_threshold : ∀ t s r, 0 < t → poly_Threshold (poly_Commit (NewPriPoly t s r)) <= t;
  shares_length : ∀ p n, length (poly_Shares p n) = Z.to_nat n;
  recover_dealt : ∀ t s r n d (holders : list nat) sigs,
    let p := NewPriPoly t s r in
    NoDup holders → Z.of_nat (length holders) = t → 0 < t <= n →
    Forall2 (λ i sig, ∃ share, poly_Shares p n !! i = Some share ∧ tbls_Sign share d = Ok sig)
      holders sigs →
    is_ok (tbls_Recover (poly_Commit p) d sigs t n) = true
}.

(** What the configuration needs of the dealt keys *)
Lemma GenTSKeys_length {PL : KyberPolyLaws} r r' t n : length (GenTSKeys r r' t n).1 = Z.to_nat n.
Proof. apply shares_length. Qed.

(** ** The keys of a committee *)

Section committee.
Context (c : Committee) (r r' : Random).

(** The service of member [i], with the keys that were dealt for the committee *)
Definition dealt (i : nat) (svc : SigService) : Prop :=
  let n := Committee_Size c in
  let T := Committee_HightThreshold c in
  let '(shares, pub) := GenTSKeys r r' T n in
  ∃ share, shares !! i = Some share ∧ ShareKey svc = mkSecretShareKey pub share n T.

(** A share that a member with such a key has made for a round *)
Definition honest_share (e ro : Z) (s : ElectShare) : Prop :=
  ∃ i svc, dealt i svc ∧ NewElectShare (Z.of_nat i) e ro svc = Ok s.

Lemma honest_share_spec e ro s :
  honest_share e ro s → in_round e ro s ∧ ∃ share, 0 <= es_Author s ∧
    (GenTSKeys r r' (Committee_HightThreshold c) (Committee_Size c)).1 !! Z.to_nat (es_Author s) =
      Some share ∧ tbls_Sign share (round_digest e ro) = Ok (es_SigShare s).
Proof.
  intros (i & svc & (share & Hs & Hk) & Hn). unfold NewElectShare in Hn.
  rewrite RequestTsSugnature_sign, Hk in Hn. simpl in Hn.
  destruct (tbls_Sign share _) as [sig|] eqn:Hsig; [|done]. injection Hn as <-. split; [done|].
  exists share. cbn [es_Author es_SigShare]. rewrite Nat2Z.id. split_and!; [lia|exact Hs|exact Hsig].
Qed.

Lemma HightThreshold_le_Size : 0 < Committee_Size c → Committee_HightThreshold c <= Committee_Size c.
Proof.
  intros Hc. unfold Committee_HightThreshold. set (n := Committee_Size c) in *.
  rewrite Z.quot_div_nonneg by lia. pose proof (Z.div_mod (n - 1) 3). pose proof (Z.mod_pos_bound (n - 1) 3).
  lia.
Qed.

(** The shares of a quorum combine. *)
Lemma quorum_combines {PL : KyberPolyLaws} i svc e ro shares :
  0 < Committee_Size c → dealt i svc → Forall (honest_share e ro) shares →
  (Z.to_nat (Committee_HightThreshold c) <= size (authors es_Author shares))%nat →
  is_ok (CombineIntactTSPartial
    (map es_SigShare (take (Z.to_nat (Committee_HightThreshold c)) (firsts es_Author [] shares)))
    (ShareKey svc) (round_digest e ro)) = true.
Proof.
  intros Hc (share & _ & Hk) Hall Hq. pose proof (HightThreshold_pos c) as Hpos.
  set (l := take _ _). assert (Forall (honest_share e ro) l) as Hl.
  { apply Forall_take, Forall_forall. intros s Hs%firsts_subset. rewrite Forall_forall in Hall. auto. }
  unfold CombineIntactTSPartial. rewrite Hk. cbn [ssk_PubPoly ssk_T ssk_N].
  apply (recover_dealt _ _ _ _ _ (map (λ s, Z.to_nat (es_Author s)) l)).
  - assert (NoDup (map es_Author l)) as Hnd.
    { unfold l. rewrite <-firstn_map. eapply sublist_NoDup; [apply (NoDup_firsts es_Author shares)|apply sublist_take]. }
    clear -Hnd Hl. induction Hl as [|s l Hs Hl IH]; [apply NoDup_nil_2|].
    cbn [map] in *. apply NoDup_cons in Hnd as [Hin Hnd]. apply NoDup_cons. split; [|by apply IH].
    intros (s' & He & Hs')%list_elem_of_fmap. apply Hin, list_elem_of_fmap. exists s'. split; [|done].
    destruct (honest_share_spec _ _ _ Hs) as (_ & _ & H1 & _).
    rewrite Forall_forall in Hl. destruct (honest_share_spec _ _ _ (Hl s' Hs')) as (_ & _ & H2 & _). lia.
  - rewrite length_map. unfold l. rewrite length_take, length_firsts. lia.
  - pose proof (HightThreshold_le_Size Hc). lia.
  - clear -Hl. induction Hl as [|s l Hs Hl IH]; [constructor|]. cbn [map]. constructor; [|exact IH].
    destruct (honest_share_spec _ _ _ Hs) as (_ & share & _ & H1 & H2). by exists share.
Qed.

(** The leader that the shares of a quorum elect: the one of the valid coin *)
Lemma quorum_elects {PL : KyberPolyLaws} {Hbls : BlsLaws} {Hcoin : CoinLaw} i svc e ro shares :
  0 < Committee_Size c → dealt i svc → Forall (honest_share e ro) shares →
  (Z.to_nat (Committee_HightThreshold c) <= size (authors es_Author shares))%nat →
  ∃ coin, bls_Verify (ssk_PubPoly (ShareKey svc)) (round_digest e ro) coin = Ok tt ∧
    elected c svc e ro shares = Some (coin_leader c coin) ∧ 0 <= coin_leader c coin < Committee_Size c.
Proof.
  intros Hc Hd Hall Hq. pose proof (quorum_combines _ _ _ _ _ Hc Hd Hall Hq) as Hok.
  pose proof (HightThreshold_pos c) as Hpos. unfold elected, elect_rule. rewrite decide_True by done.
  cbv zeta. set (l := take _ _) in *.
  assert (Z.of_nat (length l) = Committee_HightThreshold c) as Hlen.
  { unfold l. rewrite length_take, length_firsts. lia. }
  rewrite (decide_True _ _ Hlen).
  destruct (CombineIntactTSPartial _ _ _) as [coin|] eqn:Hcomb; [|done]. exists coin.
  unfold CombineIntactTSPartial in Hcomb. pose proof (recovered_coin _ _ _ _ _ _ Hcomb) as [Hl Hb].
  pose proof (coin_leader_range c coin Hc Hb Hl) as [_ Hr].
  split.
  { eapply recover_verifies; [|exact Hcomb]. destruct Hd as (share & _ & ->). simpl.
    apply commit_threshold. lia. }
  split; [|exact Hr].
  rewrite decide_False; [done|]. unfold NONE. lia.
Qed.

Lemma dealt_pub i svc j svc' :
  dealt i svc → dealt j svc' → ssk_PubPoly (ShareKey svc) = ssk_PubPoly (ShareKey svc').
Proof. by intros (? & _ & ->) (? & _ & ->). Qed.

(** C30 The coin is live and common: with the keys that [GenTSKeys] deals for a committee,
    any two nodes that have received the shares of a quorum for a round, made by members
    with these keys, in any order and with any repetition, each answer with a leader
    exactly once and record it; it is the same for both, and a number below the size of
    the committee. *)
Theorem quorum_elects_leader {PL : KyberPolyLaws} {Hbls : BlsLaws} {Hcoin : CoinLaw}
    e ro i svc shares i' svc' shares' :
  0 < Committee_Size c → dealt i svc → dealt i' svc' →
  Forall (honest_share e ro) shares → Forall (honest_share e ro) shares' →
  (Z.to_nat (Committee_HightThreshold c) <= size (authors es_Author shares))%nat →
  (Z.to_nat (Committee_HightThreshold c) <= size (authors es_Author shares'))%nat →
  ∃ ld, 0 <= ld < Committee_Size c ∧
    ∀ sv l, (sv, l) ∈ [(svc, shares); (svc', shares')] →
      ∃ nodes el, AddShareVotes (NewElector sv c) l = Returns nodes el ∧
        List.filter (λ n, negb (bool_decide (n = NONE))) nodes = [ld] ∧
        (Elector_Leader el e ro).1 = ld.
Proof.
  intros Hc Hd Hd' Hs Hs' Hq Hq'.
  destruct (quorum_elects _ _ _ _ _ Hc Hd Hs Hq) as (coin & Hv & He & Hr).
  destruct (quorum_elects _ _ _ _ _ Hc Hd' Hs' Hq') as (coin' & Hv' & He' & _).
  rewrite <-(dealt_pub _ _ _ _ Hd Hd') in Hv'.
  pose proof (bls_unique _ _ _ _ Hv Hv') as <-. exists (coin_leader c coin). split; [done|].
  assert (∀ l, Forall (honest_share e ro) l → Forall (in_round e ro) l) as Hround.
  { intros l Hl. eapply Forall_impl; [exact Hl|]. intros s Hh. by apply honest_share_spec. }
  intros sv l Hin. rewrite !elem_of_cons in Hin.
  destruct Hin as [[= -> ->]|[[= -> ->]|[]%not_elem_of_nil]];
    [destruct (AddShareVotes_elected c svc e ro Hc shares (Hround _ Hs)) as (nodes & el & H1 & H2 & H3);
     rewrite He in H2, H3
    |destruct (AddShareVotes_elected c svc' e ro Hc shares' (Hround _ Hs')) as (nodes & el & H1 & H2 & H3);
     rewrite He' in H2, H3]; by exists nodes, el.
Qed.
End committee.
End coin.
