(* ===== verification/Commitor.v ===== *)
(** * In-order commitment (src/core/smvba/consensus/commitor.go)

    [Commit] buffers a decided block under its epoch and then hands every block
    that is next in line to the committing goroutine.  The blocks sent on
    [commitCh] are recorded in [cm_committed].  The goroutine's own loop, which
    reads the payloads back from the mempool, is modelled in file Report.v.

    The theorems: whatever blocks are decided and in whatever order, the
    committed epochs are 0, 1, 2, ... without gap or repetition; exactly the
    epochs whose predecessors are all decided are committed; and two nodes that
    decide the same block per epoch have committed logs of which one is a
    prefix of the other. *)

From stdpp Require Import base gmap list strings.
From S2P Require Import Prelude Committee Crypto Message.

Record Committor : Type := mkCommittor {
  cm_Index : Z;
  cm_Blocks : gmap Z ConsensusBlock;
  cm_committed : list ConsensusBlock
}.

Definition NewCommittor : Committor := mkCommittor 0 ∅ [].

(** The [for] loop.  Each turn deletes one buffered block, so the number of
    buffered blocks bounds the turns. *)
Fixpoint commit_loop (fuel : nat) (c : Committor) : Committor :=
  match fuel with
  | O => c
  | S fuel =>
      match cm_Blocks c !! cm_Index c with
      | Some b =>
          commit_loop fuel (mkCommittor (cm_Index c + 1)
            (delete (cm_Index c) (cm_Blocks c)) (cm_committed c ++ [b]))
      | None => c
      end
  end.

Definition Committor_Commit (c : Committor) (block : ConsensusBlock) : Committor :=
  if decide (cb_Epoch block < cm_Index c) then c
  else
    let blocks := <[cb_Epoch block := block]> (cm_Blocks c) in
    commit_loop (S (size blocks)) (mkCommittor (cm_Index c) blocks (cm_committed c)).

(** The state after a sequence of calls. *)
Definition commits (bs : list ConsensusBlock) : Committor :=
  foldl Committor_Commit NewCommittor bs.

(** ** The loop *)

(** The number of turns is enough: the loop stops because the next epoch is
    not buffered. *)
Lemma commit_loop_done fuel c :
  (size (cm_Blocks c) < fuel)%nat →
  cm_Blocks (commit_loop fuel c) !! cm_Index (commit_loop fuel c) = None.
Proof.
  revert c. induction fuel as [|fuel IH]; intros c Hf; [lia|]. simpl.
  destruct (cm_Blocks c !! cm_Index c) eqn:E; [|done].
  apply IH. simpl. rewrite map_size_delete_Some by eauto.
  assert (size (cm_Blocks c) ≠ 0%nat); [|lia].
  intros H0%map_size_empty_inv. rewrite H0 in E. done.
Qed.

Lemma commit_loop_prefix fuel m : cm_committed m `prefix_of` cm_committed (commit_loop fuel m).
Proof.
  revert m. induction fuel as [|fuel IH]; intros m; simpl; [done|].
  destruct (cm_Blocks m !! cm_Index m); [|done]. etrans; [|apply IH].
  simpl. by eexists.
Qed.

Lemma Commit_prefix m b : cm_committed m `prefix_of` cm_committed (Committor_Commit m b).
Proof.
  unfold Committor_Commit. case_decide; [done|].
  etrans; [|apply commit_loop_prefix]. done.
Qed.

(** ** What a committor holds *)

Definition holds_block (c : Committor) (b : ConsensusBlock) : Prop :=
  b ∈ cm_committed c ∨ ∃ k, cm_Blocks c !! k = Some b.

Lemma commit_loop_holds fuel c b : holds_block (commit_loop fuel c) b → holds_block c b.
Proof.
  revert c. induction fuel as [|fuel IH]; intros c; simpl; [done|].
  destruct (cm_Blocks c !! cm_Index c) as [b'|] eqn:Hb; [|done].
  intros [Hin|[k Hk]]%IH; simpl in *.
  - apply elem_of_app in Hin as [Hin| ->%list_elem_of_singleton]; [by left|right; eauto].
  - apply lookup_delete_Some in Hk as [_ Hk]. right; eauto.
Qed.

(** Committing a block adds at most this block. *)
Lemma Commit_holds c block b :
  holds_block (Committor_Commit c block) b → holds_block c b ∨ b = block.
Proof.
  unfold Committor_Commit. case_decide; [by left|].
  intros [Hin|[k Hk]]%commit_loop_holds; simpl in *; [by left; left|].
  apply lookup_insert_Some in Hk as [[_ <-]|[_ Hk]]; [by right|left; right; eauto].
Qed.

(** A block of the next epoch is committed at once. *)
Lemma Commit_next c b :
  cb_Epoch b = cm_Index c → b ∈ cm_committed (Committor_Commit c b).
Proof.
  intros He. unfold Committor_Commit. rewrite decide_False by lia. simpl.
  rewrite He, lookup_insert_eq. apply (elem_of_prefix (cm_committed c ++ [b])).
  - set_solver.
  - apply commit_loop_prefix.
Qed.

(** [holds D c]: the state [c] after the decisions in [D]. *)
Record holds (D : list ConsensusBlock) (c : Committor) : Prop := mk_holds {
  hd_index : 0 <= cm_Index c;
  hd_epochs : map cb_Epoch (cm_committed c) = seqZ 0 (cm_Index c);
  hd_committed : ∀ b, b ∈ cm_committed c → b ∈ D;
  hd_buffer : ∀ k b, cm_Blocks c !! k = Some b →
    cb_Epoch b = k ∧ cm_Index c <= k ∧ b ∈ D;
  hd_complete : ∀ b, b ∈ D → 0 <= cb_Epoch b →
    cb_Epoch b < cm_Index c ∨ is_Some (cm_Blocks c !! cb_Epoch b)
}.

Lemma holds_loop D fuel c : holds D c → holds D (commit_loop fuel c).
Proof.
  revert c. induction fuel as [|fuel IH]; intros c Hc; [done|]. simpl.
  destruct (cm_Blocks c !! cm_Index c) as [b|] eqn:E; [|done].
  apply IH. destruct Hc as [Hi He Hcm Hb Hcp]. destruct (Hb _ _ E) as (Hk & _ & HD).
  split; simpl.
  - lia.
  - rewrite map_app, He. simpl. rewrite Hk, seqZ_app by lia. done.
  - intros b' [Hb'| ->%list_elem_of_singleton]%elem_of_app; auto.
  - intros k b' Hlk. apply lookup_delete_Some in Hlk as [Hne Hlk].
    destruct (Hb _ _ Hlk) as (? & ? & ?). split_and!; [done|lia|done].
  - intros b' HD' Hnn. destruct (Hcp b' HD' Hnn) as [Hlt|Hs]; [left; lia|].
    destruct (decide (cm_Index c = cb_Epoch b')); [left; lia|].
    right. by rewrite lookup_delete_ne.
Qed.

Lemma holds_Commit D c b :
  holds D c → cm_Blocks c !! cm_Index c = None →
  holds (D ++ [b]) (Committor_Commit c b) ∧
  cm_Blocks (Committor_Commit c b) !! cm_Index (Committor_Commit c b) = None.
Proof.
  intros Hc Hn. unfold Committor_Commit. case_decide as Hlt.
  - split; [|done]. destruct Hc as [Hi He Hcm Hb Hcp]. split; try done.
    + intros b' Hb'. apply elem_of_app. auto.
    + intros k b' Hlk. destruct (Hb _ _ Hlk) as (? & ? & ?).
      split_and!; [done..|]. apply elem_of_app. auto.
    + intros b' [HD| ->%list_elem_of_singleton]%elem_of_app Hnn; auto.
  - split; [|apply commit_loop_done; simpl; lia].
    apply holds_loop. destruct Hc as [Hi He Hcm Hb Hcp]. split; simpl; try done.
    + intros b' Hb'. apply elem_of_app. auto.
    + intros k b' [[<- <-]|[Hne Hlk]]%lookup_insert_Some.
      * split_and!; [done|lia|]. apply elem_of_app. right. by apply list_elem_of_singleton.
      * destruct (Hb _ _ Hlk) as (? & ? & ?). split_and!; [done..|].
        apply elem_of_app. auto.
    + intros b' HD Hnn. destruct (decide (cb_Epoch b = cb_Epoch b')) as [<-|Hne].
      { right. rewrite lookup_insert_eq. eauto. }
      rewrite lookup_insert_ne by done.
      apply elem_of_app in HD as [HD| ->%list_elem_of_singleton]; [auto|done].
Qed.

Lemma commits_snoc bs b : commits (bs ++ [b]) = Committor_Commit (commits bs) b.
Proof. unfold commits. by rewrite foldl_app. Qed.

Lemma holds_commits bs :
  holds bs (commits bs) ∧ cm_Blocks (commits bs) !! cm_Index (commits bs) = None.
Proof.
  induction bs as [|b bs [IH1 IH2]] using rev_ind.
  - split; [|done]. split; simpl; try done; set_solver.
  - rewrite commits_snoc. by apply holds_Commit.
Qed.

(** ** Properties *)

(** C10 Order: whatever blocks are decided, in whatever order
    and however often, the committed blocks are decided blocks whose epochs are
    exactly 0, 1, ..., Index-1, in this order; what is still buffered belongs
    to later epochs and waits for the epoch [Index]. *)
Theorem committed_in_order bs :
  let c := commits bs in
  map cb_Epoch (cm_committed c) = seqZ 0 (cm_Index c) ∧
  (∀ b, b ∈ cm_committed c → b ∈ bs) ∧
  (∀ k b, cm_Blocks c !! k = Some b → cb_Epoch b = k ∧ cm_Index c < k ∧ b ∈ bs).
Proof.
  destruct (holds_commits bs) as [[Hi He Hcm Hb Hcp] Hn]. split_and!; [done..|].
  intros k b Hk. destruct (Hb _ _ Hk) as (? & Hle & ?). split_and!; try done.
  assert (k ≠ cm_Index (commits bs)) by congruence. lia.
Qed.

(** C14 Progress: an epoch is committed exactly when it and
    all epochs before it have been decided, whatever the order of decisions. *)
Theorem committed_iff_contiguous bs k :
  0 <= k →
  k < cm_Index (commits bs) ↔ ∀ j, 0 <= j <= k → ∃ b, b ∈ bs ∧ cb_Epoch b = j.
Proof.
  destruct (holds_commits bs) as [[Hi He Hcm Hb Hcp] Hn]. intros Hk. split.
  - intros Hlt j Hj.
    assert (j ∈ map cb_Epoch (cm_committed (commits bs))) as Hin.
    { rewrite He. apply elem_of_seqZ. lia. }
    apply list_elem_of_In, in_map_iff in Hin as (b & Hbj & Hin).
    apply list_elem_of_In in Hin. eauto.
  - intros Hall. destruct (decide (k < cm_Index (commits bs))) as [|Hge]; [done|].
    destruct (Hall (cm_Index (commits bs))) as (b & HD & Hep); [lia|].
    destruct (Hcp b HD) as [Hlt|[b' Hs]]; [lia|lia|].
    rewrite Hep, Hn in Hs. done.
Qed.

Lemma committed_at bs k b :
  cm_committed (commits bs) !! k = Some b → b ∈ bs ∧ cb_Epoch b = Z.of_nat k.
Proof.
  destruct (holds_commits bs) as [[Hi He Hcm Hb Hcp] Hn]. intros Hk.
  split; [apply Hcm; by eapply list_elem_of_lookup_2|].
  assert (map cb_Epoch (cm_committed (commits bs)) !! k = Some (cb_Epoch b)) as Hm.
  { rewrite list_lookup_fmap. by rewrite Hk. }
  rewrite He, lookup_seqZ in Hm. lia.
Qed.

(** Agreement of logs: if two nodes never decide different
    blocks for one epoch, then one committed log is a prefix of the other. *)
Theorem committed_logs_agree bs1 bs2 :
  (∀ b1 b2, b1 ∈ bs1 → b2 ∈ bs2 → cb_Epoch b1 = cb_Epoch b2 → b1 = b2) →
  cm_committed (commits bs1) `prefix_of` cm_committed (commits bs2) ∨
  cm_committed (commits bs2) `prefix_of` cm_committed (commits bs1).
Proof.
  intros Hsame.
  set (l1 := cm_committed (commits bs1)). set (l2 := cm_committed (commits bs2)).
  assert (∀ k b1 b2, l1 !! k = Some b1 → l2 !! k = Some b2 → b1 = b2) as Hk.
  { intros k b1 b2 [H1 E1]%committed_at [H2 E2]%committed_at.
    apply Hsame; congruence. }
  destruct (decide (length l1 <= length l2)%nat) as [Hle|Hle];
    [left|right]; apply prefix_by_lookup; [lia|done|lia|].
  intros k x y Hx Hy. symmetry. by apply (Hk k).
Qed.
