(* ===== verification/Pool.v ===== *)
(** * The transaction pool (src/pool/pool.go, config.go, message.go)

    Transactions are put into a ring buffer and cut into batches of
    [batchSize], which are handed over on a channel.  The buffer's goroutine is
    the only one that touches its indices; [txQueue_put] is one turn of its
    loop.  The channel of batches is the list of batches that are waiting in
    it, oldest first.

    The theorem of interest is that the ring buffer is a queue: in every run
    the batches are the consecutive pieces of the stream of transactions. *)

From stdpp Require Import base gmap list strings.
From S2P Require Import Prelude.

Abbreviation Transaction := (list byte).

Record Batch : Type := mkBatch { bt_ID : Z; bt_Txs : list Transaction }.

#[export] Instance Batch_eq_dec : EqDecision Batch.
Proof. solve_decision. Defined.

(** [pool.Parameters] *)
Record PoolParameters : Type := mkPoolParameters {
  pp_Rate : Z;
  pp_TxSize : Z;
  pp_BatchSize : Z;
  pp_MaxQueueSize : Z
}.

Definition DefaultPoolParameters : PoolParameters := mkPoolParameters 1000 16 200 10000.

Record txQueue : Type := mkTxQueue {
  tq_queue : list Transaction;
  tq_batchChannel : list Batch;
  tq_wind : Z;
  tq_rind : Z;
  tq_nums : Z;
  tq_maxQueueSize : Z;
  tq_batchSize : Z;
  tq_N : Z;
  tq_Id : Z;
  tq_bcnt : Z
}.

Definition newTxQueue (maxQueueSize batchSize N Id : Z) : txQueue :=
  mkTxQueue (replicate (Z.to_nat maxQueueSize) []) [] 0 (-1) 0
    maxQueueSize batchSize N Id 0.

(** The loop of [make]: [n] more transactions, read at the index after [rind].
    [None] is the panic of an index out of range or a division by zero. *)
Fixpoint make_loop (n : nat) (q : txQueue) (txs : list Transaction)
  : option (txQueue * list Transaction) :=
  match n with
  | O => Some (q, txs)
  | S n =>
      if decide (tq_maxQueueSize q = 0) then None
      else
        let rind := Z.rem (tq_rind q + 1) (tq_maxQueueSize q) in
        if decide (rind < 0) then None
        else
          match tq_queue q !! Z.to_nat rind with
          | None => None
          | Some tx =>
              make_loop n
                (mkTxQueue (tq_queue q) (tq_batchChannel q) (tq_wind q) rind
                   (tq_nums q - 1) (tq_maxQueueSize q) (tq_batchSize q)
                   (tq_N q) (tq_Id q) (tq_bcnt q))
                (txs ++ [tx])
          end
  end.

Definition txQueue_make : GoM txQueue unit := λ q,
  let ID := tq_Id q + tq_N q * tq_bcnt q in
  match make_loop (Z.to_nat (tq_batchSize q)) q [] with
  | None => Crash "index out of range"
  | Some (q', txs) =>
      Returns tt
        (mkTxQueue (tq_queue q') (tq_batchChannel q' ++ [mkBatch ID txs])
           (tq_wind q') (tq_rind q') (tq_nums q') (tq_maxQueueSize q')
           (tq_batchSize q') (tq_N q') (tq_Id q') (tq_bcnt q' + 1))
  end.

(** One turn of [run]: a transaction that arrives when the buffer is full is
    dropped. *)
Definition txQueue_put (tx : Transaction) : GoM txQueue unit := λ q,
  if decide (tq_wind q = tq_rind q) then Returns tt q
  else if decide (tq_wind q < 0 ∨ Z.of_nat (length (tq_queue q)) <= tq_wind q)
  then Crash "index out of range"
  else if decide (tq_maxQueueSize q = 0) then Crash "integer divide by zero"
  else
    let q' := mkTxQueue (<[Z.to_nat (tq_wind q) := tx]> (tq_queue q))
      (tq_batchChannel q)
      (Z.rem (tq_wind q + 1) (tq_maxQueueSize q)) (tq_rind q) (tq_nums q + 1)
      (tq_maxQueueSize q) (tq_batchSize q) (tq_N q) (tq_Id q) (tq_bcnt q) in
    if decide (tq_batchSize q' <= tq_nums q') then txQueue_make q'
    else Returns tt q'.

(** [run] over the transactions received so far. *)
Fixpoint txQueue_run (txs : list Transaction) : GoM txQueue unit :=
  match txs with
  | [] => mret tt
  | tx :: txs => txQueue_put tx ;; txQueue_run txs
  end.

(** [get] never blocks: without a batch it answers the batch number -1. *)
Definition txQueue_get (q : txQueue) : Batch * txQueue :=
  match tq_batchChannel q with
  | b :: rest =>
      (b, mkTxQueue (tq_queue q) rest (tq_wind q) (tq_rind q) (tq_nums q)
            (tq_maxQueueSize q) (tq_batchSize q) (tq_N q) (tq_Id q) (tq_bcnt q))
  | [] => (mkBatch (-1) [], q)
  end.

(** [pool.Pool]: its own parameters and the queue. *)
Definition NewPool (parameters : PoolParameters) (N Id : Z) : txQueue :=
  newTxQueue (pp_MaxQueueSize parameters) (pp_BatchSize parameters) N Id.

Definition Pool_GetBatch : txQueue → Batch * txQueue := txQueue_get.

(** What the transaction maker sends per tick: [rate / PRECISION] transactions
    of [txSize] zero bytes. *)
Definition PRECISION : Z := 20.
Definition BURST_DURATION : Z := 1000 `quot` PRECISION.

Definition txMaker_burst (txSize rate : Z) : list Transaction :=
  replicate (Z.to_nat (rate `quot` PRECISION)) (replicate (Z.to_nat txSize) 0).

(** ** The ring buffer as a queue *)

Section ring.
Context (mx bs : nat) (N Id : Z).
Hypothesis Hbs : (0 < bs)%nat.
Hypothesis Hmx : (bs <= mx)%nat.

(** The piece of the stream that batch [i] holds. *)
Definition piece (txs : list Transaction) (i : nat) : list Transaction :=
  take bs (drop (i * bs) txs).
Definition batch_of (txs : list Transaction) (i : nat) : Batch :=
  mkBatch (Id + N * Z.of_nat i) (piece txs i).

Definition read_index (rd : nat) : Z :=
  if decide (rd = 0%nat) then -1 else Z.of_nat ((rd - 1) mod mx).

(** The slots of the positions [lo..w) of the stream hold the stream. *)
Definition slots (txs : list Transaction) (queue : list Transaction) (lo w : nat) : Prop :=
  length queue = mx ∧
  ∀ j, (lo <= j < w)%nat → queue !! (j mod mx)%nat = txs !! j.

(** The state after the transactions [txs] were accepted and [m] batches were
    cut, of which [out] are in the channel. *)
Definition ring (txs : list Transaction) (m : nat) (out : list Batch) (q : txQueue)
  : Prop :=
  tq_maxQueueSize q = Z.of_nat mx ∧ tq_batchSize q = Z.of_nat bs ∧
  tq_N q = N ∧ tq_Id q = Id ∧ tq_bcnt q = Z.of_nat m ∧
  tq_batchChannel q = out ∧
  tq_wind q = Z.of_nat (length txs mod mx) ∧
  tq_rind q = read_index (m * bs) ∧
  tq_nums q = Z.of_nat (length txs - m * bs) ∧
  (m * bs <= length txs)%nat ∧
  slots txs (tq_queue q) (m * bs) (length txs).

Lemma mod_eq_near (a b : nat) : (a <= b < a + mx)%nat → (a mod mx = b mod mx)%nat → a = b.
Proof.
  intros Hab Heq.
  pose proof (Nat.div_mod_eq a mx) as Ha. pose proof (Nat.div_mod_eq b mx) as Hb.
  rewrite Heq in Ha.
  assert (a / mx = b / mx)%nat; [|congruence].
  assert (mx * (b / mx) = mx * (a / mx) + (b - a))%nat by lia. nia.
Qed.

Lemma rem_succ (k : nat) : Z.rem (Z.of_nat (k mod mx) + 1) (Z.of_nat mx) = Z.of_nat (S k mod mx).
Proof.
  rewrite Z.rem_mod_nonneg by lia. rewrite !Nat2Z.inj_mod, Nat2Z.inj_succ.
  rewrite Zplus_mod_idemp_l. f_equal.
Qed.

Lemma read_index_succ rd : Z.rem (read_index rd + 1) (Z.of_nat mx) = Z.of_nat (rd mod mx).
Proof.
  unfold read_index. case_decide as H.
  - subst. simpl. rewrite Nat.Div0.mod_0_l. by rewrite Z.rem_0_l by lia.
  - rewrite rem_succ. do 2 f_equal. lia.
Qed.

Lemma read_index_S rd : read_index (S rd) = Z.of_nat (rd mod mx).
Proof. unfold read_index. simpl. by rewrite Nat.sub_0_r. Qed.

(** The loop of [make] reads the stream from the position [rd] on. *)
Lemma make_loop_reads txs n q rd acc :
  tq_maxQueueSize q = Z.of_nat mx → tq_rind q = read_index rd →
  (rd + n <= length txs)%nat → slots txs (tq_queue q) rd (length txs) →
  make_loop n q acc =
    Some (mkTxQueue (tq_queue q) (tq_batchChannel q) (tq_wind q) (read_index (rd + n))
            (tq_nums q - Z.of_nat n) (tq_maxQueueSize q) (tq_batchSize q)
            (tq_N q) (tq_Id q) (tq_bcnt q),
          acc ++ take n (drop rd txs)).
Proof.
  revert q rd acc. induction n as [|n IH]; intros q rd acc Hm Hr Hl Hs; simpl.
  - rewrite Nat.add_0_r, app_nil_r, <- Hr, Z.sub_0_r. by destruct q.
  - rewrite Hm, Hr, read_index_succ. rewrite (decide_False (P := Z.of_nat mx = 0)) by lia.
    rewrite (decide_False (P := Z.of_nat _ < 0)) by lia. rewrite Nat2Z.id.
    destruct Hs as [Hlen Hs]. rewrite Hs by lia.
    destruct (lookup_lt_is_Some_2 txs rd) as [tx Htx]; [lia|]. rewrite Htx.
    rewrite (IH _ (S rd)); simpl; [|done|by rewrite read_index_S|lia|].
    2: { split; [done|]. intros j Hj. apply Hs. lia. }
    rewrite (drop_S txs tx rd Htx). simpl. rewrite <- (assoc_L (++)). simpl.
    rewrite <- Nat.add_succ_comm. do 3 f_equal. lia.
Qed.

(** A transaction is accepted while fewer than [mx - 1] wait, and also as
    long as nothing was read yet. *)
Lemma not_full txs m out q :
  ring txs m out q → (m = 0 ∨ length txs - m * bs + 1 < mx)%nat →
  tq_wind q ≠ tq_rind q.
Proof.
  intros (_ & _ & _ & _ & _ & _ & Hw & Hr & _ & Hle & _) Hroom. rewrite Hw, Hr.
  unfold read_index. case_decide as H0; [lia|]. intros Heq%Nat2Z.inj.
  symmetry in Heq. apply mod_eq_near in Heq; lia.
Qed.

Lemma slots_write txs queue lo tx :
  slots txs queue lo (length txs) → (length txs - lo < mx)%nat →
  slots (txs ++ [tx]) (<[(length txs mod mx)%nat := tx]> queue) lo (length (txs ++ [tx])).
Proof.
  intros [Hlen Hs] Hroom. rewrite length_app. simpl. split; [by rewrite length_insert|].
  intros j Hj. destruct (decide (j = length txs)) as [->|Hne].
  - rewrite list_lookup_insert_eq.
    + by rewrite lookup_app_r, Nat.sub_diag by lia.
    + rewrite Hlen. apply Nat.mod_upper_bound. lia.
  - rewrite list_lookup_insert_ne.
    + rewrite lookup_app_l by lia. apply Hs. lia.
    + intros Heq. symmetry in Heq. apply mod_eq_near in Heq; lia.
Qed.

Lemma put_step txs m out q tx :
  ring txs m out q → (length txs - m * bs < bs)%nat →
  (m = 0 ∨ length txs - m * bs + 1 < mx)%nat →
  ∃ q', txQueue_put tx q = Returns tt q' ∧
    if decide (length txs + 1 - m * bs = bs)%nat
    then ring (txs ++ [tx]) (m + 1) (out ++ [batch_of (txs ++ [tx]) m]) q'
    else ring (txs ++ [tx]) m out q'.
Proof.
  intros Hring Hlt Hroom. pose proof (not_full _ _ _ _ Hring Hroom) as Hnf.
  destruct Hring as (Hm & Hb & HN & HI & Hc & Ho & Hw & Hr & Hn & Hle & Hs).
  pose proof (slots_write _ _ _ tx Hs ltac:(lia)) as Hs'.
  pose proof (Nat.mod_upper_bound (length txs) mx ltac:(lia)) as Hub.
  unfold txQueue_put. rewrite decide_False by done.
  destruct Hs as [Hlen _]. rewrite (decide_False (P := _ ∨ _)) by (rewrite Hw, Hlen; lia).
  rewrite (decide_False (P := _ = 0)) by lia. cbn [tq_batchSize tq_nums].
  rewrite Hb, Hn, Hw, Nat2Z.id, Hm, rem_succ.
  destruct (decide (length txs + 1 - m * bs = bs)%nat) as [Hfull|Hnot].
  - rewrite decide_True by lia. unfold txQueue_make. cbn [tq_batchSize].
    rewrite Nat2Z.id, (make_loop_reads (txs ++ [tx]) _ _ (m * bs)); cbn; try done.
    2: { rewrite length_app. simpl. lia. }
    eexists. split; [done|].
    unfold ring, batch_of, piece. simpl. rewrite Ho, HI, HN, Hc, length_app. simpl.
    split_and!; try done; try lia; try (do 2 f_equal; lia).
    split; [by destruct Hs'|]. intros j Hj. apply Hs'. rewrite length_app. simpl. lia.
  - rewrite decide_False by lia. eexists. split; [done|].
    unfold ring. simpl. rewrite length_app. simpl.
    split_and!; try done; try lia; try (do 2 f_equal; lia).
    by rewrite length_app in Hs'.
Qed.

Lemma piece_stable txs tx i :
  ((i + 1) * bs <= length txs)%nat → batch_of (txs ++ [tx]) i = batch_of txs i.
Proof.
  intros Hi. unfold batch_of, piece. f_equal.
  rewrite drop_app_le by lia. rewrite take_app_le; [done|]. rewrite length_drop. lia.
Qed.

(** The batches cut from a stream, in the order they are sent. *)
Definition batches (m : nat) (txs : list Transaction) : list Batch :=
  map (batch_of txs) (seq 0 m).

Lemma batches_snoc m txs tx :
  (m * bs <= length txs)%nat → batches m (txs ++ [tx]) = batches m txs.
Proof.
  intros Hm. apply map_ext_in. intros i Hi%in_seq. apply piece_stable. nia.
Qed.

Lemma div_succ (n m : nat) :
  (m = n / bs)%nat →
  (n - m * bs < bs)%nat ∧ (m * bs <= n)%nat ∧
  ((n + 1) / bs = if decide (n + 1 - m * bs = bs)%nat then m + 1 else m)%nat.
Proof.
  intros ->. pose proof (Nat.div_mod_eq n bs) as Hd.
  pose proof (Nat.mod_upper_bound n bs ltac:(lia)) as Hm.
  split_and!; [lia|lia|]. case_decide as Hc.
  - symmetry. apply (Nat.div_unique _ _ _ 0); lia.
  - symmetry. apply (Nat.div_unique _ _ _ (n mod bs + 1)); lia.
Qed.

(** The state after a stream of which everything was accepted. *)
Definition queue_of (txs : list Transaction) (q : txQueue) : Prop :=
  ring txs (length txs / bs) (batches (length txs / bs) txs) q.

Lemma put_queue txs q tx :
  queue_of txs q →
  (length txs / bs = 0 ∨ length txs mod bs + 1 < mx)%nat →
  ∃ q', txQueue_put tx q = Returns tt q' ∧ queue_of (txs ++ [tx]) q'.
Proof.
  intros Hq Hroom. unfold queue_of in *.
  destruct (div_succ (length txs) _ eq_refl) as (H1 & H2 & H3).
  pose proof (Nat.div_mod_eq (length txs) bs) as Hd.
  destruct (put_step _ _ _ _ tx Hq H1 ltac:(lia)) as (q' & Heq & Hr).
  exists q'. split; [done|]. rewrite length_app. simpl. rewrite H3.
  case_decide; [|by rewrite batches_snoc by done].
  unfold batches in *. rewrite seq_app, map_app. simpl.
  fold (batches (length txs / bs) (txs ++ [tx])). by rewrite batches_snoc.
Qed.

Lemma new_queue : queue_of [] (newTxQueue (Z.of_nat mx) (Z.of_nat bs) N Id).
Proof.
  unfold queue_of, newTxQueue, ring, batches. simpl. rewrite Nat.Div0.div_0_l. simpl.
  rewrite Nat2Z.id. split_and!; try done; try lia.
  - by rewrite Nat.Div0.mod_0_l.
  - split; [apply length_replicate|]. lia.
Qed.
End ring.

Lemma txQueue_run_app txs txs' q :
  txQueue_run (txs ++ txs') q =
    match txQueue_run txs q with
    | Returns _ q' => txQueue_run txs' q'
    | Crash w => Crash w
    end.
Proof.
  revert q. induction txs as [|tx txs IH]; intros q; [done|].
  simpl. unfold mbind, GoM_bind. destruct (txQueue_put tx q); [apply IH|done].
Qed.

(** ** Properties *)

(** The ring buffer is a queue: if a batch is smaller than
    the buffer, then for every stream of transactions the pool never panics and
    never drops a transaction, and the batches it sends are the consecutive
    pieces of the stream of [batchSize] transactions, the [i]-th with the number
    [Id + N * i]. *)
Theorem pool_batches_stream (mx bs : nat) N Id txs :
  (0 < bs < mx)%nat →
  ∃ q, txQueue_run txs (newTxQueue (Z.of_nat mx) (Z.of_nat bs) N Id) = Returns tt q ∧
    tq_batchChannel q = batches bs N Id (length txs / bs) txs ∧
    tq_nums q = Z.of_nat (length txs mod bs).
Proof.
  intros Hb.
  assert (∃ q, txQueue_run txs (newTxQueue (Z.of_nat mx) (Z.of_nat bs) N Id)
    = Returns tt q ∧ queue_of mx bs N Id txs q) as (q & Heq & Hq).
  { induction txs as [|tx txs (q & Heq & Hq)] using rev_ind.
    { eexists. split; [done|]. apply new_queue; lia. }
    pose proof (Nat.mod_upper_bound (length txs) bs ltac:(lia)).
    destruct (put_queue mx bs N Id ltac:(lia) ltac:(lia) txs q tx Hq) as (q' & Hput & Hq');
      [lia|].
    exists q'. rewrite txQueue_run_app, Heq. simpl.
    unfold mbind, GoM_bind. by rewrite Hput. }
  exists q. destruct Hq as (_ & _ & _ & _ & _ & Ho & _ & _ & Hn & _).
  split_and!; [done..|]. rewrite Hn. f_equal.
  pose proof (Nat.div_mod_eq (length txs) bs). lia.
Qed.

(** Batch numbers are unique in the system: two batches of
    nodes below [N] have the same number only if they are the same batch of the
    same node. *)
Theorem batch_numbers_unique N Id Id' bs bs' i j txs txs' :
  0 <= Id < N → 0 <= Id' < N →
  bt_ID (batch_of bs N Id txs i) = bt_ID (batch_of bs' N Id' txs' j) →
  Id = Id' ∧ i = j.
Proof.
  simpl. intros H1 H2 Heq. assert (Z.of_nat i = Z.of_nat j) by nia. lia.
Qed.

Section stuck.
Context (mx : nat) (N Id : Z).
Hypothesis Hmx : (0 < mx)%nat.
(** What the buffer can accept in all when a batch fills it. *)
Let room := (2 * mx - 1)%nat.

Lemma room_div : (room / mx = 1)%nat ∧ (room mod mx = mx - 1)%nat.
Proof.
  unfold room. replace (2 * mx - 1)%nat with (1 * mx + (mx - 1))%nat by lia.
  rewrite Nat.div_add_l, Nat.div_small, Nat.Div0.add_mod, Nat.Div0.mod_mul by lia.
  split; [lia|]. simpl. rewrite Nat.Div0.mod_mod. apply Nat.mod_small. lia.
Qed.

Lemma room_full txs q tx :
  length txs = room → queue_of mx mx N Id txs q → txQueue_put tx q = Returns tt q.
Proof.
  intros Hlen (_ & _ & _ & _ & _ & _ & Hw & Hr & _). unfold txQueue_put.
  destruct room_div as [Hd Hm]. rewrite Hlen, Hd in *.
  rewrite decide_True; [done|]. rewrite Hw, Hr, Hm. unfold read_index.
  rewrite decide_False by lia. f_equal. rewrite Nat.mod_small; lia.
Qed.

Lemma stuck_run txs :
  ∃ q, txQueue_run txs (newTxQueue (Z.of_nat mx) (Z.of_nat mx) N Id) = Returns tt q ∧
    queue_of mx mx N Id (take room txs) q.
Proof.
  induction txs as [|tx txs (q & Heq & Hq)] using rev_ind.
  { eexists. split; [done|]. rewrite take_nil. apply new_queue; lia. }
  rewrite txQueue_run_app, Heq. simpl. unfold mbind, GoM_bind.
  destruct (decide (length txs < room)%nat) as [Hlt|Hge].
  - rewrite take_ge in Hq by lia. rewrite take_ge by (rewrite length_app; simpl; lia).
    pose proof (Nat.div_mod_eq (length txs) mx) as Hd.
    pose proof (Nat.mod_upper_bound (length txs) mx ltac:(lia)) as Hu.
    destruct (put_queue mx mx N Id ltac:(lia) ltac:(lia) txs q tx Hq) as (q' & Hput & Hq').
    + destruct (length txs / mx)%nat as [|[|k]] eqn:Ek; [by left|right|right];
        unfold room in Hlt; nia.
    + exists q'. by rewrite Hput.
  - exists q. rewrite (room_full (take room txs)); [|rewrite length_take; lia|done].
    split; [done|]. by rewrite take_app_le by lia.
Qed.
End stuck.

(** A batch that fills the buffer stops the pool: when
    [BatchSize] equals [MaxQueueSize] the pool sends one batch and then drops
    transactions without ever sending another, however many arrive. *)
Theorem pool_stuck_on_full_batch (mx : nat) N Id txs :
  (0 < mx)%nat →
  ∃ q, txQueue_run txs (newTxQueue (Z.of_nat mx) (Z.of_nat mx) N Id) = Returns tt q ∧
    tq_batchChannel q = batches mx N Id ((length txs / mx) `min` 1) txs.
Proof.
  intros Hmx. destruct (stuck_run mx N Id Hmx txs) as (q & Heq & Hq).
  exists q. split; [done|].
  destruct Hq as (_ & _ & _ & _ & _ & -> & _).
  destruct (decide (length txs < 2 * mx - 1)%nat) as [Hlt|Hge].
  - rewrite take_ge by lia. f_equal.
    enough (length txs / mx < 2)%nat by lia. apply Nat.Div0.div_lt_upper_bound. lia.
  - rewrite length_take, (Nat.min_l (2 * mx - 1) (length txs)) by lia.
    destruct (room_div mx Hmx) as [-> _].
    assert (1 <= length txs / mx)%nat by (apply Nat.div_le_lower_bound; lia).
    rewrite Nat.min_r by lia. unfold batches, batch_of, piece. simpl. do 2 f_equal.
    rewrite !drop_0, take_take. f_equal. lia.
Qed.
