(* ===== verification/PoolRun.v ===== *)
(** * The goroutines of the transaction pool (src/pool/pool.go)

    The maker puts transactions on a channel of 10,000 places, a burst per tick; the loop
    of the queue takes them off, keeps them in its ring buffer (Pool.v) and puts full
    batches on another channel of 10,000 places, from which [GetBatch] takes them.  The
    three run in any order; each waits while its channel is full or empty, but
    [GetBatch] answers with the batch number -1 instead.

    The theorem: whatever the order, nothing is lost, reordered or handed out twice, and
    the pool holds a bounded number of transactions. *)

From stdpp Require Import base list strings.
From S2P Require Import Prelude Pool.

Record txMaker : Type := mkTxMaker { tk_txSize : Z; tk_rate : Z }.

Definition newTxMaker (txSize rate : Z) : txMaker := mkTxMaker txSize rate.

(** [Pool]: [po_left] is what the maker still has to make for the current tick.
    [po_made] and [po_got] record what was made and what [GetBatch] has answered. *)
Record Pool : Type := mkPool {
  po_parameters : PoolParameters;
  po_queue : txQueue;
  po_maker : txMaker;
  po_txChannel : list Transaction;
  po_left : Z;
  po_made : nat;
  po_got : list Batch
}.

Definition POOL_CHANNEL : Z := 10000.

(** The channel of batches is part of the queue. *)
Definition Pool_New (parameters : PoolParameters) (N Id : Z) : Pool :=
  mkPool parameters (newTxQueue (pp_MaxQueueSize parameters) (pp_BatchSize parameters) N Id)
    (newTxMaker (pp_TxSize parameters) (pp_Rate parameters)) [] 0 0 [].

Definition BatchChannel (p : Pool) : list Batch := tq_batchChannel (po_queue p).

(** The goroutines of [Pool.Run], and the calls of [GetBatch] *)
Inductive pool_event : Type :=
  | PTick
  | PMake
  | PQueue
  | PGet.

(** The loop of [txMaker.run]: a tick, or the next transaction of a burst *)
Definition txMaker_tick (p : Pool) : option Pool :=
  if decide (po_left p <= 0) then
    Some (mkPool (po_parameters p) (po_queue p) (po_maker p) (po_txChannel p)
      (tk_rate (po_maker p) `quot` PRECISION) (po_made p) (po_got p))
  else None.

Definition txMaker_make (p : Pool) : option Pool :=
  if decide (0 < po_left p) then
    ch ← chan_send POOL_CHANNEL (replicate (Z.to_nat (tk_txSize (po_maker p))) 0) (po_txChannel p);
    Some (mkPool (po_parameters p) (po_queue p) (po_maker p) ch (po_left p - 1) (S (po_made p)) (po_got p))
  else None.

(** A turn of [txQueue.run].  The queue waits while it has a batch to send and the
    channel is full. *)
Definition makes_batch (q : txQueue) : bool :=
  negb (bool_decide (tq_wind q = tq_rind q)) && bool_decide (tq_batchSize q <= tq_nums q + 1).

Definition txQueue_turn (p : Pool) : option (outcome Pool unit) :=
  '(tx, ch) ← chan_recv (po_txChannel p);
  if makes_batch (po_queue p) && bool_decide (POOL_CHANNEL <= Z.of_nat (length (BatchChannel p)))
  then None
  else
    Some match txQueue_put tx (po_queue p) with
         | Crash e => Crash e
         | Returns _ q =>
             Returns tt (mkPool (po_parameters p) q (po_maker p) ch (po_left p) (po_made p) (po_got p))
         end.

Definition Pool_get (p : Pool) : Pool :=
  let '(b, q) := txQueue_get (po_queue p) in
  mkPool (po_parameters p) q (po_maker p) (po_txChannel p) (po_left p) (po_made p) (po_got p ++ [b]).

(** [None] is waiting. *)
Definition pool_exec (ev : pool_event) (p : Pool) : option (outcome Pool unit) :=
  match ev with
  | PTick => Returns tt <$> txMaker_tick p
  | PMake => Returns tt <$> txMaker_make p
  | PQueue => txQueue_turn p
  | PGet => Some (Returns tt (Pool_get p))
  end.

Fixpoint pool_run (evs : list pool_event) (p : Pool) : option (outcome Pool unit) :=
  match evs with
  | [] => Some (Returns tt p)
  | ev :: evs =>
      match pool_exec ev p with
      | Some (Returns _ p') => pool_run evs p'
      | r => r
      end
  end.

(** *** The stream *)

Section stream.
Context (parameters : PoolParameters) (mx bs : nat) (N Id : Z).
Hypothesis Hmx : pp_MaxQueueSize parameters = Z.of_nat mx.
Hypothesis Hbs : pp_BatchSize parameters = Z.of_nat bs.
Hypothesis Hroom : (0 < bs < mx)%nat.

Abbreviation zero_tx := (replicate (Z.to_nat (pp_TxSize parameters)) 0).

(** The batches that [GetBatch] has answered, without the empty answers *)
Definition real (bs : list Batch) : list Batch :=
  List.filter (λ b, negb (bool_decide (b = mkBatch (-1) []))) bs.

(** [n] transactions were taken off the channel, all of them are in a batch or in the
    ring buffer, and the batches were answered in order, or wait. *)
Record pool_inv (p : Pool) : Prop := mkPoolInv {
  pi_maker : po_maker p = newTxMaker (pp_TxSize parameters) (pp_Rate parameters);
  pi_stream : ∃ n, (n + length (po_txChannel p) = po_made p)%nat ∧
    ring mx bs N Id (replicate n zero_tx) (n / bs) (BatchChannel p) (po_queue p) ∧
    real (po_got p) ++ BatchChannel p = batches bs N Id (n / bs) (replicate n zero_tx);
  pi_zero : po_txChannel p = replicate (length (po_txChannel p)) zero_tx;
  pi_tx_room : Z.of_nat (length (po_txChannel p)) <= POOL_CHANNEL;
  pi_batch_room : Z.of_nat (length (BatchChannel p)) <= POOL_CHANNEL
}.

Lemma new_pool_inv : pool_inv (Pool_New parameters N Id).
Proof.
  split; simpl; try done. exists 0%nat. split; [done|].
  pose proof (new_queue mx bs N Id ltac:(lia) ltac:(lia)) as Hq. unfold queue_of in Hq. simpl in Hq.
  unfold BatchChannel. simpl. rewrite Hmx, Hbs. rewrite Nat.Div0.div_0_l in *. done.
Qed.

(** The queue takes a transaction: it never panics, and never finds the buffer full. *)
Lemma queue_turn_inv p tx ch :
  pool_inv p → po_txChannel p = tx :: ch →
  makes_batch (po_queue p) && bool_decide (POOL_CHANNEL <= Z.of_nat (length (BatchChannel p))) = false →
  ∃ q, txQueue_put tx (po_queue p) = Returns tt q ∧
    pool_inv (mkPool (po_parameters p) q (po_maker p) ch (po_left p) (po_made p) (po_got p)).
Proof.
  intros [Hmk (n & Hn & Hring & Hb) Hz Htr Hbr] Hch Hwait. rewrite Hch in *. simpl in *.
  injection Hz as -> Hz.
  destruct (div_succ mx bs ltac:(lia) ltac:(lia) n _ eq_refl) as (H1 & H2 & H3).
  assert (length (replicate n zero_tx) = n) as Hlen by apply length_replicate.
  assert (n / bs = 0 ∨ length (replicate n zero_tx) - n / bs * bs + 1 < mx)%nat as Hfit by lia.
  destruct (put_step mx bs N Id ltac:(lia) ltac:(lia) _ _ _ _ zero_tx Hring ltac:(lia) Hfit)
    as (q & Hput & Hq). exists q. split; [done|].
  assert (replicate n zero_tx ++ [zero_tx] = replicate (n + 1) zero_tx) as Hrep.
  { by rewrite replicate_add. }
  pose proof (not_full mx bs N Id ltac:(lia) ltac:(lia) _ _ _ _ Hring Hfit) as Hnf.
  pose proof Hring as (_ & Hqb & _ & _ & _ & _ & _ & _ & Hnums & _).
  rewrite Hlen, Hrep in *. split; simpl; try done; [|lia|].
  - exists (n + 1)%nat. split; [lia|]. unfold BatchChannel in *. simpl. rewrite H3.
    destruct (decide (n + 1 - n / bs * bs = bs)%nat).
    + pose proof Hq as (_ & _ & _ & _ & _ & Hout & _). rewrite Hout. split; [done|].
      rewrite app_assoc, Hb. unfold batches. rewrite seq_app, map_app. simpl.
      rewrite <-Hrep at 2. fold (batches bs N Id (n / bs) (replicate n zero_tx ++ [zero_tx])).
      rewrite (batches_snoc mx) by (rewrite ?length_replicate; lia). done.
    + pose proof Hq as (_ & _ & _ & _ & _ & Hout & _). rewrite Hout. split; [done|].
      rewrite Hb, <-Hrep. by rewrite (batches_snoc mx) by (rewrite ?length_replicate; lia).
  - unfold BatchChannel in *. simpl. destruct (decide (n + 1 - n / bs * bs = bs)%nat).
    + pose proof Hq as (_ & _ & _ & _ & _ & Hout & _). rewrite Hout, length_app. simpl.
      apply andb_false_iff in Hwait as [Hmb|Hfull].
      * unfold makes_batch in Hmb. rewrite bool_decide_eq_false_2 in Hmb by done.
        rewrite bool_decide_eq_true_2 in Hmb; [done|]. rewrite Hqb, Hnums. lia.
      * apply bool_decide_eq_false in Hfull. lia.
    + pose proof Hq as (_ & _ & _ & _ & _ & Hout & _). by rewrite Hout.
Qed.

(** [GetBatch] answers the oldest batch. *)
Lemma get_inv p : pool_inv p → pool_inv (Pool_get p).
Proof.
  intros [Hmk (n & Hn & Hring & Hb) Hz Htr Hbr]. unfold Pool_get, txQueue_get, BatchChannel in *.
  destruct (tq_batchChannel (po_queue p)) as [|b rest] eqn:Hch.
  - split; simpl; try done; [|by unfold BatchChannel; simpl; rewrite Hch]. exists n. unfold BatchChannel. simpl. rewrite Hch.
    split_and!; [done|done|]. unfold real. rewrite List.filter_app. simpl.
    by rewrite app_nil_r.
  - split; simpl; try done; [|unfold BatchChannel; simpl in *; lia].
    exists n. unfold BatchChannel. simpl. split_and!; [done| |].
    + destruct Hring as (?&?&?&?&?&_&?&?&?&?&?). unfold ring. simpl. by split_and!.
    + unfold real in *. rewrite List.filter_app. simpl.
      rewrite bool_decide_eq_false_2; [by rewrite <-app_assoc|]. intros ->.
      assert (mkBatch (-1) [] ∈ batches bs N Id (n / bs) (replicate n zero_tx)) as Hin.
      { rewrite <-Hb. apply elem_of_app. right. left. }
      unfold batches in Hin. apply list_elem_of_In, in_map_iff in Hin as (i & Hi & Hseq%in_seq).
      unfold batch_of, piece in Hi. injection Hi as _ Hp. apply (f_equal length) in Hp.
      rewrite length_take, length_drop, length_replicate in Hp. simpl in Hp.
      pose proof (Nat.div_mod_eq n bs). nia.
Qed.

Lemma pool_exec_inv ev p r :
  pool_inv p → pool_exec ev p = Some r → ∃ p', r = Returns tt p' ∧ pool_inv p'.
Proof.
  intros Hi. destruct ev; cbn [pool_exec].
  - unfold txMaker_tick. case_decide; [|done]. intros [= <-]. eexists. split; [done|].
    by destruct Hi.
  - unfold txMaker_make. case_decide; [|done]. destruct (chan_send _ _ _) as [ch|] eqn:Hc; [|done].
    apply chan_send_Some in Hc as [Hr ->]. intros [= <-]. eexists. split; [done|].
    destruct Hi as [Hmk (n & Hn & Hring & Hb) Hz Htr Hbr]. rewrite Hmk. simpl.
    split; simpl; try done; [| |rewrite length_app; simpl; lia].
    + exists n. rewrite length_app. simpl. split_and!; [lia|done|done].
    + rewrite length_app, replicate_add, <-Hz. done.
  - unfold txQueue_turn. destruct (po_txChannel p) as [|tx ch] eqn:Hch; [done|]. simpl.
    destruct (_ && _) eqn:Hw; [done|]. intros [= <-].
    destruct (queue_turn_inv p tx ch Hi Hch Hw) as (q & -> & Hi'). eauto.
  - intros [= <-]. eexists. split; [done|]. by apply get_inv.
Qed.

Lemma pool_run_inv evs p r :
  pool_inv p → pool_run evs p = Some r → ∃ p', r = Returns tt p' ∧ pool_inv p'.
Proof.
  revert p. induction evs as [|ev evs IH]; intros p Hi; simpl; [intros [= <-]; eauto|].
  destruct (pool_exec ev p) as [r'|] eqn:He; [|done].
  destruct (pool_exec_inv _ _ _ Hi He) as (p' & -> & Hi'). by apply IH.
Qed.
End stream.

(** C36 The pool hands out everything once: however the maker, the queue and the calls of
    [GetBatch] interleave, the pool does not panic, the batches that [GetBatch] has
    answered and those that wait are the consecutive pieces of what the maker has made,
    numbered in order, and less than a batch is still in the buffer; neither channel
    exceeds its capacity. *)
Theorem pool_hands_out_once parameters (mx bs : nat) N Id evs r :
  pp_MaxQueueSize parameters = Z.of_nat mx → pp_BatchSize parameters = Z.of_nat bs →
  (0 < bs < mx)%nat → pool_run evs (Pool_New parameters N Id) = Some r →
  ∃ p n, r = Returns tt p ∧
    po_made p = (n + length (po_txChannel p))%nat ∧
    real (po_got p) ++ BatchChannel p =
      batches bs N Id (n / bs) (replicate n (replicate (Z.to_nat (pp_TxSize parameters)) 0)) ∧
    tq_nums (po_queue p) = Z.of_nat (n mod bs) ∧
    Z.of_nat (length (po_txChannel p)) <= POOL_CHANNEL ∧
    Z.of_nat (length (BatchChannel p)) <= POOL_CHANNEL.
Proof.
  intros Hmx Hbs Hroom Hr.
  destruct (pool_run_inv parameters mx bs N Id Hmx Hroom _ _ _
    (new_pool_inv parameters mx bs N Id Hmx Hbs Hroom) Hr) as (p & -> & [_ (n & Hn & Hring & Hb) _ Ht Hbr]).
  exists p, n. split_and!; try done.
  destruct Hring as (_ & _ & _ & _ & _ & _ & _ & _ & -> & _). rewrite length_replicate. f_equal.
  pose proof (Nat.div_mod_eq n bs). lia.
Qed.
