(* ===== verification/Store.v ===== *)
(** * The store (src/store/store.go)

    One goroutine owns the database and answers requests from a channel.  A
    [NOTIFYREAD] of a key that is not there waits until the key is written.
    [store_step] is one turn of the goroutine's loop: the answers it sends, in
    order, and its new state.  A request is identified by a number, which
    stands for the [Done] channel its sender waits on.

    The database behind the store, nutsdb, is a parameter: an instance of the
    [DB] interface of the code. *)

From stdpp Require Import base gmap list strings.
From S2P Require Import Prelude.

(** [store.DB] *)
Class DB : Type := {
  db_state : Type;
  db_Get : db_state → list byte → result (list byte);
  db_Put : db_state → list byte → list byte → result unit * db_state
}.

(** What a key-value database documents, for one whose writes succeed; a
    missing key is some error. *)
Class DBLaws {D : DB} : Prop := {
  put_ok : ∀ d k v, (db_Put d k v).1 = Ok tt;
  get_put : ∀ d k v k',
    db_Get (db_Put d k v).2 k' = if decide (k = k') then Ok v else db_Get d k'
}.

Definition READ : Z := 0.
Definition WRITE : Z := 1.
Definition NOTIFYREAD : Z := 2.

Record storeReq : Type := mkStoreReq {
  rq_typ : Z;
  rq_key : list byte;
  rq_val : list byte;
  rq_id : nat
}.

(** What is sent on the [Done] channel of a request. *)
Record storeResp : Type := mkStoreResp {
  rs_id : nat;
  rs_val : result (list byte)
}.

Section store.
Context {D : DB}.

Record Store : Type := mkStore {
  st_db : db_state;
  st_pending : gmap (list byte) (list storeReq)
}.

Definition NewStore (db : db_state) : Store := mkStore db ∅.

Definition store_step (s : Store) (req : storeReq) : list storeResp * Store :=
  if decide (rq_typ req = READ) then
    ([mkStoreResp (rq_id req) (db_Get (st_db s) (rq_key req))], s)
  else if decide (rq_typ req = WRITE) then
    let '(err, db') := db_Put (st_db s) (rq_key req) (rq_val req) in
    let done := mkStoreResp (rq_id req)
      (match err with Ok _ => Ok (rq_val req) | Err e => Err e end) in
    match st_pending s !! rq_key req with
    | Some queue =>
        (done :: map (λ r, mkStoreResp (rq_id r) (Ok (rq_val req))) queue,
         mkStore db' (delete (rq_key req) (st_pending s)))
    | None => ([done], mkStore db' (st_pending s))
    end
  else if decide (rq_typ req = NOTIFYREAD) then
    match db_Get (st_db s) (rq_key req) with
    | Ok val => ([mkStoreResp (rq_id req) (Ok val)], s)
    | Err _ =>
        let queue := default [] (st_pending s !! rq_key req) in
        ([], mkStore (st_db s) (<[rq_key req := queue ++ [req]]> (st_pending s)))
    end
  else ([], s).

(** The three functions of the package, for a caller that waits for its
    answer: what a read returns, what a write returns with the new state and
    the readers it wakes. *)
Definition Store_Read (s : Store) (key : list byte) : result (list byte) :=
  db_Get (st_db s) key.

Definition Store_Write (s : Store) (key val : list byte) : result unit * Store :=
  let '(_, s') := store_step s (mkStoreReq WRITE key val 0) in
  ((db_Put (st_db s) key val).1, s').

(** [NotifyRead] blocks when it gets no answer yet. *)
Definition Store_NotifyRead (s : Store) (key : list byte) (id : nat)
  : option (list byte) * Store :=
  match store_step s (mkStoreReq NOTIFYREAD key [] id) with
  | (mkStoreResp _ (Ok val) :: _, s') => (Some val, s')
  | (_, s') => (None, s')
  end.

(** A read returns what was written last. *)
Lemma Store_Read_Write `{!DBLaws} (s : Store) key val key' :
  Store_Read (Store_Write s key val).2 key' =
  if decide (key = key') then Ok val else Store_Read s key'.
Proof.
  unfold Store_Read, Store_Write, store_step. cbn [rq_typ rq_key rq_val].
  rewrite decide_False by done. rewrite decide_True by done.
  pose proof (get_put (st_db s) key val key') as Hg.
  destruct (db_Put (st_db s) key val) as [err db'].
  by destruct (st_pending s !! key).
Qed.

Lemma Store_Write_ok `{!DBLaws} (s : Store) key val : (Store_Write s key val).1 = Ok tt.
Proof.
  unfold Store_Write. destruct (store_step _ _). apply put_ok.
Qed.
End store.

(** ** Runs of the store *)

(** The last value written under a key. *)
Fixpoint last_write (rs : list storeReq) (k : list byte) : option (list byte) :=
  match rs with
  | [] => None
  | r :: rs =>
      match last_write rs k with
      | Some v => Some v
      | None => if decide (rq_typ r = WRITE ∧ rq_key r = k) then Some (rq_val r)
                else None
      end
  end.

(** The first value written under a key *)
Fixpoint first_write (rs : list storeReq) (k : list byte) : option (list byte) :=
  match rs with
  | [] => None
  | r :: rs => if decide (rq_typ r = WRITE ∧ rq_key r = k) then Some (rq_val r) else first_write rs k
  end.

(** What was sent on the channel of the request [id] *)
Definition answered (id : nat) (l : list storeResp) : list (result (list byte)) :=
  omap (λ r, if decide (rs_id r = id) then Some (rs_val r) else None) l.

Definition is_notify (k : list byte) (r : storeReq) : bool :=
  bool_decide (rq_typ r = NOTIFYREAD ∧ rq_key r = k).

(** The requests that wait for the key after [pre]: all of its notifications,
    as long as it was never written. *)
Definition waiting (pre : list storeReq) (k : list byte) : list storeReq :=
  match last_write pre k with
  | None => List.filter (is_notify k) pre
  | Some _ => []
  end.

(** The answers that the request [r] triggers when the requests [pre] came
    before it and the store was empty. *)
Definition expected (miss : list byte → goerror) (pre : list storeReq) (r : storeReq)
  : list storeResp :=
  let k := rq_key r in
  if decide (rq_typ r = READ) then
    [mkStoreResp (rq_id r)
       (match last_write pre k with Some v => Ok v | None => Err (miss k) end)]
  else if decide (rq_typ r = WRITE) then
    mkStoreResp (rq_id r) (Ok (rq_val r))
      :: map (λ q, mkStoreResp (rq_id q) (Ok (rq_val r))) (waiting pre k)
  else if decide (rq_typ r = NOTIFYREAD) then
    match last_write pre k with
    | Some v => [mkStoreResp (rq_id r) (Ok v)]
    | None => []
    end
  else [].

Lemma last_write_snoc rs r k :
  last_write (rs ++ [r]) k =
    if decide (rq_typ r = WRITE ∧ rq_key r = k) then Some (rq_val r) else last_write rs k.
Proof.
  induction rs as [|r' rs IH]; simpl.
  - by case_decide.
  - rewrite IH. case_decide; [done|]. done.
Qed.

Lemma last_write_app rs rs' k :
  last_write (rs ++ rs') k =
    match last_write rs' k with Some v => Some v | None => last_write rs k end.
Proof.
  induction rs as [|r rs IH]; simpl; [by destruct (last_write rs' k)|].
  rewrite IH. by destruct (last_write rs' k).
Qed.

Lemma last_write_notify q rs k : rq_typ q = NOTIFYREAD → last_write (q :: rs) k = last_write rs k.
Proof.
  intros Hq. simpl. rewrite decide_False by (rewrite Hq; by intros [? _]).
  by destruct (last_write rs k).
Qed.

Lemma first_write_snoc rs r k :
  first_write (rs ++ [r]) k =
    match first_write rs k with
    | Some v => Some v
    | None => if decide (rq_typ r = WRITE ∧ rq_key r = k) then Some (rq_val r) else None
    end.
Proof. induction rs as [|r' rs IH]; [done|]. simpl. destruct (decide (rq_typ r' = _ ∧ _)); done. Qed.

Lemma first_write_last rs k : first_write rs k = None ↔ last_write rs k = None.
Proof.
  induction rs as [|r rs IH]; [done|]. simpl. case_decide; [by destruct (last_write rs k)|].
  rewrite IH. by destruct (last_write rs k).
Qed.

Lemma answered_cons id i v l :
  answered id (mkStoreResp i v :: l) = (if decide (i = id) then [v] else []) ++ answered id l.
Proof. unfold answered. cbn [omap list_omap rs_id rs_val]. by case_decide. Qed.

Lemma answered_app id l l' : answered id (l ++ l') = answered id l ++ answered id l'.
Proof. apply omap_app. Qed.

Lemma filter_comm {A} (f g : A → bool) l :
  List.filter f (List.filter g l) = List.filter g (List.filter f l).
Proof.
  induction l as [|x l IH]; [done|]. simpl.
  destruct (f x) eqn:Hf, (g x) eqn:Hg; simpl; rewrite ?Hf, ?Hg, IH; done.
Qed.

(** One request has the identifier of a request. *)
Lemma filter_rq_id rs q :
  NoDup (map rq_id rs) → q ∈ rs → List.filter (λ r, bool_decide (rq_id r = rq_id q)) rs = [q].
Proof.
  intros Hnd Hq. apply list_elem_of_split in Hq as (l1 & l2 & ->). rewrite map_app in Hnd.
  apply NoDup_app in Hnd as (_ & H1 & H2). cbn [map] in *. apply NoDup_cons in H2 as [H2 _].
  assert (∀ l, rq_id q ∉ map rq_id l → List.filter (λ r, bool_decide (rq_id r = rq_id q)) l = []) as Hno.
  { induction l as [|r l IH]; [done|]. cbn [map]. rewrite not_elem_of_cons. intros [Hr Hl]. simpl.
    rewrite bool_decide_eq_false_2 by done. by apply IH. }
  rewrite List.filter_app. simpl. rewrite bool_decide_eq_true_2 by done.
  rewrite !Hno; [done|done|]. intros Hin. apply (H1 _ Hin). left.
Qed.

(** A write that wakes the notifications of a key answers each of them once. *)
Lemma answered_notified rs q k v :
  NoDup (map rq_id rs) → q ∈ rs →
  answered (rq_id q) (map (λ r, mkStoreResp (rq_id r) (Ok v)) (List.filter (is_notify k) rs)) =
    if is_notify k q then [Ok v] else [].
Proof.
  intros Hnd Hq.
  assert (∀ l, answered (rq_id q) (map (λ r, mkStoreResp (rq_id r) (Ok v)) l) =
    map (λ _, Ok v) (List.filter (λ r, bool_decide (rq_id r = rq_id q)) l)) as ->.
  { induction l as [|r l IH]; [done|]. cbn [map List.filter]. rewrite answered_cons, IH.
    case_decide as Hd; [by rewrite bool_decide_eq_true_2|by rewrite bool_decide_eq_false_2]. }
  rewrite filter_comm, filter_rq_id by done. simpl. by destruct (is_notify k q).
Qed.

Section store_runs.
Context {D : DB} {HD : DBLaws}.
Context (miss : list byte → goerror) (d0 : db_state).
Hypothesis Hempty : ∀ k, db_Get d0 k = Err (miss k).

(** The store after the requests [pre]. *)
Definition store_abs (pre : list storeReq) (s : Store) : Prop :=
  (∀ k, db_Get (st_db s) k =
     match last_write pre k with Some v => Ok v | None => Err (miss k) end) ∧
  (∀ k, default [] (st_pending s !! k) = waiting pre k).

Lemma waiting_snoc pre r k :
  waiting (pre ++ [r]) k =
    if decide (rq_typ r = WRITE ∧ rq_key r = k) then []
    else match last_write pre k with
         | Some _ => []
         | None => List.filter (is_notify k) pre ++ (if is_notify k r then [r] else [])
         end.
Proof.
  unfold waiting. rewrite last_write_snoc. case_decide; [done|].
  destruct (last_write pre k); [done|]. rewrite List.filter_app. simpl.
  by destruct (is_notify k r).
Qed.

Lemma last_write_other pre r k :
  rq_typ r ≠ WRITE → last_write (pre ++ [r]) k = last_write pre k.
Proof. intros. by rewrite last_write_snoc, decide_False by naive_solver. Qed.

Lemma waiting_other pre r k :
  ¬ (rq_typ r = WRITE ∧ rq_key r = k) → is_notify k r = false →
  waiting (pre ++ [r]) k = waiting pre k.
Proof.
  intros Hw Hn. rewrite waiting_snoc, decide_False, Hn by done.
  unfold waiting. destruct (last_write pre k); [done|]. by rewrite app_nil_r.
Qed.

Lemma not_notify k r : rq_typ r ≠ NOTIFYREAD ∨ rq_key r ≠ k → is_notify k r = false.
Proof. intros. apply bool_decide_eq_false_2. naive_solver. Qed.

(** A request that neither writes nor waits leaves the store as it is. *)
Lemma store_abs_idle pre s r :
  store_abs pre s → rq_typ r ≠ WRITE →
  rq_typ r ≠ NOTIFYREAD ∨ is_Some (last_write pre (rq_key r)) →
  store_abs (pre ++ [r]) s.
Proof.
  intros [Hg Hp] Hw Hn. split; intros k.
  - by rewrite last_write_other.
  - rewrite Hp. destruct (decide (rq_key r = k)) as [<-|Hne].
    + destruct Hn as [Hn|[v Hv]].
      * rewrite waiting_other; [done|naive_solver|apply not_notify; auto].
      * unfold waiting. by rewrite last_write_other, Hv.
    + rewrite waiting_other; [done|naive_solver|apply not_notify; auto].
Qed.

Lemma store_abs_write pre s r db' :
  store_abs pre s → rq_typ r = WRITE →
  db' = (db_Put (st_db s) (rq_key r) (rq_val r)).2 →
  store_abs (pre ++ [r]) (mkStore db' (delete (rq_key r) (st_pending s))).
Proof.
  intros [Hg Hp] Hw ->. split; intros k; simpl.
  - rewrite get_put, last_write_snoc, Hg. repeat case_decide; naive_solver.
  - destruct (decide (rq_key r = k)) as [<-|Hne].
    + rewrite lookup_delete_eq, waiting_snoc. by rewrite decide_True.
    + rewrite lookup_delete_ne, waiting_other; [done|naive_solver| |done].
      apply not_notify. auto.
Qed.

Lemma store_abs_wait pre s r :
  store_abs pre s → rq_typ r = NOTIFYREAD → last_write pre (rq_key r) = None →
  store_abs (pre ++ [r]) (mkStore (st_db s)
    (<[rq_key r := default [] (st_pending s !! rq_key r) ++ [r]]> (st_pending s))).
Proof.
  intros [Hg Hp] Hn Hl.
  assert (rq_typ r ≠ WRITE) as Hw by (rewrite Hn; done).
  split; intros k; simpl; [by rewrite last_write_other|].
  destruct (decide (rq_key r = k)) as [<-|Hne].
  - rewrite lookup_insert_eq, waiting_snoc, decide_False, Hl by naive_solver.
    simpl. rewrite Hp. unfold waiting. rewrite Hl.
    unfold is_notify at 3. by rewrite bool_decide_eq_true_2.
  - rewrite lookup_insert_ne, waiting_other; [done|naive_solver| |done].
    apply not_notify. auto.
Qed.

Lemma delete_pending_None s k db' :
  st_pending s !! k = None →
  mkStore db' (st_pending s) = mkStore db' (delete k (st_pending s)).
Proof. intros H. by rewrite delete_id. Qed.

Lemma store_step_expected pre s r :
  store_abs pre s →
  (store_step s r).1 = expected miss pre r ∧
  store_abs (pre ++ [r]) (store_step s r).2.
Proof.
  intros Habs. pose proof Habs as [Hg Hp]. unfold store_step, expected.
  destruct (decide (rq_typ r = READ)) as [Hr|Hr].
  { simpl. rewrite Hg. split; [done|].
    apply store_abs_idle; [done|rewrite Hr; done|left; rewrite Hr; done]. }
  destruct (decide (rq_typ r = WRITE)) as [Hw|Hw].
  { pose proof (put_ok (st_db s) (rq_key r) (rq_val r)) as Hok.
    pose proof (store_abs_write pre s r _ Habs Hw eq_refl) as Hafter.
    destruct (db_Put (st_db s) (rq_key r) (rq_val r)) as [err db'].
    simpl in Hok, Hafter. subst err. rewrite <- Hp.
    destruct (st_pending s !! rq_key r) eqn:Epend; [done|]. simpl.
    split; [done|]. by rewrite (delete_pending_None s (rq_key r)). }
  destruct (decide (rq_typ r = NOTIFYREAD)) as [Hn|Hn].
  2: { split; [done|]. apply store_abs_idle; auto. }
  rewrite Hg. destruct (last_write pre (rq_key r)) as [v|] eqn:Elw; simpl.
  - split; [done|]. apply store_abs_idle; eauto.
  - split; [done|]. by apply store_abs_wait.
Qed.

Lemma store_abs_init : store_abs [] (NewStore d0).
Proof. split; intros k; simpl; [apply Hempty|]. by rewrite lookup_empty. Qed.

Lemma store_abs_run rs : store_abs rs (final store_step (NewStore d0) rs).
Proof.
  induction rs as [|r rs IH] using rev_ind; [apply store_abs_init|].
  rewrite final_app, final_cons. simpl. by apply store_step_expected.
Qed.

Lemma outputs_snoc rs r :
  outputs store_step (NewStore d0) (rs ++ [r]) =
  outputs store_step (NewStore d0) rs ++ [expected miss rs r].
Proof.
  rewrite outputs_app, outputs_cons. do 2 f_equal. by apply store_step_expected, store_abs_run.
Qed.

(** A later request answers a notification exactly if it is the first write of its key. *)
Lemma expected_answers rs q r :
  NoDup (map rq_id (rs ++ [r])) → q ∈ rs → rq_typ q = NOTIFYREAD →
  answered (rq_id q) (expected miss rs r) =
    if decide (rq_typ r = WRITE ∧ rq_key r = rq_key q) then
      match last_write rs (rq_key q) with Some _ => [] | None => [Ok (rq_val r)] end
    else [].
Proof.
  rewrite map_app. intros (Hnd & Hr & _)%NoDup_app Hin Hq.
  assert (rq_id r ≠ rq_id q) as Hne.
  { intros He. apply (Hr (rq_id q)); [by apply list_elem_of_fmap_2|]. rewrite <-He. left. }
  assert (∀ v l, answered (rq_id q) (mkStoreResp (rq_id r) v :: l) = answered (rq_id q) l) as Hskip.
  { intros v l. by rewrite answered_cons, decide_False. }
  unfold expected. destruct (decide (rq_typ r = READ)) as [Ht|_].
  { rewrite Hskip, decide_False; [done|]. rewrite Ht. by intros [? _]. }
  destruct (decide (rq_typ r = WRITE)) as [Ht|Ht].
  - rewrite Hskip. unfold waiting. destruct (decide (rq_key r = rq_key q)) as [->|Hk].
    + rewrite decide_True by done. destruct (last_write rs (rq_key q)); [done|].
      rewrite answered_notified by done. unfold is_notify. by rewrite bool_decide_eq_true_2.
    + rewrite decide_False by naive_solver. destruct (last_write rs (rq_key r)); [done|].
      rewrite answered_notified by done. unfold is_notify. rewrite bool_decide_eq_false_2; naive_solver.
  - rewrite (decide_False (P := _ ∧ _)) by naive_solver. case_decide; [|done].
    destruct (last_write rs (rq_key r)); [|done]. by rewrite Hskip.
Qed.

(** No answer goes to a request that was not made. *)
Lemma expected_absent id rs r :
  id ∉ map rq_id (rs ++ [r]) → answered id (expected miss rs r) = [].
Proof.
  rewrite map_app, not_elem_of_app. cbn [map]. rewrite not_elem_of_cons. intros [Hrs [Hr _]].
  assert (∀ v l, answered id (mkStoreResp (rq_id r) v :: l) = answered id l) as Hskip.
  { intros v l. by rewrite answered_cons, decide_False by auto. }
  unfold expected. destruct (decide (rq_typ r = READ)); [apply Hskip|].
  destruct (decide (rq_typ r = WRITE)).
  - rewrite Hskip. unfold waiting. destruct (last_write rs (rq_key r)); [done|]. clear Hskip.
    induction rs as [|q rs IH]; [done|]. apply not_elem_of_cons in Hrs as [Hq Hrs]. simpl.
    destruct (is_notify (rq_key r) q); [|by apply IH].
    cbn [map]. rewrite answered_cons, decide_False by auto. by apply IH.
  - case_decide; [|done]. destruct (last_write rs (rq_key r)); [apply Hskip|done].
Qed.

Lemma outputs_absent id rs :
  id ∉ map rq_id rs → answered id (concat (outputs store_step (NewStore d0) rs)) = [].
Proof.
  induction rs as [|r rs IH] using rev_ind; [done|]. intros Hid.
  rewrite outputs_snoc, concat_app, answered_app. simpl. rewrite app_nil_r, expected_absent by done.
  rewrite IH; [done|]. rewrite map_app, not_elem_of_app in Hid. by destruct Hid.
Qed.

Lemma notification_answered pre q post :
  NoDup (map rq_id (pre ++ q :: post)) → rq_typ q = NOTIFYREAD →
  answered (rq_id q) (concat (outputs store_step (NewStore d0) (pre ++ q :: post))) =
    match last_write pre (rq_key q) with
    | Some v => [Ok v]
    | None => match first_write post (rq_key q) with Some v => [Ok v] | None => [] end
    end.
Proof.
  intros Hnd Hq. induction post as [|r post IH] using rev_ind.
  - rewrite outputs_snoc, concat_app, answered_app, outputs_absent.
    2: { rewrite map_app in Hnd. apply NoDup_app in Hnd as (_ & Hnd & _).
         intros Hin. apply (Hnd _ Hin). left. }
    simpl. rewrite app_nil_r. unfold expected. rewrite Hq.
    rewrite !decide_False, decide_True by done. destruct (last_write pre (rq_key q)); [|done].
    by rewrite answered_cons, decide_True.
  - rewrite app_comm_cons, app_assoc in Hnd |- *. rewrite outputs_snoc, concat_app, answered_app.
    simpl. rewrite app_nil_r, expected_answers, IH, first_write_snoc; [|..|done]; [|..].
    2: { rewrite map_app in Hnd. by apply NoDup_app in Hnd as (? & _). }
    2: done.
    2: set_solver.
    rewrite last_write_app, last_write_notify by done.
    pose proof (first_write_last post (rq_key q)) as Hfl.
    destruct (last_write pre (rq_key q)) as [w|].
    { case_decide; [|by rewrite app_nil_r]. by destruct (last_write post (rq_key q)). }
    destruct (first_write post (rq_key q)).
    + destruct (last_write post (rq_key q)); [by case_decide|].
      by specialize (proj2 Hfl eq_refl).
    + rewrite (proj1 Hfl) by done. by case_decide.
Qed.

Lemma store_outputs rs i r :
  rs !! i = Some r →
  outputs store_step (NewStore d0) rs !! i = Some (expected miss (take i rs) r).
Proof.
  intros Hi. rewrite <- (take_drop_middle rs i r Hi), outputs_app, outputs_cons.
  assert (length (outputs store_step (NewStore d0) (take i rs)) = i) as Hlen.
  { rewrite length_outputs, length_take. apply lookup_lt_Some in Hi. lia. }
  rewrite lookup_app_r by lia. rewrite Hlen, Nat.sub_diag. simpl. f_equal.
  rewrite take_app_length' by (rewrite length_take; apply lookup_lt_Some in Hi; lia).
  by apply store_step_expected, store_abs_run.
Qed.
End store_runs.

(** ** Properties *)

(** The store is a key-value store with notification: for
    every sequence of requests on an empty database whose writes succeed, each
    request is answered as the history determines.  A read returns the last
    value written before it, or the error for a missing key; a write is
    acknowledged and wakes, in the order of their arrival, exactly the
    notifications that were waiting for the key; a notification of a written
    key is answered at once. *)
Theorem store_answers {D : DB} {HD : DBLaws} miss d0 rs i r :
  (∀ k, db_Get d0 k = Err (miss k)) → rs !! i = Some r →
  outputs store_step (NewStore d0) rs !! i = Some (expected miss (take i rs) r).
Proof. intros Hempty Hi. by apply store_outputs. Qed.

(** C34 No lost wake-up: on every sequence of requests, a notification is answered exactly
    once if its key was written before it, with the last value, or is written after it, with
    the first value; otherwise it is not answered, and it is still waiting at the end
    exactly in this case.  Each request has a channel of its own for its answer. *)
Theorem store_no_lost_wakeup {D : DB} {HD : DBLaws} miss d0 pre q post :
  (∀ k, db_Get d0 k = Err (miss k)) → NoDup (map rq_id (pre ++ q :: post)) → rq_typ q = NOTIFYREAD →
  answered (rq_id q) (concat (outputs store_step (NewStore d0) (pre ++ q :: post))) =
    match last_write pre (rq_key q) with
    | Some v => [Ok v]
    | None => match first_write post (rq_key q) with Some v => [Ok v] | None => [] end
    end ∧
  (q ∈ default [] (st_pending (final store_step (NewStore d0) (pre ++ q :: post)) !! rq_key q) ↔
   last_write pre (rq_key q) = None ∧ first_write post (rq_key q) = None).
Proof.
  intros Hempty Hnd Hq. split; [by apply (notification_answered miss)|].
  destruct (store_abs_run miss d0 Hempty (pre ++ q :: post)) as [_ Hp]. rewrite Hp.
  unfold waiting. rewrite last_write_app, last_write_notify by done.
  pose proof (first_write_last post (rq_key q)) as Hfl.
  destruct (last_write post (rq_key q)) as [v|] eqn:Hpost.
  { split; [by intros ?%not_elem_of_nil|]. intros [_ Hf]. by apply Hfl in Hf. }
  destruct (last_write pre (rq_key q)); [split; [by intros ?%not_elem_of_nil|by intros [? _]]|].
  split; [intros _; split; [done|by apply Hfl]|]. intros _.
  apply list_elem_of_In, List.filter_In. split; [apply list_elem_of_In; set_solver|].
  by apply bool_decide_eq_true_2.
Qed.

(** A failed write is not silent to the waiters: if the
    database refuses a write, the writer gets the error, but every reader that
    waits for the key is still woken with the value and forgotten. *)
Theorem failed_write_wakes_readers {D : DB} (s : Store) k v id e queue :
  (db_Put (st_db s) k v).1 = Err e → st_pending s !! k = Some queue →
  (store_step s (mkStoreReq WRITE k v id)).1 =
    mkStoreResp id (Err e) :: map (λ r, mkStoreResp (rq_id r) (Ok v)) queue ∧
  st_pending (store_step s (mkStoreReq WRITE k v id)).2 !! k = None.
Proof.
  intros Hput Hq. unfold store_step. simpl.
  destruct (db_Put (st_db s) k v) as [err db']. simpl in Hput. rewrite Hq, Hput.
  split; [done|]. simpl. apply lookup_delete_eq.
Qed.
