(* ===== verification/NutsDB.v ===== *)
(** * The database adapter (src/store/nutsdb.go)

    [NutsDB] runs each operation of the store in a transaction of the nutsdb library,
    in one bucket that is created when the database is opened.  The library is a
    parameter, [Nuts]: what a transaction can do, and whether one can be started.

    The theorems: on a database that [NewDefaultNutsDB] returns the adapter is a
    key-value store in the sense of [DBLaws], so every theorem about the node that
    needs a database applies to it; a refused write changes nothing; and a read in
    a transaction that cannot be started is reported as an empty value. *)

From stdpp Require Import base gmap list strings.
From S2P Require Import Prelude Store.

(** github.com/nutsdb/nutsdb *)
Class Nuts : Type := {
  nuts_db : Type;
  nuts_Open : string → result nuts_db;
  (** the error with which a transaction is refused *)
  tx_begin : nuts_db → option goerror;
  tx_NewBucket : nuts_db → string → result unit * nuts_db;
  tx_Get : nuts_db → string → list byte → result (list byte);
  tx_Put : nuts_db → string → list byte → list byte → Z → result unit * nuts_db
}.

Section nuts.
Context {NU : Nuts}.

Definition DefaultBucket : string := "DefaultBucket".

(** [db.Update]: the changes of a function that returns an error are rolled back. *)
Definition nuts_Update (db : nuts_db) (f : nuts_db → result unit * nuts_db)
  : result unit * nuts_db :=
  match tx_begin db with
  | Some e => (Err e, db)
  | None =>
      match f db with
      | (Ok _, db') => (Ok tt, db')
      | (Err e, _) => (Err e, db)
      end
  end.

Definition NewDefaultNutsDB (dir : string) : GoM unit nuts_db :=
  match nuts_Open dir with
  | Err _ => panic "nutsdb: open"
  | Ok db =>
      match nuts_Update db (λ db, tx_NewBucket db DefaultBucket) with
      | (Err _, _) => panic "nutsdb: bucket"
      | (Ok _, db) => mret db
      end
  end.

(** The error of [db.View] is not looked at: without a transaction both results keep
    their zero values. *)
Definition NutsDB_Get (db : nuts_db) (key : list byte) : result (list byte) :=
  match tx_begin db with
  | Some _ => Ok []
  | None => tx_Get db DefaultBucket key
  end.

Definition NutsDB_Put (db : nuts_db) (key val : list byte) : result unit * nuts_db :=
  nuts_Update db (λ db, tx_Put db DefaultBucket key val 0).

(** A transaction that cannot be started: a read succeeds with an empty value, which
    the store takes for the value of the key. *)
Theorem refused_read_is_empty db e key :
  tx_begin db = Some e → NutsDB_Get db key = Ok [].
Proof. unfold NutsDB_Get. by intros ->. Qed.

(** A refused write changes nothing. *)
Theorem refused_write_keeps db key val e db' :
  NutsDB_Put db key val = (Err e, db') → db' = db.
Proof.
  unfold NutsDB_Put, nuts_Update. destruct (tx_begin db); [congruence|].
  destruct (tx_Put _ _ _ _ _) as [[]]; congruence.
Qed.
End nuts.

(** What nutsdb documents of an open database with the bucket [b]: transactions start,
    writes succeed, and a read finds what was written last.  [usable] says that a
    database is in this state. *)
Class NutsLaws {NU : Nuts} : Type := {
  usable : nuts_db → string → bool;
  new_bucket_usable : ∀ db b db', tx_NewBucket db b = (Ok tt, db') → usable db' b = true;
  usable_begin : ∀ db b, usable db b = true → tx_begin db = None;
  usable_put : ∀ db b k v, usable db b = true →
    (tx_Put db b k v 0).1 = Ok tt ∧ usable (tx_Put db b k v 0).2 b = true;
  usable_get : ∀ db b k v k', usable db b = true →
    tx_Get (tx_Put db b k v 0).2 b k' = if decide (k = k') then Ok v else tx_Get db b k'
}.

Section adapter.
Context {NU : Nuts} {NL : NutsLaws}.

(** The databases behind a [*NutsDB] *)
Definition NutsDB : Type := { db : nuts_db | usable db DefaultBucket = true }.

Lemma NewDefaultNutsDB_usable dir db :
  NewDefaultNutsDB dir tt = Returns db tt → usable db DefaultBucket = true.
Proof.
  unfold NewDefaultNutsDB, nuts_Update. destruct (nuts_Open dir) as [db0|]; [|done].
  destruct (tx_begin db0); [done|].
  destruct (tx_NewBucket db0 DefaultBucket) as [[[]|] db1] eqn:Hn; [|done].
  intros [= <-]. by eapply new_bucket_usable.
Qed.

(** The database that [NewDefaultNutsDB] returns, if it does not panic *)
Definition NutsDB_open (dir : string) : option NutsDB :=
  match NewDefaultNutsDB dir tt with
  | Crash _ => None
  | Returns db _ =>
      match decide (usable db DefaultBucket = true) with
      | left Hdb => Some (db ↾ Hdb)
      | right _ => None
      end
  end.

Lemma NutsDB_open_returns dir db :
  NewDefaultNutsDB dir tt = Returns db tt → ∃ d, NutsDB_open dir = Some d ∧ `d = db.
Proof.
  intros H. pose proof (NewDefaultNutsDB_usable dir db H) as Hu. unfold NutsDB_open. rewrite H.
  destruct (decide _) as [Hd|]; [|done]. by exists (db ↾ Hd).
Qed.

Lemma NutsDB_Put_usable (db : NutsDB) key val :
  (NutsDB_Put (`db) key val).1 = Ok tt ∧
  (NutsDB_Put (`db) key val).2 = (tx_Put (`db) DefaultBucket key val 0).2 ∧
  usable (NutsDB_Put (`db) key val).2 DefaultBucket = true.
Proof.
  destruct db as [db Hdb]. simpl. unfold NutsDB_Put, nuts_Update.
  rewrite (usable_begin db DefaultBucket Hdb).
  destruct (usable_put db DefaultBucket key val Hdb) as [Hok Hu].
  destruct (tx_Put _ _ _ _ _) as [[[]|] db']; simpl in *; [done|done].
Qed.

#[export] Instance NutsDB_DB : DB := {|
  db_state := NutsDB;
  db_Get := λ db k, NutsDB_Get (`db) k;
  db_Put := λ db k v,
    ((NutsDB_Put (`db) k v).1,
     (NutsDB_Put (`db) k v).2 ↾ proj2 (proj2 (NutsDB_Put_usable db k v)))
|}.

#[export] Instance NutsDB_DBLaws : DBLaws (D := NutsDB_DB).
Proof.
  split.
  - intros db k v. apply NutsDB_Put_usable.
  - intros db k v k'. simpl. unfold NutsDB_Get.
    destruct (NutsDB_Put_usable db k v) as (_ & Heq & Hu).
    rewrite (usable_begin _ DefaultBucket Hu), Heq.
    destruct db as [db Hdb]. simpl. rewrite (usable_begin _ DefaultBucket Hdb).
    by rewrite usable_get.
Qed.
End adapter.
