(* ===== verification/Spb.v ===== *)
(** * Strong provable broadcast (src/core/smvba/consensus/spb.go)

    The core starts one goroutine per proposal and per vote of an instance, so
    the two methods of an instance run concurrently on its shared fields.  A
    goroutine is modelled by its program counter [thread]; [spb_step] executes
    the code up to the next access to a shared field.  The atomic fields
    ([BlockHash], [LockFlag]) are accessed one at a time, and the fields under a
    mutex ([Votes], the two waiting lists) in one step per critical section.
    [sys_step] interleaves the goroutines in every possible order.

    What the core is asked to send is recorded as effects, in order. *)

From stdpp Require Import base gmap list strings.
From S2P Require Import Prelude Committee Crypto Message.

(** [Send from to m] is [Transimtor.Send]; [Enqueue m] puts [m] on the node's
    own receive channel. *)
Inductive effect : Type :=
  | Send (from to : NodeID) (m : Message)
  | Enqueue (m : Message).

#[export] Instance effect_eq_dec : EqDecision effect.
Proof. solve_decision. Defined.

Record SPB : Type := mkSPB {
  spb_Proposer : NodeID;
  spb_Epoch : Z;
  spb_Round : Z;
  spb_BlockHash : option Digest;
  spb_Votes : gmap Z Z;
  spb_unHandleVote : list SPBVote;
  spb_unHandleProposal : list SPBProposal;
  spb_LockFlag : bool
}.

Definition NewSPB (epoch round : Z) (proposer : NodeID) : SPB :=
  mkSPB proposer epoch round None ∅ [] [] false.

(** [IsLock] and [GetBlockHash] *)
Definition SPB_IsLock (s : SPB) : bool := spb_LockFlag s.
Definition SPB_GetBlockHash (s : SPB) : option Digest := spb_BlockHash s.

(** The number of votes counted in a phase: 0 for a phase never counted. *)
Definition votes_of (s : SPB) (phase : Z) : Z := default 0 (spb_Votes s !! phase).

Section setters.
Implicit Types (s : SPB).
Definition set_BlockHash (h : Digest) s : SPB :=
  mkSPB (spb_Proposer s) (spb_Epoch s) (spb_Round s) (Some h) (spb_Votes s)
    (spb_unHandleVote s) (spb_unHandleProposal s) (spb_LockFlag s).
Definition set_LockFlag s : SPB :=
  mkSPB (spb_Proposer s) (spb_Epoch s) (spb_Round s) (spb_BlockHash s) (spb_Votes s)
    (spb_unHandleVote s) (spb_unHandleProposal s) true.
Definition set_Votes (v : gmap Z Z) s : SPB :=
  mkSPB (spb_Proposer s) (spb_Epoch s) (spb_Round s) (spb_BlockHash s) v
    (spb_unHandleVote s) (spb_unHandleProposal s) (spb_LockFlag s).
Definition set_unHandle (vs : list SPBVote) (ps : list SPBProposal) s : SPB :=
  mkSPB (spb_Proposer s) (spb_Epoch s) (spb_Round s) (spb_BlockHash s) (spb_Votes s)
    vs ps (spb_LockFlag s).
End setters.

(** Where a goroutine is. *)
Inductive thread : Type :=
  (** [processProposal p], not started *)
  | TProposal (p : SPBProposal)
  (** phase one: the checks passed, the hash is to be stored *)
  | TStore (p : SPBProposal) (b : ConsensusBlock)
  (** phase one: the vote is to be sent *)
  | TVoteOne (p : SPBProposal) (h : Digest)
  (** phase one: the waiting messages are to be started *)
  | TFlush
  (** phase two: no hash was seen, the proposal is to be put aside *)
  | TWaitProposal (p : SPBProposal)
  (** phase two: a hash was seen, the lock is to be set *)
  | TLock (p : SPBProposal)
  (** phase two: the vote is to be sent *)
  | TVoteTwo (p : SPBProposal)
  (** [processVote v], not started *)
  | TVote (v : SPBVote)
  (** no hash was seen, the vote is to be put aside *)
  | TWaitVote (v : SPBVote)
  (** a hash was seen, the vote is to be counted *)
  | TCount (v : SPBVote)
  (** the vote was counted as number [num] *)
  | TAct (v : SPBVote) (num : Z).

Section spb.
Context {CL : CryptoLib}.
(** The fields of the core that an instance reads: they never change. *)
Context (Name : NodeID) (committee : Committee) (svc : SigService).

(** A message goes to the proposer, through the own channel if that is us. *)
Definition to_proposer (s : SPB) (m : Message) : list effect :=
  if decide (Name ≠ spb_Proposer s) then [Send Name (spb_Proposer s) m]
  else [Enqueue m].

Definition to_all (m : Message) : list effect := [Send Name NONE m; Enqueue m].

(** One step of a goroutine: what becomes of it, the goroutines it starts and
    the messages it sends. *)
Definition spb_step (t : thread) : GoM SPB (list thread * list effect) := λ s,
  match t with
  | TProposal p =>
      if decide (sp_Phase p = SPB_ONE_PHASE) then
        match spb_BlockHash s with
        | Some _ => Returns ([], []) s
        | None =>
            match sp_B p with
            | None => Crash "nil pointer dereference"
            | Some b =>
                if decide (spb_Proposer s ≠ cb_Proposer b) then Returns ([], []) s
                else Returns ([TStore p b], []) s
            end
        end
      else if decide (sp_Phase p = SPB_TWO_PHASE) then
        match spb_BlockHash s with
        | None => Returns ([TWaitProposal p], []) s
        | Some _ => Returns ([TLock p], []) s
        end
      else Returns ([], []) s
  | TStore p b =>
      let blockHash := ConsensusBlock_Hash b in
      Returns ([TVoteOne p blockHash], []) (set_BlockHash blockHash s)
  | TVoteOne p blockHash =>
      match NewSPBVote Name (sp_Author p) blockHash (spb_Epoch s) (spb_Round s)
              (sp_Phase p) svc with
      | Err _ => Returns ([TFlush], []) s
      | Ok vote => Returns ([TFlush], to_proposer s (MSPBVote vote)) s
      end
  | TFlush =>
      Returns (map TProposal (spb_unHandleProposal s) ++ map TVote (spb_unHandleVote s), [])
        (set_unHandle [] [] s)
  | TWaitProposal p =>
      Returns ([], [])
        (set_unHandle (spb_unHandleVote s) (spb_unHandleProposal s ++ [p]) s)
  | TLock p => Returns ([TVoteTwo p], []) (set_LockFlag s)
  | TVoteTwo p =>
      match NewSPBVote Name (sp_Author p) zero_Digest (spb_Epoch s) (spb_Round s)
              (sp_Phase p) svc with
      | Err _ => Returns ([], []) s
      | Ok vote => Returns ([], to_proposer s (MSPBVote vote)) s
      end
  | TVote v =>
      match spb_BlockHash s with
      | None => Returns ([TWaitVote v], []) s
      | Some _ => Returns ([TCount v], []) s
      end
  | TWaitVote v =>
      Returns ([], [])
        (set_unHandle (spb_unHandleVote s ++ [v]) (spb_unHandleProposal s) s)
  | TCount v =>
      let num := votes_of s (sv_Phase v) + 1 in
      Returns ([TAct v num], []) (set_Votes (<[sv_Phase v := num]> (spb_Votes s)) s)
  | TAct v num =>
      if decide (num = Committee_HightThreshold committee) then
        if decide (sv_Phase v = SPB_ONE_PHASE) then
          match NewSPBProposal Name (Some (NewConsensusBlock (spb_Proposer s) [] (-1)))
                  (spb_Epoch s) (spb_Round s) SPB_TWO_PHASE svc with
          | Err _ => Returns ([], []) s
          | Ok proposal => Returns ([], to_all (MSPBProposal proposal)) s
          end
        else if decide (sv_Phase v = SPB_TWO_PHASE) then
          match spb_BlockHash s with
          | None => Crash "interface conversion: interface is nil"
          | Some blockHash =>
              match NewFinish Name blockHash (spb_Epoch s) (spb_Round s) svc with
              | Err _ => Returns ([], []) s
              | Ok finish => Returns ([], to_all (MFinish finish)) s
              end
          end
        else Returns ([], []) s
      else Returns ([], []) s
  end.

(** An instance with its running goroutines, what it has sent, and the
    messages the core has handed to it so far. *)
Record sys : Type := mkSys {
  sys_spb : SPB;
  sys_threads : list thread;
  sys_trace : list effect;
  sys_proposals : list SPBProposal;
  sys_votes : list SPBVote
}.

(** The core has dereferenced the block of a phase-one proposal before it starts
    the goroutine. *)
Definition has_block (p : SPBProposal) : bool :=
  bool_decide (sp_Phase p = SPB_ONE_PHASE → is_Some (sp_B p)).

(** A goroutine takes a step. *)
Inductive thread_step : sys → sys → Prop :=
  | step_thread s s' ts1 t ts2 ts' es tr ps vs :
      spb_step t s = Returns (ts', es) s' →
      thread_step (mkSys s (ts1 ++ t :: ts2) tr ps vs)
        (mkSys s' (ts1 ++ ts' ++ ts2) (tr ++ es) ps vs).

(** The core starts a goroutine for a message. *)
Inductive arrival : sys → sys → Prop :=
  | arrive_proposal s ts tr ps vs p :
      has_block p = true →
      arrival (mkSys s ts tr ps vs) (mkSys s (ts ++ [TProposal p]) tr (ps ++ [p]) vs)
  | arrive_vote s ts tr ps vs v :
      arrival (mkSys s ts tr ps vs) (mkSys s (ts ++ [TVote v]) tr ps (vs ++ [v])).

Inductive sys_step (y y' : sys) : Prop :=
  | by_thread : thread_step y y' → sys_step y y'
  | by_arrival : arrival y y' → sys_step y y'.

(** Messages arrive only while no goroutine of the instance is running. *)
Inductive serial_step (y y' : sys) : Prop :=
  | serial_thread : thread_step y y' → serial_step y y'
  | serial_arrival : sys_threads y = [] → arrival y y' → serial_step y y'.

Definition initial (epoch round : Z) (proposer : NodeID) : sys :=
  mkSys (NewSPB epoch round proposer) [] [] [] [].

Definition reachable (epoch round : Z) (proposer : NodeID) : sys → Prop :=
  rtc sys_step (initial epoch round proposer).

Definition serially_reachable (epoch round : Z) (proposer : NodeID) : sys → Prop :=
  rtc serial_step (initial epoch round proposer).

(** *** Executing a given interleaving

    [run_at i] lets goroutine number [i] take its step; the goroutines it becomes
    or starts take its place in the list. *)
Definition run_at (i : nat) (y : sys) : option sys :=
  match sys_threads y !! i with
  | None => None
  | Some t =>
      match spb_step t (sys_spb y) with
      | Crash _ => None
      | Returns (ts', es) s' =>
          Some (mkSys s' (take i (sys_threads y) ++ ts' ++ drop (S i) (sys_threads y))
                  (sys_trace y ++ es) (sys_proposals y) (sys_votes y))
      end
  end.

Inductive move : Type :=
  | GetProposal (p : SPBProposal)
  | GetVote (v : SPBVote)
  | Run (i : nat).

Definition play_move (m : move) (y : sys) : option sys :=
  match m with
  | GetProposal p =>
      if has_block p then
        Some (mkSys (sys_spb y) (sys_threads y ++ [TProposal p]) (sys_trace y)
                (sys_proposals y ++ [p]) (sys_votes y))
      else None
  | GetVote v =>
      Some (mkSys (sys_spb y) (sys_threads y ++ [TVote v]) (sys_trace y)
              (sys_proposals y) (sys_votes y ++ [v]))
  | Run i => run_at i y
  end.

Fixpoint play (ms : list move) (y : sys) : option sys :=
  match ms with
  | [] => Some y
  | m :: ms => play_move m y ≫= play ms
  end.

Lemma play_move_kind m y y' :
  play_move m y = Some y' →
  match m with Run _ => thread_step y y' | _ => arrival y y' end.
Proof.
  destruct y as [s ts tr ps vs], m as [p|v|i]; simpl; intros Hm.
  - destruct (has_block p) eqn:Hb; simplify_eq. by constructor.
  - simplify_eq. constructor.
  - unfold run_at in Hm. simpl in Hm. destruct (ts !! i) as [t|] eqn:Ht; [|done].
    destruct (spb_step t s) as [[ts' es] s'|] eqn:Hs; simplify_eq.
    rewrite <-(take_drop_middle ts i t Ht) at 1. by constructor.
Qed.

Lemma play_move_step m y y' : play_move m y = Some y' → sys_step y y'.
Proof. intros Hm%play_move_kind. destruct m; by constructor. Qed.

Lemma play_reachable ms y y' : play ms y = Some y' → rtc sys_step y y'.
Proof.
  revert y. induction ms as [|m ms IH]; simpl; intros y Hp; simplify_eq; [done|].
  apply bind_Some in Hp as (y1 & H1 & H2).
  eapply rtc_l; [by eapply play_move_step|by apply IH].
Qed.

(** *** What every interleaving preserves *)

(** Fields only ever grow. *)
Record evolves (s s' : SPB) : Prop := mkEvolves {
  ev_Proposer : spb_Proposer s' = spb_Proposer s;
  ev_Epoch : spb_Epoch s' = spb_Epoch s;
  ev_Round : spb_Round s' = spb_Round s;
  ev_hash : is_Some (spb_BlockHash s) → is_Some (spb_BlockHash s');
  ev_lock : spb_LockFlag s = true → spb_LockFlag s' = true;
  ev_votes : ∀ ph, votes_of s ph <= votes_of s' ph
}.

(** [h] is the hash of a received block of the instance's proposer. *)
Definition seen_hash (ps : list SPBProposal) (proposer : NodeID) (h : Digest) : Prop :=
  ∃ p b, p ∈ ps ∧ sp_Phase p = SPB_ONE_PHASE ∧ sp_B p = Some b ∧
         cb_Proposer b = proposer ∧ h = ConsensusBlock_Hash b.

Definition state_ok (ps : list SPBProposal) (s : SPB) : Prop :=
  (∀ h, spb_BlockHash s = Some h → seen_hash ps (spb_Proposer s) h) ∧
  (spb_LockFlag s = true → is_Some (spb_BlockHash s)) ∧
  Forall (λ p, p ∈ ps ∧ sp_Phase p = SPB_TWO_PHASE) (spb_unHandleProposal s).

Definition thread_ok (ps : list SPBProposal) (s : SPB) (t : thread) : Prop :=
  match t with
  | TProposal p => p ∈ ps ∧ has_block p = true
  | TStore p b =>
      p ∈ ps ∧ sp_Phase p = SPB_ONE_PHASE ∧ sp_B p = Some b ∧
      cb_Proposer b = spb_Proposer s
  | TVoteOne p h =>
      sp_Phase p = SPB_ONE_PHASE ∧ seen_hash ps (spb_Proposer s) h ∧
      is_Some (spb_BlockHash s)
  | TFlush => is_Some (spb_BlockHash s)
  | TWaitProposal p => p ∈ ps ∧ sp_Phase p = SPB_TWO_PHASE
  | TLock p => p ∈ ps ∧ sp_Phase p = SPB_TWO_PHASE ∧ is_Some (spb_BlockHash s)
  | TVoteTwo p => p ∈ ps ∧ sp_Phase p = SPB_TWO_PHASE ∧ spb_LockFlag s = true
  | TVote _ | TWaitVote _ => True
  | TCount _ => is_Some (spb_BlockHash s)
  | TAct v num => is_Some (spb_BlockHash s) ∧ num <= votes_of s (sv_Phase v)
  end.

Definition effect_msg (e : effect) : Message :=
  match e with Send _ _ m | Enqueue m => m end.

(** Why a message may have been sent. *)
Definition justified (ps : list SPBProposal) (s : SPB) (m : Message) : Prop :=
  match m with
  | MSPBVote v =>
      sv_Author v = Name ∧ sv_Epoch v = spb_Epoch s ∧ sv_Round v = spb_Round s ∧
      (sv_Phase v = SPB_ONE_PHASE ∧ seen_hash ps (spb_Proposer s) (sv_BlockHash v) ∨
       sv_Phase v = SPB_TWO_PHASE ∧ sv_BlockHash v = zero_Digest ∧
       spb_LockFlag s = true ∧ ∃ p, p ∈ ps ∧ sp_Phase p = SPB_TWO_PHASE)
  | MSPBProposal p =>
      sp_Author p = Name ∧ sp_Epoch p = spb_Epoch s ∧ sp_Round p = spb_Round s ∧
      sp_Phase p = SPB_TWO_PHASE ∧
      Committee_HightThreshold committee <= votes_of s SPB_ONE_PHASE
  | MFinish f =>
      fi_Author f = Name ∧ fi_Epoch f = spb_Epoch s ∧ fi_Round f = spb_Round s ∧
      seen_hash ps (spb_Proposer s) (fi_BlockHash f) ∧
      Committee_HightThreshold committee <= votes_of s SPB_TWO_PHASE
  | _ => False
  end.

Definition effect_ok (ps : list SPBProposal) (s : SPB) (e : effect) : Prop :=
  justified ps s (effect_msg e).

Lemma evolves_refl s : evolves s s.
Proof. by constructor. Qed.

Lemma votes_of_insert s ph n ph' :
  votes_of (set_Votes (<[ph := n]> (spb_Votes s)) s) ph' =
  if decide (ph = ph') then n else votes_of s ph'.
Proof.
  unfold votes_of. simpl. destruct (decide (ph = ph')) as [->|Hne].
  - by rewrite lookup_insert_eq.
  - by rewrite lookup_insert_ne.
Qed.

Lemma spb_step_evolves t s ts es s' : spb_step t s = Returns (ts, es) s' → evolves s s'.
Proof.
  intros Hs. destruct t; simpl in Hs; repeat case_match; simplify_eq;
    try apply evolves_refl; constructor; try done; simpl.
  intros ph. rewrite votes_of_insert. case_decide; subst; lia.
Qed.

Lemma seen_hash_mono ps ps' n h : ps ⊆ ps' → seen_hash ps n h → seen_hash ps' n h.
Proof. intros Hsub (p & b & Hp & Hr). exists p, b. split; [by apply Hsub|done]. Qed.

Lemma thread_ok_mono ps ps' s s' t :
  ps ⊆ ps' → evolves s s' → thread_ok ps s t → thread_ok ps' s' t.
Proof.
  intros Hsub [HP HE HR Hh Hl Hv] Ht.
  destruct t; simpl in *; rewrite ?HP; naive_solver eauto using seen_hash_mono, Z.le_trans.
Qed.

Lemma effect_ok_mono ps ps' s s' e :
  ps ⊆ ps' → evolves s s' → effect_ok ps s e → effect_ok ps' s' e.
Proof.
  intros Hsub [HP HE HR Hh Hl Hv]. unfold effect_ok.
  destruct (effect_msg e); simpl; rewrite ?HP, ?HE, ?HR;
    naive_solver eauto using seen_hash_mono, Z.le_trans.
Qed.

Lemma state_ok_mono ps ps' s : ps ⊆ ps' → state_ok ps s → state_ok ps' s.
Proof.
  intros Hsub (H1 & H2 & H3). split_and!; [|done|].
  - intros h Hh. eapply seen_hash_mono; [done|by apply H1].
  - eapply Forall_impl; [exact H3|]. simpl. intros p [Hp ?]. split; [by apply Hsub|done].
Qed.

Lemma to_proposer_msg s m e : e ∈ to_proposer s m → effect_msg e = m.
Proof. unfold to_proposer. case_decide; set_solver. Qed.

Lemma to_all_msg m e : e ∈ to_all m → effect_msg e = m.
Proof. unfold to_all. set_solver. Qed.

(** Splits the code of one goroutine step into its branches. *)
Ltac spb_step_cases Hs :=
  cbn -[votes_of ConsensusBlock_Hash] in Hs; repeat go_case_in Hs; simplify_eq;
  cbn [spb_unHandleVote set_BlockHash set_LockFlag set_Votes set_unHandle].

(** One step keeps the state, its goroutines and its messages justified. *)
Lemma spb_step_state ps t s ts es s' :
  spb_step t s = Returns (ts, es) s' → state_ok ps s → thread_ok ps s t → state_ok ps s'.
Proof.
  intros Hs Hok Ht. destruct t; spb_step_cases Hs; try exact Hok;
    destruct Hok as (Hh & Hl & Hu); split_and!; simpl; auto.
  - intros h [= <-]. destruct Ht as (Hp & Hph & Hb & Hpr). exists p, b. done.
  - apply Forall_app. auto.
  - by destruct Ht as (_ & _ & ?).
Qed.

Lemma spb_step_threads ps t s ts es s' :
  spb_step t s = Returns (ts, es) s' → state_ok ps s → thread_ok ps s t →
  Forall (thread_ok ps s') ts.
Proof.
  intros Hs (Hh & Hl & Hu) Ht. destruct t; spb_step_cases Hs; try (by constructor);
    rewrite ?Forall_singleton; simpl in *; destruct_and?; auto.
  - split_and!; try done. symmetry. by apply dec_stable.
  - split_and!; [done| |by eexists]. exists p, b. done.
  - apply Forall_app; split; apply Forall_fmap; [|by apply Forall_true].
    eapply Forall_impl; [exact Hu|]. intros p [Hp Hph]. split; [done|].
    apply bool_decide_eq_true. intros Ho. rewrite Hph in Ho. discriminate.
  - split; [done|]. rewrite votes_of_insert. case_decide; [lia|done].
Qed.

Lemma spb_step_effects ps t s ts es s' :
  spb_step t s = Returns (ts, es) s' → state_ok ps s → thread_ok ps s t →
  Forall (effect_ok ps s') es.
Proof.
  intros Hs (Hh & Hl & Hu) Ht. destruct t; simpl in Hs, Ht;
    repeat case_match; simplify_eq; try (by apply Forall_nil);
    apply Forall_forall; intros e He; unfold effect_ok;
    first [apply to_proposer_msg in He|apply to_all_msg in He]; rewrite He; simpl;
    destruct_and?; split_and!; try done.
  - by left.
  - right. naive_solver.
  - congruence.
  - by apply Hh.
  - congruence.
Qed.

(** The messages an instance sends *)
Definition spb_message (m : Message) : bool :=
  match m with MSPBVote _ | MSPBProposal _ | MFinish _ => true | _ => false end.

Lemma spb_step_messages t s ts es s' e :
  spb_step t s = Returns (ts, es) s' → e ∈ es → spb_message (effect_msg e) = true.
Proof.
  intros Hs He. destruct t; spb_step_cases Hs; try (by apply not_elem_of_nil in He);
    first [apply to_proposer_msg in He|apply to_all_msg in He]; by rewrite He.
Qed.

Definition sys_ok (y : sys) : Prop :=
  state_ok (sys_proposals y) (sys_spb y) ∧
  Forall (thread_ok (sys_proposals y) (sys_spb y)) (sys_threads y) ∧
  Forall (effect_ok (sys_proposals y) (sys_spb y)) (sys_trace y).

Lemma thread_step_ok y y' : thread_step y y' → sys_ok y → sys_ok y'.
Proof.
  intros [s s' ts1 t ts2 ts' es tr ps vs Hs] (Hst & Hts & Htr). simpl in *.
  pose proof (spb_step_evolves _ _ _ _ _ Hs) as Hev.
  apply Forall_app in Hts as [H1 [Ht H2]%Forall_cons].
  split_and!; simpl.
  - by eapply spb_step_state.
  - rewrite !Forall_app. split_and!; [|by eapply spb_step_threads|];
      (eapply Forall_impl; [eassumption|]; intros; by eapply thread_ok_mono).
  - rewrite Forall_app. split; [|by eapply spb_step_effects].
    eapply Forall_impl; [exact Htr|]. intros. by eapply effect_ok_mono.
Qed.

Lemma arrival_ok y y' : arrival y y' → sys_ok y → sys_ok y'.
Proof.
  intros [s ts tr ps vs p Hb|s ts tr ps vs v] (Hst & Hts & Htr); unfold sys_ok; simpl in *.
  - assert (ps ⊆ ps ++ [p]) as Hsub by set_solver.
    rewrite Forall_app, Forall_singleton. simpl. split_and!.
    + by eapply state_ok_mono.
    + eapply Forall_impl; [exact Hts|]. intros. by eapply thread_ok_mono; [|apply evolves_refl|].
    + set_solver.
    + done.
    + eapply Forall_impl; [exact Htr|]. intros. by eapply effect_ok_mono; [|apply evolves_refl|].
  - rewrite Forall_app, Forall_singleton. by simpl.
Qed.

Lemma sys_ok_initial e r n : sys_ok (initial e r n).
Proof. unfold sys_ok, state_ok. simpl. repeat split; try done; by constructor. Qed.

Lemma reachable_ok e r n y : reachable e r n y → sys_ok y.
Proof.
  intros Hr. eapply rtc_invariant; [exact Hr|apply sys_ok_initial|].
  intros a b Ha [Hs|Hs]; [by eapply thread_step_ok|by eapply arrival_ok].
Qed.

(** *** Counting votes *)

Definition in_phase (ph : Z) (v : SPBVote) : bool := bool_decide (sv_Phase v = ph).

(** The goroutine carries a vote of the phase that is not counted yet. *)
Definition uncounted (ph : Z) (t : thread) : bool :=
  match t with
  | TVote v | TWaitVote v | TCount v => in_phase ph v
  | _ => false
  end.

(** The goroutine is about to announce that the phase has its votes. *)
Definition announcing (ph : Z) (t : thread) : bool :=
  match t with
  | TAct v num => in_phase ph v && bool_decide (num = Committee_HightThreshold committee)
  | _ => false
  end.

(** The messages that announce it *)
Definition announcement (ph : Z) (m : Message) : bool :=
  match m with
  | MSPBProposal p => bool_decide (ph = SPB_ONE_PHASE)
  | MFinish f => bool_decide (ph = SPB_TWO_PHASE)
  | _ => false
  end.

(** ... as they are sent to anybody, and as the node hands them to itself *)
Definition announcements (ph : Z) (tr : list effect) : list effect :=
  List.filter (λ e, announcement ph (effect_msg e)) tr.

Definition announces (ph : Z) (e : effect) : bool :=
  match e with Enqueue m => announcement ph m | Send _ _ _ => false end.

Definition vote_balance (ph : Z) (y : sys) : Prop :=
  0 <= votes_of (sys_spb y) ph ∧
  Z.of_nat (countb (in_phase ph) (sys_votes y)) =
  votes_of (sys_spb y) ph +
  Z.of_nat (countb (uncounted ph) (sys_threads y)) +
  Z.of_nat (countb (in_phase ph) (spb_unHandleVote (sys_spb y))).

(** 1 if the phase has its votes, else 0 *)
Definition quorate (ph : Z) (s : SPB) : nat :=
  if decide (Committee_HightThreshold committee <= votes_of s ph) then 1 else 0.

Definition announced (ph : Z) (y : sys) : Prop :=
  (countb (announces ph) (sys_trace y) + countb (announcing ph) (sys_threads y))%nat =
  quorate ph (sys_spb y).

Lemma countb_map {A B} (f : B → bool) (g : A → B) l :
  countb f (map g l) = countb (λ x, f (g x)) l.
Proof. induction l as [|x l IH]; [done|]. cbn [map]. by rewrite !countb_cons, IH. Qed.

Lemma countb_const_false {A} (l : list A) : countb (λ _, false) l = 0%nat.
Proof. by apply countb_0. Qed.

(** The fields other than [Votes] do not change the counts. *)
Lemma votes_of_setters s ph h vs ps :
  votes_of (set_BlockHash h s) ph = votes_of s ph ∧
  votes_of (set_LockFlag s) ph = votes_of s ph ∧
  votes_of (set_unHandle vs ps s) ph = votes_of s ph.
Proof. done. Qed.

Ltac spb_counts :=
  rewrite ?countb_app, ?countb_map, ?countb_cons; cbn [uncounted announcing announces announcement];
  rewrite ?countb_const_false, ?votes_of_insert,
    ?(proj1 (votes_of_setters _ _ _ [] [])),
    ?(proj1 (proj2 (votes_of_setters _ _ [] [] []))),
    ?(proj2 (proj2 (votes_of_setters _ _ [] _ _))).

Lemma spb_step_balance ph t s ts es s' :
  spb_step t s = Returns (ts, es) s' →
  votes_of s' ph + Z.of_nat (countb (uncounted ph) ts) +
  Z.of_nat (countb (in_phase ph) (spb_unHandleVote s')) =
  votes_of s ph + (if uncounted ph t then 1 else 0) +
  Z.of_nat (countb (in_phase ph) (spb_unHandleVote s)).
Proof.
  intros Hs. destruct t; spb_step_cases Hs; spb_counts; cbn [countb List.filter length];
    try lia.
  - change (λ x, in_phase ph x) with (in_phase ph). lia.
  - destruct (in_phase ph v); lia.
  - destruct (in_phase ph v); lia.
  - destruct (in_phase ph v); lia.
  - unfold in_phase. case_decide; case_bool_decide; subst; simpl; lia.
Qed.

Lemma announces_to_proposer ph s v : countb (announces ph) (to_proposer s (MSPBVote v)) = 0%nat.
Proof. unfold to_proposer. by case_decide. Qed.

Lemma announces_to_all ph m :
  countb (announces ph) (to_all m) = if announces ph (Enqueue m) then 1%nat else 0%nat.
Proof. unfold to_all. by rewrite !countb_cons, Nat.add_0_r. Qed.

(** A step announces a phase exactly when it counts the deciding vote. *)
Lemma spb_step_announced ph t s ts es s' :
  ph = SPB_ONE_PHASE ∨ ph = SPB_TWO_PHASE →
  spb_step t s = Returns (ts, es) s' →
  (countb (announces ph) es + countb (announcing ph) ts +
   quorate ph s = (if announcing ph t then 1 else 0) + quorate ph s')%nat.
Proof.
  intros Hph Hs. destruct t; spb_step_cases Hs;
    rewrite ?announces_to_proposer, ?announces_to_all; spb_counts;
    cbn [countb List.filter length]; try lia.
  all: unfold in_phase, quorate; spb_counts; repeat case_bool_decide;
    repeat case_decide; subst; simpl; try done; try lia; try (exfalso; naive_solver lia).
Qed.

Lemma thread_step_counts ph y y' :
  ph = SPB_ONE_PHASE ∨ ph = SPB_TWO_PHASE → thread_step y y' →
  vote_balance ph y ∧ announced ph y → vote_balance ph y' ∧ announced ph y'.
Proof.
  intros Hph [s s' ts1 t ts2 ts' es tr ps vs Hs]. unfold vote_balance, announced. simpl.
  pose proof (spb_step_balance ph _ _ _ _ _ Hs).
  pose proof (spb_step_announced ph _ _ _ _ _ Hph Hs).
  pose proof (ev_votes _ _ (spb_step_evolves _ _ _ _ _ Hs) ph).
  rewrite !countb_app, !countb_cons. destruct (uncounted ph t), (announcing ph t); lia.
Qed.

Lemma arrival_counts ph y y' :
  arrival y y' → vote_balance ph y ∧ announced ph y → vote_balance ph y' ∧ announced ph y'.
Proof.
  intros [s ts tr ps vs p Hb|s ts tr ps vs v]; unfold vote_balance, announced; simpl;
    rewrite !countb_snoc; simpl; [lia|]. destruct (in_phase ph v); lia.
Qed.

Lemma initial_counts ph e r n :
  vote_balance ph (initial e r n) ∧ announced ph (initial e r n).
Proof.
  unfold vote_balance, announced, quorate, votes_of. simpl. rewrite lookup_empty. simpl.
  pose proof (HightThreshold_pos committee). split_and!; [done..|].
  rewrite decide_False; [done|lia].
Qed.

Lemma reachable_counts ph e r n y :
  ph = SPB_ONE_PHASE ∨ ph = SPB_TWO_PHASE → reachable e r n y →
  vote_balance ph y ∧ announced ph y.
Proof.
  intros Hph Hr.
  apply (rtc_invariant _ (λ y, vote_balance ph y ∧ announced ph y) _ _ Hr);
    [apply initial_counts|].
  intros a b Ha [Hs|Hs]; [by eapply thread_step_counts|by eapply arrival_counts].
Qed.

(** An announcement goes to all other nodes and to the node itself: what is sent are such
    pairs. *)
Definition to_everybody (m : Message) : list effect := [Send Name NONE m; Enqueue m].

Lemma spb_step_announcements ph t s ts es s' :
  spb_step t s = Returns (ts, es) s' →
  announcements ph es = [] ∨ ∃ m, announcement ph m = true ∧ announcements ph es = to_everybody m.
Proof.
  intros Hs. assert (∀ m, announcements ph (to_all m) = if announcement ph m then to_everybody m else []) as Hall.
  { intros m. unfold announcements, to_all. simpl. by destruct (announcement ph m). }
  destruct t; spb_step_cases Hs; rewrite ?Hall; try (by left).
  - left. unfold to_proposer. by case_decide.
  - left. unfold to_proposer. by case_decide.
  - destruct (announcement ph _) eqn:Ha; [right; by eexists|by left].
  - destruct (announcement ph _) eqn:Ha; [right; by eexists|by left].
Qed.

Lemma announcements_app ph tr tr' :
  announcements ph (tr ++ tr') = announcements ph tr ++ announcements ph tr'.
Proof. apply List.filter_app. Qed.

Lemma reachable_announcements ph e r n y :
  reachable e r n y →
  ∃ ms, announcements ph (sys_trace y) = flat_map to_everybody ms ∧
    countb (announces ph) (sys_trace y) = length ms.
Proof.
  intros Hr. apply (rtc_invariant _ (λ y, ∃ ms, announcements ph (sys_trace y) = flat_map to_everybody ms ∧
    countb (announces ph) (sys_trace y) = length ms) _ _ Hr); [by exists []|].
  intros a b (ms & Hms & Hc) [Hs|Hs].
  - destruct Hs as [s s' ts1 t ts2 ts' es tr ps vs Hs]. cbn [sys_trace] in *.
    rewrite announcements_app, countb_app, Hms, Hc.
    assert (countb (announces ph) es = countb (announces ph) (announcements ph es)) as ->.
    { clear. unfold announcements. induction es as [|[x y m|m] es IH]; simpl; [done| |];
        destruct (announcement ph m) eqn:Hm; rewrite ?countb_cons; simpl; rewrite ?Hm, IH; done. }
    destruct (spb_step_announcements ph _ _ _ _ _ Hs) as [->|(m & Hm & ->)].
    + exists ms. rewrite app_nil_r. split; [done|]. rewrite countb_nil. lia.
    + exists (ms ++ [m]). rewrite flat_map_app, length_app. split; [done|].
      unfold to_everybody. rewrite !countb_cons, countb_nil. simpl. rewrite Hm. lia.
  - exists ms. by destruct Hs.
Qed.

(** *** Termination *)

(** An upper bound of the steps a goroutine and those it causes can take. *)
Definition weight (h : option Digest) (t : thread) : nat :=
  match t with
  | TProposal _ => match h with Some _ => 4 | None => 6 end
  | TStore _ _ => 4
  | TVoteOne _ _ => 2
  | TFlush => 1
  | TWaitProposal _ => 5
  | TLock _ => 2
  | TVoteTwo _ => 1
  | TVote _ => match h with Some _ => 3 | None => 5 end
  | TWaitVote _ => 4
  | TCount _ => 2
  | TAct _ _ => 1
  end.

Fixpoint weights (h : option Digest) (ts : list thread) : nat :=
  match ts with [] => 0 | t :: ts => weight h t + weights h ts end.

Definition potential (s : SPB) (ts : list thread) : nat :=
  weights (spb_BlockHash s) ts + 3 * length (spb_unHandleVote s) +
  4 * length (spb_unHandleProposal s).

Lemma weights_app h ts ts' : weights h (ts ++ ts') = (weights h ts + weights h ts')%nat.
Proof. induction ts as [|t ts IH]; simpl; [done|]. lia. Qed.

Lemma weights_hash h d ts : (weights (Some d) ts <= weights h ts)%nat.
Proof.
  induction ts as [|t ts IH]; simpl; [done|].
  destruct t, h; simpl in *; lia.
Qed.

Lemma weights_waiting d ps vs :
  weights (Some d) (map TProposal ps ++ map TVote vs) = (4 * length ps + 3 * length vs)%nat.
Proof.
  rewrite weights_app. assert (weights (Some d) (map TProposal ps) = 4 * length ps)%nat.
  { induction ps; simpl in *; lia. }
  assert (weights (Some d) (map TVote vs) = 3 * length vs)%nat by (induction vs; simpl in *; lia).
  lia.
Qed.

Lemma spb_step_potential ps t s ts es s' :
  spb_step t s = Returns (ts, es) s' → thread_ok ps s t →
  (potential s' ts < potential s [t])%nat.
Proof.
  intros Hs Ht. unfold potential. destruct t; spb_step_cases Hs;
    cbn [spb_BlockHash spb_unHandleProposal set_BlockHash set_LockFlag set_Votes set_unHandle weights weight];
    rewrite ?length_app; cbn [length]; try lia.
  - destruct (spb_BlockHash s'); lia.
  - destruct Ht as [d ->]. rewrite weights_waiting. lia.
Qed.

Lemma thread_step_potential y y' :
  thread_step y y' → sys_ok y →
  (potential (sys_spb y') (sys_threads y') < potential (sys_spb y) (sys_threads y))%nat.
Proof.
  intros [s s' ts1 t ts2 ts' es tr ps vs Hs] (_ & Hts & _). simpl in *.
  apply Forall_app in Hts as [_ [Ht _]%Forall_cons].
  pose proof (spb_step_potential _ _ _ _ _ _ Hs Ht) as Hlt.
  pose proof (ev_hash _ _ (spb_step_evolves _ _ _ _ _ Hs)) as Hh.
  assert (∀ ts, weights (spb_BlockHash s') ts <= weights (spb_BlockHash s) ts)%nat as Hw.
  { intros ts. destruct (spb_BlockHash s') as [d|]; [apply weights_hash|].
    destruct (spb_BlockHash s); [|done]. destruct Hh as [? ?]; [by eexists|done]. }
  pose proof (Hw ts1). pose proof (Hw ts2).
  unfold potential in *. rewrite !weights_app. simpl in *. lia.
Qed.

Lemma thread_steps_ok k y y' : nsteps thread_step k y y' → sys_ok y →
  (k + potential (sys_spb y') (sys_threads y') <= potential (sys_spb y) (sys_threads y))%nat.
Proof.
  induction 1 as [y|k y y1 y2 Hs _ IH]; [done|]. intros Hok.
  pose proof (thread_step_potential _ _ Hs Hok).
  specialize (IH (thread_step_ok _ _ Hs Hok)). lia.
Qed.

(** No goroutine can panic. *)
Lemma thread_ok_returns ps s t :
  thread_ok ps s t → ∃ r s', spb_step t s = Returns r s'.
Proof.
  intros Ht. destruct t; simpl in *; repeat case_match; eauto; exfalso.
  - destruct Ht as [_ Ht]. apply bool_decide_eq_true in Ht. destruct Ht; congruence.
  - destruct Ht as [[??] _]. congruence.
Qed.

(** *** Serial runs *)

(** A goroutine that neither waits nor touches the waiting lists *)
Definition calm (t : thread) : bool :=
  match t with
  | TStore _ _ | TVoteOne _ _ | TFlush | TWaitProposal _ | TWaitVote _ => false
  | _ => true
  end.

(** A goroutine that can be there before a hash is *)
Definition early (t : thread) : bool :=
  match t with
  | TProposal _ | TStore _ _ | TWaitProposal _ | TVote _ | TWaitVote _ => true
  | _ => false
  end.

Definition votes_one (e : effect) : bool :=
  match effect_msg e with
  | MSPBVote v => in_phase SPB_ONE_PHASE v
  | _ => false
  end.

(** The shapes of a serial run: nothing accepted yet and at most one goroutine;
    the first proposal being accepted; and from then on nothing waits. *)
Inductive serial_ok : sys → Prop :=
  | serial_none s ts tr ps vs :
      spb_BlockHash s = None → (length ts <= 1)%nat →
      Forall (λ t, early t = true) ts →
      countb votes_one tr = 0%nat →
      serial_ok (mkSys s ts tr ps vs)
  | serial_voting s p h tr ps vs :
      is_Some (spb_BlockHash s) → countb votes_one tr = 0%nat →
      serial_ok (mkSys s [TVoteOne p h] tr ps vs)
  | serial_flushing s tr ps vs :
      is_Some (spb_BlockHash s) → (countb votes_one tr <= 1)%nat →
      serial_ok (mkSys s [TFlush] tr ps vs)
  | serial_calm s ts tr ps vs :
      is_Some (spb_BlockHash s) → spb_unHandleVote s = [] → spb_unHandleProposal s = [] →
      Forall (λ t, calm t = true) ts → (countb votes_one tr <= 1)%nat →
      serial_ok (mkSys s ts tr ps vs).

Lemma votes_one_to_proposer s v :
  countb votes_one (to_proposer s (MSPBVote v)) =
  if in_phase SPB_ONE_PHASE v then 1%nat else 0%nat.
Proof. unfold to_proposer. case_decide; by rewrite countb_cons, Nat.add_0_r. Qed.

(** Once nothing waits and a hash is there, goroutines stay calm and cast no more
    phase-one votes. *)
Lemma calm_step ps t s ts es s' :
  spb_step t s = Returns (ts, es) s' → thread_ok ps s t → calm t = true →
  is_Some (spb_BlockHash s) →
  Forall (λ t, calm t = true) ts ∧ countb votes_one es = 0%nat ∧
  spb_unHandleVote s' = spb_unHandleVote s ∧
  spb_unHandleProposal s' = spb_unHandleProposal s.
Proof.
  intros Hs Ht Hc [d Hd]. destruct t; try discriminate Hc; spb_step_cases Hs;
    try congruence; split_and!; rewrite ?votes_one_to_proposer; simpl; auto.
  destruct Ht as (_ & Hph & _). unfold NewSPBVote in Heqr. simpl in Heqr.
  simplify_eq. unfold in_phase. simpl. by rewrite Hph.
Qed.

Lemma single_thread {A} (ts1 : list A) t ts2 :
  (length (ts1 ++ t :: ts2) <= 1)%nat → ts1 = [] ∧ ts2 = [].
Proof. rewrite length_app. simpl. destruct ts1, ts2; simpl; try lia. done. Qed.

(** The first goroutine of an instance without a hash *)
Lemma none_step s t ts es s' tr ps vs :
  spb_step t s = Returns (ts, es) s' → spb_BlockHash s = None →
  early t = true →
  countb votes_one tr = 0%nat →
  serial_ok (mkSys s' ts (tr ++ es) ps vs).
Proof.
  intros Hs Hn Ht Htr. destruct t; try done; spb_step_cases Hs; try congruence;
    rewrite app_nil_r;
    first [apply serial_voting; [by eexists|done] | apply serial_none; simpl; auto].
Qed.

Lemma serial_thread_step y y' : thread_step y y' → sys_ok y → serial_ok y → serial_ok y'.
Proof.
  intros [s s' ts1 t ts2 ts' es tr ps vs Hs] (_ & Hts & _) Hok. simpl in Hts.
  apply Forall_app in Hts as [_ [Ht _]%Forall_cons].
  inversion Hok as [? ? ? ? ? Hn Hlen Hfirst Hz|? p h ? ? ? Hsome Hz|? ? ? ? Hsome Hz
    |? ? ? ? ? Hsome Hv Hp Hcalm Hz]; subst.
  - apply single_thread in Hlen as [-> ->]. apply Forall_inv in Hfirst.
    rewrite app_nil_l, app_nil_r. by eapply none_step.
  - assert (ts1 = [] ∧ ts2 = []) as [-> ->].
    { apply (single_thread _ t). by match goal with H : [_] = _ |- _ => rewrite <-H end. }
    simplify_list_eq. apply serial_flushing; [done|].
    rewrite countb_app, votes_one_to_proposer, Hz. case_match; lia.
  - assert (ts1 = [] ∧ ts2 = []) as [-> ->].
    { apply (single_thread _ t). by match goal with H : [_] = _ |- _ => rewrite <-H end. }
    simplify_list_eq.
    apply serial_calm; try done.
    apply Forall_app; split; apply Forall_fmap, Forall_true; done.
  - apply Forall_app in Hcalm as [Hc1 [Hct Hc2]%Forall_cons].
    destruct (calm_step _ _ _ _ _ _ Hs Ht Hct Hsome) as (Hc & Hes & HuV & HuP).
    apply serial_calm; [|congruence|congruence| |].
    + by apply (ev_hash _ _ (spb_step_evolves _ _ _ _ _ Hs)).
    + rewrite !Forall_app. done.
    + rewrite countb_app, Hes. lia.
Qed.

Lemma serial_arrival_ok y y' :
  arrival y y' → sys_threads y = [] → serial_ok y → serial_ok y'.
Proof.
  intros Ha Hnil Hok. destruct Hok; simpl in Hnil; simplify_eq;
    inversion Ha; subst; simpl; (apply serial_none + apply serial_calm); simpl; auto;
    by repeat constructor.
Qed.

Lemma serially_reachable_reachable e r n y : serially_reachable e r n y → reachable e r n y.
Proof.
  intros Hr. unfold reachable. induction Hr as [|y1 y2 y3 Hs _ IH]; [done|].
  eapply rtc_l; [|exact IH]. destruct Hs; by constructor.
Qed.

Lemma serially_reachable_ok e r n y : serially_reachable e r n y → serial_ok y.
Proof.
  intros Hr. enough (sys_ok y ∧ serial_ok y) by tauto.
  apply (rtc_invariant _ (λ y, sys_ok y ∧ serial_ok y) _ _ Hr).
  - split; [apply sys_ok_initial|]. apply serial_none; simpl; auto.
  - intros a b [Ha Hb] [Hs|Hnil Hs]; split.
    + by eapply thread_step_ok.
    + by eapply serial_thread_step.
    + by eapply arrival_ok.
    + by eapply serial_arrival_ok.
Qed.

(** C5 Every message of an instance is justified, in every interleaving of its
    goroutines: a phase-one vote is for a received block of the instance's
    proposer, a phase-two vote is cast only under the lock and after a phase-two
    proposal, the phase-two proposal and the finish message only after
    [HightThreshold] votes of the phase before, and the finish message names a
    received block.  A locked instance has a block hash, so the core's panic
    "block hash is nil" cannot happen. *)
Theorem spb_messages_justified epoch round proposer y :
  reachable epoch round proposer y →
  (∀ e, e ∈ sys_trace y → justified (sys_proposals y) (sys_spb y) (effect_msg e)) ∧
  (SPB_IsLock (sys_spb y) = true →
   ∃ h, SPB_GetBlockHash (sys_spb y) = Some h ∧
        seen_hash (sys_proposals y) (spb_Proposer (sys_spb y)) h).
Proof.
  intros Hr. destruct (reachable_ok _ _ _ _ Hr) as ((Hh & Hl & _) & _ & Htr). split.
  - by apply Forall_forall.
  - intros Hlock. destruct (Hl Hlock) as [h Heq]. eauto.
Qed.

(** C4 Quorums are announced once, in every interleaving: of the phase-two proposal, and
    of the finish message, an instance sends nothing, or one message to all other nodes
    and the same message to its own channel; only if [HightThreshold] votes of the phase
    were received, and when the goroutines are done exactly if the counted votes reach
    that number.  Every received vote is counted, in a goroutine, or waiting. *)
Theorem spb_announces_once epoch round proposer y phase :
  reachable epoch round proposer y →
  phase = SPB_ONE_PHASE ∨ phase = SPB_TWO_PHASE →
  let sent := announcements phase (sys_trace y) in
  let received := Z.of_nat (countb (in_phase phase) (sys_votes y)) in
  (sent = [] ∨ ∃ m, sent = [Send Name NONE m; Enqueue m]) ∧
  (sent ≠ [] → Committee_HightThreshold committee <= received) ∧
  (sys_threads y = [] →
   (sent ≠ [] ↔ Committee_HightThreshold committee <= votes_of (sys_spb y) phase) ∧
   received = votes_of (sys_spb y) phase +
              Z.of_nat (countb (in_phase phase) (spb_unHandleVote (sys_spb y)))).
Proof.
  intros Hr Hph. destruct (reachable_counts phase _ _ _ _ Hph Hr) as [[Hn Hb] Ha].
  destruct (reachable_announcements phase _ _ _ _ Hr) as (ms & Hms & Hc).
  unfold announced, quorate in Ha. simpl. rewrite Hms. rewrite Hc in Ha.
  destruct ms as [|m [|m' ms]]; cbn [flat_map app length] in *; [| |case_decide; lia].
  - split_and!; [by left|done|]. intros Hnil. rewrite Hnil in Ha, Hb.
    cbn [countb List.filter length] in Ha, Hb. split; [|lia]. split; [done|]. case_decide; [lia|done].
  - split_and!; [right; by exists m|intros _; case_decide; lia|]. intros Hnil. rewrite Hnil in Ha, Hb.
    cbn [countb List.filter length] in Ha, Hb. split; [|lia]. split; [|done]. case_decide; [done|lia].
Qed.

(** C31 The goroutines of an instance never panic and never run forever: in
    every reachable state each of them can take its next step, and without new
    messages at most [potential] steps are left in any order. *)
Theorem spb_goroutines_finish epoch round proposer y :
  reachable epoch round proposer y →
  (∀ t, t ∈ sys_threads y → ∃ r s', spb_step t (sys_spb y) = Returns r s') ∧
  (∀ k y', nsteps thread_step k y y' →
   (k <= potential (sys_spb y) (sys_threads y))%nat).
Proof.
  intros Hr. pose proof (reachable_ok _ _ _ _ Hr) as Hok. split.
  - intros t Ht. destruct Hok as (_ & Hts & _). rewrite Forall_forall in Hts.
    by eapply thread_ok_returns, Hts.
  - intros k y' Hk. pose proof (thread_steps_ok _ _ _ Hk Hok). lia.
Qed.

(** Without races the broadcast is exact: if messages arrive only while no
    goroutine of the instance runs, then once a block is accepted and the
    goroutines are done no message waits, every received vote has been counted,
    the phase-two proposal (the finish message) has been sent if and only if
    [HightThreshold] votes of phase one (two) were received, and at most one
    phase-one vote was ever cast. *)
Theorem spb_serial_exact epoch round proposer y phase :
  serially_reachable epoch round proposer y →
  phase = SPB_ONE_PHASE ∨ phase = SPB_TWO_PHASE →
  is_Some (spb_BlockHash (sys_spb y)) → sys_threads y = [] →
  let received := Z.of_nat (countb (in_phase phase) (sys_votes y)) in
  spb_unHandleVote (sys_spb y) = [] ∧ spb_unHandleProposal (sys_spb y) = [] ∧
  votes_of (sys_spb y) phase = received ∧
  countb (announces phase) (sys_trace y) =
    (if decide (Committee_HightThreshold committee <= received) then 1%nat else 0%nat) ∧
  (countb votes_one (sys_trace y) <= 1)%nat.
Proof.
  intros Hr Hph [h Hh] Hnil.
  destruct (reachable_counts phase _ _ _ _ Hph (serially_reachable_reachable _ _ _ _ Hr))
    as [[_ Hb] Ha].
  destruct (serially_reachable_ok _ _ _ _ Hr); simpl in *; simplify_eq.
  replace (spb_unHandleVote s) with (@nil SPBVote) in Hb by congruence. simpl in Hb.
  unfold announced, quorate in Ha. simpl in Ha.
  cbn [countb List.filter length] in Ha, Hb.
  split_and!; try done; [lia|]. rewrite Nat.add_0_r in Ha. rewrite Ha.
  repeat case_decide; lia.
Qed.
End spb.

(** ** Interleavings that go wrong *)

Section races.
Context {CL : CryptoLib} (svc : SigService).

(** Messages of the instance of node 0 in epoch 0, round 0 *)
Definition sample_block (payloads : list Digest) : ConsensusBlock :=
  NewConsensusBlock 0 payloads 0.
Definition sample_proposal (payloads : list Digest) : SPBProposal :=
  mkSPBProposal 0 (Some (sample_block payloads)) 0 0 SPB_ONE_PHASE [].
Definition sample_vote (author : NodeID) (phase : Z) : SPBVote :=
  mkSPBVote author 0 zero_Digest 0 0 phase [].

Definition vote_hash (m : Message) : option Digest :=
  match m with MSPBVote v => Some (sv_BlockHash v) | _ => None end.

(** Races between the goroutines of one instance.  A vote that finds no block
    hash and is put aside after the waiting votes were released is never
    counted: an instance can be at rest with a block, all [HightThreshold] votes
    of phase one received, and no phase-two proposal sent.  Two phase-one
    proposals that both find no hash are both voted for, with their two
    different hashes. *)
Theorem spb_races :
  let c := sample_Committee 4 in
  (∃ y, reachable 0 c svc 0 0 0 y ∧ sys_threads y = [] ∧
     is_Some (spb_BlockHash (sys_spb y)) ∧
     Committee_HightThreshold c = Z.of_nat (countb (in_phase SPB_ONE_PHASE) (sys_votes y)) ∧
     countb (announces SPB_ONE_PHASE) (sys_trace y) = 0%nat ∧
     spb_unHandleVote (sys_spb y) = [sample_vote 1 SPB_ONE_PHASE]) ∧
  (∃ y, reachable 0 c svc 0 0 0 y ∧ sys_threads y = [] ∧
     map (vote_hash ∘ effect_msg) (sys_trace y) =
       [Some (ConsensusBlock_Hash (sample_block []));
        Some (ConsensusBlock_Hash (sample_block [zero_Digest]))]).
Proof.
  split.
  - eexists. split.
    { apply (play_reachable 0 (sample_Committee 4) svc
        [GetVote (sample_vote 1 SPB_ONE_PHASE); Run 0; GetProposal (sample_proposal []);
         Run 1; Run 1; Run 1; Run 1; Run 0;
         GetVote (sample_vote 2 SPB_ONE_PHASE); Run 0; Run 0; Run 0;
         GetVote (sample_vote 3 SPB_ONE_PHASE); Run 0; Run 0; Run 0]).
      vm_compute. reflexivity. }
    split_and!; try reflexivity. by eexists.
  - eexists. split.
    { apply (play_reachable 0 (sample_Committee 4) svc
        [GetProposal (sample_proposal []); GetProposal (sample_proposal [zero_Digest]);
         Run 0; Run 1; Run 0; Run 1; Run 0; Run 1; Run 0; Run 0]).
      vm_compute. reflexivity. }
    split_and!; reflexivity.
Qed.

(** Votes are counted, not voters: an instance at rest has finished its
    broadcast with nothing but repeated votes of a single node, whatever hash
    they carry. *)
Theorem spb_counts_repeated_votes :
  let c := sample_Committee 4 in
  ∃ y, reachable 0 c svc 0 0 0 y ∧ sys_threads y = [] ∧
    (∀ v, v ∈ sys_votes y → sv_Author v = 1) ∧
    ∃ f, Enqueue (MFinish f) ∈ sys_trace y ∧ fi_BlockHash f = ConsensusBlock_Hash (sample_block []).
Proof.
  eexists. split.
  { apply (play_reachable 0 (sample_Committee 4) svc
      ([GetProposal (sample_proposal []); Run 0; Run 0; Run 0; Run 0] ++
       concat (repeat [GetVote (sample_vote 1 SPB_TWO_PHASE); Run 0; Run 0; Run 0] 3))).
    vm_compute. reflexivity. }
  split; [reflexivity|]. split.
  - intros v Hv. simpl in Hv. repeat (apply elem_of_cons in Hv as [->|Hv]; [done|]).
    by apply not_elem_of_nil in Hv.
  - eexists. split; [|].
    { do 2 apply list_elem_of_further. apply list_elem_of_here. }
    reflexivity.
Qed.
End races.
