(* ===== verification/Synchronizer.v ===== *)
(** * Fetching missing payloads (src/mempool/synchronizer.go)

    A consensus block refers to payload blocks by digest.  [Verify] reports
    whether all of them are stored and otherwise asks the synchronizer to fetch
    the missing ones.  The synchronizer's goroutine keeps a table of pending
    consensus blocks, one waiting goroutine for each, and reports a block on the
    loop-back channel once its payloads are there.

    [sync_step] interleaves the turns of the loop (one function per
    [case]) with the steps of the waiting goroutines and with
    writes to the store by the rest of the node.  The channels between them are
    lists, oldest message first. *)

From stdpp Require Import base gmap list strings.
From S2P Require Import Prelude Committee Crypto Store.

(** [VerifyStatus] *)
Inductive VerifyStatus : Type := OK | Wait | Reject.

#[export] Instance VerifyStatus_eq_dec : EqDecision VerifyStatus.
Proof. solve_decision. Defined.

Record RequestBlockMsg : Type := mkRequestBlockMsg {
  rb_Type : Z;
  rb_Digests : list Digest;
  rb_Author : NodeID
}.

Record SyncBlockMsg : Type := mkSyncBlockMsg {
  sb_Missing : list Digest;
  sb_Author : NodeID;
  sb_Epoch : Z;
  sb_ConsensusBlockHash : Digest
}.

(** The messages of [interChan] *)
Inductive interMsg : Type :=
  | SyncBlock (req : SyncBlockMsg)
  | SyncCleanUpBlock (epoch : Z).

(** An entry of [pending]; a [Notify] channel is its number. *)
Record pendingEntry : Type := mkPending {
  pe_Epoch : Z;
  pe_Notify : nat;
  pe_LastSend : Z;
  pe_Missing : list Digest;
  pe_Author : NodeID
}.

(** A goroutine that runs [waiter]: the digests it still waits for. *)
Record waiterState : Type := mkWaiter {
  wt_missing : list Digest;
  wt_blockhash : Digest;
  wt_notify : nat
}.

Record syncState : Type := mkSync {
  sy_pending : gmap Digest pendingEntry;
  (** channels made so far, and the closed ones *)
  sy_channels : nat;
  sy_closed : gset nat;
  sy_waiters : list waiterState;
  sy_waiting : list Digest;
  sy_LoopBackChan : list Digest;
  (** requests handed to the network, with their destination *)
  sy_sent : list (NodeID * RequestBlockMsg)
}.

Definition NewSynchronizer : syncState := mkSync ∅ 0 ∅ [] [] [] [].

Section synchronizer.
Context {D : DB}.
Context (Name : NodeID) (parameters : Parameters).

(** [Verify]: the status, and the message put on [interChan]. *)
Definition Synchronizer_Verify (store : Store) (proposer : NodeID) (Epoch : Z)
    (digests : list Digest) (consensusblockhash : Digest)
  : VerifyStatus * list interMsg :=
  let missing := List.filter
    (λ digest, match Store_Read store digest with Ok _ => false | Err _ => true end)
    digests in
  match missing with
  | [] => (OK, [])
  | _ => (Wait, [SyncBlock (mkSyncBlockMsg missing proposer Epoch consensusblockhash)])
  end.

Definition Synchronizer_Cleanup (epoch : Z) : list interMsg := [SyncCleanUpBlock epoch].

(** [case reqMsg := <-sync.interChan], a [SyncBlockMsg]; [now] is [time.Now()]. *)
Definition handle_SyncBlock (now : Z) (req : SyncBlockMsg) (s : syncState) : syncState :=
  let digest := sb_ConsensusBlockHash req in
  match sy_pending s !! digest with
  | Some _ => s
  | None =>
      let notify := sy_channels s in
      mkSync
        (<[digest := mkPending (wrapU64 (sb_Epoch req)) notify now (sb_Missing req)
                       (sb_Author req)]> (sy_pending s))
        (S notify) (sy_closed s)
        (sy_waiters s ++ [mkWaiter (sb_Missing req) digest notify])
        (sy_waiting s) (sy_LoopBackChan s)
        (sy_sent s ++ [(sb_Author req, mkRequestBlockMsg 0 (sb_Missing req) Name)])
  end.

(** A [SyncCleanUpBlockMsg]: the pending blocks of old epochs.  The order in which
    the map is ranged over has no effect on the result. *)
Definition old_keys (epoch : Z) (s : syncState) : list Digest :=
  map fst (List.filter (λ kv, bool_decide (pe_Epoch kv.2 <= epoch))
             (map_to_list (sy_pending s))).

(** Closing a closed channel panics. *)
Fixpoint close_all (keys : list Digest) (s : syncState) : outcome syncState unit :=
  match keys with
  | [] => Returns tt s
  | key :: keys =>
      match sy_pending s !! key with
      | None => close_all keys s
      | Some val =>
          if decide (pe_Notify val ∈ sy_closed s) then Crash "close of closed channel"
          else close_all keys
            (mkSync (sy_pending s) (sy_channels s) ({[pe_Notify val]} ∪ sy_closed s)
               (sy_waiters s) (sy_waiting s) (sy_LoopBackChan s) (sy_sent s))
      end
  end.

Definition handle_SyncCleanUp (epoch : Z) (s : syncState) : outcome syncState unit :=
  let keys := old_keys epoch s in
  match close_all keys s with
  | Crash why => Crash why
  | Returns _ s' =>
      Returns tt
        (mkSync (foldr delete (sy_pending s') keys) (sy_channels s') (sy_closed s')
           (sy_waiters s') (sy_waiting s') (sy_LoopBackChan s') (sy_sent s'))
  end.

Definition handle_interMsg (now : Z) (m : interMsg) (s : syncState)
  : outcome syncState unit :=
  match m with
  | SyncBlock req => Returns tt (handle_SyncBlock now req s)
  | SyncCleanUpBlock epoch => handle_SyncCleanUp epoch s
  end.

(** [case block := <-waiting] *)
Definition handle_waiting (block : Digest) (s : syncState) : syncState :=
  if decide (block ≠ zero_Digest) then
    mkSync (delete block (sy_pending s)) (sy_channels s) (sy_closed s) (sy_waiters s)
      (sy_waiting s) (sy_LoopBackChan s ++ [block]) (sy_sent s)
  else s.

(** Times and durations are in nanoseconds. *)
Definition Millisecond : Z := 1000000.

(** [case <-ticker.C]: the entries in the order [keys] of the range. *)
Definition retry (now : Z) (s : syncState) (digest : Digest) : syncState :=
  match sy_pending s !! digest with
  | None => s
  | Some entry =>
      if decide (SyncRetryDelay parameters * Millisecond < now - pe_LastSend entry) then
        mkSync
          (<[digest := mkPending (pe_Epoch entry) (pe_Notify entry) now
                         (pe_Missing entry) (pe_Author entry)]> (sy_pending s))
          (sy_channels s) (sy_closed s) (sy_waiters s) (sy_waiting s)
          (sy_LoopBackChan s)
          (sy_sent s ++ [(NONE, mkRequestBlockMsg 0 (pe_Missing entry) Name)])
      else s
  end.

Definition handle_tick (now : Z) (keys : list Digest) (s : syncState) : syncState :=
  foldl (retry now) s keys.

(** ** The goroutines together *)

Definition readable (store : Store) (d : Digest) : Prop := ∃ v, Store_Read store d = Ok v.

(** [ss_requests] records the requests taken from [interChan]. *)
Record syncSys : Type := mkSyncSys {
  ss_store : Store;
  ss_inter : list interMsg;
  ss_sync : syncState;
  ss_requests : list SyncBlockMsg
}.

Definition request_of (m : interMsg) : list SyncBlockMsg :=
  match m with SyncBlock req => [req] | SyncCleanUpBlock _ => [] end.

Definition with_waiters (ws : list waiterState) (waiting : list Digest) (s : syncState)
  : syncState :=
  mkSync (sy_pending s) (sy_channels s) (sy_closed s) ws waiting (sy_LoopBackChan s)
    (sy_sent s).

(** What the goroutines of the synchronizer do by themselves *)
Inductive sync_internal : syncSys → syncSys → Prop :=
  (** [case block := <-waiting] *)
  | loop_waiting st im s block rest rs :
      sy_waiting s = block :: rest →
      sync_internal (mkSyncSys st im s rs)
        (mkSyncSys st im (handle_waiting block (with_waiters (sy_waiters s) rest s)) rs)
  (** [store.NotifyRead] of the next digest returns *)
  | waiter_read st im s ws1 d ds h n ws2 rs :
      sy_waiters s = ws1 ++ mkWaiter (d :: ds) h n :: ws2 → readable st d →
      sync_internal (mkSyncSys st im s rs)
        (mkSyncSys st im
           (with_waiters (ws1 ++ mkWaiter ds h n :: ws2) (sy_waiting s) s) rs)
  (** [case <-finish] *)
  | waiter_finish st im s ws1 h n ws2 rs :
      sy_waiters s = ws1 ++ mkWaiter [] h n :: ws2 →
      sync_internal (mkSyncSys st im s rs)
        (mkSyncSys st im (with_waiters (ws1 ++ ws2) (sy_waiting s ++ [h]) s) rs)
  (** [case <-notify] *)
  | waiter_cancel st im s ws1 w ws2 rs :
      sy_waiters s = ws1 ++ w :: ws2 → wt_notify w ∈ sy_closed s →
      sync_internal (mkSyncSys st im s rs)
        (mkSyncSys st im (with_waiters (ws1 ++ ws2) (sy_waiting s ++ [zero_Digest]) s) rs).

Inductive sync_step : syncSys → syncSys → Prop :=
  | sync_by_itself y y' : sync_internal y y' → sync_step y y'
  | loop_inter st im s now m s' rs :
      handle_interMsg now m s = Returns tt s' →
      sync_step (mkSyncSys st (m :: im) s rs) (mkSyncSys st im s' (rs ++ request_of m))
  | loop_tick st im s now keys rs :
      sync_step (mkSyncSys st im s rs) (mkSyncSys st im (handle_tick now keys s) rs)
  | env_write st im s k v rs :
      sync_step (mkSyncSys st im s rs) (mkSyncSys (Store_Write st k v).2 im s rs)
  | env_inter st im s m rs :
      sync_step (mkSyncSys st im s rs) (mkSyncSys st (im ++ [m]) s rs).

Definition sync_reachable (store : Store) : syncSys → Prop :=
  rtc sync_step (mkSyncSys store [] NewSynchronizer []).

(** A request for [h] whose payloads are all stored *)
Definition fetched (st : Store) (rs : list SyncBlockMsg) (h : Digest) : Prop :=
  ∃ req, req ∈ rs ∧ sb_ConsensusBlockHash req = h ∧ Forall (readable st) (sb_Missing req).

(** The goroutine [w] is working on a request of [rs]. *)
Definition waiter_ok (st : Store) (rs : list SyncBlockMsg) (w : waiterState) : Prop :=
  ∃ req got, req ∈ rs ∧ sb_ConsensusBlockHash req = wt_blockhash w ∧
    sb_Missing req = got ++ wt_missing w ∧ Forall (readable st) got.

(** Somebody is working on the entry [e] of [h]. *)
Definition attended (s : syncState) (h : Digest) (e : pendingEntry) : Prop :=
  h = zero_Digest ∨ h ∈ sy_waiting s ∨
  ∃ w got, w ∈ sy_waiters s ∧ wt_blockhash w = h ∧ wt_notify w = pe_Notify e ∧
    pe_Missing e = got ++ wt_missing w.

Record sync_ok (y : syncSys) : Prop := mkSyncOk {
  ok_waiters : Forall (waiter_ok (ss_store y) (ss_requests y)) (sy_waiters (ss_sync y));
  ok_waiting : Forall (λ h, (h = zero_Digest) ∨ fetched (ss_store y) (ss_requests y) h)
                 (sy_waiting (ss_sync y));
  ok_loopback : Forall (fetched (ss_store y) (ss_requests y)) (sy_LoopBackChan (ss_sync y));
  ok_pending : ∀ h e, sy_pending (ss_sync y) !! h = Some e →
    attended (ss_sync y) h e ∧ (pe_Notify e ∉ sy_closed (ss_sync y)) ∧
    (pe_Notify e < sy_channels (ss_sync y))%nat;
  ok_distinct : ∀ h h' e e', sy_pending (ss_sync y) !! h = Some e →
    sy_pending (ss_sync y) !! h' = Some e' → pe_Notify e = pe_Notify e' → h = h';
  ok_closed : ∀ n, n ∈ sy_closed (ss_sync y) → (n < sy_channels (ss_sync y))%nat
}.

(** *** Closing the channels of old entries *)

Lemma elem_of_old_keys epoch s h :
  h ∈ old_keys epoch s ↔ ∃ e, sy_pending s !! h = Some e ∧ pe_Epoch e <= epoch.
Proof.
  unfold old_keys. rewrite list_elem_of_In, in_map_iff. split.
  - intros ([h' e] & <- & [Hin Hle]%filter_In). exists e. simpl in *. split.
    + by apply elem_of_map_to_list, list_elem_of_In.
    + by apply bool_decide_eq_true in Hle.
  - intros (e & Hl & Hle). exists (h, e). split; [done|]. apply filter_In. split.
    + by apply list_elem_of_In, elem_of_map_to_list.
    + by apply bool_decide_eq_true.
Qed.

Lemma NoDup_old_keys epoch s : NoDup (old_keys epoch s).
Proof.
  unfold old_keys. pose proof (NoDup_fst_map_to_list (sy_pending s)) as Hnd.
  eapply sublist_NoDup; [exact Hnd|]. generalize (map_to_list (sy_pending s)). intros l.
  induction l as [|x l IH]; simpl; [done|]. case_match; simpl; by constructor.
Qed.

Lemma lookup_foldr_delete (m : gmap Digest pendingEntry) keys h :
  foldr delete m keys !! h = if decide (h ∈ keys) then None else m !! h.
Proof.
  induction keys as [|k keys IH]; simpl; [done|].
  destruct (decide (h = k)) as [->|Hne].
  - rewrite lookup_delete_eq. by rewrite decide_True by set_solver.
  - rewrite lookup_delete_ne, IH by done. repeat case_decide; set_solver.
Qed.

Definition with_closed (c : gset nat) (s : syncState) : syncState :=
  mkSync (sy_pending s) (sy_channels s) c (sy_waiters s) (sy_waiting s)
    (sy_LoopBackChan s) (sy_sent s).

Lemma close_all_ok keys s :
  NoDup keys →
  (∀ h e, sy_pending s !! h = Some e → h ∈ keys → pe_Notify e ∉ sy_closed s) →
  (∀ h h' e e', sy_pending s !! h = Some e → sy_pending s !! h' = Some e' →
   pe_Notify e = pe_Notify e' → h = h') →
  ∃ c, close_all keys s = Returns tt (with_closed c s) ∧
    ∀ n, n ∈ c ↔ n ∈ sy_closed s ∨
         ∃ h e, h ∈ keys ∧ sy_pending s !! h = Some e ∧ pe_Notify e = n.
Proof.
  intros Hnd. revert s. induction Hnd as [|k keys Hk Hnd IH]; intros s Hopen Hdist; simpl.
  - exists (sy_closed s). split; [by destruct s|]. set_solver.
  - destruct (sy_pending s !! k) as [v|] eqn:Hv.
    + rewrite decide_False by (apply (Hopen k); set_solver).
      destruct (IH (with_closed ({[pe_Notify v]} ∪ sy_closed s) s)) as (c & Hc & Hin).
      * simpl. intros h e He Hh [Heq%elem_of_singleton|Hin]%elem_of_union.
        { by rewrite (Hdist h k e v He Hv Heq) in Hh. }
        { by apply (Hopen h e He); [set_solver|]. }
      * done.
      * exists c. split; [exact Hc|]. intros n. rewrite Hin. simpl. split.
        -- intros [[->%elem_of_singleton|?]%elem_of_union|(h & e & ? & ? & ?)];
             [right; exists k, v; set_solver|by left|right; exists h, e; set_solver].
        -- intros [?|(h & e & [->|?]%elem_of_cons & ? & ?)]; [set_solver| |naive_solver].
           left. set_solver.
    + destruct (IH s) as (c & Hc & Hin); [intros; eapply Hopen; set_solver|done|].
      exists c. split; [done|]. intros n. rewrite Hin. split.
      * intros [?|(h & e & ? & ? & ?)]; [by left|right; exists h, e; set_solver].
      * intros [?|(h & e & [->|?]%elem_of_cons & ? & ?)]; [by left|congruence|naive_solver].
Qed.

Lemma SyncCleanUp_ok epoch y :
  sync_ok y →
  ∃ c, handle_SyncCleanUp epoch (ss_sync y) =
    Returns tt (mkSync (foldr delete (sy_pending (ss_sync y)) (old_keys epoch (ss_sync y)))
      (sy_channels (ss_sync y)) c (sy_waiters (ss_sync y)) (sy_waiting (ss_sync y))
      (sy_LoopBackChan (ss_sync y)) (sy_sent (ss_sync y))) ∧
    ∀ n, n ∈ c ↔ n ∈ sy_closed (ss_sync y) ∨
         ∃ h e, h ∈ old_keys epoch (ss_sync y) ∧ sy_pending (ss_sync y) !! h = Some e ∧
                pe_Notify e = n.
Proof.
  intros Hok. destruct (close_all_ok (old_keys epoch (ss_sync y)) (ss_sync y)) as (c & Hc & Hin).
  - apply NoDup_old_keys.
  - intros h e He _. by apply (ok_pending y Hok h e).
  - apply (ok_distinct y Hok).
  - exists c. unfold handle_SyncCleanUp. by rewrite Hc.
Qed.

(** *** The invariant *)

Lemma fetched_mono st st' rs rs' h :
  (∀ d, readable st d → readable st' d) → rs ⊆ rs' → fetched st rs h → fetched st' rs' h.
Proof.
  intros Hst Hrs (req & Hin & Hh & Hall). exists req. split_and!; [by apply Hrs|done|].
  eapply Forall_impl; eauto.
Qed.

Lemma waiter_ok_mono st st' rs rs' w :
  (∀ d, readable st d → readable st' d) → rs ⊆ rs' →
  waiter_ok st rs w → waiter_ok st' rs' w.
Proof.
  intros Hst Hrs (req & got & Hin & Hh & Hm & Hall). exists req, got.
  split_and!; [by apply Hrs|done|done|]. eapply Forall_impl; eauto.
Qed.

(** Only the store or the recorded requests grow. *)
Lemma sync_ok_mono st st' im im' s rs rs' :
  (∀ d, readable st d → readable st' d) → rs ⊆ rs' →
  sync_ok (mkSyncSys st im s rs) → sync_ok (mkSyncSys st' im' s rs').
Proof.
  intros Hst Hrs [Hw Hq Hl Hp Hd Hc]; constructor; simpl in *; try done.
  - eapply Forall_impl; [exact Hw|]. intros. by eapply waiter_ok_mono.
  - eapply Forall_impl; [exact Hq|]. intros h [?|?]; [by left|right].
    by eapply fetched_mono.
  - eapply Forall_impl; [exact Hl|]. intros. by eapply fetched_mono.
Qed.

Lemma handle_waiting_ok st im s block rest rs :
  sy_waiting s = block :: rest → sync_ok (mkSyncSys st im s rs) →
  sync_ok (mkSyncSys st im (handle_waiting block (with_waiters (sy_waiters s) rest s)) rs).
Proof.
  intros Hq [Kw Kq Kl Kp Kd Kc]. simpl in *.
  rewrite Hq in Kq. apply Forall_cons in Kq as [Hb Kq].
  assert (∀ h e, sy_pending s !! h = Some e → h ≠ block ∨ block = zero_Digest →
    attended (with_waiters (sy_waiters s) rest s) h e) as Hatt.
  { intros h e He Hne. destruct (Kp h e He) as (Ha & _).
    unfold attended in *. rewrite Hq in Ha. simpl. set_solver. }
  unfold handle_waiting. case_decide as Hz; constructor; simpl; try done.
  - apply Forall_app. split; [done|]. apply Forall_singleton. by destruct Hb.
  - intros h e [Hne He]%lookup_delete_Some. destruct (Kp h e He) as (_ & Hr).
    split; [|done]. apply (Hatt h e); auto.
  - intros h h' e e' [? He]%lookup_delete_Some [? He']%lookup_delete_Some. eauto.
  - intros h e He. destruct (Kp h e He) as (_ & Hr). split; [|done]. apply Hatt; auto.
Qed.

(** An entry that is attended stays so when the goroutine [w] leaves, unless [w]
    was the one working on it. *)
Lemma attended_without s h e ws1 w ws2 ws waiting :
  sy_waiters s = ws1 ++ w :: ws2 → (∀ w', w' ∈ ws1 ++ ws2 → w' ∈ ws) →
  (∀ d, d ∈ sy_waiting s → d ∈ waiting) → attended s h e →
  attended (with_waiters ws waiting s) h e ∨
  (wt_blockhash w = h ∧ wt_notify w = pe_Notify e ∧
   ∃ got, pe_Missing e = got ++ wt_missing w).
Proof.
  intros Hws Hsub Hq [Ha|[Ha|(w' & got & Hin & Hh & Hn & Hm)]].
  - left. by left.
  - left. right; left. by apply Hq.
  - rewrite Hws in Hin.
    apply elem_of_app in Hin as [Hin|[->|Hin]%elem_of_cons]; [left| |left].
    + right; right. exists w', got. split; [apply Hsub; set_solver|done].
    + right. eauto.
    + right; right. exists w', got. split; [apply Hsub; set_solver|done].
Qed.

(** A waiting goroutine advances or leaves: the other fields stay. *)
Lemma with_waiters_ok st im s rs ws1 w ws2 ws waiting :
  sy_waiters s = ws1 ++ w :: ws2 → (∀ w', w' ∈ ws1 ++ ws2 → w' ∈ ws) →
  (∀ d, d ∈ sy_waiting s → d ∈ waiting) →
  Forall (waiter_ok st rs) ws →
  Forall (λ h, (h = zero_Digest) ∨ fetched st rs h) waiting →
  (∀ h e, sy_pending s !! h = Some e → wt_blockhash w = h → wt_notify w = pe_Notify e →
     (∃ got, pe_Missing e = got ++ wt_missing w) →
     (pe_Notify e ∉ sy_closed s) → attended (with_waiters ws waiting s) h e) →
  sync_ok (mkSyncSys st im s rs) →
  sync_ok (mkSyncSys st im (with_waiters ws waiting s) rs).
Proof.
  intros Hws Hsub Hq Hall Hfet Hmine [Kw Kq Kl Kp Kd Kc].
  constructor; simpl in *; try done.
  intros h e He. destruct (Kp h e He) as (Ha & Hncl & Hlt). split; [|done].
  destruct (attended_without s h e ws1 w ws2 ws waiting Hws Hsub Hq Ha)
    as [?|(? & ? & ?)]; [done|]. by apply Hmine.
Qed.

Lemma sync_internal_ok y y' : sync_internal y y' → sync_ok y → sync_ok y'.
Proof.
  intros [st im s block rest rs Hq|st im s ws1 d ds h n ws2 rs Hws Hrd
    |st im s ws1 h n ws2 rs Hws|st im s ws1 w ws2 rs Hws Hcl] Hok;
    [by apply handle_waiting_ok|..]; destruct (Hok) as [Kw Kq _ _ _ _]; simpl in Kw, Kq;
    rewrite Hws in Kw; apply Forall_app in Kw as [Kw1 [Kh Kw2]%Forall_cons];
    eapply with_waiters_ok; try exact Hws; try done; try set_solver.
  - destruct Kh as (req & got & ? & ? & Hm & ?).
    apply Forall_app; split; [done|]. apply Forall_cons; split; [|done].
    exists req, (got ++ [d]). simpl in *. rewrite <-app_assoc. split_and!; try done.
    apply Forall_app; split; [done|]. by apply Forall_singleton.
  - simpl. intros h' e He Hh Hn (got & Hm) _. right; right.
    exists (mkWaiter ds h n), (got ++ [d]). rewrite <-app_assoc. set_solver.
  - by apply Forall_app.
  - destruct Kh as (req & got & ? & ? & Hm & ?).
    apply Forall_app; split; [done|]. apply Forall_singleton. right.
    exists req. simpl in *. rewrite app_nil_r in Hm. by rewrite Hm.
  - simpl. intros h' e He <- _ _ _. right; left. set_solver.
  - by apply Forall_app.
  - apply Forall_app; split; [done|]. apply Forall_singleton. by left.
  - intros h' e He Hh Hn _ Hncl. by rewrite Hn in Hcl.
Qed.

Lemma attended_mono s s' h e :
  (∀ w, w ∈ sy_waiters s → w ∈ sy_waiters s') → (∀ d, d ∈ sy_waiting s → d ∈ sy_waiting s') →
  attended s h e → attended s' h e.
Proof.
  intros Hw Hq [?|[?|(w & got & ? & ?)]]; [by left|right; left; auto|].
  right; right. exists w, got. auto.
Qed.

Lemma handle_SyncBlock_ok st im im' s rs now req :
  sync_ok (mkSyncSys st im s rs) →
  sync_ok (mkSyncSys st im' (handle_SyncBlock now req s) (rs ++ [req])).
Proof.
  intros Hok. apply (sync_ok_mono st st im im' s rs (rs ++ [req])) in Hok;
    [|done|set_solver].
  unfold handle_SyncBlock. destruct (sy_pending s !! _) as [v|] eqn:Hv; [done|].
  destruct Hok as [Kw Kq Kl Kp Kd Kc]. constructor; simpl in *; try done.
  - apply Forall_app; split; [done|]. apply Forall_singleton.
    exists req, []. split_and!; [set_solver|done..].
  - intros h e [[<- <-]|[Hne He]]%lookup_insert_Some.
    + split_and!; simpl; [|by intros ?%Kc; lia|lia]. right; right.
      exists (mkWaiter (sb_Missing req) (sb_ConsensusBlockHash req) (sy_channels s)), [].
      split; [apply elem_of_app; right; by apply list_elem_of_singleton|done].
    + destruct (Kp h e He) as (Ha & Hn & Hlt). split_and!; [|done|lia].
      eapply attended_mono; [| |exact Ha]; simpl; [set_solver|done].
  - intros h h' e e' [[<- <-]|[Hne He]]%lookup_insert_Some
      [[<- <-]|[Hne' He']]%lookup_insert_Some Heq; try done; simpl in Heq.
    + destruct (Kp h' e' He') as (_ & _ & ?). lia.
    + destruct (Kp h e He) as (_ & _ & ?). lia.
    + by apply (Kd h h' e e').
  - intros n Hn. specialize (Kc n Hn). lia.
Qed.

Lemma handle_SyncCleanUp_ok st im im' s rs epoch s' :
  handle_SyncCleanUp epoch s = Returns tt s' →
  sync_ok (mkSyncSys st im s rs) → sync_ok (mkSyncSys st im' s' rs).
Proof.
  intros Hs Hok. destruct (SyncCleanUp_ok epoch _ Hok) as (c & Hc & Hin). simpl in *.
  rewrite Hs in Hc. injection Hc as ->.
  destruct Hok as [Kw Kq Kl Kp Kd Kc]. constructor; simpl in *; try done.
  - intros h e. rewrite lookup_foldr_delete. case_decide as Hk; [done|]. intros He.
    destruct (Kp h e He) as (Ha & Hn & Hlt). split_and!; [done| |done].
    rewrite Hin. intros [?|(h' & e' & Hk' & He' & Heq)]; [done|].
    by rewrite (Kd h' h e' e He' He Heq) in Hk'.
  - intros h h' e e'. rewrite !lookup_foldr_delete. repeat case_decide; try done. eauto.
  - intros n. rewrite Hin. intros [?|(h & e & _ & He & <-)]; [by apply Kc|].
    by apply (Kp h e He).
Qed.

Lemma retry_ok st im s rs now digest :
  sync_ok (mkSyncSys st im s rs) → sync_ok (mkSyncSys st im (retry now s digest) rs).
Proof.
  intros Hok. unfold retry. destruct (sy_pending s !! digest) as [v|] eqn:Hv; [|done].
  case_decide; [|done]. destruct Hok as [Kw Kq Kl Kp Kd Kc].
  constructor; simpl in *; try done.
  - intros h e [[<- <-]|[Hne He]]%lookup_insert_Some; [|by apply Kp].
    by apply (Kp digest v).
  - intros h h' e e' [[<- <-]|[Hne He]]%lookup_insert_Some
      [[<- <-]|[Hne' He']]%lookup_insert_Some Heq; simpl in *; eauto.
Qed.

Lemma handle_tick_ok st im s rs now keys :
  sync_ok (mkSyncSys st im s rs) → sync_ok (mkSyncSys st im (handle_tick now keys s) rs).
Proof.
  unfold handle_tick. revert s.
  induction keys as [|k keys IH]; simpl; intros s Hok; [done|]. by apply IH, retry_ok.
Qed.

Lemma readable_write `{!DBLaws} st k v d : readable st d → readable (Store_Write st k v).2 d.
Proof.
  intros [w Hw]. unfold readable. rewrite Store_Read_Write. case_decide; eauto.
Qed.

Lemma sync_step_ok `{!DBLaws} y y' : sync_step y y' → sync_ok y → sync_ok y'.
Proof.
  intros [y1 y2 Hi|st im s now m s' rs Hm|st im s now keys rs|st im s k v rs|st im s m rs].
  - by apply sync_internal_ok.
  - destruct m as [req|epoch]; simpl in *; simplify_eq.
    + apply handle_SyncBlock_ok.
    + rewrite app_nil_r. by apply handle_SyncCleanUp_ok with (epoch := epoch).
  - apply handle_tick_ok.
  - apply sync_ok_mono; [|done]. intros d. apply readable_write.
  - by apply sync_ok_mono.
Qed.

Lemma sync_reachable_ok `{!DBLaws} store y : sync_reachable store y → sync_ok y.
Proof.
  intros Hr. apply (rtc_invariant _ sync_ok _ _ Hr).
  - constructor; simpl; try done; set_solver.
  - intros a b Ha Hs. by eapply sync_step_ok.
Qed.

(** *** Progress *)

(** A goroutine whose payloads are there reports its block. *)
Lemma waiter_completes st im s ws1 ds h n ws2 rs :
  sy_waiters s = ws1 ++ mkWaiter ds h n :: ws2 → Forall (readable st) ds →
  ∃ s', rtc sync_internal (mkSyncSys st im s rs) (mkSyncSys st im s' rs) ∧
        h ∈ sy_waiting s' ∧ sy_LoopBackChan s' = sy_LoopBackChan s.
Proof.
  revert s. induction ds as [|d ds IH]; intros s Hws Hall.
  - eexists. split; [eapply rtc_once, waiter_finish, Hws|]. simpl. split; [set_solver|done].
  - apply Forall_cons in Hall as [Hd Hall].
    destruct (IH (with_waiters (ws1 ++ mkWaiter ds h n :: ws2) (sy_waiting s) s))
      as (s' & Hr & Hin); [done|done|].
    exists s'. split; [|done]. eapply rtc_l; [|exact Hr]. by eapply waiter_read.
Qed.

(** The loop passes on what is reported. *)
Lemma waiting_drains st im s h rs :
  h ∈ sy_waiting s → h ≠ zero_Digest →
  ∃ s' l, rtc sync_internal (mkSyncSys st im s rs) (mkSyncSys st im s' rs) ∧
        sy_LoopBackChan s' = sy_LoopBackChan s ++ l ∧ h ∈ l.
Proof.
  intros Hin Hz. remember (sy_waiting s) as q eqn:Hq. symmetry in Hq. revert s Hq.
  induction q as [|b q IH]; intros s Hq; [by apply not_elem_of_nil in Hin|].
  assert (sync_internal (mkSyncSys st im s rs) (mkSyncSys st im
    (handle_waiting b (with_waiters (sy_waiters s) q s)) rs)) as Hstep
    by by apply loop_waiting.
  apply elem_of_cons in Hin as [->|Hin].
  - eexists _, [b]. split; [by apply rtc_once|]. unfold handle_waiting.
    rewrite decide_True by done. simpl. split; [done|apply list_elem_of_here].
  - destruct (IH Hin (handle_waiting b (with_waiters (sy_waiters s) q s)))
      as (s' & l & Hr & Hl & Hh).
    { unfold handle_waiting. by case_decide. }
    unfold handle_waiting in Hl. case_decide; simpl in Hl.
    + exists s', (b :: l). split_and!; [by eapply rtc_l|by rewrite Hl, <-app_assoc|].
      by apply list_elem_of_further.
    + exists s', l. split_and!; [by eapply rtc_l|done|done].
Qed.

(** Somebody works on every pending block, and finishes when its payloads are there. *)
Lemma pending_completes y h e :
  sync_ok y → sy_pending (ss_sync y) !! h = Some e → h ≠ zero_Digest →
  Forall (readable (ss_store y)) (pe_Missing e) →
  ∃ s' l, rtc sync_internal y (mkSyncSys (ss_store y) (ss_inter y) s' (ss_requests y)) ∧
    sy_LoopBackChan s' = sy_LoopBackChan (ss_sync y) ++ l ∧ h ∈ l.
Proof.
  intros Hok He Hz Hall.
  destruct (ok_pending y Hok h e He) as ([?|[Hin|(w & got & Hin & Hh & _ & Hm)]] & _);
    destruct y as [st im s rs]; simpl in *; [done| |].
  - exact (waiting_drains st im s h rs Hin Hz).
  - apply list_elem_of_split in Hin as (ws1 & ws2 & Hws). destruct w as [ds h' n].
    simpl in *. subst h'. rewrite Hm in Hall. apply Forall_app in Hall as [_ Hall].
    destruct (waiter_completes st im s ws1 ds h n ws2 rs Hws Hall) as (s1 & Hs1 & Hin1 & Hl1).
    destruct (waiting_drains st im s1 h rs Hin1 Hz) as (s2 & l & Hs2 & Hl & Hh).
    exists s2, l. split_and!; [by etrans|by rewrite Hl, Hl1|done].
Qed.

(** *** The ticker *)

Definition overdue (now : Z) (e : pendingEntry) : bool :=
  bool_decide (SyncRetryDelay parameters * Millisecond < now - pe_LastSend e).

(** The request that a tick repeats for the entry of a digest *)
Definition repeated (now : Z) (s : syncState) (digest : Digest)
  : option (NodeID * RequestBlockMsg) :=
  match sy_pending s !! digest with
  | Some e => if overdue now e then Some (NONE, mkRequestBlockMsg 0 (pe_Missing e) Name)
              else None
  | None => None
  end.

Lemma retry_sent now s digest :
  sy_sent (retry now s digest) = sy_sent s ++ option_list (repeated now s digest).
Proof.
  unfold retry, repeated, overdue. destruct (sy_pending s !! digest) as [e|]; simpl;
    [|by rewrite app_nil_r].
  case_decide; case_bool_decide; try done. simpl. by rewrite app_nil_r.
Qed.

Lemma retry_other now s digest h :
  h ≠ digest → sy_pending (retry now s digest) !! h = sy_pending s !! h.
Proof.
  intros Hne. unfold retry. destruct (sy_pending s !! digest) as [e|]; [|done].
  case_decide; simpl; [by rewrite lookup_insert_ne|done].
Qed.

Lemma retry_here now s h e :
  sy_pending (retry now s h) !! h = Some e → 0 <= SyncRetryDelay parameters →
  overdue now e = false.
Proof.
  intros He Hd. apply bool_decide_eq_false. unfold retry in He.
  destruct (sy_pending s !! h) as [e0|] eqn:Hl; [|congruence].
  case_decide; simpl in He; [|congruence].
  rewrite lookup_insert_eq in He. simplify_eq. simpl. unfold Millisecond. lia.
Qed.

Lemma tick_sent now keys s :
  NoDup keys →
  sy_sent (handle_tick now keys s) = sy_sent s ++ omap (repeated now s) keys.
Proof.
  intros Hnd. unfold handle_tick. revert s.
  induction Hnd as [|k keys Hk Hnd IH]; intros s; simpl; [by rewrite app_nil_r|].
  rewrite IH, retry_sent. rewrite <-app_assoc. f_equal.
  assert (omap (repeated now (retry now s k)) keys = omap (repeated now s) keys) as ->.
  { clear IH Hnd. induction keys as [|k' keys IH]; csimpl; [done|].
    rewrite IH by set_solver. unfold repeated at 1. rewrite retry_other by set_solver. done. }
  csimpl. by destruct (repeated now s k).
Qed.

Lemma tick_other now keys s h :
  h ∉ keys → sy_pending (handle_tick now keys s) !! h = sy_pending s !! h.
Proof.
  unfold handle_tick. revert s. induction keys as [|k keys IH]; intros s Hh; simpl; [done|].
  rewrite IH by set_solver. apply retry_other. set_solver.
Qed.

Lemma tick_fresh now keys s h e :
  NoDup keys → h ∈ keys → 0 <= SyncRetryDelay parameters →
  sy_pending (handle_tick now keys s) !! h = Some e → overdue now e = false.
Proof.
  intros Hnd Hin Hd. revert s. induction Hnd as [|k keys Hk Hnd IH]; intros s; simpl;
    [by apply not_elem_of_nil in Hin|].
  apply elem_of_cons in Hin as [->|Hin]; [|by apply IH].
  change (handle_tick now (k :: keys) s) with (handle_tick now keys (retry now s k)).
  rewrite tick_other by done. intros He. by eapply retry_here.
Qed.

(** ** Theorems *)

(** C33 Blocks are reported only when they are complete, in every interleaving of
    the synchronizer, its waiting goroutines, and the rest of the node: a block
    hash reaches the loop-back channel only if it was asked for and all payloads
    of that request are stored.  A clean-up never closes a channel twice (which
    would panic) and leaves no block of the given or an earlier epoch pending. *)
Theorem synchronizer_safe `{!DBLaws} store y :
  sync_reachable store y →
  (∀ h, h ∈ sy_LoopBackChan (ss_sync y) → fetched (ss_store y) (ss_requests y) h) ∧
  (∀ epoch, ∃ s', handle_SyncCleanUp epoch (ss_sync y) = Returns tt s' ∧
     ∀ h e, sy_pending s' !! h = Some e → epoch < pe_Epoch e).
Proof.
  intros Hr. pose proof (sync_reachable_ok _ _ Hr) as Hok. split.
  - apply Forall_forall, (ok_loopback y Hok).
  - intros epoch. destruct (SyncCleanUp_ok epoch y Hok) as (c & Hc & _).
    eexists. split; [exact Hc|]. simpl. intros h e. rewrite lookup_foldr_delete.
    case_decide as Hk; [done|]. intros He.
    destruct (decide (pe_Epoch e <= epoch)); [|lia]. exfalso. apply Hk, elem_of_old_keys. eauto.
Qed.

(** No pending block is forgotten: whenever the missing payloads of a pending
    block are all stored, the synchronizer's own goroutines can bring it to the
    loop-back channel, without any further message. *)
Theorem pending_block_completes `{!DBLaws} store y h e :
  sync_reachable store y →
  sy_pending (ss_sync y) !! h = Some e → h ≠ zero_Digest →
  Forall (readable (ss_store y)) (pe_Missing e) →
  ∃ y', rtc sync_internal y y' ∧ h ∈ sy_LoopBackChan (ss_sync y').
Proof.
  intros Hr He Hz Hall.
  destruct (pending_completes y h e (sync_reachable_ok _ _ Hr) He Hz Hall) as (s' & l & Hs & Hl & Hh).
  eexists. split; [exact Hs|]. simpl. rewrite Hl. apply elem_of_app. by right.
Qed.

(** Retries: a tick repeats, to all nodes, the request of every pending block
    whose last request is older than the retry delay, and of no other; after it
    no pending block is overdue.  It does not matter in which order the pending
    blocks are visited. *)
Theorem tick_repeats_overdue now keys s :
  keys ≡ₚ elements (dom (sy_pending s)) → 0 <= SyncRetryDelay parameters →
  sy_sent (handle_tick now keys s) = sy_sent s ++ omap (repeated now s) keys ∧
  (∀ h e, sy_pending s !! h = Some e → overdue now e = true →
     (NONE, mkRequestBlockMsg 0 (pe_Missing e) Name) ∈ sy_sent (handle_tick now keys s)) ∧
  (∀ h e, sy_pending (handle_tick now keys s) !! h = Some e → overdue now e = false).
Proof.
  intros Hkeys Hd.
  assert (NoDup keys) as Hnd by (rewrite Hkeys; apply NoDup_elements).
  rewrite tick_sent by done. split_and!; [done| |].
  - intros h e He Ho. apply elem_of_app. right. apply list_elem_of_omap.
    exists h. split.
    + rewrite Hkeys. apply elem_of_elements, elem_of_dom. eauto.
    + unfold repeated. by rewrite He, Ho.
  - intros h e He. destruct (decide (h ∈ keys)) as [Hin|Hni]; [by eapply tick_fresh|].
    rewrite tick_other in He by done. exfalso. apply Hni. rewrite Hkeys.
    apply elem_of_elements, elem_of_dom. eauto.
Qed.
End synchronizer.
