(* ===== verification/Port.v ===== *)
(** * What the consensus core needs from the mempool

    The core talks to the mempool over [connectChannel]
    (src/core/smvba/consensus/core.go, [generatorBlock] and
    [verifyConsensusBlock]; src/mempool/message.go): it asks for the digests of a
    new consensus block, and whether the payloads of a consensus block are
    stored, and waits for the answer.  [MempoolPort] has these two operations and
    [MempoolPortLaws] what they promise.  The core is verified against them;
    Mempool.v shows that the mempool keeps the promises. *)

From stdpp Require Import base gmap list strings.
From S2P Require Import Prelude Committee Crypto Store Synchronizer.

Record VerifyBlockMsg : Type := mkVerifyBlockMsg {
  vb_Proposer : NodeID;
  vb_Epoch : Z;
  vb_Payloads : list Digest;
  vb_ConsensusBlockHash : Digest
}.

(** Both operations may change the mempool's state and the shared store. *)
Class MempoolPort {D : DB} : Type := {
  port_state : Type;
  port_make : Z → port_state → Store → list Digest * (port_state * Store);
  port_verify : VerifyBlockMsg → port_state → Store → VerifyStatus * (port_state * Store)
}.

Class MempoolPortLaws {D : DB} {P : MempoolPort} : Type := {
  (** a property of the mempool's state and the store that its own operations
      and foreign writes to the store preserve *)
  port_ok : port_state → Store → Prop;
  port_ok_write : ∀ p st k v, port_ok p st → port_ok p (Store_Write st k v).2;
  (** the payloads of a new block are stored, and none is lost *)
  port_make_spec : ∀ mx p st ds p' st', port_ok p st →
    port_make mx p st = (ds, (p', st')) →
    port_ok p' st' ∧ Forall (readable st') ds;
  port_make_keeps : ∀ mx p st ds p' st',
    port_make mx p st = (ds, (p', st')) → ∀ d, readable st d → readable st' d;
  (** the status is [OK] exactly if all payloads are stored *)
  port_verify_spec : ∀ msg p st status p' st',
    port_verify msg p st = (status, (p', st')) →
    st' = st ∧ (port_ok p st → port_ok p' st) ∧
    (status = OK ↔ ∀ d, d ∈ vb_Payloads msg → readable st d)
}.
