(* ===== verification/Mempool.v ===== *)
(** * The mempool (src/mempool/mempool.go, message.go)

    The mempool stores payload blocks, spreads its own, and answers the
    consensus core: which digests to put into a new consensus block, and whether
    all payloads of a consensus block are stored.  Each handler is one
    definition in the panicking state monad [GoM]; an error is the value that
    the main loop logs.  What is handed to the network and to the synchronizer
    is recorded in order.

    Ranging over the Go map [Queue] yields its keys in any order: the order is
    an argument, a permutation of the keys. *)

From stdpp Require Import base gmap list strings.
From S2P Require Import Prelude Committee Crypto Pool Store Synchronizer Port.

(** [mempool.Block] *)
Record Block : Type := mkBlock {
  bl_Proposer : NodeID;
  bl_Batch : Batch;
  bl_Signature : list byte
}.

#[export] Instance Block_eq_dec : EqDecision Block.
Proof. solve_decision. Defined.

(** A pointer field of a received message may be nil. *)
Inductive mempoolMsg : Type :=
  | OwnBlockMsg (b : option Block)
  | OtherBlockMsg (b : option Block)
  | RequestMsg (r : RequestBlockMsg).

Record CleanBlockMsg : Type := mkCleanBlockMsg {
  cl_Digests : list Digest;
  cl_Epoch : Z
}.

(** The messages of [connectChannel], without their answer channels. *)
Inductive connectMsg : Type :=
  | MakeConsensusBlockMsg (MaxBlockSize : Z)
  | VerifyMsg (m : VerifyBlockMsg)
  | CleanMsg (m : CleanBlockMsg).

Inductive connectReply : Type :=
  | Blocks (digests : list Digest)
  | Status (s : VerifyStatus)
  | NoReply.

Section blocks.
Context {CL : CryptoLib}.

Definition Block_Hash (b : Block) : Digest :=
  let hasher := Hasher_Add NewHasher (AppendInt2 (bl_Proposer b)) in
  let hasher := Hasher_Add hasher (AppendInt2 (bt_ID (bl_Batch b))) in
  (Hasher_Sum256 (foldl Hasher_Add hasher (bt_Txs (bl_Batch b))) []).1.

Definition NewBlock (proposer : NodeID) (batch : Batch) (sigService : SigService)
  : result Block :=
  match SigService_RequestSignature sigService (Block_Hash (mkBlock proposer batch [])) with
  | Err e => Err e
  | Ok sig => Ok (mkBlock proposer batch sig)
  end.

(** [None]: [ed25519.Verify] panics on a key of the wrong length. *)
Definition Block_Verify (b : Block) (committee : Committee) : option bool :=
  Signature_Verify (bl_Signature b) (Committee_Name committee (bl_Proposer b)) (Block_Hash b).
End blocks.

Section mempool.
Context {CL : CryptoLib} {D : DB} {G : Gob Block}.
Context (Name : NodeID) (committee : Committee) (parameters : Parameters)
  (sigService : SigService).

Record Mempool : Type := mkMempool {
  mp_Store : Store;
  mp_TxPool : txQueue;
  mp_Queue : gset Digest;
  mp_ActualQueue : list Digest;
  mp_OwnPayLoadChannel : list Block;
  (** put on the synchronizer's [interChan] *)
  mp_interChan : list interMsg;
  (** [Transimtor.MempoolSend], with the destination *)
  mp_sent : list (NodeID * mempoolMsg)
}.

Definition NewMempool (store : Store) (txPool : txQueue) : Mempool :=
  mkMempool store txPool ∅ [] [] [] [].

Section fields.
Implicit Types (m : Mempool).
Definition mp_set_Store st m : Mempool :=
  mkMempool st (mp_TxPool m) (mp_Queue m) (mp_ActualQueue m) (mp_OwnPayLoadChannel m)
    (mp_interChan m) (mp_sent m).
Definition mp_set_TxPool q m : Mempool :=
  mkMempool (mp_Store m) q (mp_Queue m) (mp_ActualQueue m) (mp_OwnPayLoadChannel m)
    (mp_interChan m) (mp_sent m).
Definition mp_set_Queue q m : Mempool :=
  mkMempool (mp_Store m) (mp_TxPool m) q (mp_ActualQueue m) (mp_OwnPayLoadChannel m)
    (mp_interChan m) (mp_sent m).
Definition mp_enqueue d m : Mempool :=
  mkMempool (mp_Store m) (mp_TxPool m) ({[d]} ∪ mp_Queue m) (mp_ActualQueue m ++ [d])
    (mp_OwnPayLoadChannel m) (mp_interChan m) (mp_sent m).
Definition mp_own b m : Mempool :=
  mkMempool (mp_Store m) (mp_TxPool m) (mp_Queue m) (mp_ActualQueue m)
    (mp_OwnPayLoadChannel m ++ [b]) (mp_interChan m) (mp_sent m).
Definition mp_inter ims m : Mempool :=
  mkMempool (mp_Store m) (mp_TxPool m) (mp_Queue m) (mp_ActualQueue m)
    (mp_OwnPayLoadChannel m) (mp_interChan m ++ ims) (mp_sent m).
(** [MempoolSend] *)
Definition mp_send to msg m : Mempool :=
  mkMempool (mp_Store m) (mp_TxPool m) (mp_Queue m) (mp_ActualQueue m)
    (mp_OwnPayLoadChannel m) (mp_interChan m) (mp_sent m ++ [(to, msg)]).
End fields.

(** ** Stored blocks *)

(** [block.Encode()], then [Store.Write] under the block's hash *)
Definition Mempool_StoreBlock (block : Block) : GoM Mempool (result unit) := λ m,
  match gob_Encode block with
  | Err e => Returns (Err e) m
  | Ok value =>
      let '(err, st) := Store_Write (mp_Store m) (Block_Hash block) value in
      Returns err (mp_set_Store st m)
  end.

(** [GetBlock]: a nil block without an error when the store reports
    [ErrNotFoundKey]. *)
Definition GetBlock (st : Store) (digest : Digest) : result (option Block) :=
  match Store_Read st digest with
  | Err e => if decide (e = ErrNotFoundKey) then Ok None else Err e
  | Ok value =>
      match gob_Decode value with
      | Err e => Err e
      | Ok b => Ok (Some b)
      end
  end.

(** [uint64(len(m.Queue)) >= m.Parameters.MaxQueenSize] *)
Definition queue_full (m : Mempool) : bool :=
  bool_decide (MaxQueenSize parameters <= Z.of_nat (size (mp_Queue m))).

Definition Mempool_payloadProcess (block : Block) : GoM Mempool (result unit) :=
  full ← read queue_full;
  if full : bool then mret (Err (ErrFullMemory Name))
  else
    err ← Mempool_StoreBlock block;
    match err with
    | Err e => mret (Err e)
    | Ok _ => modify (mp_send NONE (OtherBlockMsg (Some block)));; mret (Ok tt)
    end.

(** ** Handlers *)

Definition HandleOwnBlock (own : option Block) : GoM Mempool (result unit) :=
  full ← read queue_full;
  if full : bool then mret (Err (ErrFullMemory Name))
  else
    match own with
    | None => panic "nil pointer dereference"
    | Some block =>
        let digest := Block_Hash block in
        err ← Mempool_payloadProcess block;
        match err with
        | Err e => mret (Err e)
        | Ok _ => modify (mp_enqueue digest);; mret (Ok tt)
        end
    end.

Definition HandleOthorBlock (other : option Block) : GoM Mempool (result unit) :=
  match other with
  | None => panic "nil pointer dereference"
  | Some block =>
      full ← read queue_full;
      if full : bool then mret (Err (ErrFullMemory Name))
      else
        let digest := Block_Hash block in
        match Block_Verify block committee with
        | None => panic "ed25519: bad public key length"
        | Some false => mret (Ok tt)
        | Some true =>
            known ← read (λ m, GetBlock (mp_Store m) digest);
            match known with
            | Ok _ => mret (Ok tt)
            | Err _ =>
                err ← Mempool_StoreBlock block;
                match err with
                | Err e => mret (Err e)
                | Ok _ => modify (mp_enqueue digest);; mret (Ok tt)
                end
            end
        end
  end.

Fixpoint HandleRequestBlock_loop (author : NodeID) (digests : list Digest)
  : GoM Mempool (result unit) :=
  match digests with
  | [] => mret (Ok tt)
  | digest :: digests =>
      b ← read (λ m, GetBlock (mp_Store m) digest);
      match b with
      | Err e => mret (Err e)
      | Ok b => modify (mp_send author (OtherBlockMsg b));;
                HandleRequestBlock_loop author digests
      end
  end.

Definition HandleRequestBlock (request : RequestBlockMsg) : GoM Mempool (result unit) :=
  HandleRequestBlock_loop (rb_Author request) (rb_Digests request).

(** The loop over the queue: keys are taken until the counter, decremented after
    each, is 0. *)
Fixpoint take_keys (nums : Z) (keys : list Digest) : list Digest :=
  match keys with
  | [] => []
  | key :: keys => key :: if decide (nums - 1 = 0) then [] else take_keys (nums - 1) keys
  end.

Definition HandleMakeBlockMsg (order : list Digest) (MaxBlockSize : Z)
  : GoM Mempool (result (list Digest)) :=
  empty ← read (λ m, bool_decide (size (mp_Queue m) = 0%nat));
  if empty : bool then
    batch ← act (λ m, let '(b, q) := Pool_GetBatch (mp_TxPool m) in (b, mp_set_TxPool q m));
    match NewBlock Name batch sigService with
    | Err _ => panic "nil pointer dereference"
    | Ok block =>
        let digest := Block_Hash block in
        err ← Mempool_payloadProcess block;
        match err with
        | Err e => mret (Err e)
        | Ok _ => mret (Ok [digest])
        end
    end
  else
    let ret := take_keys MaxBlockSize order in
    modify (λ m, mp_set_Queue (mp_Queue m ∖ list_to_set ret) m);;
    mret (Ok ret).

Definition HandleCleanBlock (msg : CleanBlockMsg) : GoM Mempool (result unit) :=
  modify (λ m, mp_set_Queue (mp_Queue m ∖ list_to_set (cl_Digests msg)) m);;
  modify (mp_inter (Synchronizer_Cleanup (wrapU64 (cl_Epoch msg))));;
  mret (Ok tt).

Definition HandleVerifyMsg (msg : VerifyBlockMsg) : GoM Mempool VerifyStatus := λ m,
  let '(status, ims) := Synchronizer_Verify (mp_Store m) (vb_Proposer msg) (vb_Epoch msg)
    (vb_Payloads msg) (vb_ConsensusBlockHash msg) in
  Returns status (mp_inter ims m).

(** One turn of [generateBlocks] on a batch: the message it puts on the mempool's
    own channel. *)
Definition generateBlock (batch : Batch) : GoM Mempool (list mempoolMsg) :=
  match NewBlock Name batch sigService with
  | Err _ => panic "nil pointer dereference"
  | Ok block =>
      if decide (bt_ID (bl_Batch block) ≠ -1) then
        modify (mp_own block);; mret [OwnBlockMsg (Some block)]
      else mret []
  end.

(** ** One turn of [Run] *)

(** [order] is the order in which a range over the queue visits its keys. *)
Definition Mempool_connect (order : list Digest) (msg : connectMsg)
  : GoM Mempool (connectReply * result unit) :=
  match msg with
  | MakeConsensusBlockMsg mx =>
      data ← HandleMakeBlockMsg order mx;
      match data with
      | Ok digests => mret (Blocks digests, Ok tt)
      | Err e => mret (Blocks [], Err e)
      end
  | VerifyMsg m => s ← HandleVerifyMsg m; mret (Status s, Ok tt)
  | CleanMsg m => err ← HandleCleanBlock m; mret (NoReply, err)
  end.

Definition Mempool_receive (msg : mempoolMsg) : GoM Mempool (result unit) :=
  match msg with
  | OwnBlockMsg b => HandleOwnBlock b
  | OtherBlockMsg b => HandleOthorBlock b
  | RequestMsg r => HandleRequestBlock r
  end.

(** ** What the mempool guarantees *)

(** A node that is asked for [d] can send a block with this digest. *)
Definition servable (st : Store) (d : Digest) : Prop :=
  ∃ b, GetBlock st d = Ok (Some b) ∧ Block_Hash b = d.

(** The queue, apart from the keys [over] that the core has written *)
Definition mempool_ok (over : list Digest) (m : Mempool) : Prop :=
  (∀ d, d ∈ mp_Queue m → d ∉ over → servable (mp_Store m) d) ∧
  Z.of_nat (size (mp_Queue m)) <= MaxQueenSize parameters.

(** The events of the mempool's goroutines *)
Inductive mempool_event : Type :=
  | Connect (order : list Digest) (msg : connectMsg)
  | Receive (msg : mempoolMsg)
  | Generate (batch : Batch)
  | PoolChange (q : txQueue).

Definition mempool_handle (ev : mempool_event) : GoM Mempool unit :=
  match ev with
  | Connect order msg => Mempool_connect order msg;; mret tt
  | Receive msg => Mempool_receive msg;; mret tt
  | Generate batch => generateBlock batch;; mret tt
  | PoolChange q => modify (mp_set_TxPool q)
  end.

(** The mempool and the core share one store ([NewNode]): while the mempool takes its
    turns, the core writes its consensus blocks there. *)
Inductive shared_event : Type :=
  | MempoolTurn (ev : mempool_event)
  | CoreWrite (key val : list byte).

Definition shared_handle (ev : shared_event) : GoM Mempool unit :=
  match ev with
  | MempoolTurn ev => mempool_handle ev
  | CoreWrite key val => modify (λ m, mp_set_Store (Store_Write (mp_Store m) key val).2 m)
  end.

Fixpoint shared_run (evs : list shared_event) : GoM Mempool unit :=
  match evs with
  | [] => mret tt
  | ev :: evs => shared_handle ev;; shared_run evs
  end.

(** The keys that the core has written *)
Definition core_keys (evs : list shared_event) : list Digest :=
  omap (λ ev, match ev with CoreWrite key _ => Some key | MempoolTurn _ => None end) evs.

Context `{!DBLaws} {GL : GobLaw Block}.

Lemma StoreBlock_spec b m :
  ∃ st, Mempool_StoreBlock b m = Returns (Ok tt) (mp_set_Store st m) ∧
    ∀ d, GetBlock st d =
      if decide (Block_Hash b = d) then Ok (Some b) else GetBlock (mp_Store m) d.
Proof.
  destruct (gob_round_trip b) as (data & He & Hd). unfold Mempool_StoreBlock. rewrite He.
  pose proof (Store_Write_ok (mp_Store m) (Block_Hash b) data) as Hok.
  destruct (Store_Write (mp_Store m) (Block_Hash b) data) as [err st] eqn:Hw.
  simpl in Hok. subst err. exists st. split; [done|]. intros d. unfold GetBlock.
  replace st with (Store_Write (mp_Store m) (Block_Hash b) data).2 by by rewrite Hw.
  rewrite Store_Read_Write. case_decide; [by rewrite Hd|done].
Qed.

(** Storing a block makes its digest servable and keeps the others so. *)
Lemma servable_store b st st' d :
  (∀ d, GetBlock st' d = if decide (Block_Hash b = d) then Ok (Some b) else GetBlock st d) →
  servable st d ∨ d = Block_Hash b → servable st' d.
Proof.
  intros Hst Hd. unfold servable. rewrite Hst. case_decide as Hh; [by exists b|].
  destruct Hd as [Hd| ->]; done.
Qed.

(** What every turn keeps: the queue stays servable and within its bound, and
    nothing that is servable is lost, unless the core writes over it. *)
Definition keeps (over : list Digest) (m m' : Mempool) : Prop :=
  (mempool_ok over m → mempool_ok over m') ∧
  ∀ d, d ∉ over → servable (mp_Store m) d → servable (mp_Store m') d.

Lemma keeps_refl over m : keeps over m m.
Proof. by split. Qed.

Lemma keeps_trans over m1 m2 m3 : keeps over m1 m2 → keeps over m2 m3 → keeps over m1 m3.
Proof. intros [? ?] [? ?]. split; auto. Qed.

Lemma keeps_fields over m m' :
  mp_Queue m' ⊆ mp_Queue m → mp_Store m' = mp_Store m → keeps over m m'.
Proof.
  intros Hq Hst. split; [|by rewrite Hst]. intros [Hs Hb]. split.
  - intros d Hd Ho. rewrite Hst. by apply Hs; [apply Hq|].
  - pose proof (subseteq_size _ _ Hq). lia.
Qed.

(** Storing and then sending, or queueing, a block *)
Lemma keeps_store over b st m m' :
  (∀ d, GetBlock st d =
     if decide (Block_Hash b = d) then Ok (Some b) else GetBlock (mp_Store m) d) →
  mp_Store m' = st →
  mp_Queue m' = mp_Queue m ∨
  mp_Queue m' = {[Block_Hash b]} ∪ mp_Queue m ∧ queue_full m = false →
  keeps over m m'.
Proof.
  intros Hst Heq Hq. unfold keeps, mempool_ok. rewrite Heq. split.
  - intros [Hs Hb]. split.
    + intros d Hd Ho. apply (servable_store b (mp_Store m)); [done|].
      destruct Hq as [Hq|[Hq _]]; rewrite Hq in Hd; [auto|].
      apply elem_of_union in Hd as [->%elem_of_singleton|Hd]; auto.
    + destruct Hq as [->|[-> Hf]]; [done|]. apply bool_decide_eq_false in Hf.
      pose proof (size_union_alt {[Block_Hash b]} (mp_Queue m)) as Hu.
      assert (size (mp_Queue m ∖ {[Block_Hash b]}) <= size (mp_Queue m))%nat
        by (apply subseteq_size; set_solver).
      rewrite size_singleton in Hu. lia.
  - intros d _ Hd. apply (servable_store b (mp_Store m)); auto.
Qed.

Lemma payloadProcess_spec b m :
  (queue_full m = true ∧
   Mempool_payloadProcess b m = Returns (Err (ErrFullMemory Name)) m) ∨
  (queue_full m = false ∧ ∃ st,
   Mempool_payloadProcess b m =
     Returns (Ok tt) (mp_send NONE (OtherBlockMsg (Some b)) (mp_set_Store st m)) ∧
   ∀ d, GetBlock st d =
     if decide (Block_Hash b = d) then Ok (Some b) else GetBlock (mp_Store m) d).
Proof.
  unfold Mempool_payloadProcess, mbind, GoM_bind, read.
  destruct (queue_full m) eqn:Hf; [by left|right]. split; [done|].
  destruct (StoreBlock_spec b m) as (st & Hs & Hst). exists st. by rewrite Hs.
Qed.

(** What it means that the block [b] was stored in going from [m] to [m']. *)
Definition stores (b : Block) (m m' : Mempool) : Prop :=
  ∀ d, GetBlock (mp_Store m') d =
    if decide (Block_Hash b = d) then Ok (Some b) else GetBlock (mp_Store m) d.

Lemma HandleOwnBlock_spec b m :
  queue_full m = false →
  ∃ m', HandleOwnBlock (Some b) m = Returns (Ok tt) m' ∧ stores b m m' ∧
    mp_Queue m' = {[Block_Hash b]} ∪ mp_Queue m ∧
    mp_sent m' = mp_sent m ++ [(NONE, OtherBlockMsg (Some b))].
Proof.
  intros Hf. unfold HandleOwnBlock, mbind, GoM_bind, read. rewrite Hf.
  destruct (payloadProcess_spec b m) as [[? _]|(_ & st & Hp & Hst)]; [congruence|].
  rewrite Hp. by eexists.
Qed.

Lemma HandleOthorBlock_new b m :
  queue_full m = false → Block_Verify b committee = Some true →
  is_ok (GetBlock (mp_Store m) (Block_Hash b)) = false →
  ∃ m', HandleOthorBlock (Some b) m = Returns (Ok tt) m' ∧ stores b m m' ∧
    mp_Queue m' = {[Block_Hash b]} ∪ mp_Queue m ∧ mp_sent m' = mp_sent m.
Proof.
  intros Hf Hv Hg. unfold HandleOthorBlock, mbind, GoM_bind, read. rewrite Hf, Hv.
  destruct (GetBlock (mp_Store m) (Block_Hash b)); [done|].
  destruct (StoreBlock_spec b m) as (st & Hs & Hst). rewrite Hs. by eexists.
Qed.

(** In all other cases it changes nothing. *)
Lemma HandleOthorBlock_old b m r m' :
  HandleOthorBlock (Some b) m = Returns r m' →
  (queue_full m = false ∧ Block_Verify b committee = Some true ∧
   is_ok (GetBlock (mp_Store m) (Block_Hash b)) = false) ∨ m' = m.
Proof.
  unfold HandleOthorBlock, mbind, GoM_bind, read, mret, GoM_ret.
  destruct (queue_full m); [intros [= _ <-]; by right|].
  destruct (Block_Verify b committee) as [[]|]; [|intros [= _ <-]; by right|done].
  destruct (GetBlock (mp_Store m) (Block_Hash b)); [intros [= _ <-]; by right|by left].
Qed.

Lemma HandleOwnBlock_keeps over b m r m' : HandleOwnBlock b m = Returns r m' → keeps over m m'.
Proof.
  intros Hh. destruct b as [b|].
  - destruct (queue_full m) eqn:Hf.
    + unfold HandleOwnBlock, mbind, GoM_bind, read, mret, GoM_ret in Hh. rewrite Hf in Hh.
      simplify_eq. apply keeps_refl.
    + destruct (HandleOwnBlock_spec b m Hf) as (m1 & Hm1 & Hst & Hq & _).
      rewrite Hh in Hm1. simplify_eq. eapply keeps_store; [exact Hst|done|]. by right.
  - unfold HandleOwnBlock, mbind, GoM_bind, read, mret, GoM_ret in Hh. destruct (queue_full m); [|done].
    simplify_eq. apply keeps_refl.
Qed.

Lemma HandleOthorBlock_keeps over b m r m' : HandleOthorBlock b m = Returns r m' → keeps over m m'.
Proof.
  intros Hh. destruct b as [b|]; [|done].
  destruct (HandleOthorBlock_old b m r m' Hh) as [(Hf & Hv & Hg)|<-]; [|apply keeps_refl].
  destruct (HandleOthorBlock_new b m Hf Hv Hg) as (m1 & Hm1 & Hst & Hq & _).
  rewrite Hh in Hm1. simplify_eq. eapply keeps_store; [exact Hst|done|]. by right.
Qed.

Lemma HandleRequest_keeps over a ds m r m' :
  HandleRequestBlock_loop a ds m = Returns r m' → keeps over m m'.
Proof.
  revert m. induction ds as [|d ds IH]; intros m; simpl.
  - intros [= _ <-]. apply keeps_refl.
  - unfold mbind, GoM_bind, read, modify. destruct (GetBlock (mp_Store m) d).
    + intros Hr%IH. eapply keeps_trans; [|exact Hr]. by apply keeps_fields.
    + intros [= _ <-]. apply keeps_refl.
Qed.

Lemma HandleMake_keeps over order mx m r m' :
  HandleMakeBlockMsg order mx m = Returns r m' → keeps over m m'.
Proof.
  unfold HandleMakeBlockMsg, mbind, GoM_bind, read, act, modify.
  case_bool_decide.
  - destruct (Pool_GetBatch (mp_TxPool m)) as [batch q]. simpl.
    destruct (payloadProcess_spec
      (mkBlock Name batch (ed25519_Sign (Prikey (PriKey sigService))
         (Block_Hash (mkBlock Name batch [])))) (mp_set_TxPool q m))
      as [(_ & ->)|(_ & st & -> & Hst)]; intros [= _ <-]; [by apply keeps_fields|].
    eapply keeps_store; [exact Hst|done|by left].
  - intros [= _ <-]. apply keeps_fields; simpl; [set_solver|done].
Qed.

Lemma mempool_handle_keeps over ev m m' : mempool_handle ev m = Returns tt m' → keeps over m m'.
Proof.
  destruct ev as [order msg|msg|batch|q]; simpl; unfold mbind, GoM_bind, mret, GoM_ret.
  - destruct msg as [mx|v|cl]; simpl; unfold mbind, GoM_bind, mret, GoM_ret.
    + destruct (HandleMakeBlockMsg order mx m) as [[] m1|] eqn:Hm; intros; simplify_eq;
        by eapply HandleMake_keeps.
    + unfold HandleVerifyMsg. destruct (Synchronizer_Verify _ _ _ _ _). intros [= <-].
      by apply keeps_fields.
    + intros [= <-]. apply keeps_fields; simpl; [set_solver|done].
  - destruct (Mempool_receive msg m) as [r m1|] eqn:Hm; [|done]. intros [= <-].
    destruct msg; simpl in Hm;
      [by eapply HandleOwnBlock_keeps|by eapply HandleOthorBlock_keeps
      |by eapply HandleRequest_keeps].
  - unfold generateBlock. simpl. case_decide; intros [= <-];
      [by apply keeps_fields|apply keeps_refl].
  - intros [= <-]. by apply keeps_fields.
Qed.

Lemma core_write_keeps over key val m :
  key ∈ over → keeps over m (mp_set_Store (Store_Write (mp_Store m) key val).2 m).
Proof.
  intros Hk.
  assert (∀ d, d ∉ over → servable (mp_Store m) d → servable (Store_Write (mp_Store m) key val).2 d)
    as Hs.
  { intros d Hd. unfold servable, GetBlock. rewrite Store_Read_Write.
    rewrite decide_False; [done|]. by intros <-. }
  split; [|exact Hs]. intros [Hq Hb]. split; [|exact Hb]. simpl. auto.
Qed.

Lemma shared_run_keeps over evs m m' :
  core_keys evs ⊆ over → shared_run evs m = Returns tt m' → keeps over m m'.
Proof.
  revert m. induction evs as [|ev evs IH]; intros m Hk; simpl.
  { intros [= <-]. apply keeps_refl. }
  unfold mbind, GoM_bind. destruct (shared_handle ev m) as [[] m1|] eqn:Hm; [|done]. intros Hr.
  destruct ev as [ev|key val].
  - eapply keeps_trans; [exact (mempool_handle_keeps over ev m m1 Hm)|by apply IH].
  - injection Hm as <-. change (core_keys (CoreWrite key val :: evs)) with (key :: core_keys evs) in Hk.
    eapply keeps_trans; [apply (core_write_keeps over key val); set_solver|apply IH; set_solver].
Qed.

Lemma NewMempool_ok over st q : 0 <= MaxQueenSize parameters → mempool_ok over (NewMempool st q).
Proof. intros Hm. split; [set_solver|]. cbn [NewMempool mp_Queue]. by rewrite size_empty. Qed.

(** *** Making a block *)

Lemma take_keys_spec nums keys :
  ∃ rest, keys = take_keys nums keys ++ rest ∧
    (0 < nums → length (take_keys nums keys) = Nat.min (Z.to_nat nums) (length keys)) ∧
    (nums <= 0 → rest = []).
Proof.
  revert nums. induction keys as [|k keys IH]; intros nums; simpl.
  - exists []. split_and!; [done|lia|done].
  - destruct (IH (nums - 1)) as (rest & Hr & Hpos & Hneg).
    case_decide as Hd; simpl.
    + exists keys. split_and!; [done|lia|lia].
    + exists rest. split_and!; [by f_equal| |intros; apply Hneg; lia].
      intros Hn. rewrite Hpos by lia. lia.
Qed.

Lemma HandleMake_empty order mx m :
  mp_Queue m = ∅ → queue_full m = false →
  ∃ b m', HandleMakeBlockMsg order mx m = Returns (Ok [Block_Hash b]) m' ∧
    bl_Proposer b = Name ∧ bl_Batch b = (Pool_GetBatch (mp_TxPool m)).1 ∧
    stores b m m' ∧ mp_Queue m' = ∅ ∧
    mp_sent m' = mp_sent m ++ [(NONE, OtherBlockMsg (Some b))].
Proof.
  intros Hq Hf. unfold HandleMakeBlockMsg, mbind, GoM_bind, read, act, modify.
  rewrite Hq, bool_decide_eq_true_2 by apply size_empty.
  destruct (Pool_GetBatch (mp_TxPool m)) as [batch q]. simpl.
  set (b := mkBlock Name batch _).
  destruct (payloadProcess_spec b (mp_set_TxPool q m)) as [[Hf' _]|(_ & st & Hp & Hst)].
  - unfold queue_full in *. simpl in Hf'. congruence.
  - rewrite Hp. exists b. by eexists.
Qed.

Lemma HandleMake_queue order mx m :
  mp_Queue m ≠ ∅ →
  HandleMakeBlockMsg order mx m =
    Returns (Ok (take_keys mx order))
      (mp_set_Queue (mp_Queue m ∖ list_to_set (take_keys mx order)) m).
Proof.
  intros Hq. unfold HandleMakeBlockMsg, mbind, GoM_bind, read, modify.
  rewrite bool_decide_eq_false_2; [done|]. intros Hs%size_empty_inv. set_solver.
Qed.

(** The digests of a new consensus block are servable. *)
Lemma made_servable over order mx m ds m' :
  mempool_ok over m → order ≡ₚ elements (mp_Queue m) →
  HandleMakeBlockMsg order mx m = Returns (Ok ds) m' →
  ∀ d, d ∈ ds → d ∉ over → servable (mp_Store m') d.
Proof.
  intros [Hs _] Ho Hm. destruct (decide (mp_Queue m = ∅)) as [He|He].
  - destruct (queue_full m) eqn:Hf.
    + unfold HandleMakeBlockMsg, mbind, GoM_bind, read, act, modify in Hm.
      rewrite He, bool_decide_eq_true_2 in Hm by apply size_empty.
      destruct (Pool_GetBatch (mp_TxPool m)) as [batch q]. simpl in Hm.
      unfold Mempool_payloadProcess, mbind, GoM_bind, read in Hm.
      change (queue_full (mp_set_TxPool q m)) with (queue_full m) in Hm. by rewrite Hf in Hm.
    + destruct (HandleMake_empty order mx m He Hf) as (b & m1 & Hm1 & _ & _ & Hst & _).
      rewrite Hm in Hm1. simplify_eq.
      intros d ->%list_elem_of_singleton _. exists b. split; [|done]. rewrite Hst. by rewrite decide_True.
  - rewrite HandleMake_queue in Hm by done. simplify_eq. simpl.
    intros d Hd Hover. apply Hs; [|done]. apply elem_of_elements. rewrite <-Ho.
    destruct (take_keys_spec mx order) as (rest & -> & _). set_solver.
Qed.

Lemma HandleRequest_served author ds m :
  Forall (servable (mp_Store m)) ds →
  ∃ bs m', HandleRequestBlock_loop author ds m = Returns (Ok tt) m' ∧
    map Block_Hash bs = ds ∧
    mp_sent m' = mp_sent m ++ map (λ b, (author, OtherBlockMsg (Some b))) bs.
Proof.
  revert m. induction ds as [|d ds IH]; intros m Hall; simpl.
  - exists [], m. by rewrite app_nil_r.
  - apply Forall_cons in Hall as [(b & Hb & Hh) Hall].
    destruct (IH (mp_send author (OtherBlockMsg (Some b)) m) Hall) as (bs & m' & Hr & Hbs & Hs).
    exists (b :: bs), m'. unfold mbind, GoM_bind, read, modify. rewrite Hb, Hr.
    split_and!; [done|simpl; by f_equal|]. rewrite Hs. simpl. by rewrite <-app_assoc.
Qed.

(** *** Verification *)

Lemma HandleVerify_spec msg m :
  let missing := List.filter
    (λ d, negb (is_ok (Store_Read (mp_Store m) d))) (vb_Payloads msg) in
  HandleVerifyMsg msg m =
    match missing with
    | [] => Returns OK (mp_inter [] m)
    | _ => Returns Wait (mp_inter [SyncBlock (mkSyncBlockMsg missing (vb_Proposer msg)
             (vb_Epoch msg) (vb_ConsensusBlockHash msg))] m)
    end ∧
  (missing = [] ↔ ∀ d, d ∈ vb_Payloads msg → readable (mp_Store m) d).
Proof.
  intros missing. split.
  - unfold HandleVerifyMsg, Synchronizer_Verify.
    replace (List.filter _ (vb_Payloads msg)) with missing
      by (apply List.filter_ext; intros d; by destruct (Store_Read (mp_Store m) d)).
    by destruct missing.
  - unfold missing, readable. generalize (vb_Payloads msg). intros l. clear.
    induction l as [|d l IH]; simpl; [set_solver|].
    destruct (Store_Read (mp_Store m) d) eqn:E; simpl.
    + rewrite IH. set_unfold. naive_solver.
    + split; [done|]. intros Hall.
      destruct (Hall d) as [v Hv]; [apply list_elem_of_here|congruence].
Qed.

(** ** Theorems *)

(** C32 Nodes can deliver what they refer to: in every run of the mempool, with the core
    writing to the store that they share, the digests that [HandleMakeBlockMsg] gives
    the core for a consensus block can be asked for at any later time, and the answer is,
    for each of them in order, a block with exactly this digest, provided that the core
    never writes under one of these digests. *)
Theorem proposed_payloads_served st q evs m order mx ds m1 evs' m2 author :
  0 <= MaxQueenSize parameters → shared_run evs (NewMempool st q) = Returns tt m →
  order ≡ₚ elements (mp_Queue m) →
  HandleMakeBlockMsg order mx m = Returns (Ok ds) m1 → shared_run evs' m1 = Returns tt m2 →
  (∀ d, d ∈ ds → d ∉ core_keys (evs ++ evs')) →
  ∃ bs m3, HandleRequestBlock (mkRequestBlockMsg 0 ds author) m2 = Returns (Ok tt) m3 ∧
    map Block_Hash bs = ds ∧
    mp_sent m3 = mp_sent m2 ++ map (λ b, (author, OtherBlockMsg (Some b))) bs.
Proof.
  intros Hmax Hr Ho Hm Hr2 Hover. apply HandleRequest_served.
  set (over := core_keys (evs ++ evs')) in *.
  assert (core_keys evs ⊆ over ∧ core_keys evs' ⊆ over) as [H1 H2].
  { unfold over, core_keys. rewrite omap_app. set_solver. }
  destruct (shared_run_keeps over _ _ _ H1 Hr) as [Hok _].
  destruct (shared_run_keeps over _ _ _ H2 Hr2) as [_ Hkeep].
  apply Forall_forall. intros d Hd. apply Hkeep; [by apply Hover|].
  exact (made_servable _ _ _ _ _ _ (Hok (NewMempool_ok _ _ _ Hmax)) Ho Hm d Hd (Hover d Hd)).
Qed.

(** What goes into a consensus block: with a non-empty queue, [MaxBlockSize]
    digests of the queue or all of them if there are fewer (or if
    [MaxBlockSize] is not positive), without repetition, and they leave the
    queue; with an empty queue, one block made from the next batch, which is
    stored and sent to all nodes.  The queue never exceeds its bound and all it
    holds can be served, unless the core has written under the digest. *)
Theorem make_block_payloads st q evs m order mx :
  0 < MaxQueenSize parameters → shared_run evs (NewMempool st q) = Returns tt m →
  order ≡ₚ elements (mp_Queue m) →
  Z.of_nat (size (mp_Queue m)) <= MaxQueenSize parameters ∧
  (∀ d, d ∈ mp_Queue m → d ∉ core_keys evs → servable (mp_Store m) d) ∧
  ∃ ds m', HandleMakeBlockMsg order mx m = Returns (Ok ds) m' ∧ NoDup ds ∧
    ((mp_Queue m ≠ ∅ ∧ list_to_set ds ⊆ mp_Queue m ∧
      mp_Queue m' = mp_Queue m ∖ list_to_set ds ∧
      length ds = if decide (0 < mx) then Nat.min (Z.to_nat mx) (size (mp_Queue m))
                  else size (mp_Queue m)) ∨
     (mp_Queue m = ∅ ∧ ∃ b, ds = [Block_Hash b] ∧ bl_Proposer b = Name ∧
      bl_Batch b = (Pool_GetBatch (mp_TxPool m)).1 ∧ stores b m m' ∧
      mp_sent m' = mp_sent m ++ [(NONE, OtherBlockMsg (Some b))])).
Proof.
  intros Hmax Hr Ho. destruct (shared_run_keeps (core_keys evs) _ _ _ ltac:(done) Hr) as [Hok _].
  destruct (Hok (NewMempool_ok _ _ _ ltac:(lia))) as [Hs Hb]. split_and!; [done|done|].
  destruct (decide (mp_Queue m = ∅)) as [He|He].
  - assert (queue_full m = false) as Hf.
    { apply bool_decide_eq_false. rewrite He, size_empty. lia. }
    destruct (HandleMake_empty order mx m He Hf) as (b & m' & Hm & ? & ? & ? & ? & ?).
    exists [Block_Hash b], m'. split_and!; [done|apply NoDup_singleton|]. right. eauto 10.
  - rewrite HandleMake_queue by done. do 2 eexists. split; [done|].
    destruct (take_keys_spec mx order) as (rest & Hrest & Hpos & Hneg).
    assert (length order = size (mp_Queue m)) as Hlen by (unfold size, set_size; simpl; by rewrite Ho).
    assert (NoDup order) as Hnd by (rewrite Ho; apply NoDup_elements).
    rewrite Hrest in Hnd. apply NoDup_app in Hnd as [Hnd _]. split; [done|]. left.
    split_and!; [done| |done|].
    + intros d Hd%elem_of_list_to_set. apply elem_of_elements. rewrite <-Ho, Hrest. set_solver.
    + case_decide; [rewrite Hpos by done; by rewrite Hlen|].
      rewrite Hneg, app_nil_r in Hrest by lia. by rewrite <-Hlen, <-Hrest.
Qed.

(** Verification of a consensus block: the status is [OK] exactly if every
    payload can be read from the store, and otherwise [Wait], with one request
    to the synchronizer for exactly the payloads that cannot, in their order. *)
Theorem verify_reports_missing msg m :
  let missing := List.filter
    (λ d, negb (is_ok (Store_Read (mp_Store m) d))) (vb_Payloads msg) in
  ∃ status m', HandleVerifyMsg msg m = Returns status m' ∧ mp_Store m' = mp_Store m ∧
    (status = OK ↔ ∀ d, d ∈ vb_Payloads msg → readable (mp_Store m) d) ∧
    (status = OK ∧ mp_interChan m' = mp_interChan m ∨
     status = Wait ∧ mp_interChan m' = mp_interChan m ++
       [SyncBlock (mkSyncBlockMsg missing (vb_Proposer msg) (vb_Epoch msg)
                     (vb_ConsensusBlockHash msg))]).
Proof.
  intros missing. destruct (HandleVerify_spec msg m) as (Hv & Hiff). rewrite Hv.
  fold missing in Hiff |- *.
  destruct missing as [|d ds]; do 2 eexists; (split; [done|]); simpl;
    (split; [done|]); rewrite <-Hiff.
  - split; [done|]. left. by rewrite app_nil_r.
  - split; [done|]. by right.
Qed.

(** Receiving a payload block of another node: if there is room, its
    signature is valid and it is not stored yet, it is stored, its digest is
    queued for a later consensus block, and a consensus block that refers to it
    no longer misses it; in every other case the mempool is unchanged. *)
Theorem other_block_received b m r m' :
  HandleOthorBlock (Some b) m = Returns r m' →
  if decide (queue_full m = false ∧ Block_Verify b committee = Some true ∧
             is_ok (GetBlock (mp_Store m) (Block_Hash b)) = false)
  then r = Ok tt ∧ stores b m m' ∧ readable (mp_Store m') (Block_Hash b) ∧
       mp_Queue m' = {[Block_Hash b]} ∪ mp_Queue m
  else m' = m.
Proof.
  intros Hh. case_decide as Hc.
  - destruct Hc as (Hf & Hv & Hg).
    destruct (HandleOthorBlock_new b m Hf Hv Hg) as (m1 & Hm1 & Hst & Hq & _).
    rewrite Hh in Hm1. simplify_eq. split_and!; [done|done| |done].
    specialize (Hst (Block_Hash b)). rewrite decide_True in Hst by done.
    unfold GetBlock in Hst. unfold readable.
    destruct (Store_Read (mp_Store m1) (Block_Hash b)); [eauto|]. by case_decide.
  - destruct (HandleOthorBlock_old b m r m' Hh); [by exfalso|done].
Qed.

(** A block claimed to be the node's own is not authenticated: a message of
    type [OwnBlockMsg], which the mempool's network decoder accepts from any peer,
    is stored, queued and sent to all nodes although its signature is wrong; the
    same block in an [OtherBlockMsg] is dropped. *)
Theorem own_block_not_authenticated b m :
  queue_full m = false → Block_Verify b committee = Some false →
  (∃ m', Mempool_receive (OwnBlockMsg (Some b)) m = Returns (Ok tt) m' ∧
     Block_Hash b ∈ mp_Queue m' ∧ (NONE, OtherBlockMsg (Some b)) ∈ mp_sent m') ∧
  Mempool_receive (OtherBlockMsg (Some b)) m = Returns (Ok tt) m.
Proof.
  intros Hf Hv. split.
  - destruct (HandleOwnBlock_spec b m Hf) as (m' & Hm & _ & Hq & Hs).
    exists m'. split_and!; [done| |]; [rewrite Hq|rewrite Hs]; set_solver.
  - simpl. unfold HandleOthorBlock, mbind, GoM_bind, read. by rewrite Hf, Hv.
Qed.

(** The store's own error for a missing key is read as "block present": over a
    database that reports [ErrNotFoundKey], as the [store] package declares it,
    the mempool drops every block of another node. *)
Theorem not_found_key_drops_blocks b m r m' :
  Store_Read (mp_Store m) (Block_Hash b) = Err ErrNotFoundKey →
  HandleOthorBlock (Some b) m = Returns r m' → m' = m.
Proof.
  intros Hrd Hh. destruct (HandleOthorBlock_old b m r m' Hh) as [(_ & _ & Hg)|]; [|done].
  unfold GetBlock in Hg. rewrite Hrd, decide_True in Hg by done. done.
Qed.
End mempool.
Section port.
Context {CL : CryptoLib} {D : DB} {G : Gob Block} `{!DBLaws} {GL : GobLaw Block}.
Context (Name : NodeID) (parameters : Parameters) (sigService : SigService).

(** The order in which the next range over the queue visits its keys *)
Context (range : Mempool → list Digest) (range_perm : ∀ m, range m ≡ₚ elements (mp_Queue m)).

(** The mempool as the core sees it.  Its copy of the shared store is replaced by
    the current one when it handles a message. *)
#[export] Instance Mempool_port : MempoolPort := {
  port_state := Mempool;
  port_make mx p st :=
    let m := mp_set_Store st p in
    match HandleMakeBlockMsg Name parameters sigService (range m) mx m with
    | Returns (Ok ds) m' => (ds, (m', mp_Store m'))
    | Returns (Err _) m' => ([], (m', mp_Store m'))
    | Crash _ => ([], (m, st))
    end;
  port_verify msg p st :=
    let m := mp_set_Store st p in
    match HandleVerifyMsg msg m with
    | Returns status m' => (status, (m', mp_Store m'))
    | Crash _ => (Reject, (m, st))
    end
}.

Lemma GetBlock_readable st d b : GetBlock st d = Ok (Some b) → readable st d.
Proof.
  unfold GetBlock, readable. destruct (Store_Read st d); [eauto|]. by case_decide.
Qed.

Lemma StoreBlock_readable b m r m' d :
  Mempool_StoreBlock b m = Returns r m' → readable (mp_Store m) d → readable (mp_Store m') d.
Proof.
  unfold Mempool_StoreBlock. destruct (gob_Encode b) as [data|]; [|by intros [= _ <-]].
  destruct (Store_Write _ _ _) as [err st] eqn:Hw. intros [= _ <-] Hd. simpl.
  replace st with (Store_Write (mp_Store m) (Block_Hash b) data).2 by by rewrite Hw.
  by apply readable_write.
Qed.

Lemma HandleMake_readable order mx m r m' d :
  HandleMakeBlockMsg Name parameters sigService order mx m = Returns r m' →
  readable (mp_Store m) d → readable (mp_Store m') d.
Proof.
  unfold HandleMakeBlockMsg, mbind, GoM_bind, read, act, modify.
  case_bool_decide; [|by intros [= _ <-]].
  destruct (Pool_GetBatch (mp_TxPool m)) as [batch q]. simpl.
  unfold Mempool_payloadProcess, mbind, GoM_bind, read, modify, mret, GoM_ret.
  destruct (queue_full _ _); [by intros [= _ <-]|].
  destruct (Mempool_StoreBlock _ _) as [[] m1|] eqn:Hs; [| |done]; intros [= _ <-] Hd; simpl;
    by eapply StoreBlock_readable in Hs.
Qed.

Lemma HandleMake_ok order mx m r m' :
  order ≡ₚ elements (mp_Queue m) → (∀ d, d ∈ mp_Queue m → readable (mp_Store m) d) →
  HandleMakeBlockMsg Name parameters sigService order mx m = Returns r m' →
  mp_Queue m' ⊆ mp_Queue m ∧ ∀ ds, r = Ok ds → Forall (readable (mp_Store m')) ds.
Proof.
  intros Ho Hq Hm. destruct (decide (mp_Queue m = ∅)) as [He|He].
  - destruct (queue_full parameters m) eqn:Hf.
    + unfold HandleMakeBlockMsg, mbind, GoM_bind, read, act, modify in Hm.
      rewrite He, bool_decide_eq_true_2 in Hm by apply size_empty.
      destruct (Pool_GetBatch (mp_TxPool m)) as [batch q]. simpl in Hm.
      unfold Mempool_payloadProcess, mbind, GoM_bind, read in Hm.
      change (queue_full parameters (mp_set_TxPool q m)) with (queue_full parameters m) in Hm.
      rewrite Hf in Hm. unfold mret, GoM_ret in Hm. simplify_eq. by split.
    + destruct (HandleMake_empty Name parameters sigService order mx m He Hf)
        as (b & m1 & Hm1 & _ & _ & Hst & HQ & _).
      rewrite Hm in Hm1. simplify_eq. split; [set_solver|]. intros ds [= <-].
      apply Forall_singleton. apply (GetBlock_readable _ _ b).
      rewrite Hst. by rewrite decide_True.
  - rewrite HandleMake_queue in Hm by done. simplify_eq. simpl. split; [set_solver|].
    intros ds [= <-]. apply Forall_forall. intros d Hd. apply Hq, elem_of_elements.
    rewrite <-Ho. destruct (take_keys_spec mx order) as (rest & -> & _). set_solver.
Qed.

(** The mempool keeps the promises that the core relies on. *)
#[export] Instance Mempool_port_laws : MempoolPortLaws (P := Mempool_port).
Proof.
  refine (Build_MempoolPortLaws _ Mempool_port
    (λ (p : Mempool) st, ∀ d, d ∈ mp_Queue p → readable st d) _ _ _ _).
  - intros p st k v Hok d Hd. by apply readable_write, Hok.
  - intros mx p st ds p' st' Hok. simpl.
    destruct (HandleMakeBlockMsg _ _ _ _ _ _) as [r m'|why] eqn:Hm.
    + destruct (HandleMake_ok _ _ (mp_set_Store st p) _ _ (range_perm _) Hok Hm)
        as [Hsub Hds].
      pose proof (λ d, HandleMake_readable _ _ _ _ _ d Hm) as Hkeep. simpl in *.
      destruct r; intros; simplify_eq; (split; [|try done]).
      * intros d Hd. by apply Hkeep, Hok, Hsub.
      * by apply Hds.
      * intros d Hd. by apply Hkeep, Hok, Hsub.
    + intros; by simplify_eq.
  - intros mx p st ds p' st'. simpl.
    destruct (HandleMakeBlockMsg _ _ _ _ _ _) as [r m'|why] eqn:Hm; [|intros; by simplify_eq].
    pose proof (λ d, HandleMake_readable _ _ _ _ _ d Hm) as Hkeep.
    destruct r; intros; simplify_eq; auto.
  - intros msg p st status p' st'. simpl.
    destruct (HandleVerify_spec msg (mp_set_Store st p)) as (Hv & Hiff). rewrite Hv.
    destruct (List.filter _ _); intros; simplify_eq; simpl in *;
      (split_and!; [done|done|]); by rewrite <-Hiff.
Defined.
End port.
