(* ===== verification/Report.v ===== *)
(** * The committing goroutine (src/core/smvba/consensus/commitor.go, [run])

    [run] takes the blocks that [Commit] hands over, reads each payload back from
    the mempool's store, writes one log line per payload block with transactions
    and one per consensus block, and reports each consensus block on the callback
    channel.  The log and the number of reports are its state.

    The theorems: a sequence of complete blocks is reported whole and in order, and
    the one place where the goroutine dereferences a nil block. *)

From stdpp Require Import base gmap list strings.
From S2P Require Import Prelude Committee Crypto Message Commitor Pool Store Synchronizer.
From S2P Require Import Port Mempool.

(** The lines that [run] logs *)
Inductive logline : Type :=
  | CommitBlock (node batch_id : Z)
  | GetKeyError
  | CommitConsensusBlock (epoch node : Z).

Record Reporter : Type := mkReporter {
  re_log : list logline;
  re_callBack : nat
}.

Section report.
Context {CL : CryptoLib} {D : DB} {GB : Gob Block}.

Definition log (l : logline) : GoM Reporter unit :=
  modify (λ r, mkReporter (re_log r ++ [l]) (re_callBack r)).

(** One payload.  A batch that gob has decoded has nil transactions exactly when
    it has none. *)
Definition report_payload (st : Store) (payload : Digest) : GoM Reporter unit :=
  match GetBlock st payload with
  | Ok (Some smallblock) =>
      if decide (bt_Txs (bl_Batch smallblock) = []) then mret tt
      else log (CommitBlock (bl_Proposer smallblock) (bt_ID (bl_Batch smallblock)))
  | Ok None => panic "nil pointer dereference"
  | Err _ => log GetKeyError
  end.

Fixpoint report_payloads (st : Store) (payloads : list Digest) : GoM Reporter unit :=
  match payloads with
  | [] => mret tt
  | payload :: payloads => report_payload st payload;; report_payloads st payloads
  end.

(** A turn of the loop of [run] *)
Definition Committor_run_turn (st : Store) (block : ConsensusBlock) : GoM Reporter unit :=
  report_payloads st (cb_PayLoads block);;
  log (CommitConsensusBlock (cb_Epoch block) (cb_Proposer block));;
  modify (λ r, mkReporter (re_log r) (S (re_callBack r))).

Fixpoint Committor_run (st : Store) (blocks : list ConsensusBlock) : GoM Reporter unit :=
  match blocks with
  | [] => mret tt
  | block :: blocks => Committor_run_turn st block;; Committor_run st blocks
  end.

(** ** What a complete block is reported as *)

Definition payload_lines (st : Store) (d : Digest) : list logline :=
  match GetBlock st d with
  | Ok (Some b) =>
      if decide (bt_Txs (bl_Batch b) = []) then []
      else [CommitBlock (bl_Proposer b) (bt_ID (bl_Batch b))]
  | _ => []
  end.

Definition block_lines (st : Store) (b : ConsensusBlock) : list logline :=
  (cb_PayLoads b ≫= payload_lines st) ++ [CommitConsensusBlock (cb_Epoch b) (cb_Proposer b)].

Lemma report_payloads_lines st ds r :
  Forall (servable st) ds →
  report_payloads st ds r =
  Returns tt (mkReporter (re_log r ++ (ds ≫= payload_lines st)) (re_callBack r)).
Proof.
  intros Hds. revert r. induction Hds as [|d ds (b & Hb & _) _ IH]; intros r; simpl.
  { rewrite app_nil_r. by destruct r. }
  unfold mbind at 1, GoM_bind, report_payload, payload_lines at 1. rewrite Hb.
  case_decide; simpl; rewrite IH; simpl; by rewrite <-?app_assoc.
Qed.

Lemma Committor_run_lines st bs r :
  Forall (λ b, Forall (servable st) (cb_PayLoads b)) bs →
  Committor_run st bs r =
  Returns tt (mkReporter (re_log r ++ (bs ≫= block_lines st)) (re_callBack r + length bs)).
Proof.
  intros Hbs. revert r. induction Hbs as [|b bs Hb _ IH]; intros r; simpl.
  { rewrite app_nil_r, Nat.add_0_r. by destruct r. }
  unfold mbind at 1, GoM_bind, Committor_run_turn.
  unfold mbind at 1, GoM_bind. rewrite report_payloads_lines by done.
  unfold mbind, GoM_bind, log, modify in *. simpl. rewrite IH. simpl. unfold block_lines at 2.
  do 2 f_equal; [by rewrite <-!app_assoc|lia].
Qed.

Definition reported_epoch (l : logline) : option Z :=
  match l with CommitConsensusBlock epoch _ => Some epoch | _ => None end.

Lemma payload_lines_shape st d l :
  l ∈ payload_lines st d → ∃ node batch_id, l = CommitBlock node batch_id.
Proof.
  unfold payload_lines. repeat case_match; set_solver.
Qed.

Lemma block_lines_no_error st b : GetKeyError ∉ block_lines st b.
Proof.
  unfold block_lines. rewrite elem_of_app, list_elem_of_bind, list_elem_of_singleton.
  intros [(d & (? & ? & [=])%payload_lines_shape & _)|[=]].
Qed.

Lemma reported_epochs st bs : omap reported_epoch (bs ≫= block_lines st) = map cb_Epoch bs.
Proof.
  induction bs as [|b bs IH]; [done|]. rewrite bind_cons, omap_app, IH. simpl.
  unfold block_lines. rewrite omap_app. simpl.
  assert (omap reported_epoch (cb_PayLoads b ≫= payload_lines st) = []) as ->; [|done].
  induction (cb_PayLoads b) as [|d ds IHd]; [done|]. rewrite bind_cons, omap_app, IHd, app_nil_r.
  unfold payload_lines. by repeat case_match.
Qed.

(** Reports: when the payloads of the committed blocks are in the store, the
    goroutine handles all of them without a panic and without an error line; its
    log is, block after block in the order of the epochs 0, 1, 2, ..., the lines
    of the payload blocks with transactions and then the line of the block, and
    the callback channel gets one report per block. *)
Theorem committed_blocks_reported st bs :
  Forall (λ b, Forall (servable st) (cb_PayLoads b)) bs →
  let committed := cm_committed (commits bs) in
  ∃ r, Committor_run st committed (mkReporter [] 0) = Returns tt r ∧
    re_log r = mbind (block_lines st) committed ∧
    re_callBack r = length committed ∧
    (GetKeyError ∉ re_log r) ∧
    omap reported_epoch (re_log r) = seqZ 0 (cm_Index (commits bs)).
Proof.
  intros Hbs committed. destruct (holds_commits bs) as [[Hi He Hcm _ _] _].
  assert (Forall (λ b, Forall (servable st) (cb_PayLoads b)) committed) as Hc.
  { apply Forall_forall. intros b Hb. rewrite Forall_forall in Hbs. by apply Hbs, Hcm. }
  eexists. split; [by apply Committor_run_lines|]. simpl.
  split_and!; [done|done| |by rewrite reported_epochs].
  rewrite list_elem_of_bind. intros (b & Hin & _). by apply block_lines_no_error in Hin.
Qed.

(** A payload whose key the store reports with its own error for missing keys ends
    the goroutine, and with it the process. *)
Theorem missing_payload_panics st b d rest r :
  cb_PayLoads b = d :: rest → Store_Read st d = Err ErrNotFoundKey →
  Committor_run st [b] r = Crash "nil pointer dereference".
Proof.
  intros Hp Hr. simpl. unfold Committor_run_turn. rewrite Hp. simpl.
  unfold mbind, GoM_bind, report_payload, GetBlock. by rewrite Hr.
Qed.
End report.
