(* ===== verification/Regex.v ===== *)
(** * Regular expressions of the log scripts

    The Python scripts under src/benchmark read logs with the module [re].  The patterns
    that they use are sequences of literals, [.*], [\d+] and groups; this file gives
    them the meaning that [re] has: candidates are tried from left to right, the longest
    repetition first, and a dot does not match the end of a line.  Texts are ASCII.

    The lemmas compute the first match of a pattern on a text of which some parts are
    unknown: a literal is [absent] from a piece of text if it begins nowhere in it,
    whatever is known of what follows. *)

From stdpp Require Import base list strings pretty.
From Stdlib Require Import Ascii.
From S2P Require Import Prelude.

(** ** Patterns *)

Inductive regex : Type :=
  | Lit (s : string)
  | Any
  | Digits
  | Seq (r1 r2 : regex)
  | Group (r : regex).

Definition newline : ascii := ascii_of_nat 10.

Definition is_digit (c : ascii) : bool :=
  let n := nat_of_ascii c in (48 <=? n)%nat && (n <=? 57)%nat.

(** The rest of a text after a literal *)
Fixpoint strip (lit s : string) : option string :=
  match lit, s with
  | EmptyString, _ => Some s
  | String a lit, String b s => if decide (a = b) then strip lit s else None
  | String _ _, EmptyString => None
  end.

(** What [.*] and [\d+] may take, the longest first, with the rest *)
Fixpoint any_splits (s : string) : list (string * string) :=
  match s with
  | EmptyString => [("", "")]
  | String c s' =>
      if decide (c = newline) then [("", s)]
      else map (λ p, (String c p.1, p.2)) (any_splits s') ++ [("", s)]
  end.

Fixpoint digit_splits (s : string) : list (string * string) :=
  match s with
  | EmptyString => []
  | String c s' =>
      if is_digit c then map (λ p, (String c p.1, p.2)) (digit_splits s') ++ [(String c "", s')]
      else []
  end.

(** A match: its text, the texts of its groups, and the rest *)
Definition rmatch : Type := string * list string * string.

Definition without_groups (p : string * string) : rmatch := (p.1, [], p.2).

Fixpoint matches (r : regex) (s : string) : list rmatch :=
  match r with
  | Lit l => match strip l s with Some rest => [(l, [], rest)] | None => [] end
  | Any => map without_groups (any_splits s)
  | Digits => map without_groups (digit_splits s)
  | Seq r1 r2 =>
      m1 ← matches r1 s;
      map (λ m2, (m1.1.1 +:+ m2.1.1, m1.1.2 ++ m2.1.2, m2.2)) (matches r2 m1.2)
  | Group r => map (λ m, (m.1.1, m.1.1 :: m.1.2, m.2)) (matches r s)
  end.

Definition match_at (r : regex) (s : string) : option (list string * string) :=
  match matches r s with [] => None | m :: _ => Some (m.1.2, m.2) end.

(** [re.search]: the groups of the leftmost match *)
Fixpoint search (r : regex) (s : string) : option (list string) :=
  match match_at r s with
  | Some (groups, _) => Some groups
  | None => match s with String _ s' => search r s' | EmptyString => None end
  end.

(** [re.findall], for a pattern that begins with a literal: the groups of the matches from
    left to right.  Every turn shortens the text. *)
Fixpoint findall_loop (fuel : nat) (r : regex) (s : string) : list (list string) :=
  match fuel, s with
  | S fuel, String _ s' =>
      match match_at r s with
      | Some (groups, rest) => groups :: findall_loop fuel r rest
      | None => findall_loop fuel r s'
      end
  | _, _ => []
  end.

Definition findall (r : regex) (s : string) : list (list string) :=
  findall_loop (String.length s) r s.

(** ** Strings *)

Lemma string_cons_app c s t : String c s +:+ t = String c (s +:+ t).
Proof. done. Qed.

Lemma string_nil_app t : "" +:+ t = t.
Proof. done. Qed.

Lemma string_app_nil_r s : s +:+ "" = s.
Proof. induction s as [|c s IH]; [done|]. by rewrite string_cons_app, IH. Qed.

Lemma string_app_assoc s t u : s +:+ (t +:+ u) = (s +:+ t) +:+ u.
Proof. induction s as [|c s IH]; [done|]. by rewrite !string_cons_app, IH. Qed.

Lemma string_length_app s t : String.length (s +:+ t) = (String.length s + String.length t)%nat.
Proof. induction s as [|c s IH]; [done|]. rewrite string_cons_app. simpl. by rewrite IH. Qed.

Fixpoint all_chars (P : ascii → bool) (s : string) : bool :=
  match s with String c s => P c && all_chars P s | EmptyString => true end.

Lemma all_chars_app P s t : all_chars P (s +:+ t) = all_chars P s && all_chars P t.
Proof.
  induction s as [|c s IH]; [done|]. rewrite string_cons_app. cbn [all_chars].
  by rewrite IH, andb_assoc.
Qed.

Lemma all_chars_impl (P Q : ascii → bool) s :
  (∀ c, P c = true → Q c = true) → all_chars P s = true → all_chars Q s = true.
Proof.
  intros Hpq. induction s as [|c s IH]; simpl; [done|]. rewrite !andb_true_iff. naive_solver.
Qed.

Definition in_line : string → bool := all_chars (λ c, negb (bool_decide (c = newline))).

Lemma strip_app lit s : strip lit (lit +:+ s) = Some s.
Proof.
  induction lit as [|a lit IH]; [by destruct s|]. rewrite string_cons_app. cbn [strip].
  by rewrite decide_True.
Qed.

Lemma strip_Some lit s r : strip lit s = Some r → s = lit +:+ r.
Proof.
  revert s. induction lit as [|a lit IH]; intros s; [by intros [= ->]|].
  destruct s as [|b s]; [done|]. cbn [strip]. case_decide; [|done]. subst b.
  intros ->%IH. done.
Qed.

(** ** Numerals *)

Lemma pretty_N_digits (x : N) : all_chars is_digit (pretty x) = true ∧ pretty x ≠ "".
Proof.
  assert (∀ s, all_chars is_digit s = true → all_chars is_digit (pretty_N_go x s) = true ∧
    (x ≠ 0%N ∨ s ≠ "" → pretty_N_go x s ≠ "")) as Hgo.
  { induction (N.lt_wf_0 x) as [x _ IH]; intros s Hs.
    assert (x = 0 ∨ 0 < x)%N as [->|Hx] by lia.
    { rewrite pretty_N_go_0. naive_solver. }
    rewrite pretty_N_go_step by done.
    destruct (IH (x `div` 10)%N ltac:(by apply N.div_lt) (String (pretty_N_char (x `mod` 10)) s))
      as [H1 H2].
    - simpl. rewrite Hs, andb_true_r. unfold pretty_N_char. by repeat case_match.
    - split; [done|]. intros _. apply H2. by right. }
  unfold pretty, pretty_N. case_decide; [done|]. destruct (Hgo "") as [H1 H2]; [done|].
  split; [done|]. apply H2. by left.
Qed.

(** A text of digits, at least one *)
Definition numeral (s : string) : Prop := all_chars is_digit s = true ∧ s ≠ "".

Lemma pretty_digits (z : Z) : 0 <= z → numeral (pretty z).
Proof. intros Hz. destruct z as [|p|p]; [done| |lia]. exact (pretty_N_digits (N.pos p)). Qed.

Lemma digit_in_line s : all_chars is_digit s = true → in_line s = true.
Proof.
  apply all_chars_impl. intros c Hc. apply negb_true_iff, bool_decide_eq_false. by intros ->.
Qed.

(** ** The splits *)

Lemma any_splits_head s : ∃ l, any_splits s = l ++ [("", s)].
Proof.
  destruct s as [|c s]; [by exists []|]. cbn [any_splits]. case_decide; [by exists []|]. by eexists.
Qed.

Lemma any_splits_app t s :
  in_line t = true →
  ∃ l, any_splits (t +:+ s) = map (λ p, (t +:+ p.1, p.2)) (any_splits s) ++ l.
Proof.
  induction t as [|c t IH].
  { intros _. exists []. rewrite app_nil_r, string_nil_app. rewrite <-(map_id (any_splits s)) at 1.
    apply map_ext. by intros []. }
  unfold in_line. cbn [all_chars]. intros [Hc%negb_true_iff%bool_decide_eq_false Ht]%andb_true_iff.
  destruct (IH Ht) as (l & Hl). rewrite string_cons_app. cbn [any_splits].
  rewrite decide_False by done. rewrite Hl, map_app, map_map. rewrite <-app_assoc. by eexists.
Qed.

Lemma any_splits_in s t r :
  (t, r) ∈ any_splits s → s = t +:+ r ∧ in_line t = true.
Proof.
  revert t r. induction s as [|c s IH]; intros t r; cbn [any_splits].
  { by intros [= -> ->]%list_elem_of_singleton. }
  case_decide as Hc; [by intros [= -> ->]%list_elem_of_singleton|].
  rewrite elem_of_app, list_elem_of_fmap, list_elem_of_singleton.
  intros [([t' r'] & [= -> ->] & Hin)|[= -> ->]]; [|done].
  destruct (IH _ _ Hin) as [-> Ht]. split; [done|]. unfold in_line. cbn [all_chars].
  apply andb_true_iff. split; [by apply negb_true_iff, bool_decide_eq_false|done].
Qed.

Lemma digit_splits_first d r :
  numeral d → (∀ c r', r = String c r' → is_digit c = false) →
  ∃ l, digit_splits (d +:+ r) = (d, r) :: l.
Proof.
  intros [Hd Hne] Hr. induction d as [|c d IH]; [done|]. cbn [all_chars] in Hd.
  apply andb_true_iff in Hd as [Hc Hd]. rewrite string_cons_app. cbn [digit_splits]. rewrite Hc.
  destruct d as [|c' d].
  - rewrite string_nil_app. assert (digit_splits r = []) as ->; [|by eexists].
    destruct r as [|x r]; [done|]. cbn [digit_splits]. by rewrite (Hr x r eq_refl).
  - destruct (IH Hd ltac:(done)) as (l & ->). by eexists.
Qed.

(** ** The first match *)

(** [first r s t gs rest]: the first match of [r] on [s] has the text [t], the groups [gs]
    and the rest [rest]. *)
Definition first (r : regex) (s t : string) (gs : list string) (rest : string) : Prop :=
  ∃ l, matches r s = (t, gs, rest) :: l.

Lemma first_match_at r s t gs rest : first r s t gs rest → match_at r s = Some (gs, rest).
Proof. unfold match_at. by intros (l & ->). Qed.

Lemma first_Lit lit s : first (Lit lit) (lit +:+ s) lit [] s.
Proof. exists []. cbn [matches]. by rewrite strip_app. Qed.

Lemma first_Digits d r :
  numeral d → (∀ c r', r = String c r' → is_digit c = false) → first Digits (d +:+ r) d [] r.
Proof.
  intros Hd Hr. destruct (digit_splits_first d r Hd Hr) as (l & Hl). unfold first. cbn [matches].
  rewrite Hl. by eexists.
Qed.

Lemma first_Group r s t gs rest : first r s t gs rest → first (Group r) s t (t :: gs) rest.
Proof. intros (l & Hl). unfold first. cbn [matches]. rewrite Hl. by eexists. Qed.

Lemma first_Seq r1 r2 s t1 gs1 s1 t2 gs2 s2 :
  first r1 s t1 gs1 s1 → first r2 s1 t2 gs2 s2 →
  first (Seq r1 r2) s (t1 +:+ t2) (gs1 ++ gs2) s2.
Proof.
  intros (l1 & H1) (l2 & H2). unfold first. cbn [matches]. rewrite H1, bind_cons. cbn [fst snd].
  rewrite H2. by eexists.
Qed.

Lemma bind_all_nil {A B} (f : A → list B) l : (∀ x, x ∈ l → f x = []) → l ≫= f = [].
Proof.
  intros Hf. induction l as [|x l IH]; [done|]. rewrite bind_cons, (Hf x) by left. simpl.
  apply IH. intros y Hy. apply Hf. by right.
Qed.

(** Candidates of the first part after which the second one fails are passed over. *)
Lemma first_Seq_skip r1 r2 s pre t1 gs1 s1 post t2 gs2 s2 :
  matches r1 s = pre ++ (t1, gs1, s1) :: post → (∀ m, m ∈ pre → matches r2 m.2 = []) →
  first r2 s1 t2 gs2 s2 → first (Seq r1 r2) s (t1 +:+ t2) (gs1 ++ gs2) s2.
Proof.
  intros H1 Hpre (l2 & H2). unfold first. cbn [matches]. rewrite H1, bind_app, bind_cons.
  cbn [fst snd]. rewrite H2.
  rewrite (bind_all_nil _ pre); [by eexists|]. intros m Hm. by rewrite (Hpre m Hm).
Qed.

(** ** Where a literal does not occur *)

(** [lit] does not begin in [h], if [rest] follows. *)
Definition absent (lit h rest : string) : Prop :=
  ∀ u v, h = u +:+ v → v ≠ "" → strip lit (v +:+ rest) = None.

Lemma absent_nil lit rest : absent lit "" rest.
Proof. intros [|c u] v; [|done]. intros Hv Hne. by rewrite string_nil_app in Hv. Qed.

Lemma absent_cons lit c h rest :
  absent lit (String c h) rest ↔ strip lit (String c (h +:+ rest)) = None ∧ absent lit h rest.
Proof.
  split.
  - intros Ha. split; [by apply (Ha "" (String c h))|]. intros u v -> Hv. by apply (Ha (String c u) v).
  - intros [H1 H2] [|x u] v Heq Hv.
    + rewrite string_nil_app in Heq. by subst v.
    + rewrite string_cons_app in Heq. injection Heq as <- Heq. by apply (H2 u v).
Qed.

Lemma absent_app lit h1 h2 rest :
  absent lit (h1 +:+ h2) rest ↔ absent lit h1 (h2 +:+ rest) ∧ absent lit h2 rest.
Proof.
  induction h1 as [|c h1 IH]; [rewrite string_nil_app; pose proof (absent_nil lit (h2 +:+ rest)); tauto|].
  rewrite string_cons_app, !absent_cons, IH, string_app_assoc. tauto.
Qed.

(** Could [lit] begin with [h], if the next character satisfies [P]? *)
Fixpoint compat (P : ascii → bool) (h lit : string) : bool :=
  match h, lit with
  | String x h, String y lit => if decide (x = y) then compat P h lit else false
  | EmptyString, String y _ => P y
  | _, EmptyString => true
  end.

Fixpoint avoids (P : ascii → bool) (lit h : string) : bool :=
  match h with
  | String _ h' => negb (compat P h lit) && avoids P lit h'
  | EmptyString => true
  end.

Definition starts (P : ascii → bool) (s : string) : Prop :=
  match s with String c _ => P c = true | EmptyString => True end.

Lemma strip_compat P lit h rest r :
  starts P rest → strip lit (h +:+ rest) = Some r → compat P h lit = true.
Proof.
  intros Hrest. revert lit. induction h as [|b h IH]; intros [|a lit]; try done.
  - rewrite string_nil_app. destruct rest as [|c rest]; [done|]. simpl in *. case_decide; [|done].
    by subst a.
  - rewrite string_cons_app. cbn [strip compat]. destruct (decide (a = b)) as [->|]; [|done].
    rewrite decide_True by done. apply IH.
Qed.

Lemma avoids_absent P lit h rest : avoids P lit h = true → starts P rest → absent lit h rest.
Proof.
  intros Ha Hrest. induction h as [|c h IH]; [apply absent_nil|]. cbn [avoids] in Ha.
  apply andb_true_iff in Ha as [Hc%negb_true_iff Ha]. apply absent_cons. split; [|by apply IH].
  destruct (strip lit (String c (h +:+ rest))) as [r|] eqn:Hs; [|done].
  rewrite <-string_cons_app in Hs. apply (strip_compat P) in Hs; [congruence|done].
Qed.

(** A literal that begins with a character which [s] does not have *)
Lemma chars_absent (P : ascii → bool) a lit s rest :
  all_chars P s = true → P a = false → absent (String a lit) s rest.
Proof.
  intros Hs Ha. induction s as [|c s IH]; [apply absent_nil|]. cbn [all_chars] in Hs.
  apply andb_true_iff in Hs as [Hc Hs]. apply absent_cons. split; [|by apply IH].
  cbn [strip]. case_decide; [congruence|done].
Qed.


(** ** Lines

    A line is followed by the end of the text or by a newline. *)
Definition line_end (rest : string) : Prop := ∀ c r, rest = String c r → c = newline.

Lemma strip_in_line lit v rest r :
  in_line lit = true → line_end rest → strip lit (v +:+ rest) = Some r →
  ∃ v', v = lit +:+ v' ∧ r = v' +:+ rest.
Proof.
  intros Hl Hrest. revert v. induction lit as [|a lit IH]; intros v; cbn [strip].
  { intros [= <-]. by exists v. }
  unfold in_line in Hl. cbn [all_chars] in Hl.
  apply andb_true_iff in Hl as [Ha%negb_true_iff%bool_decide_eq_false Hl].
  destruct v as [|b v].
  - rewrite string_nil_app. destruct rest as [|c rest]; [done|].
    rewrite (Hrest c rest eq_refl). by rewrite decide_False.
  - rewrite string_cons_app. case_decide; [|done]. subst b.
    intros (v' & -> & ->)%(IH Hl). by exists v'.
Qed.

Lemma split_in_line t r v rest :
  line_end rest → in_line t = true → v +:+ rest = t +:+ r → ∃ v', v = t +:+ v' ∧ r = v' +:+ rest.
Proof.
  intros Hrest Ht He.
  apply (strip_in_line t v rest r Ht Hrest). rewrite He. apply strip_app.
Qed.

(** *** Patterns that fail on a line *)

(** [r] matches nowhere in [line]. *)
Definition dead (r : regex) (line rest : string) : Prop :=
  ∀ u v, line = u +:+ v → matches r (v +:+ rest) = [].

Lemma dead_suffix r u v rest : dead r (u +:+ v) rest → dead r v rest.
Proof. intros Hd u' v' ->. apply (Hd (u +:+ u')). by rewrite string_app_assoc. Qed.

Section dead.
Context (line rest : string) (Hrest : line_end rest).

Lemma dead_Lit lit r :
  absent lit line rest → in_line lit = true → lit ≠ "" → dead (Seq (Lit lit) r) line rest.
Proof.
  intros Ha Hl Hne u v Hu. cbn [matches]. destruct (strip lit (v +:+ rest)) as [w|] eqn:Hs; [|done].
  destruct (strip_in_line lit v rest w Hl Hrest Hs) as (v' & -> & _).
  rewrite (Ha u (lit +:+ v')) in Hs; [done|done|]. by destruct lit.
Qed.

Lemma dead_after_Lit lit r : in_line lit = true → dead r line rest → dead (Seq (Lit lit) r) line rest.
Proof.
  intros Hl Hd u v Hu. cbn [matches]. destruct (strip lit (v +:+ rest)) as [w|] eqn:Hs; [|done].
  destruct (strip_in_line lit v rest w Hl Hrest Hs) as (v' & -> & ->).
  rewrite bind_cons. cbn [fst snd]. rewrite (Hd (u +:+ lit) v'); [done|].
  by rewrite <-string_app_assoc.
Qed.

Lemma dead_any (r1 r : regex) :
  (∀ s m, m ∈ matches r1 s → (m.1.1, m.2) ∈ any_splits s) →
  dead r line rest → dead (Seq r1 r) line rest.
Proof.
  intros Hr1 Hd u v Hu. cbn [matches]. apply bind_all_nil. intros m Hm.
  apply Hr1, any_splits_in in Hm as [He Ht].
  destruct (split_in_line _ _ v rest Hrest Ht He) as (v' & -> & ->).
  rewrite (Hd (u +:+ m.1.1) v'); [done|]. by rewrite <-string_app_assoc.
Qed.

Lemma dead_Any r : dead r line rest → dead (Seq Any r) line rest.
Proof.
  apply dead_any. intros s m. cbn [matches]. by intros ([t x] & -> & Hin)%list_elem_of_fmap.
Qed.

Lemma dead_Group_Any r : dead r line rest → dead (Seq (Group Any) r) line rest.
Proof.
  apply dead_any. intros s m. cbn [matches].
  by intros (m' & -> & ([t x] & -> & Hin)%list_elem_of_fmap)%list_elem_of_fmap.
Qed.
End dead.

(** *** [.*] before a literal

    On [t ++ lit ++ body] the pattern takes [t], if [lit] does not begin later. *)
Section any_lit.
Context (t : string) (c : ascii) (l body rest : string).
Context (Ht : in_line t = true) (Hl : in_line (String c l) = true).
Context (Hrest : line_end rest) (Habs : absent (String c l) (l +:+ body) rest).

Lemma any_pre :
  ∃ pre post, any_splits (t +:+ (String c l +:+ (body +:+ rest))) =
    pre ++ (t, String c l +:+ (body +:+ rest)) :: post ∧
    ∀ p r, p ∈ pre → matches (Seq (Lit (String c l)) r) p.2 = [].
Proof.
  destruct (any_splits_app t (String c l +:+ (body +:+ rest)) Ht) as (post & Hp).
  pose proof Hl as Hc. unfold in_line in Hc. cbn [all_chars] in Hc.
  apply andb_true_iff in Hc as [Hc%negb_true_iff%bool_decide_eq_false _].
  set (s := l +:+ (body +:+ rest)).
  exists (map (λ p, (t +:+ (String c p.1), p.2)) (any_splits s)), post. split.
  - rewrite Hp. change (String c l +:+ (body +:+ rest)) with (String c s). cbn [any_splits].
    rewrite decide_False by done. rewrite map_app, map_map. cbn [map fst snd].
    rewrite string_app_nil_r, <-app_assoc. done.
  - intros p r ([u v] & -> & [He Hu]%any_splits_in)%list_elem_of_fmap. cbn [snd].
    unfold s in He. rewrite string_app_assoc in He.
    destruct (split_in_line _ _ _ _ Hrest Hu He) as (v' & Hv & ->).
    by apply (dead_Lit (l +:+ body) rest Hrest (String c l) r Habs Hl ltac:(done) u v').
Qed.

Lemma first_Any_Lit r t3 gs s3 :
  first r (body +:+ rest) t3 gs s3 →
  first (Seq Any (Seq (Lit (String c l)) r)) (t +:+ (String c l +:+ (body +:+ rest)))
    (t +:+ (String c l +:+ t3)) gs s3.
Proof.
  intros Hr. destruct any_pre as (pre & post & Hs & Hpre).
  eapply (first_Seq_skip Any _ _ (map without_groups pre) t [] _ (map without_groups post)).
  - cbn [matches]. by rewrite Hs, map_app.
  - intros m (p & -> & Hp)%list_elem_of_fmap. by apply Hpre.
  - apply (first_Seq _ _ _ _ [] _ _ _ _ (first_Lit _ _) Hr).
Qed.

Lemma first_Group_Any_Lit r t3 gs s3 :
  first r (body +:+ rest) t3 gs s3 →
  first (Seq (Group Any) (Seq (Lit (String c l)) r)) (t +:+ (String c l +:+ (body +:+ rest)))
    (t +:+ (String c l +:+ t3)) (t :: gs) s3.
Proof.
  intros Hr. destruct any_pre as (pre & post & Hs & Hpre).
  set (f := λ p : string * string, (p.1, [p.1], p.2)).
  eapply (first_Seq_skip (Group Any) _ _ (map f pre) t [t] _ (map f post)).
  - cbn [matches]. by rewrite Hs, map_map, map_app.
  - intros m (p & -> & Hp)%list_elem_of_fmap. by apply Hpre.
  - apply (first_Seq _ _ _ _ [] _ _ _ _ (first_Lit _ _) Hr).
Qed.
End any_lit.

(** ** Matches in a text *)

Lemma digit_splits_in s t r : (t, r) ∈ digit_splits s → s = t +:+ r.
Proof.
  revert t r. induction s as [|c s IH]; intros t r; cbn [digit_splits]; [by intros []%not_elem_of_nil|].
  destruct (is_digit c); [|by intros []%not_elem_of_nil].
  rewrite elem_of_app, list_elem_of_fmap, list_elem_of_singleton.
  intros [([t' r'] & [= -> ->] & ->%IH)|[= -> ->]]; done.
Qed.

(** A match is a beginning of the text. *)
Lemma matches_text r s m : m ∈ matches r s → s = m.1.1 +:+ m.2.
Proof.
  revert s m. induction r as [l| | |r1 IH1 r2 IH2|r IH]; intros s m; cbn [matches].
  - destruct (strip l s) as [rest|] eqn:Hs; [|by intros []%not_elem_of_nil].
    intros ->%list_elem_of_singleton. by apply strip_Some.
  - intros ([t x] & -> & [-> _]%any_splits_in)%list_elem_of_fmap. done.
  - intros ([t x] & -> & ->%digit_splits_in)%list_elem_of_fmap. done.
  - intros (m1 & Hm & H1%IH1)%list_elem_of_bind.
    apply list_elem_of_fmap in Hm as (m2 & -> & H2%IH2). cbn [fst snd].
    by rewrite <-string_app_assoc, <-H2.
  - intros (m' & -> & H%IH)%list_elem_of_fmap. done.
Qed.

Section scan.
Context (c0 : ascii) (l0 : string) (r0 : regex).
Abbreviation r := (Seq (Lit (String c0 l0)) r0).

Lemma match_at_shorter s gs rest :
  match_at r s = Some (gs, rest) → (String.length rest < String.length s)%nat.
Proof.
  unfold match_at. destruct (matches r s) as [|m l] eqn:Hm; [done|]. intros [= <- <-].
  assert (m ∈ matches r s) as Hin by (rewrite Hm; left).
  rewrite (matches_text r s m Hin), string_length_app.
  cbn [matches] in Hin. destruct (strip _ s); [|by apply not_elem_of_nil in Hin].
  rewrite bind_cons in Hin. change ([] ≫= _) with (@nil rmatch) in Hin. rewrite app_nil_r in Hin. apply list_elem_of_fmap in Hin as (m2 & -> & _).
  cbn [fst snd]. rewrite string_cons_app. simpl. lia.
Qed.

(** The bound on the turns is enough. *)
Lemma findall_enough fuel fuel' s :
  (String.length s <= fuel)%nat → (String.length s <= fuel')%nat →
  findall_loop fuel r s = findall_loop fuel' r s.
Proof.
  revert fuel' s. induction fuel as [|fuel IH]; intros fuel' s H1 H2.
  { destruct s; [|simpl in H1; lia]. by destruct fuel'. }
  destruct s as [|c s]; [by destruct fuel'|]. destruct fuel' as [|fuel']; [simpl in H2; lia|].
  cbn [findall_loop]. destruct (match_at r (String c s)) as [[gs rest]|] eqn:Hm.
  - apply match_at_shorter in Hm. simpl in *. f_equal. apply IH; lia.
  - simpl in *. apply IH; lia.
Qed.

Lemma findall_cons c s :
  findall r (String c s) =
  match match_at r (String c s) with
  | Some (gs, rest) => gs :: findall r rest
  | None => findall r s
  end.
Proof.
  unfold findall. cbn [String.length findall_loop].
  destruct (match_at r (String c s)) as [[gs rest]|] eqn:Hm; [|done].
  apply match_at_shorter in Hm. simpl in Hm. f_equal. apply findall_enough; lia.
Qed.

Lemma match_at_strip s : strip (String c0 l0) s = None → match_at r s = None.
Proof. intros Hs. unfold match_at. cbn [matches]. by rewrite Hs. Qed.

Lemma findall_absent h rest :
  absent (String c0 l0) h rest → findall r (h +:+ rest) = findall r rest.
Proof.
  induction h as [|c h IH]; [done|]. rewrite absent_cons. intros [Hc Ha].
  rewrite string_cons_app, findall_cons, match_at_strip by done. by apply IH.
Qed.

Lemma search_absent h rest : absent (String c0 l0) h rest → search r (h +:+ rest) = search r rest.
Proof.
  induction h as [|c h IH]; [done|]. rewrite absent_cons. intros [Hc Ha].
  rewrite string_cons_app. cbn [search]. rewrite match_at_strip by done. by apply IH.
Qed.

Lemma findall_dead line rest : dead r line rest → findall r (line +:+ rest) = findall r rest.
Proof.
  induction line as [|c line IH]; [done|]. intros Hd. rewrite string_cons_app, findall_cons.
  unfold match_at. rewrite <-string_cons_app, (Hd "" (String c line)) by done.
  apply IH. by apply (dead_suffix _ (String c "")).
Qed.

Lemma search_dead line rest : dead r line rest → search r (line +:+ rest) = search r rest.
Proof.
  induction line as [|c line IH]; [done|]. intros Hd. rewrite string_cons_app. cbn [search].
  unfold match_at. rewrite <-string_cons_app, (Hd "" (String c line)) by done.
  apply IH. by apply (dead_suffix _ (String c "")).
Qed.

Lemma findall_first s t gs rest : first r s t gs rest → findall r s = gs :: findall r rest.
Proof.
  intros Hf. destruct s as [|c s].
  - destruct Hf as (l & Hf). cbn [matches strip] in Hf. done.
  - rewrite findall_cons. by rewrite (first_match_at _ _ _ _ _ Hf).
Qed.

Lemma search_first s t gs rest : first r s t gs rest → search r s = Some gs.
Proof. intros Hf%first_match_at. destruct s; cbn [search]; by rewrite Hf. Qed.
End scan.

Lemma search_Lit_absent c0 l0 h : absent (String c0 l0) h "" → search (Lit (String c0 l0)) h = None.
Proof.
  induction h as [|c h IH]; [done|]. rewrite absent_cons, string_app_nil_r. intros [Hc Ha].
  cbn [search]. unfold match_at. cbn [matches]. rewrite Hc. by apply IH.
Qed.

(** ** Texts with unknown parts

    A text is a sequence of literals and of unknown texts with characters of a known
    class. *)
Inductive piece : Type :=
  | PLit (s : string)
  | PCls (cls : ascii → bool) (s : string).

Definition piece_text (p : piece) : string := match p with PLit s => s | PCls _ s => s end.

Fixpoint pieces_text (ps : list piece) : string :=
  match ps with [] => "" | p :: ps => piece_text p +:+ pieces_text ps end.

Definition piece_ok (p : piece) : Prop :=
  match p with PLit s => s ≠ "" | PCls cls s => all_chars cls s = true ∧ s ≠ "" end.

(** The characters that may come next; [last] is the class of what follows the text. *)
Definition next_class (last : ascii → bool) (ps : list piece) : ascii → bool :=
  match ps with
  | [] => last
  | PLit (String c _) :: _ => λ x, bool_decide (x = c)
  | PLit EmptyString :: _ => λ _, true
  | PCls cls _ :: _ => cls
  end.

Definition at_newline (c : ascii) : bool := bool_decide (c = newline).

Fixpoint pieces_avoid (last : ascii → bool) (lit : string) (ps : list piece) : bool :=
  match ps with
  | [] => true
  | PLit s :: ps => avoids (next_class last ps) lit s && pieces_avoid last lit ps
  | PCls cls _ :: ps =>
      match lit with String a _ => negb (cls a) | EmptyString => false end && pieces_avoid last lit ps
  end.

Lemma line_end_starts rest : line_end rest → starts at_newline rest.
Proof.
  intros Hrest. destruct rest as [|c r]; [done|]. simpl. unfold at_newline.
  by rewrite (Hrest c r eq_refl), bool_decide_true.
Qed.

Lemma next_class_starts last ps rest :
  Forall piece_ok ps → starts last rest → starts (next_class last ps) (pieces_text ps +:+ rest).
Proof.
  intros Hps Hrest. destruct ps as [|[[|c s]|cls s] ps]; cbn [pieces_text piece_text next_class].
  - done.
  - by destruct (_ +:+ _).
  - rewrite !string_cons_app. simpl. by rewrite bool_decide_true.
  - apply Forall_cons in Hps as [[Hs Hne] _]. destruct s as [|c s]; [done|].
    rewrite !string_cons_app. simpl in *. by apply andb_true_iff in Hs as [Hc _].
Qed.

Lemma pieces_absent last lit ps rest :
  pieces_avoid last lit ps = true → Forall piece_ok ps → starts last rest →
  absent lit (pieces_text ps) rest.
Proof.
  intros Ha Hps Hrest. induction Hps as [|p ps Hp Hps IH]; [apply absent_nil|].
  cbn [pieces_text]. apply absent_app. destruct p as [s|cls s]; cbn [pieces_avoid piece_text] in *;
    apply andb_true_iff in Ha as [Hs Ha]; (split; [|by apply IH]).
  - by eapply avoids_absent, next_class_starts.
  - destruct lit as [|a lit]; [done|]. destruct Hp as [Hc _].
    by eapply chars_absent; [exact Hc|apply negb_true_iff].
Qed.

Definition piece_in_line (p : piece) : bool :=
  match p with PLit s => in_line s | PCls cls _ => negb (cls newline) end.

Lemma pieces_in_line ps :
  forallb piece_in_line ps = true → Forall piece_ok ps → in_line (pieces_text ps) = true.
Proof.
  intros Hl Hps. unfold in_line. induction Hps as [|p ps Hp _ IH]; [done|]. cbn [forallb] in Hl.
  apply andb_true_iff in Hl as [Hl1 Hl]. cbn [pieces_text]. rewrite all_chars_app, IH by done.
  rewrite andb_true_r. destruct p as [s|cls s]; [done|]. simpl in *. destruct Hp as [Hs _].
  eapply all_chars_impl; [|exact Hs]. intros c Hc. apply negb_true_iff, bool_decide_eq_false.
  intros ->. by rewrite Hc in Hl1.
Qed.

(** A number in a text *)
Definition PNum (z : Z) : piece := PCls is_digit (pretty z).

Lemma PNum_ok z : 0 <= z → piece_ok (PNum z).
Proof. apply pretty_digits. Qed.

Lemma line_end_newline s : line_end (String newline s).
Proof. by intros c r [= <- _]. Qed.
