(* ===== verification/Python.v ===== *)
(** * Python

    What the scripts under src/benchmark use of the language: exceptions, programs that
    change the world and may raise, and numerals.  A handler of exceptions sees the
    world as it was when the exception was raised. *)

From stdpp Require Import base list strings pretty.
From Stdlib Require Import Ascii.
From S2P Require Import Prelude Regex.

(** ** Exceptions *)

Inductive pyexn : Type :=
  | AssertionError
  | KeyError (k : string)
  | ValueError
  | TypeError
  | AttributeError
  | IndexError
  | ZeroDivisionError
  | OSError
  | SubprocessError
  | ConfigError
  | ParseError
  | GroupException
  | UnexpectedExit
  | ExecutionError
  | BenchError (cause : pyexn).

Inductive outcome (A : Type) : Type :=
  | Ret (a : A)
  | Raise (e : pyexn).
Arguments Ret {_} _.
Arguments Raise {_} _.

#[export] Instance outcome_ret : MRet outcome := λ A a, Ret a.
#[export] Instance outcome_bind : MBind outcome := λ A B f m,
  match m with Ret a => f a | Raise e => Raise e end.

(** [None] of a function that would raise [e] *)
Definition or_raise {A} (e : pyexn) (o : option A) : outcome A :=
  match o with Some a => Ret a | None => Raise e end.

Definition py_assert (b : bool) : outcome unit := if b then Ret tt else Raise AssertionError.

(** A comprehension over a list: the first exception ends it. *)
Fixpoint collect {A B} (f : A → outcome B) (l : list A) : outcome (list B) :=
  match l with
  | [] => Ret []
  | x :: l => y ← f x; ys ← collect f l; Ret (y :: ys)
  end.

Lemma collect_Ret {A B} (f : A → outcome B) (g : A → B) l :
  (∀ x, x ∈ l → f x = Ret (g x)) → collect f l = Ret (map g l).
Proof.
  intros Hf. induction l as [|x l IH]; [done|]. cbn [collect map]. rewrite (Hf x) by left.
  cbn [mbind outcome_bind]. rewrite IH; [done|]. intros y Hy. apply Hf. by right.
Qed.

(** ** Programs *)

Definition PyM (W A : Type) : Type := W → outcome A * W.

#[export] Instance PyM_ret {W} : MRet (PyM W) := λ A a w, (Ret a, w).
#[export] Instance PyM_bind {W} : MBind (PyM W) := λ A B f m w,
  match m w with
  | (Ret a, w') => f a w'
  | (Raise e, w') => (Raise e, w')
  end.

Definition raise {W A} (e : pyexn) : PyM W A := λ w, (Raise e, w).
Definition lift {W A} (o : outcome A) : PyM W A := λ w, (o, w).
Definition act {W} (f : W → W) : PyM W unit := λ w, (Ret tt, f w).

Lemma PyM_bind_Ret {W A B} (m : PyM W A) (f : A → PyM W B) w a w' :
  m w = (Ret a, w') → (m ≫= f) w = f a w'.
Proof. intros Hm. unfold mbind, PyM_bind. by rewrite Hm. Qed.

Lemma PyM_bind_Raise {W A B} (m : PyM W A) (f : A → PyM W B) w e w' :
  m w = (Raise e, w') → (m ≫= f) w = (Raise e, w').
Proof. intros Hm. unfold mbind, PyM_bind. by rewrite Hm. Qed.

(** [try: m except: h], where [h] says which exceptions it handles *)
Definition try_except {W A} (m : PyM W A) (h : pyexn → option (PyM W A)) : PyM W A := λ w,
  match m w with
  | (Ret a, w') => (Ret a, w')
  | (Raise e, w') => match h e with Some k => k w' | None => (Raise e, w') end
  end.

Fixpoint for_each {W A} (f : A → PyM W unit) (l : list A) : PyM W unit :=
  match l with
  | [] => mret tt
  | x :: l => f x;; for_each f l
  end.

(** ** Numerals *)

Definition digit_value (c : ascii) : Z := Z.of_nat (nat_of_ascii c) - 48.

Fixpoint digits_value (s : string) (acc : Z) : Z :=
  match s with
  | String c s => digits_value s (10 * acc + digit_value c)
  | EmptyString => acc
  end.

(** [int] on a text of digits *)
Definition py_int (s : string) : outcome Z :=
  if all_chars is_digit s && negb (bool_decide (s = "")) then Ret (digits_value s 0)
  else Raise ValueError.

Lemma digits_value_app s t acc : digits_value (s +:+ t) acc = digits_value t (digits_value s acc).
Proof. revert acc. induction s as [|c s IH]; intros acc; [done|]. rewrite string_cons_app. apply IH. Qed.

Lemma digit_value_char (x : N) : (x < 10)%N → digit_value (pretty_N_char x) = Z.of_N x.
Proof.
  intros Hx. destruct x as [|p]; [done|].
  do 4 (destruct p as [p|p|]; try done); exfalso; lia.
Qed.

Lemma pretty_N_value (x : N) : digits_value (pretty x) 0 = Z.of_N x.
Proof.
  assert (∀ s, ∃ d, pretty_N_go x s = d +:+ s ∧ digits_value d 0 = Z.of_N x) as Hgo.
  { induction (N.lt_wf_0 x) as [x _ IH]; intros s.
    assert (x = 0 ∨ 0 < x)%N as [->|Hx] by lia; [by exists ""|].
    rewrite pretty_N_go_step by done.
    destruct (IH (x `div` 10)%N ltac:(by apply N.div_lt) (String (pretty_N_char (x `mod` 10)) s))
      as (d & -> & Hd).
    exists (d +:+ String (pretty_N_char (x `mod` 10)) ""). split; [by rewrite <-string_app_assoc|].
    rewrite digits_value_app, Hd. cbn [digits_value].
    rewrite digit_value_char by (apply N.mod_lt; lia). pose proof (N.div_mod x 10). lia. }
  unfold pretty, pretty_N. case_decide; [by subst|]. destruct (Hgo "") as (d & -> & <-).
  by rewrite string_app_nil_r.
Qed.

Lemma pretty_value (z : Z) : 0 <= z → digits_value (pretty z) 0 = z.
Proof. intros Hz. destruct z as [|p|p]; [done| |lia]. exact (pretty_N_value (N.pos p)). Qed.

Lemma py_int_pretty (z : Z) : 0 <= z → py_int (pretty z) = Ret z.
Proof.
  intros Hz. unfold py_int. destruct (pretty_digits z Hz) as [Hd Hne].
  rewrite Hd, bool_decide_eq_false_2 by done. cbn [andb negb]. by rewrite pretty_value.
Qed.

(** ** Fixed width *)

(** The last [k] digits of a number, zeros included *)
Fixpoint padded (k : nat) (z : Z) : string :=
  match k with
  | O => ""
  | S k => padded k (z / 10) +:+ String (ascii_of_nat (48 + Z.to_nat (z mod 10))) ""
  end.

Lemma padded_char z : let c := ascii_of_nat (48 + Z.to_nat (z mod 10)) in
  is_digit c = true ∧ digit_value c = z mod 10.
Proof.
  pose proof (Z.mod_pos_bound z 10 ltac:(lia)) as Hz. simpl. unfold is_digit, digit_value.
  rewrite nat_ascii_embedding by lia. split; [|lia].
  apply andb_true_iff. split; apply Nat.leb_le; lia.
Qed.

Lemma padded_spec k z :
  String.length (padded k z) = k ∧ all_chars is_digit (padded k z) = true ∧
  ∀ acc, digits_value (padded k z) acc = 10 ^ Z.of_nat k * acc + z mod 10 ^ Z.of_nat k.
Proof.
  revert z. induction k as [|k IH]; intros z.
  { split_and!; [done|done|]. intros acc. simpl. rewrite Z.mod_1_r. lia. }
  destruct (IH (z / 10)) as (Hl & Hd & Hv). destruct (padded_char z) as [Hc Hcv].
  cbn [padded]. split_and!.
  - rewrite string_length_app, Hl. simpl. lia.
  - rewrite all_chars_app, Hd. cbn [all_chars]. by rewrite Hc.
  - intros acc. rewrite digits_value_app, Hv. cbn [digits_value]. rewrite Hcv.
    replace (Z.of_nat (S k)) with (1 + Z.of_nat k) by lia. rewrite Z.pow_add_r by lia.
    rewrite (Z.rem_mul_r z (10 ^ 1) (10 ^ Z.of_nat k)) by lia. change (10 ^ 1) with 10. lia.
Qed.

(** ** Words *)

Definition blank (c : ascii) : bool :=
  let n := nat_of_ascii c in
  (n =? 32)%nat || ((9 <=? n)%nat && (n <=? 13)%nat) || ((28 <=? n)%nat && (n <=? 31)%nat).

Definition add_word (w : string) (ws : list string) : list string :=
  if bool_decide (w = "") then ws else w :: ws.

(** The word at the start of the text, perhaps empty, and the words that follow *)
Fixpoint split_words (s : string) : string * list string :=
  match s with
  | EmptyString => ("", [])
  | String c s =>
      let '(w, ws) := split_words s in
      if blank c then ("", add_word w ws) else (String c w, ws)
  end.

(** [str.split()] *)
Definition py_split (s : string) : list string := let '(w, ws) := split_words s in add_word w ws.

Definition solid (w : string) : Prop := w ≠ "" ∧ all_chars (λ c, negb (blank c)) w = true.

Lemma split_words_app w s : all_chars (λ c, negb (blank c)) w = true →
  split_words (w +:+ s) = (w +:+ (split_words s).1, (split_words s).2).
Proof.
  induction w as [|c w IH]; cbn [all_chars].
  - intros _. rewrite !string_nil_app. by destruct (split_words s).
  - intros [Hc Hw]%andb_true_iff. rewrite !string_cons_app. cbn [split_words].
    rewrite (IH Hw). apply negb_true_iff in Hc. by rewrite Hc.
Qed.

Lemma add_word_solid w ws : solid w → add_word w ws = w :: ws.
Proof. intros [Hw _]. unfold add_word. by rewrite bool_decide_eq_false_2. Qed.

(** Words joined by blanks are found again. *)
Lemma py_split_concat ws : Forall solid ws → py_split (String.concat " " ws) = ws.
Proof.
  intros Hws.
  assert (match ws with [] => True | w :: l => split_words (String.concat " " ws) = (w, l) end) as H.
  { induction Hws as [|w ws Hw Hws IH]; [done|]. destruct ws as [|w' ws].
    - change (String.concat " " [w]) with w. rewrite <-(string_app_nil_r w) at 1.
      rewrite split_words_app by apply Hw. simpl. by rewrite string_app_nil_r.
    - change (String.concat " " (w :: w' :: ws)) with (w +:+ " " +:+ String.concat " " (w' :: ws)).
      rewrite split_words_app by apply Hw. rewrite (string_cons_app _ ""), string_nil_app.
      cbn [split_words]. rewrite IH. cbn. rewrite string_app_nil_r.
      inversion_clear Hws. by rewrite add_word_solid. }
  destruct Hws as [|w ws Hw Hws]; [done|]. unfold py_split. rewrite H. by apply add_word_solid.
Qed.

(** ** Values of a configuration *)

Inductive pyval : Type :=
  | VInt (z : Z)
  | VBool (b : bool)
  | VStr (s : string).

#[export] Instance pyval_eq_dec : EqDecision pyval.
Proof. solve_decision. Defined.

(** A value or a list of values *)
Inductive pyvals : Type :=
  | One (v : pyval)
  | Many (l : list pyval).

Definition underscore : ascii := ascii_of_nat 95.

(** Digits, with single underscores between them *)
Fixpoint grouped_value (s : string) (acc : Z) (after_digit : bool) : option Z :=
  match s with
  | EmptyString => if after_digit then Some acc else None
  | String c s =>
      if is_digit c then grouped_value s (10 * acc + digit_value c) true
      else if decide (c = underscore) then if after_digit then grouped_value s acc false else None
      else None
  end.

Definition signed_value (s : string) : option Z :=
  match s with
  | String c s' =>
      if decide (c = ascii_of_nat 45) then Z.opp <$> grouped_value s' 0 false
      else if decide (c = ascii_of_nat 43) then grouped_value s' 0 false
      else grouped_value s 0 false
  | EmptyString => None
  end.

(** [int] of a value: of a text, the numeral in it, blanks around it dropped *)
Definition int_of (v : pyval) : outcome Z :=
  match v with
  | VInt z => Ret z
  | VBool b => Ret (if b then 1 else 0)
  | VStr s =>
      match py_split s with
      | [w] => or_raise ValueError (signed_value w)
      | _ => Raise ValueError
      end
  end.

(** [int] of a list is a [TypeError]. *)
Definition int_of_one (v : pyvals) : outcome Z :=
  match v with One v => int_of v | Many _ => Raise TypeError end.

(** A comprehension whose elements are computed by a program *)
Fixpoint collect_run {W A B} (f : A → PyM W B) (l : list A) : PyM W (list B) :=
  match l with
  | [] => mret []
  | x :: l => y ← f x; ys ← collect_run f l; mret (y :: ys)
  end.
