(* ===== verification/Consistency.v ===== *)
(** * The consistency check of the logs (src/benchmark/consistency.py, and the merging of
    src/benchmark/benchmark/logs.py)

    After a benchmark a script reads what the nodes have logged about committed batches,
    drops repetitions, and compares the sequences: each must be a beginning of the
    longest one.  The script's regular expression is one of Regex.v; [render] is the text
    that the goroutine of Report.v logs.

    The theorems: the check succeeds exactly when any two of the sequences agree as far
    as the shorter one goes ([consistency_check_exact]), and it raises no false alarm:
    nodes with committed logs that agree pass it ([consistent_logs_accepted]). *)

From stdpp Require Import base gmap list strings pretty.
From Stdlib Require Import Ascii.
From S2P Require Import Prelude Committee Crypto Message Commitor Pool Store Synchronizer.
From S2P Require Import Port Mempool Report Regex.

(** ** The regular expression

    [commit Block node (\d+) batch_id (\d+)] *)

Definition lit_commit : string := "commit Block node ".
Definition lit_batch : string := " batch_id ".

Definition commit_pattern : regex :=
  Seq (Lit lit_commit) (Seq (Group Digits) (Seq (Lit lit_batch) (Group Digits))).

(** ** The script *)

Definition extract_committed_digests (lines : list string) : list (list string) :=
  lines ≫= findall commit_pattern.

(** The loop of [remove_duplicates]: what was seen is what is in the result. *)
Fixpoint remove_duplicates_loop {A} `{EqDecision A} (seq result : list A) (count : nat) : list A * nat :=
  match seq with
  | [] => (result, count)
  | item :: seq =>
      if decide (item ∈ result) then remove_duplicates_loop seq result (S count)
      else remove_duplicates_loop seq (result ++ [item]) count
  end.

Definition remove_duplicates {A} `{EqDecision A} (seq : list A) : list A * nat :=
  remove_duplicates_loop seq [] 0.

(** A Python dictionary in the order of its insertions *)
Fixpoint dict_set {A} (k : string) (v : A) (d : list (string * A)) : list (string * A) :=
  match d with
  | [] => [(k, v)]
  | (k', v') :: d => if decide (k = k') then (k, v) :: d else (k', v') :: dict_set k v d
  end.

(** [max(items, key=len)]: the first of the longest; there is none of no items. *)
Fixpoint longest {A} (d : list (string * list A)) : option (string * list A) :=
  match d with
  | [] => None
  | (f, l) :: d =>
      match longest d with
      | Some (f', l') => if decide (length l < length l')%nat then Some (f', l') else Some (f, l)
      | None => Some (f, l)
      end
  end.

Definition sequences (files : list (string * list string)) : list (string * list (list string)) :=
  foldl (λ d file, dict_set file.1 (remove_duplicates (extract_committed_digests file.2)).1 d) [] files.

(** [None] is the exception of [max] without files. *)
Definition compare_digest_sequences (files : list (string * list string)) : option bool :=
  let digest_sequences := sequences files in
  '(ref_file, ref_digests) ← longest digest_sequences;
  Some (forallb (λ x,
    bool_decide (x.1 = ref_file) ||
    bool_decide (x.2 = take (length x.2) ref_digests)) digest_sequences).

(** [_merge_results]: the earliest time of each key *)
Definition merge_one {K} `{Countable K} (merged : gmap K Z) (kv : K * Z) : gmap K Z :=
  match merged !! kv.1 with
  | Some v => if decide (kv.2 < v) then <[kv.1 := kv.2]> merged else merged
  | None => <[kv.1 := kv.2]> merged
  end.

Definition merge_results {K} `{Countable K} (input : list (list (K * Z))) : gmap K Z :=
  foldl (foldl merge_one) ∅ input.

(** ** Repetitions *)

Section dups.
Context {A : Type} `{EqDecision A}.
Implicit Types (l : list A).

Lemma remove_duplicates_loop_spec l result count :
  ∃ new, (remove_duplicates_loop l result count).1 = result ++ new ∧
    ((remove_duplicates_loop l result count).2 + length new = count + length l)%nat.
Proof.
  revert result count. induction l as [|x l IH]; intros result count; simpl.
  { exists []. by rewrite app_nil_r. }
  case_decide.
  - destruct (IH result (S count)) as (new & H1 & H2). exists new. split; [done|lia].
  - destruct (IH (result ++ [x]) count) as (new & H1 & H2). exists (x :: new).
    rewrite H1, <-app_assoc. split; [done|]. simpl. lia.
Qed.

Lemma remove_duplicates_loop_app l l' result count :
  remove_duplicates_loop (l ++ l') result count =
  remove_duplicates_loop l' (remove_duplicates_loop l result count).1 (remove_duplicates_loop l result count).2.
Proof.
  revert result count. induction l as [|x l IH]; intros result count; simpl; [done|].
  case_decide; apply IH.
Qed.

(** Dropping repetitions keeps beginnings. *)
Lemma remove_duplicates_prefix l l' :
  l `prefix_of` l' → (remove_duplicates l).1 `prefix_of` (remove_duplicates l').1.
Proof.
  intros [k ->]. unfold remove_duplicates. rewrite remove_duplicates_loop_app.
  destruct (remove_duplicates_loop_spec k (remove_duplicates_loop l [] 0).1
    (remove_duplicates_loop l [] 0).2) as (new & -> & _). by eexists.
Qed.
End dups.

(** ** The comparison *)

(** Two sequences agree as far as the shorter one goes. *)
Definition agree {A} (l l' : list A) : Prop := l `prefix_of` l' ∨ l' `prefix_of` l.

Lemma prefix_take {A} (l l' : list A) : l `prefix_of` l' ↔ l = take (length l) l'.
Proof.
  split.
  - intros [k ->]. by rewrite take_app_length.
  - intros Hl. exists (drop (length l) l'). rewrite Hl at 1. by rewrite take_drop.
Qed.

Lemma longest_spec {A} (d : list (string * list A)) f l :
  longest d = Some (f, l) → (f, l) ∈ d ∧ ∀ x, x ∈ d → (length x.2 <= length l)%nat.
Proof.
  revert f l. induction d as [|[f0 l0] d IH]; intros f l; simpl; [done|].
  destruct (longest d) as [[f' l']|] eqn:Hd.
  - destruct (IH f' l' eq_refl) as [Hin Hmax]. case_decide; intros [= <- <-].
    + split; [by right|]. intros x [->|Hx]%elem_of_cons; [simpl; lia|by apply Hmax].
    + split; [left|]. intros x [->|Hx]%elem_of_cons; [done|]. specialize (Hmax x Hx). lia.
  - intros [= <- <-]. destruct d as [|[f1 l1] d]; [|simpl in Hd; by repeat case_match].
    split; [left|]. by intros x ->%list_elem_of_singleton.
Qed.

Lemma longest_None {A} (d : list (string * list A)) : longest d = None ↔ d = [].
Proof. destruct d as [|[f l] d]; simpl; [done|]. split; [by repeat case_match|done]. Qed.

(** The files in a dictionary *)
Lemma dict_set_new {A} k (v : A) d : k ∉ map fst d → dict_set k v d = d ++ [(k, v)].
Proof.
  induction d as [|[k' v'] d IH]; simpl; [done|]. rewrite not_elem_of_cons. intros [Hk Hd].
  rewrite decide_False by done. by rewrite IH.
Qed.

Definition sequence_of (file : string * list string) : list (list string) :=
  (remove_duplicates (extract_committed_digests file.2)).1.

Lemma sequences_distinct files :
  NoDup (map fst files) → sequences files = map (λ file, (file.1, sequence_of file)) files.
Proof.
  unfold sequences. induction files as [|file files IH] using rev_ind; [done|].
  rewrite foldl_app, !map_app. simpl. intros [Hnd [Hx _]]%NoDup_app.
  rewrite IH by done. apply dict_set_new. rewrite map_map. simpl. intros Hin.
  apply (Hx file.1); [done|left].
Qed.

(** The consistency check is exact: on the logs of at least one node the script reports
    success if and only if the sequences of committed batches of any two nodes, without
    repetitions, agree as far as the shorter one goes. *)
Theorem consistency_check_exact files :
  files ≠ [] → NoDup (map fst files) →
  ∃ ok, compare_digest_sequences files = Some ok ∧
    (ok = true ↔ ∀ x y, x ∈ files → y ∈ files → agree (sequence_of x) (sequence_of y)).
Proof.
  intros Hne Hnd. unfold compare_digest_sequences. rewrite sequences_distinct by done.
  set (d := map _ files). destruct (longest d) as [[rf rd]|] eqn:Hl.
  2: { apply longest_None in Hl. by destruct files. }
  simpl. eexists. split; [done|]. destruct (longest_spec d rf rd Hl) as [Hin Hmax].
  assert (∃ z, z ∈ files ∧ rf = z.1 ∧ rd = sequence_of z) as (z & Hz & -> & ->).
  { unfold d in Hin. apply list_elem_of_fmap in Hin as (z & [= -> ->] & Hz). by exists z. }
  assert (∀ x, x ∈ files → (x.1, sequence_of x) ∈ d) as Hd.
  { intros x Hx. apply list_elem_of_fmap. by exists x. }
  rewrite forallb_forall. split.
  - intros Hall. assert (∀ x, x ∈ files → sequence_of x `prefix_of` sequence_of z) as Hpre.
    { intros x Hx. specialize (Hall _ (proj1 (list_elem_of_In _ _) (Hd x Hx))). simpl in Hall.
      apply orb_true_iff in Hall as [Heq|Heq]; apply bool_decide_eq_true in Heq.
      - assert (x = z) as ->; [|done].
        apply list_elem_of_lookup in Hx as [i Hi]. apply list_elem_of_lookup in Hz as [j Hj].
        assert (i = j) as ->; [|congruence].
        eapply NoDup_lookup; [exact Hnd|by rewrite list_lookup_fmap, Hi|].
        rewrite list_lookup_fmap, Hj. simpl. by rewrite Heq.
      - by apply prefix_take. }
    intros x y Hx Hy. unfold agree. by eapply prefix_weak_total; apply Hpre.
  - intros Hall x Hx%list_elem_of_In. unfold d in Hx.
    apply list_elem_of_fmap in Hx as (x' & -> & Hx'). simpl. apply orb_true_iff. right.
    apply bool_decide_eq_true, prefix_take. destruct (Hall x' z Hx' Hz) as [|Hp]; [done|].
    pose proof (Hmax _ (Hd x' Hx')) as Hle. simpl in Hle.
    destruct Hp as [k Hk]. rewrite Hk, length_app in Hle.
    assert (k = []) as -> by (apply length_zero_iff_nil; lia). by rewrite Hk, app_nil_r.
Qed.

(** ** The text of the log *)

(** The line of a report, with the [header] that the logger puts before it; errors go to
    another file. *)
Definition render (header : string) (l : logline) : option string :=
  match l with
  | CommitBlock node batch_id =>
      Some (header +:+ (lit_commit +:+ (pretty node +:+ (lit_batch +:+ (pretty batch_id +:+ " ")))))
  | CommitConsensusBlock epoch node =>
      Some (header +:+ ("commit ConsensusBlock epoch " +:+ (pretty epoch +:+ (" node " +:+ pretty node))))
  | GetKeyError => None
  end.

(** No match begins in [h], whatever follows. *)
Definition quiet (h : string) : bool := avoids (λ _, true) lit_commit h.

Lemma findall_quiet h body :
  quiet h = true → findall commit_pattern (h +:+ body) = findall commit_pattern body.
Proof. intros Hq. apply findall_absent. eapply avoids_absent; [exact Hq|]. by destruct body. Qed.

Lemma quiet_pretty (z : Z) : quiet (pretty z) = true.
Proof.
  assert (∀ s, all_chars (λ c, negb (bool_decide (c = "c"%char))) s = true → quiet s = true) as Hs.
  { unfold quiet. induction s as [|c s IH]; [done|]. cbn [all_chars avoids].
    intros [Hc%negb_true_iff%bool_decide_eq_false Hs]%andb_true_iff. rewrite (IH Hs), andb_true_r.
    simpl. by rewrite decide_False. }
  apply Hs. assert (∀ p, all_chars (λ c, negb (bool_decide (c = "c"%char))) (pretty (N.pos p)) = true) as Hp.
  { intros p. eapply all_chars_impl; [|exact (proj1 (pretty_N_digits (N.pos p)))].
    intros c Hc. apply negb_true_iff, bool_decide_eq_false. by intros ->. }
  destruct z as [|p|p]; [done|exact (Hp p)|].
  change (pretty (Z.neg p)) with (String "-" (pretty (N.pos p))). cbn [all_chars]. by rewrite Hp.
Qed.

(** What the script makes of a line *)
Definition entry (l : logline) : list (list string) :=
  match l with CommitBlock node batch_id => [[pretty node; pretty batch_id]] | _ => [] end.

Definition line_ok (l : logline) : Prop :=
  match l with CommitBlock node batch_id => 0 <= node ∧ 0 <= batch_id | _ => True end.

Lemma findall_render header l text :
  quiet header = true → line_ok l → render header l = Some text → findall commit_pattern text = entry l.
Proof.
  intros Hh Hl. destruct l as [node id| |epoch node]; [|done|]; intros [= <-]; rewrite findall_quiet by done.
  - destruct Hl as [Hn Hi].
    etrans; [apply (findall_first "c"%char "ommit Block node " _ _
      (lit_commit +:+ (pretty node +:+ (lit_batch +:+ pretty id))) [pretty node; pretty id] " ")|done].
    apply (first_Seq _ _ _ _ [] _ _ _ _ (first_Lit _ _)).
    apply (first_Seq _ _ _ _ [_] (lit_batch +:+ (pretty id +:+ " ")) _ [_]).
    { apply first_Group, first_Digits; [by apply pretty_digits|]. by intros c r' [= <- _]. }
    apply (first_Seq _ _ _ _ [] _ _ _ _ (first_Lit _ _)).
    apply first_Group, first_Digits; [by apply pretty_digits|]. by intros c r' [= <- _].
  - rewrite findall_quiet by done. rewrite findall_quiet by apply quiet_pretty.
    rewrite findall_quiet by done. rewrite <-(string_app_nil_r (pretty node)).
    by rewrite findall_quiet by apply quiet_pretty.
Qed.

(** The text of a log, one header per line *)
Definition text (lines : list (string * logline)) : list string :=
  omap (λ x, render x.1 x.2) lines.

Lemma extract_text lines :
  Forall (λ x, quiet x.1 = true ∧ line_ok x.2) lines →
  extract_committed_digests (text lines) = map snd lines ≫= entry.
Proof.
  unfold extract_committed_digests, text.
  induction 1 as [|[h l] lines [Hh Hl] _ IH]; [done|]. cbn [omap list_omap map fst snd].
  rewrite bind_cons, <-IH. destruct (render h l) as [t|] eqn:Hr; cbn [fst snd].
  - rewrite bind_cons. f_equal. by eapply findall_render.
  - by destruct l.
Qed.

(** ** From committed logs to the verdict *)

Section nodes.
Context {CL : CryptoLib} {D : DB} {GB : Gob Block}.

(** The log file of a node, with the blocks that it has committed and its store *)
Record node_log : Type := mkNodeLog {
  nl_name : string;
  nl_store : Store;
  nl_blocks : list ConsensusBlock;
  nl_lines : list (string * logline)
}.

Definition nl_file (x : node_log) : string * list string := (nl_name x, text (nl_lines x)).

(** The lines are the ones that the goroutine of Report.v logs for the blocks. *)
Definition log_of (x : node_log) : Prop :=
  Forall (λ y, quiet y.1 = true ∧ line_ok y.2) (nl_lines x) ∧
  map snd (nl_lines x) = (nl_blocks x ≫= block_lines (nl_store x)).

Definition block_entries (st : Store) (b : ConsensusBlock) : list (list string) :=
  block_lines st b ≫= entry.

Lemma extract_log x :
  log_of x →
  extract_committed_digests (text (nl_lines x)) = (nl_blocks x ≫= block_entries (nl_store x)).
Proof.
  intros [Hl Hb]. rewrite extract_text, Hb by done. clear Hl Hb.
  induction (nl_blocks x) as [|b bs IH]; [done|]. by rewrite !bind_cons, bind_app, IH.
Qed.

Lemma block_entries_same st st' b :
  (∀ d, d ∈ cb_PayLoads b → GetBlock st d = GetBlock st' d) → block_entries st b = block_entries st' b.
Proof.
  intros Hd. unfold block_entries, block_lines. rewrite !bind_app. f_equal. f_equal.
  induction (cb_PayLoads b) as [|d ds IH]; [done|]. rewrite !bind_cons. f_equal.
  - unfold payload_lines. by rewrite Hd by left.
  - apply IH. intros d' Hd'. apply Hd. by right.
Qed.

Lemma entries_prefix st st' bs bs' :
  (∀ b d, b ∈ bs → d ∈ cb_PayLoads b → GetBlock st d = GetBlock st' d) →
  bs `prefix_of` bs' → (bs ≫= block_entries st) `prefix_of` (bs' ≫= block_entries st').
Proof.
  intros Hd [k ->]. rewrite bind_app.
  assert (bs ≫= block_entries st = bs ≫= block_entries st') as ->; [|by eexists].
  induction bs as [|b bs IH]; [done|]. rewrite !bind_cons. f_equal.
  - apply block_entries_same. intros d. apply Hd. left.
  - apply IH. intros b' d Hb. apply Hd. by right.
Qed.

(** No false alarm: if the committed logs of any two nodes agree as far as the shorter
    one goes, and the nodes read the same payloads for the blocks they share, then the
    script finds the log files of the nodes consistent. *)
Theorem consistent_logs_accepted (nodes : list node_log) :
  nodes ≠ [] → NoDup (map nl_name nodes) → Forall log_of nodes →
  (∀ x y, x ∈ nodes → y ∈ nodes → agree (nl_blocks x) (nl_blocks y)) →
  (∀ x y b d, x ∈ nodes → y ∈ nodes → b ∈ nl_blocks x → b ∈ nl_blocks y → d ∈ cb_PayLoads b →
     GetBlock (nl_store x) d = GetBlock (nl_store y) d) →
  compare_digest_sequences (map nl_file nodes) = Some true.
Proof.
  intros Hne Hnd Hlogs Hagree Hstores.
  destruct (consistency_check_exact (map nl_file nodes)) as (ok & -> & Hok).
  { by destruct nodes. } { by rewrite map_map. }
  f_equal. apply Hok. intros fx fy (x & -> & Hx)%list_elem_of_fmap (y & -> & Hy)%list_elem_of_fmap.
  rewrite Forall_forall in Hlogs. unfold sequence_of. simpl.
  rewrite !extract_log by auto.
  assert (∀ x y, x ∈ nodes → y ∈ nodes → nl_blocks x `prefix_of` nl_blocks y →
    (remove_duplicates (nl_blocks x ≫= block_entries (nl_store x))).1 `prefix_of`
    (remove_duplicates (nl_blocks y ≫= block_entries (nl_store y))).1) as Hpre.
  { intros x' y' Hx' Hy' Hp. apply remove_duplicates_prefix, entries_prefix; [|done].
    intros b d Hb Hd. apply (Hstores x' y' b d); try done.
    destruct Hp as [k ->]. apply elem_of_app. by left. }
  destruct (Hagree x y Hx Hy); [left|right]; by apply Hpre.
Qed.
End nodes.

(** ** The earliest times *)

(** Whatever the order of the inputs, a key is mapped to the least of its times. *)
Lemma merge_results_least {K} `{Countable K} (input : list (list (K * Z))) k :
  match merge_results input !! k with
  | Some v => (k, v) ∈ concat input ∧ ∀ v', (k, v') ∈ concat input → v <= v'
  | None => ∀ v, (k, v) ∉ concat input
  end.
Proof.
  unfold merge_results.
  assert (∀ m : gmap K Z, foldl (foldl merge_one) m input = foldl merge_one m (concat input)) as ->.
  { induction input as [|l input IH]; intros m; simpl; [done|]. by rewrite foldl_app, IH. }
  induction (concat input) as [|[k' v'] l IH] using rev_ind.
  { simpl. rewrite lookup_empty. intros v. apply not_elem_of_nil. }
  rewrite foldl_app. simpl. unfold merge_one at 1. simpl.
  assert (∀ v, (k, v) ∈ l ++ [(k', v')] ↔ (k, v) ∈ l ∨ (k = k' ∧ v = v')) as Hin.
  { intros v. rewrite elem_of_app, list_elem_of_singleton. naive_solver. }
  set (m := foldl _ _ l) in *. destruct (decide (k = k')) as [<-|Hne].
  - destruct (m !! k) as [w|] eqn:Hw.
    + destruct IH as [H1 H2]. case_decide; rewrite ?lookup_insert_eq, ?Hw;
        (split; [apply Hin; auto|]); intros u [Hu%H2|[_ ->]]%Hin; lia.
    + rewrite lookup_insert_eq. split; [apply Hin; auto|].
      intros u [Hu|[_ ->]]%Hin; [by apply IH in Hu|lia].
  - assert ((match m !! k' with
      | Some v0 => if decide (v' < v0) then <[k' := v']> m else m
      | None => <[k' := v']> m end) !! k = m !! k) as ->.
    { repeat case_match; by rewrite ?lookup_insert_ne. }
    destruct (m !! k).
    + destruct IH as [H1 H2]. split; [apply Hin; auto|]. intros u [Hu%H2|[? _]]%Hin; done.
    + intros u [Hu|[? _]]%Hin; [by apply IH in Hu|done].
Qed.
