(* ===== verification/LogStats.v ===== *)
(** * The statistics of the logs (src/benchmark/benchmark/logs.py)

    [infoline] lists what the program logs at the level Info, with the text of
    [line_text]; the logger (src/logger/logger.go) puts the time and the place in front.
    [parse_nodes] reads such a log with the regular expressions of the script,
    [LogParser_init] merges the logs of the nodes, and [LogParser_result] computes the figures.
    Times are microseconds; the script has them as floating-point numbers, which tell
    microseconds apart, and rounds quotients, which are exact here, to whole numbers.

    The theorems: reading a log gives back what was logged ([parse_log_exact]); the
    parser keeps the earliest time over all nodes ([log_parser_exact]); and the figures
    exist exactly when they can be computed ([result_defined]). *)

From stdpp Require Import base gmap list strings pretty.
From Stdlib Require Import Ascii.
From S2P Require Import Prelude Regex Python Consistency.

(** ** Time *)

Record Stamp : Type := mkStamp {
  st_year : Z; st_month : Z; st_day : Z;
  st_hour : Z; st_minute : Z; st_second : Z; st_micro : Z
}.

Definition leap (y : Z) : bool :=
  bool_decide (y mod 4 = 0) && (negb (bool_decide (y mod 100 = 0)) || bool_decide (y mod 400 = 0)).

Definition days_in_month (y m : Z) : Z :=
  if decide (m = 2) then (if leap y then 29 else 28)
  else if decide (m ∈ [4; 6; 9; 11]) then 30 else 31.

Fixpoint days_before_month (y : Z) (m : nat) : Z :=
  match m with
  | O => 0
  | S m => days_before_month y m + days_in_month y (Z.of_nat (S m))
  end.

(** [toordinal]: the days since the beginning of year 1 *)
Definition toordinal (y m d : Z) : Z :=
  let y' := y - 1 in
  y' * 365 + y' / 4 - y' / 100 + y' / 400 + days_before_month y (Z.to_nat (m - 1)) + d.

Definition valid_stamp (t : Stamp) : bool :=
  bool_decide (1 <= st_year t <= 9999) && bool_decide (1 <= st_month t <= 12) &&
  bool_decide (1 <= st_day t <= days_in_month (st_year t) (st_month t)) &&
  bool_decide (0 <= st_hour t <= 23) && bool_decide (0 <= st_minute t <= 59) &&
  bool_decide (0 <= st_second t <= 59) && bool_decide (0 <= st_micro t <= 999999).

(** At most [k] digits *)
Fixpoint take_digits (k : nat) (s : string) : string * string :=
  match k, s with
  | S k, String c s' =>
      if is_digit c then let '(d, r) := take_digits k s' in (String c d, r) else ("", s)
  | _, _ => ("", s)
  end.

Definition parse_field (least most : nat) (s : string) : option (string * string) :=
  let '(d, r) := take_digits most s in
  if decide (least <= String.length d)%nat then Some (d, r) else None.

Definition value_of (d : string) : Z := digits_value d 0.

(** [strptime(s, "%Y/%m/%d %H:%M:%S.%f")], with one space between date and time *)
Definition strptime (s : string) : option Stamp :=
  '(Y, s) ← parse_field 4 4 s; s ← strip "/" s;
  '(m, s) ← parse_field 1 2 s; s ← strip "/" s;
  '(d, s) ← parse_field 1 2 s; s ← strip " " s;
  '(H, s) ← parse_field 1 2 s; s ← strip ":" s;
  '(M, s) ← parse_field 1 2 s; s ← strip ":" s;
  '(sec, s) ← parse_field 1 2 s; s ← strip "." s;
  '(f, s) ← parse_field 1 6 s;
  let t := mkStamp (value_of Y) (value_of m) (value_of d) (value_of H) (value_of M) (value_of sec)
             (value_of f * 10 ^ (6 - Z.of_nat (String.length f))) in
  if bool_decide (s = "") && valid_stamp t then Some t else None.

Section stats.
(** The offset of the local time zone, in seconds *)
Context (utcoffset : Stamp → Z).

(** [timestamp], in microseconds; 719163 is the ordinal of the first of January 1970. *)
Definition posix (t : Stamp) : Z :=
  let days := toordinal (st_year t) (st_month t) (st_day t) - 719163 in
  let seconds := ((days * 24 + st_hour t) * 60 + st_minute t) * 60 + st_second t - utcoffset t in
  seconds * 10 ^ 6 + st_micro t.

Definition to_posix (s : string) : outcome Z :=
  match strptime s with Some t => Ret (posix t) | None => Raise ValueError end.

(** ** The log of a node *)

(** Everything that is logged at the level Info *)
Inductive infoline : Type :=
  | Booted (id : Z)
  | OutgoingConn (addr : string)
  | IncomingConn (addr : string)
  | WaitingMempools
  | CreateBlock (node batch_id : Z)
  | ReceivedBatch (id : Z)
  | QueueCapacity (n : Z)
  | TxSizeSet (n : Z)
  | BatchSizeSet (n : Z)
  | RateSet (n : Z)
  | CommittedBlock (node batch_id : Z)
  | CommittedConsensusBlock (epoch node : Z)
  | ConsensusID (id : Z)
  | DDosFaults (ddos : bool) (faults : Z)
  | ProtocolSMVBA
  | NodeKind (byzantine : bool)
  | WaitingNodes
  | CreateConsensusBlock (epoch node : Z).

(** An IPv4 address with its port *)
Definition addr_char (c : ascii) : bool :=
  is_digit c || bool_decide (c = "."%char) || bool_decide (c = ":"%char).

(** The place of the call, and the message with the separator *)
Definition place (x : infoline) : string :=
  match x with
  | Booted _ => " node.go:"
  | OutgoingConn _ | IncomingConn _ => " network.go:"
  | WaitingMempools | CreateBlock _ _ => " mempool.go:"
  | ReceivedBatch _ | QueueCapacity _ | TxSizeSet _ | BatchSizeSet _ | RateSet _ => " pool.go:"
  | CommittedBlock _ _ | CommittedConsensusBlock _ _ => " commitor.go:"
  | ConsensusID _ | DDosFaults _ _ | ProtocolSMVBA | NodeKind _ | WaitingNodes => " consensus.go:"
  | CreateConsensusBlock _ _ => " core.go:"
  end.

Definition message (x : infoline) : list piece :=
  match x with
  | Booted id => [PLit ": Node "; PNum id; PLit " successfully booted "]
  | OutgoingConn addr =>
      [PLit ": Outgoing connection established with "; PCls addr_char addr; PLit " "]
  | IncomingConn addr =>
      [PLit ": Incoming connection established with "; PCls addr_char addr; PLit " "]
  | WaitingMempools => [PLit ": Waiting for all mempool nodes to be online..."]
  | CreateBlock node batch_id =>
      [PLit ": create Block node "; PNum node; PLit " batch_id "; PNum batch_id; PLit " "]
  | ReceivedBatch id => [PLit ": Received Batch "; PNum id]
  | QueueCapacity n => [PLit ": Transaction pool queue capacity set to "; PNum n; PLit " "]
  | TxSizeSet n => [PLit ": Transaction pool tx size set to "; PNum n; PLit " "]
  | BatchSizeSet n => [PLit ": Transaction pool batch size set to "; PNum n; PLit " "]
  | RateSet n => [PLit ": Transaction pool tx rate set to "; PNum n; PLit " "]
  | CommittedBlock node batch_id =>
      [PLit ": commit Block node "; PNum node; PLit " batch_id "; PNum batch_id; PLit " "]
  | CommittedConsensusBlock epoch node =>
      [PLit ": commit ConsensusBlock epoch "; PNum epoch; PLit " node "; PNum node]
  | ConsensusID id => [PLit ": Consensus Node ID: "; PNum id]
  | DDosFaults ddos faults =>
      [PLit (if ddos then ": Consensus DDos: true, Faults: " else ": Consensus DDos: false, Faults: ");
       PNum faults; PLit " "]
  | ProtocolSMVBA => [PLit ": Protocol: SMVBA"]
  | NodeKind byzantine => [PLit (if byzantine then ": Byzantine Node" else ": Honest Node")]
  | WaitingNodes => [PLit ": Waiting for all nodes to be online..."]
  | CreateConsensusBlock epoch node =>
      [PLit ": create ConsensusBlock epoch "; PNum epoch; PLit " node "; PNum node]
  end.

(** The time in the format of the logger *)
Definition date_char (c : ascii) : bool := is_digit c || bool_decide (c = "/"%char).
Definition time_char (c : ascii) : bool :=
  is_digit c || bool_decide (c = ":"%char) || bool_decide (c = "."%char).

Definition date_text (t : Stamp) : string :=
  padded 4 (st_year t) +:+ ("/" +:+ (padded 2 (st_month t) +:+ ("/" +:+ padded 2 (st_day t)))).
Definition time_text (t : Stamp) : string :=
  padded 2 (st_hour t) +:+ (":" +:+ (padded 2 (st_minute t) +:+ (":" +:+
    (padded 2 (st_second t) +:+ ("." +:+ padded 6 (st_micro t)))))).
Definition stamp_text (t : Stamp) : string := date_text t +:+ (" " +:+ time_text t).

(** A line of the log: when, in which line of the source, and what *)
Record entry : Type := mkEntry { en_time : Stamp; en_line : Z; en_what : infoline }.

Definition line_pieces (e : entry) : list piece :=
  [PLit "[INFO] "; PCls date_char (date_text (en_time e)); PLit " ";
   PCls time_char (time_text (en_time e)); PLit (place (en_what e)); PNum (en_line e)] ++
  message (en_what e).

Definition line_text (e : entry) : string := pieces_text (line_pieces e).

Fixpoint log_text (es : list entry) : string :=
  match es with
  | [] => ""
  | e :: es => line_text e +:+ String newline (log_text es)
  end.

(** ** The script *)

(** The beginning of a line, a group that takes the time, the file, and the text [key] *)
Definition info_pattern (file key : string) (r : regex) : regex :=
  Seq (Lit "[INFO] ") (Seq (Group Any) (Seq (Lit file) (Seq Any (Seq (Lit key) r)))).

(** [(epoch \d+ node \d+)] *)
Definition block_name : regex :=
  Group (Seq (Lit "epoch ") (Seq Digits (Seq (Lit " node ") Digits))).

Definition nocount_pattern : regex :=
  info_pattern " core" " can not commit any blocks in this epoch " (Group Digits).
Definition epoch_pattern : regex := info_pattern " core" " advance next epoch " (Group Digits).
Definition batch_pattern : regex := info_pattern " pool" " Received Batch " (Group Digits).
Definition proposal_pattern : regex := info_pattern " core" " create ConsensusBlock " block_name.
Definition proposalcommit_pattern : regex :=
  info_pattern " commitor" " commit ConsensusBlock " block_name.
Definition commit_pattern : regex :=
  info_pattern " commitor" " commit Block node "
    (Seq Digits (Seq (Lit " batch_id ") (Group Digits))).

Definition faults_pattern : regex :=
  Seq (Lit "Consensus DDos: ") (Seq Any (Seq (Lit ", Faults: ") (Group Digits))).
Definition setting_pattern (what : string) : regex := Seq (Lit what) (Group Digits).
Definition tx_size_text : string := "Transaction pool tx size set to ".
Definition batch_size_text : string := "Transaction pool batch size set to ".
Definition rate_text : string := "Transaction pool tx rate set to ".

Record Configs : Type := mkConfigs {
  cf_faults : Z; cf_tx_size : Z; cf_batch_size : Z; cf_rate : Z
}.

Record Parsed : Type := mkParsed {
  pn_nocounts : gmap string Z;
  pn_epochcounts : gmap string Z;
  pn_batchs : gmap string Z;
  pn_proposals : gmap string Z;
  pn_commits : gmap string Z;
  pn_proposalcommits : gmap string Z;
  pn_configs : Configs
}.

(** The pairs [(id, to_posix t)] of the matches [(t, id)] *)
Definition timed (m : list string) : outcome (string * Z) :=
  match m with
  | [t; id] => x ← to_posix t; Ret (id, x)
  | _ => Raise ValueError
  end.

Definition timed_matches (r : regex) (log : string) : outcome (list (string * Z)) :=
  collect timed (findall r log).

(** [{ id: t for ... }]: of several times the last one stays. *)
Definition dict_of (l : list (string * Z)) : gmap string Z := foldl (λ d p, <[p.1 := p.2]> d) ∅ l.

(** [int(search(r, log).group(1))] *)
Definition search_int (r : regex) (log : string) : outcome Z :=
  match search r log with
  | None => Raise AttributeError
  | Some gs => match gs with s :: _ => py_int s | [] => Raise IndexError end
  end.

Definition parse_nodes (log : string) : outcome Parsed :=
  match search (Lit "panic") log with
  | Some _ => Raise ParseError
  | None =>
      nocounts ← timed_matches nocount_pattern log;
      epochcounts ← timed_matches epoch_pattern log;
      batchs ← timed_matches batch_pattern log;
      proposals ← timed_matches proposal_pattern log;
      proposalcommits ← timed_matches proposalcommit_pattern log;
      commits ← timed_matches commit_pattern log;
      faults ← search_int faults_pattern log;
      tx_size ← search_int (setting_pattern tx_size_text) log;
      batch_size ← search_int (setting_pattern batch_size_text) log;
      rate ← search_int (setting_pattern rate_text) log;
      Ret (mkParsed (dict_of nocounts) (dict_of epochcounts) (dict_of batchs)
        (merge_results [proposals]) (merge_results [commits]) (merge_results [proposalcommits])
        (mkConfigs faults tx_size batch_size rate))
  end.

Record LogParser : Type := mkLogParser {
  lp_committee_size : Z;
  lp_faults : Z;
  lp_parsed : Parsed
}.

Definition merged (f : Parsed → gmap string Z) (results : list Parsed) : gmap string Z :=
  merge_results (map (λ p, map_to_list (f p)) results).

(** The exceptions of the workers that are turned into a [ParseError] *)
Definition parse_failure (e : pyexn) : pyexn :=
  match e with ValueError | IndexError => ParseError | e => e end.

(** Without logs there is nothing to unpack. *)
Definition LogParser_init (nodes : list string) (faults : Z) : outcome LogParser :=
  match collect parse_nodes nodes with
  | Raise e => Raise (parse_failure e)
  | Ret [] => Raise ValueError
  | Ret (p :: ps) =>
      let results := p :: ps in
      Ret (mkLogParser (Z.of_nat (length nodes)) faults
        (mkParsed (merged pn_nocounts results) (merged pn_epochcounts results)
          (merged pn_batchs results) (merged pn_proposals results) (merged pn_commits results)
          (merged pn_proposalcommits results) (pn_configs p)))
  end.

(** *** The figures *)

(** The quotient [n / d] as a number of Python, rounded by [round] *)
Record quotient : Type := mkQuotient { qu_num : Z; qu_den : Z }.

Definition py_round (q : quotient) : Z :=
  let n := qu_num q * Z.sgn (qu_den q) in
  let d := Z.abs (qu_den q) in
  let f := n / d in
  let r := 2 * (n mod d) in
  if decide (r < d) then f else if decide (d < r) then f + 1 else if Z.even f then f else f + 1.

Definition py_div (n d : Z) : outcome quotient :=
  if decide (d = 0) then Raise ZeroDivisionError else Ret (mkQuotient n d).

Definition values (m : gmap string Z) : list Z := map snd (map_to_list m).

Definition py_min (l : list Z) : outcome Z :=
  match l with [] => Raise ValueError | x :: l => Ret (foldl Z.min x l) end.
Definition py_max (l : list Z) : outcome Z :=
  match l with [] => Raise ValueError | x :: l => Ret (foldl Z.max x l) end.

(** Transactions per second, with the duration in microseconds *)
Definition throughput (starts ends commits : gmap string Z) (batch_size : Z)
    : outcome (quotient * Z) :=
  if decide (commits = ∅) then Ret (mkQuotient 0 1, 0)
  else
    start ← py_min (values starts);
    last ← py_max (values ends);
    let duration := last - start in
    tps ← py_div (Z.of_nat (size commits) * batch_size * 10 ^ 6) duration;
    Ret (tps, duration).

Definition consensus_throughput (p : Parsed) : outcome (quotient * Z) :=
  throughput (pn_proposals p) (pn_proposalcommits p) (pn_commits p) (cf_batch_size (pn_configs p)).

Definition end_to_end_throughput (p : Parsed) : outcome (quotient * Z) :=
  throughput (pn_batchs p) (pn_commits p) (pn_commits p) (cf_batch_size (pn_configs p)).

(** The times from the start to the end of what has both *)
Definition latencies (starts ends : gmap string Z) : list Z :=
  omap (λ p, s ← starts !! p.1; Some (p.2 - s)) (map_to_list ends).

Definition sum (l : list Z) : Z := foldr Z.add 0 l.

(** [mean(latency) if latency else 0], times 1000: milliseconds *)
Definition mean_ms (l : list Z) : quotient :=
  match l with [] => mkQuotient 0 1 | _ => mkQuotient (sum l) (1000 * Z.of_nat (length l)) end.

Definition consensus_latency (p : Parsed) : quotient :=
  mean_ms (latencies (pn_proposals p) (pn_proposalcommits p)).
Definition end_to_end_latency (p : Parsed) : quotient :=
  mean_ms (latencies (pn_batchs p) (pn_commits p)).

(** The numbers of the summary *)
Record Summary : Type := mkSummary {
  su_committee_size : Z; su_rate : Z; su_tx_size : Z; su_batch_size : Z; su_faults : Z;
  su_duration : Z; su_consensus_tps : Z; su_consensus_latency : Z;
  su_end_to_end_tps : Z; su_end_to_end_latency : Z
}.

Definition LogParser_result (lp : LogParser) : outcome Summary :=
  let p := lp_parsed lp in
  '(consensus_tps, _) ← consensus_throughput p;
  '(end_to_end_tps, duration) ← end_to_end_throughput p;
  Ret (mkSummary (lp_committee_size lp) (cf_rate (pn_configs p)) (cf_tx_size (pn_configs p))
    (cf_batch_size (pn_configs p)) (lp_faults lp) (py_round (mkQuotient duration (10 ^ 6)))
    (py_round consensus_tps) (py_round (consensus_latency p))
    (py_round end_to_end_tps) (py_round (end_to_end_latency p))).

(** An integer with commas between the thousands, [{z:,}] *)
Fixpoint thousands_loop (fuel : nat) (z : Z) : string :=
  match fuel with
  | O => pretty z
  | S fuel =>
      if decide (z < 1000) then pretty z
      else thousands_loop fuel (z / 1000) +:+ "," +:+ padded 3 z
  end.

Definition thousands (z : Z) : string :=
  if decide (z < 0) then "-" +:+ thousands_loop (Z.to_nat (- z)) (- z)
  else thousands_loop (Z.to_nat z) z.

Definition rule : string := "-----------------------------------------".

(** The text of the summary *)
Definition summary_text (protocol ddos : string) (s : Summary) : string :=
  String.concat (String newline "")
    [""; rule; " SUMMARY:"; rule; " + CONFIG:";
     " Protocol: " +:+ protocol +:+ " ";
     " DDOS attack: " +:+ ddos +:+ " ";
     " Committee size: " +:+ pretty (su_committee_size s) +:+ " nodes";
     " Input rate: " +:+ thousands (su_rate s) +:+ " tx/s";
     " Transaction size: " +:+ thousands (su_tx_size s) +:+ " B";
     " Batch size: " +:+ thousands (su_batch_size s) +:+ " tx/Batch";
     " Faults: " +:+ pretty (su_faults s) +:+ " nodes";
     " Execution time: " +:+ thousands (su_duration s) +:+ " s";
     "";
     " + RESULTS:";
     " Consensus TPS: " +:+ thousands (su_consensus_tps s) +:+ " tx/s";
     " Consensus latency: " +:+ thousands (su_consensus_latency s) +:+ " ms";
     "";
     " End-to-end TPS: " +:+ thousands (su_end_to_end_tps s) +:+ " tx/s";
     " End-to-end latency: " +:+ thousands (su_end_to_end_latency s) +:+ " ms";
     rule; ""].

(** A figure can be read off the summary: without its commas it is the numeral. *)
Fixpoint without_commas (s : string) : string :=
  match s with
  | EmptyString => ""
  | String c s => if decide (c = ","%char) then without_commas s else String c (without_commas s)
  end.

Lemma without_commas_app s t : without_commas (s +:+ t) = without_commas s +:+ without_commas t.
Proof.
  induction s as [|c s IH]; [done|]. rewrite string_cons_app. cbn [without_commas]. rewrite IH.
  by case_decide.
Qed.

Lemma without_commas_digits s : all_chars is_digit s = true → without_commas s = s.
Proof.
  induction s as [|c s IH]; cbn [all_chars without_commas]; [done|].
  intros [Hc Hs]%andb_true_iff. rewrite decide_False by (by intros ->). by rewrite IH.
Qed.

Lemma thousands_value z : 0 <= z → digits_value (without_commas (thousands z)) 0 = z.
Proof.
  intros Hz. unfold thousands. rewrite decide_False by lia.
  assert (∀ fuel z, 0 <= z < Z.of_nat fuel + 1 →
    digits_value (without_commas (thousands_loop fuel z)) 0 = z) as Hgo; [|apply Hgo; lia].
  assert (∀ z, 0 <= z → digits_value (without_commas (pretty z)) 0 = z) as Hp.
  { intros x Hx. rewrite without_commas_digits by by apply pretty_digits. by apply pretty_value. }
  clear z Hz. induction fuel as [|fuel IH]; intros z Hz; cbn [thousands_loop]; [apply Hp; lia|].
  case_decide as Hlt; [apply Hp; lia|].
  destruct (padded_spec 3 z) as (_ & Hd & Hv).
  rewrite !without_commas_app, !digits_value_app, (without_commas_digits (padded 3 z)), Hv by done.
  cbn [without_commas]. rewrite decide_True by done. cbn [digits_value].
  pose proof (Z.div_mod z 1000 ltac:(lia)). rewrite IH.
  - change (10 ^ Z.of_nat 3) with 1000. lia.
  - split; [apply Z.div_pos; lia|]. apply Z.div_lt_upper_bound; lia.
Qed.

(** ** Times are read back *)

Lemma take_digits_app d r :
  all_chars is_digit d = true → take_digits (String.length d) (d +:+ r) = (d, r).
Proof.
  induction d as [|c d IH]; [by destruct r|]. cbn [all_chars].
  intros [Hc Hd]%andb_true_iff. rewrite string_cons_app. cbn [String.length take_digits].
  by rewrite Hc, IH.
Qed.

Lemma parse_field_padded least k z r :
  (least <= k)%nat → parse_field least k (padded k z +:+ r) = Some (padded k z, r).
Proof.
  intros Hk. destruct (padded_spec k z) as (Hl & Hd & _). unfold parse_field.
  rewrite <-Hl at 1. rewrite take_digits_app by done. by rewrite decide_True by lia.
Qed.

Lemma value_padded k z : 0 <= z < 10 ^ Z.of_nat k → value_of (padded k z) = z.
Proof.
  intros Hz. unfold value_of. destruct (padded_spec k z) as (_ & _ & ->).
  rewrite Z.mod_small by lia. lia.
Qed.

Lemma days_in_month_bound y m : days_in_month y m <= 31.
Proof. unfold days_in_month. repeat case_decide; try lia. destruct (leap y); lia. Qed.

Lemma strptime_stamp_text t : valid_stamp t = true → strptime (stamp_text t) = Some t.
Proof.
  intros Hv. pose proof Hv as Hb. unfold valid_stamp in Hb.
  rewrite !andb_true_iff, !bool_decide_eq_true in Hb. destruct Hb as ((((((HY & HM) & HD) & HH) & Hm) & HS) & Hf).
  pose proof (days_in_month_bound (st_year t) (st_month t)) as Hd31.
  unfold strptime, stamp_text, date_text, time_text. rewrite <-!string_app_assoc.
  do 6 (rewrite parse_field_padded by lia; cbn [mbind option_bind]; rewrite strip_app;
        cbn [mbind option_bind]).
  rewrite <-(string_app_nil_r (padded 6 _)), parse_field_padded by lia. cbn [mbind option_bind].
  rewrite !value_padded by (simpl; lia). destruct (padded_spec 6 (st_micro t)) as (-> & _ & _).
  change (10 ^ (6 - Z.of_nat 6)) with 1. rewrite Z.mul_1_r.
  destruct t as [Y M D H m S f]. cbn [st_year st_month st_day st_hour st_minute st_second st_micro] in *.
  by rewrite Hv.
Qed.

Lemma to_posix_stamp_text t : valid_stamp t = true → to_posix (stamp_text t) = Ret (posix t).
Proof. intros Hv. unfold to_posix. by rewrite strptime_stamp_text. Qed.

Lemma padded_chars (P : ascii → bool) k z :
  (∀ c, is_digit c = true → P c = true) → all_chars P (padded k z) = true.
Proof. intros HP. eapply all_chars_impl; [exact HP|]. apply padded_spec. Qed.

Lemma date_text_ok t : piece_ok (PCls date_char (date_text t)).
Proof.
  assert (∀ c, is_digit c = true → date_char c = true) as Hc by (intros c H; unfold date_char; by rewrite H).
  split.
  - unfold date_text. rewrite !all_chars_app, !padded_chars by done. done.
  - unfold date_text. intros He%(f_equal String.length). rewrite string_length_app in He.
    rewrite (proj1 (padded_spec _ _)) in He. simpl in He. lia.
Qed.

Lemma time_text_ok t : piece_ok (PCls time_char (time_text t)).
Proof.
  assert (∀ c, is_digit c = true → time_char c = true) as Hc by (intros c H; unfold time_char; by rewrite H).
  split.
  - unfold time_text. rewrite !all_chars_app, !padded_chars by done. done.
  - unfold time_text. intros He%(f_equal String.length). rewrite string_length_app in He.
    rewrite (proj1 (padded_spec _ _)) in He. simpl in He. lia.
Qed.

(** ** Lines are read back *)

Definition what_ok (x : infoline) : Prop :=
  match x with
  | Booted n | ReceivedBatch n | QueueCapacity n | TxSizeSet n | BatchSizeSet n | RateSet n
  | ConsensusID n | DDosFaults _ n => 0 <= n
  | CreateBlock n m | CommittedBlock n m | CommittedConsensusBlock n m | CreateConsensusBlock n m =>
      0 <= n ∧ 0 <= m
  | OutgoingConn addr | IncomingConn addr => piece_ok (PCls addr_char addr)
  | WaitingMempools | ProtocolSMVBA | NodeKind _ | WaitingNodes => True
  end.

Definition entry_ok (e : entry) : Prop :=
  valid_stamp (en_time e) = true ∧ 0 <= en_line e ∧ what_ok (en_what e).

Lemma line_pieces_ok e : entry_ok e → Forall piece_ok (line_pieces e).
Proof.
  intros (_ & Hn & Hw). unfold line_pieces. apply Forall_app. split.
  - repeat constructor; try done; try apply date_text_ok; try apply time_text_ok;
      [by destruct (en_what e)|by apply pretty_digits..].
  - destruct (en_what e); cbn [message what_ok] in *; destruct_and?;
      repeat first [apply Forall_nil_2 | apply Forall_cons_2 | apply PNum_ok | done | lia | by case_match].
Qed.

Lemma findall_newline file key r rest :
  findall (info_pattern file key r) (String newline rest) = findall (info_pattern file key r) rest.
Proof. apply (findall_absent _ _ _ (String newline "") rest). apply absent_cons. split; [done|apply absent_nil]. Qed.

(** A line without [key] *)
Lemma findall_other file key r e rest :
  entry_ok e → pieces_avoid at_newline key (line_pieces e) = true →
  in_line file = true → in_line key = true → key ≠ "" →
  findall (info_pattern file key r) (line_text e +:+ String newline rest) =
  findall (info_pattern file key r) rest.
Proof.
  intros He Hp Hf Hk Hne. etrans; [apply findall_dead|apply findall_newline].
  pose proof (line_end_newline rest) as Hend.
  apply dead_after_Lit; [done..|]. apply dead_Group_Any; [done|]. apply dead_after_Lit; [done..|].
  apply dead_Any; [done|]. apply dead_Lit; [done| |done|done].
  by eapply pieces_absent, line_end_starts; [|apply line_pieces_ok|].
Qed.

(** A line with [key] behind [file] *)
Lemma info_first cf f ck k st mid tail rest r t gs after :
  let file := String cf f in
  let key := String ck k in
  let body := mid +:+ (key +:+ tail) in
  in_line st = true → in_line file = true → in_line mid = true → in_line key = true →
  line_end rest → absent file (f +:+ body) rest → absent key (k +:+ tail) rest →
  first r (tail +:+ rest) t gs after →
  ∃ u, first (info_pattern file key r) ("[INFO] " +:+ (st +:+ (file +:+ (body +:+ rest)))) u (st :: gs) after.
Proof.
  intros file key body Hst Hf Hm Hk Hend Ha1 Ha2 Hr. eexists.
  eapply (first_Seq _ _ _ _ [] _ _ (st :: gs)); [apply first_Lit|].
  eapply (first_Group_Any_Lit st cf f body rest Hst Hf Hend Ha1).
  unfold body. rewrite <-!string_app_assoc.
  by eapply (first_Any_Lit mid ck k tail rest Hm Hk Hend Ha2).
Qed.

Lemma stamp_in_line t : in_line (stamp_text t) = true.
Proof.
  pose proof (pieces_in_line [PCls date_char (date_text t); PLit " "; PCls time_char (time_text t)]
    eq_refl) as H. cbn [pieces_text piece_text] in H. rewrite string_app_nil_r in H. apply H.
  repeat constructor; try done; first [apply date_text_ok|apply time_text_ok].
Qed.

(** The text of a line, with the file and the beginning of the message set off *)
Lemma line_text_split e file place' rest :
  place (en_what e) = file +:+ place' →
  line_text e +:+ rest =
  "[INFO] " +:+ (stamp_text (en_time e) +:+ (file +:+
    ((place' +:+ (pretty (en_line e) +:+ pieces_text (message (en_what e)))) +:+ rest))).
Proof.
  intros Hp. unfold line_text, line_pieces. cbn [app pieces_text piece_text PNum]. rewrite Hp.
  unfold stamp_text. by rewrite <-!string_app_assoc.
Qed.

Lemma info_line cf f place' ck k ps r e rest t gs after :
  entry_ok e → line_end rest →
  place (en_what e) = String cf f +:+ place' →
  pieces_text (message (en_what e)) = ":" +:+ (String ck k +:+ pieces_text ps) →
  f ≠ "" → k ≠ "" → Forall piece_ok ps →
  in_line (String cf f) = true → in_line place' = true → in_line (String ck k) = true →
  pieces_avoid at_newline (String cf f) (PLit (f +:+ place') :: PNum (en_line e) :: PLit (":" +:+ String ck k) :: ps) = true →
  pieces_avoid at_newline (String ck k) (PLit k :: ps) = true →
  first r (pieces_text ps +:+ rest) t gs after →
  ∃ u, first (info_pattern (String cf f) (String ck k) r) (line_text e +:+ rest) u
    (stamp_text (en_time e) :: gs) after.
Proof.
  intros He Hend Hp Hm Hf Hk Hps Hlf Hlp Hlk Ha1 Ha2 Hr. destruct He as (_ & Hn & _).
  pose proof (pretty_digits _ Hn) as Hnum.
  rewrite (line_text_split e _ _ _ Hp), Hm.
  assert (place' +:+ (pretty (en_line e) +:+ (":" +:+ (String ck k +:+ pieces_text ps))) =
    (place' +:+ (pretty (en_line e) +:+ ":")) +:+ (String ck k +:+ pieces_text ps)) as ->
    by by rewrite <-!string_app_assoc.
  eapply info_first; try done.
  - apply stamp_in_line.
  - unfold in_line in *. rewrite !all_chars_app, Hlp. cbn [andb].
    fold (in_line (pretty (en_line e))). by rewrite (digit_in_line _ (proj1 Hnum)).
  - pose proof (pieces_absent _ _ _ rest Ha1) as H. cbn [pieces_text piece_text PNum] in H.
    rewrite <-!string_app_assoc in H. rewrite <-!string_app_assoc. apply H; [|by apply line_end_starts].
    repeat (apply Forall_cons_2; [|]); try done. simpl. by destruct f.
  - by eapply (pieces_absent _ _ (PLit k :: ps)), line_end_starts; [|apply Forall_cons_2|].
Qed.

(** What each pattern finds *)
Definition block_key (epoch node : Z) : string :=
  "epoch " +:+ (pretty epoch +:+ (" node " +:+ pretty node)).

Definition batch_of (x : infoline) : option string :=
  match x with ReceivedBatch id => Some (pretty id) | _ => None end.
Definition proposal_of (x : infoline) : option string :=
  match x with CreateConsensusBlock epoch node => Some (block_key epoch node) | _ => None end.
Definition proposalcommit_of (x : infoline) : option string :=
  match x with CommittedConsensusBlock epoch node => Some (block_key epoch node) | _ => None end.
Definition commit_of (x : infoline) : option string :=
  match x with CommittedBlock _ batch_id => Some (pretty batch_id) | _ => None end.

Definition found (f : infoline → option string) (e : entry) : list (list string) :=
  match f (en_what e) with Some id => [[stamp_text (en_time e); id]] | None => [] end.

(** [reads r f]: the pattern [r] finds exactly the lines for which [f] is defined. *)
Definition reads (r : regex) (f : infoline → option string) : Prop :=
  ∀ e rest, entry_ok e →
    findall r (line_text e +:+ String newline rest) = found f e ++ findall r rest.

(** The last part of a match: a number at the end of the line *)
Lemma first_number z rest :
  0 <= z → (∀ c r, rest = String c r → is_digit c = false) →
  first (Group Digits) (pretty z +:+ rest) (pretty z) [pretty z] rest.
Proof. intros Hz Hr. apply first_Group, first_Digits; [by apply pretty_digits|done]. Qed.

Lemma first_block_name epoch node rest :
  0 <= epoch → 0 <= node → line_end rest →
  first block_name (block_key epoch node +:+ rest) (block_key epoch node) [block_key epoch node] rest.
Proof.
  intros He Hn Hend. unfold block_name, block_key. rewrite <-!string_app_assoc.
  apply first_Group, (first_Seq _ _ _ _ [] _ _ [] _ (first_Lit _ _)).
  eapply (first_Seq _ _ _ _ [] _ _ []).
  { apply first_Digits; [by apply pretty_digits|]. by intros c r [= <- _]. }
  apply (first_Seq _ _ _ _ [] _ _ [] _ (first_Lit _ _)).
  apply first_Digits; [by apply pretty_digits|]. intros c r Hc. by rewrite (Hend c r Hc).
Qed.

Lemma findall_matched file key r e rest t gs after :
  first (info_pattern file key r) (line_text e +:+ String newline rest) t gs (after +:+ String newline rest) →
  absent "[INFO] " after (String newline rest) →
  findall (info_pattern file key r) (line_text e +:+ String newline rest) =
  gs :: findall (info_pattern file key r) rest.
Proof.
  intros Hf Ha. etrans; [eapply findall_first, Hf|]. f_equal.
  etrans; [by apply findall_absent|apply findall_newline].
Qed.

(** [other_line]: the text that a pattern looks for is not in a line of another kind. *)
Ltac other_line := by apply findall_other; [|vm_compute| | |].

(** [this_line ps Hfirst]: it is in this one, and [ps] is what follows. *)
Ltac this_line cf f ck k ps Hps Hfirst :=
  edestruct (info_line cf f ".go:" ck k ps) as (? & ?Hu);
  [eassumption|apply line_end_newline|reflexivity|reflexivity|done|done|exact Hps|reflexivity|reflexivity
  |reflexivity|reflexivity|reflexivity|exact Hfirst|].

Lemma not_digit_newline rest c r : String newline rest = String c r → is_digit c = false.
Proof. by intros [= <- _]. Qed.

Lemma reads_batch : reads batch_pattern batch_of.
Proof.
  intros [t n x] rest He. destruct x as [| | | | |id| | | | | | | |[]| |[]| |]; try other_line.
  unfold found. cbn [en_what en_time batch_of app]. pose proof He as (_ & _ & Hid). cbn in Hid.
  assert (Forall piece_ok [PNum id]) as Hps by by apply Forall_singleton, PNum_ok.
  pose proof (first_number id (String newline rest) Hid (not_digit_newline rest)) as Hf.
  rewrite <-(string_app_nil_r (pretty id)) in Hf at 1.
  this_line " "%char "pool" " "%char "Received Batch " [PNum id] Hps Hf.
  eapply (findall_matched _ _ _ _ _ _ _ ""); [exact Hu|apply absent_nil].
Qed.

Lemma block_name_pieces epoch node :
  0 <= epoch → 0 <= node → Forall piece_ok [PLit "epoch "; PNum epoch; PLit " node "; PNum node].
Proof. intros He Hn. repeat constructor; try done; by apply pretty_digits. Qed.

Lemma block_key_text epoch node :
  pieces_text [PLit "epoch "; PNum epoch; PLit " node "; PNum node] = block_key epoch node.
Proof. cbn [pieces_text piece_text PNum]. by rewrite string_app_nil_r. Qed.

Lemma reads_proposal : reads proposal_pattern proposal_of.
Proof.
  intros [t n x] rest He. destruct x as [| | | | |id| | | | | | | |[]| |[]| |epoch node]; try other_line.
  unfold found. cbn [en_what en_time proposal_of app]. pose proof He as (_ & _ & Hep & Hno).
  pose proof (block_name_pieces epoch node Hep Hno) as Hps.
  pose proof (first_block_name epoch node _ Hep Hno (line_end_newline rest)) as Hf.
  rewrite <-block_key_text in Hf at 1.
  this_line " "%char "core" " "%char "create ConsensusBlock "
    [PLit "epoch "; PNum epoch; PLit " node "; PNum node] Hps Hf.
  eapply (findall_matched _ _ _ _ _ _ _ ""); [exact Hu|apply absent_nil].
Qed.

Lemma reads_proposalcommit : reads proposalcommit_pattern proposalcommit_of.
Proof.
  intros [t n x] rest He.
  destruct x as [| | | | |id| | | | | |epoch node| |[]| |[]| |]; try other_line.
  unfold found. cbn [en_what en_time proposalcommit_of app]. pose proof He as (_ & _ & Hep & Hno).
  pose proof (block_name_pieces epoch node Hep Hno) as Hps.
  pose proof (first_block_name epoch node _ Hep Hno (line_end_newline rest)) as Hf.
  rewrite <-block_key_text in Hf at 1.
  this_line " "%char "commitor" " "%char "commit ConsensusBlock "
    [PLit "epoch "; PNum epoch; PLit " node "; PNum node] Hps Hf.
  eapply (findall_matched _ _ _ _ _ _ _ ""); [exact Hu|apply absent_nil].
Qed.

Lemma reads_commit : reads commit_pattern commit_of.
Proof.
  intros [t n x] rest He.
  destruct x as [| | | | |id| | | | |node id| | |[]| |[]| |]; try other_line.
  unfold found. cbn [en_what en_time commit_of app]. pose proof He as (_ & _ & Hno & Hid).
  set (ps := [PNum node; PLit " batch_id "; PNum id; PLit " "]).
  assert (Forall piece_ok ps) as Hps by (repeat constructor; try done; by apply pretty_digits).
  assert (first (Seq Digits (Seq (Lit " batch_id ") (Group Digits))) (pieces_text ps +:+ String newline rest)
    (pretty node +:+ (" batch_id " +:+ pretty id)) [pretty id] (" " +:+ String newline rest)) as Hf.
  { unfold ps. cbn [pieces_text piece_text PNum]. rewrite <-!string_app_assoc, string_nil_app.
    eapply (first_Seq _ _ _ _ [] _ _ [_]).
    { apply first_Digits; [by apply pretty_digits|]. by intros c r [= <- _]. }
    apply (first_Seq _ _ _ _ [] _ _ [_] _ (first_Lit _ _)).
    apply first_number; [done|]. by intros c r [= <- _]. }
  this_line " "%char "commitor" " "%char "commit Block node " ps Hps Hf.
  eapply (findall_matched _ _ _ _ _ _ _ " "); [exact Hu|].
  apply absent_cons. split; [done|apply absent_nil].
Qed.

Lemma reads_nocount : reads nocount_pattern (λ _, None).
Proof. intros [t n x] rest He. destruct x as [| | | | | | | | | | | | |[]| |[]| |]; other_line. Qed.

Lemma reads_epoch : reads epoch_pattern (λ _, None).
Proof. intros [t n x] rest He. destruct x as [| | | | | | | | | | | | |[]| |[]| |]; other_line. Qed.

(** ** The settings *)

(** [setting r f]: the first line for which [f] is defined decides the search for [r]. *)
Definition setting (r : regex) (f : infoline → option Z) : Prop :=
  (∀ x z, f x = Some z → what_ok x → 0 <= z) ∧
  ∀ e rest, entry_ok e →
    search r (line_text e +:+ String newline rest) =
    match f (en_what e) with Some z => Some [pretty z] | None => search r rest end.

Lemma search_newline a l r rest :
  a ≠ newline →
  search (Seq (Lit (String a l)) r) (String newline rest) = search (Seq (Lit (String a l)) r) rest.
Proof.
  intros Ha. apply (search_absent _ _ _ (String newline "") rest). apply absent_cons.
  split; [|apply absent_nil]. cbn [strip]. by rewrite decide_False.
Qed.

Lemma search_other a l r e rest :
  entry_ok e → pieces_avoid at_newline (String a l) (line_pieces e) = true → a ≠ newline →
  search (Seq (Lit (String a l)) r) (line_text e +:+ String newline rest) =
  search (Seq (Lit (String a l)) r) rest.
Proof.
  intros He Hp Ha. etrans; [apply search_absent|by apply search_newline].
  eapply pieces_absent; [exact Hp|by apply line_pieces_ok|apply line_end_starts, line_end_newline].
Qed.

(** A line with the literal behind the first two characters of the message *)
Lemma search_this a l r e tail rest t gs after :
  entry_ok e → pieces_text (message (en_what e)) = ": " +:+ (String a l +:+ tail) →
  pieces_avoid (λ c, bool_decide (c = a)) (String a l)
    [PLit "[INFO] "; PCls date_char (date_text (en_time e)); PLit " ";
     PCls time_char (time_text (en_time e)); PLit (place (en_what e)); PNum (en_line e); PLit ": "] = true →
  first r (tail +:+ String newline rest) t gs after →
  search (Seq (Lit (String a l)) r) (line_text e +:+ String newline rest) = Some gs.
Proof.
  intros He Hm Hp Hr. set (ps := [_; _; _; _; _; _; _]) in Hp.
  assert (Forall piece_ok ps) as Hps.
  { pose proof (line_pieces_ok e He) as H. unfold line_pieces in H. apply Forall_app in H as [H _].
    change ps with ([PLit "[INFO] "; PCls date_char (date_text (en_time e)); PLit " ";
      PCls time_char (time_text (en_time e)); PLit (place (en_what e)); PNum (en_line e)] ++ [PLit ": "]).
    apply Forall_app. split; [exact H|by repeat constructor]. }
  assert (line_text e +:+ String newline rest =
    pieces_text ps +:+ (String a l +:+ (tail +:+ String newline rest))) as ->.
  { unfold line_text, line_pieces, ps. cbn [app pieces_text piece_text PNum].
    rewrite Hm, string_app_nil_r. by rewrite <-!string_app_assoc. }
  etrans; [apply search_absent|eapply search_first].
  - eapply pieces_absent; [exact Hp|exact Hps|]. simpl. by rewrite bool_decide_true.
  - apply (first_Seq _ _ _ _ [] _ _ gs _ (first_Lit _ _) Hr).
Qed.

Definition faults_of (x : infoline) : option Z := match x with DDosFaults _ n => Some n | _ => None end.
Definition tx_size_of (x : infoline) : option Z := match x with TxSizeSet n => Some n | _ => None end.
Definition batch_size_of (x : infoline) : option Z := match x with BatchSizeSet n => Some n | _ => None end.
Definition rate_of (x : infoline) : option Z := match x with RateSet n => Some n | _ => None end.

Ltac other_setting := by apply search_other; [|vm_compute|].

Lemma first_setting z rest :
  0 <= z →
  first (Group Digits) ((pretty z +:+ (" " +:+ "")) +:+ String newline rest) (pretty z) [pretty z]
    (" " +:+ String newline rest).
Proof.
  intros Hz. rewrite <-string_app_assoc. apply first_number; [done|]. by intros c r [= <- _].
Qed.

Lemma setting_tx_size : setting (setting_pattern tx_size_text) tx_size_of.
Proof.
  split; [by intros [] z [= <-]|]. intros [t n x] rest He.
  destruct x as [| | | | | | |z| | | | | |[]| |[]| |]; try other_setting.
  pose proof He as (_ & _ & Hz).
  by eapply search_this; [exact He|reflexivity|reflexivity|by apply first_setting].
Qed.

Lemma setting_batch_size : setting (setting_pattern batch_size_text) batch_size_of.
Proof.
  split; [by intros [] z [= <-]|]. intros [t n x] rest He.
  destruct x as [| | | | | | | |z| | | | |[]| |[]| |]; try other_setting.
  pose proof He as (_ & _ & Hz).
  by eapply search_this; [exact He|reflexivity|reflexivity|by apply first_setting].
Qed.

Lemma setting_rate : setting (setting_pattern rate_text) rate_of.
Proof.
  split; [by intros [] z [= <-]|]. intros [t n x] rest He.
  destruct x as [| | | | | | | | |z| | | |[]| |[]| |]; try other_setting.
  pose proof He as (_ & _ & Hz).
  by eapply search_this; [exact He|reflexivity|reflexivity|by apply first_setting].
Qed.

Lemma setting_faults : setting faults_pattern faults_of.
Proof.
  split; [by intros [] z [= <-]|]. intros [t n x] rest He.
  destruct x as [| | | | | | | | | | | | |b z| |[]| |]; try other_setting.
  pose proof He as (_ & _ & Hz). cbn [en_what what_ok faults_of] in *.
  assert (∀ w, in_line w = true →
    first (Seq Any (Seq (Lit ", Faults: ") (Group Digits)))
      ((w +:+ (", Faults: " +:+ (pretty z +:+ (" " +:+ "")))) +:+ String newline rest)
      (w +:+ (", Faults: " +:+ pretty z)) [pretty z] (" " +:+ String newline rest)) as Hf.
  { intros w Hw. rewrite <-!string_app_assoc, string_nil_app, (string_app_assoc (pretty z)).
    eapply (first_Any_Lit w "," " Faults: " (pretty z +:+ " ") (String newline rest) Hw eq_refl
      (line_end_newline rest)).
    - apply (pieces_absent at_newline _ [PLit " Faults: "; PNum z; PLit " "]); [reflexivity| |].
      + repeat constructor; try done; by apply pretty_digits.
      + apply line_end_starts, line_end_newline.
    - rewrite <-string_app_assoc. apply first_number; [done|]. by intros c r [= <- _]. }
  destruct b.
  - by eapply (search_this _ _ _ _ ("true" +:+ _)); [exact He|reflexivity|reflexivity|apply Hf].
  - by eapply (search_this _ _ _ _ ("false" +:+ _)); [exact He|reflexivity|reflexivity|apply Hf].
Qed.

(** ** The log of a node *)

(** What was logged, with its times *)
Definition events (f : infoline → option string) (es : list entry) : list (string * Z) :=
  omap (λ e, id ← f (en_what e); Some (id, posix (en_time e))) es.

Definition first_of (f : infoline → option Z) (es : list entry) : option Z :=
  head (omap (λ e, f (en_what e)) es).

Definition configs_of (es : list entry) : option Configs :=
  faults ← first_of faults_of es; tx_size ← first_of tx_size_of es;
  batch_size ← first_of batch_size_of es; rate ← first_of rate_of es;
  Some (mkConfigs faults tx_size batch_size rate).

Definition parsed_of (es : list entry) (cfg : Configs) : Parsed :=
  mkParsed ∅ ∅ (dict_of (events batch_of es)) (merge_results [events proposal_of es])
    (merge_results [events commit_of es]) (merge_results [events proposalcommit_of es]) cfg.

Lemma timed_log r f es :
  reads r f → Forall entry_ok es → timed_matches r (log_text es) = Ret (events f es).
Proof.
  intros Hr Hes. unfold timed_matches.
  assert (findall r (log_text es) = es ≫= found f) as ->.
  { induction Hes as [|e es He _ IH]; [done|]. cbn [log_text]. by rewrite bind_cons, Hr, IH. }
  induction Hes as [|e es He _ IH]; [done|]. rewrite bind_cons. unfold found at 1, events.
  cbn [omap list_omap]. destruct (f (en_what e)) as [id|]; cbn [mbind option_bind app]; [|exact IH].
  cbn [collect timed]. rewrite to_posix_stamp_text by apply He. cbn [mbind outcome_bind].
  by rewrite IH.
Qed.

Lemma search_int_log r f es :
  setting r f → Forall entry_ok es →
  search r "" = None →
  search_int r (log_text es) = or_raise AttributeError (first_of f es).
Proof.
  intros [Hpos Hr] Hes Hnil. unfold search_int, first_of. induction Hes as [|e es He _ IH].
  { cbn [log_text omap list_omap head]. by rewrite Hnil. }
  cbn [log_text omap list_omap]. rewrite Hr by done.
  destruct (f (en_what e)) as [z|] eqn:Hz; [|exact IH].
  cbn [head or_raise]. rewrite py_int_pretty; [done|]. by eapply Hpos, He.
Qed.

Lemma no_panic es : Forall entry_ok es → search (Lit "panic") (log_text es) = None.
Proof.
  intros Hes. apply search_Lit_absent. induction Hes as [|e es He _ IH]; [apply absent_nil|].
  cbn [log_text]. apply absent_app. rewrite string_app_nil_r. split.
  - apply (pieces_absent at_newline); [|by apply line_pieces_ok|apply line_end_starts, line_end_newline].
    destruct e as [t n x]. by destruct x as [| | | | | | | | | | | | |[]| |[]| |]; vm_compute.
  - apply absent_cons. by split.
Qed.

(** Reading a log gives back what was logged: from the text that a node writes to its
    info log the script gets the times of exactly the batches, proposals and commits that
    were logged, and the settings of the first lines that report them; if one of these
    is missing, it fails with an [AttributeError].  The two counts of epochs are always
    empty. *)
Lemma parse_log_exact es :
  Forall entry_ok es →
  parse_nodes (log_text es) = or_raise AttributeError (parsed_of es <$> configs_of es).
Proof.
  intros Hes. unfold parse_nodes. rewrite no_panic by done.
  rewrite (timed_log _ _ _ reads_nocount Hes), (timed_log _ _ _ reads_epoch Hes),
    (timed_log _ _ _ reads_batch Hes), (timed_log _ _ _ reads_proposal Hes),
    (timed_log _ _ _ reads_proposalcommit Hes), (timed_log _ _ _ reads_commit Hes).
  assert (events (λ _, None) es = []) as ->.
  { unfold events. clear. by induction es as [|e es IH]. }
  rewrite (search_int_log _ _ _ setting_faults Hes), (search_int_log _ _ _ setting_tx_size Hes),
    (search_int_log _ _ _ setting_batch_size Hes), (search_int_log _ _ _ setting_rate Hes) by done.
  cbn [mbind outcome_bind]. unfold configs_of.
  destruct (first_of faults_of es); [|done]. destruct (first_of tx_size_of es); [|done].
  destruct (first_of batch_size_of es); [|done]. by destruct (first_of rate_of es).
Qed.

(** ** The logs of all nodes *)

(** [o] is the earliest time of [id] in the events of the logs. *)
Definition earliest (evs : list (list (string * Z))) (id : string) (o : option Z) : Prop :=
  match o with
  | Some v => (id, v) ∈ concat evs ∧ ∀ v', (id, v') ∈ concat evs → v <= v'
  | None => ∀ v, (id, v) ∉ concat evs
  end.

(** Maps that keep times of the events, the earliest of each key among them *)
Lemma merged_earliest (maps : list (gmap string Z)) (evs : list (list (string * Z))) id :
  Forall2 (λ m l, ∀ id, earliest [l] id (m !! id)) maps evs →
  earliest evs id (merge_results (map map_to_list maps) !! id).
Proof.
  intros Hm. pose proof (merge_results_least (map map_to_list maps) id) as Hl.
  assert (∀ v, (id, v) ∈ concat (map map_to_list maps) → (id, v) ∈ concat evs) as Hin.
  { intros v. clear Hl. induction Hm as [|m l maps evs Hml _ IH]; [done|]. simpl.
    rewrite !elem_of_app, elem_of_map_to_list. intros [Hv|Hv]; [left|right; by apply IH].
    specialize (Hml id). rewrite Hv in Hml. simpl in Hml. by rewrite app_nil_r in Hml; destruct Hml. }
  assert (∀ v, (id, v) ∈ concat evs → ∃ v', v' <= v ∧ (id, v') ∈ concat (map map_to_list maps)) as Hout.
  { intros v. clear Hl Hin. induction Hm as [|m l maps evs Hml _ IH]; [by intros []%not_elem_of_nil|]. simpl.
    setoid_rewrite elem_of_app. setoid_rewrite elem_of_map_to_list. intros [Hv|Hv].
    - specialize (Hml id). destruct (m !! id) as [w|] eqn:Hw; simpl in Hml; rewrite app_nil_r in Hml.
      + exists w. split; [by apply Hml|by left].
      + by apply Hml in Hv.
    - destruct (IH Hv) as (v' & ? & ?). exists v'. split; [done|by right]. }
  destruct (merge_results (map map_to_list maps) !! id) as [v|].
  - destruct Hl as [H1 H2]. split; [by apply Hin|]. intros v' (w & Hw & Hw')%Hout.
    specialize (H2 w Hw'). lia.
  - intros v (w & _ & Hw)%Hout. by apply Hl in Hw.
Qed.

Lemma merge_one_earliest l id : earliest [l] id (merge_results [l] !! id).
Proof. exact (merge_results_least [l] id). Qed.

(** The last time is the earliest one, if there is only one. *)
Lemma dict_of_earliest l id : NoDup (map fst l) → earliest [l] id (dict_of l !! id).
Proof.
  unfold dict_of. induction l as [|[k v] l IH] using rev_ind; intros Hnd.
  { simpl. rewrite lookup_empty. intros v. apply not_elem_of_nil. }
  rewrite map_app in Hnd. apply NoDup_app in Hnd as (Hnd & Hk & _). specialize (IH Hnd).
  rewrite foldl_app. simpl. destruct (decide (k = id)) as [->|Hne].
  - rewrite lookup_insert_eq. simpl. rewrite app_nil_r. split; [apply elem_of_app; right; left|].
    intros v' [Hv|[= ->]%list_elem_of_singleton]%elem_of_app; [|done].
    exfalso. apply (Hk id); [|left]. apply list_elem_of_fmap. by exists (id, v').
  - rewrite lookup_insert_ne by done. destruct (foldl _ _ l !! id) as [w|]; simpl in *;
      rewrite app_nil_r in *.
    + destruct IH as [H1 H2]. split; [apply elem_of_app; by left|].
      intros v' [Hv|[= -> _]%list_elem_of_singleton]%elem_of_app; [by apply H2|done].
    + intros v' [Hv|[= -> _]%list_elem_of_singleton]%elem_of_app; [by apply IH in Hv|done].
Qed.

Lemma merged_maps (f : Parsed → gmap string Z) (g : infoline → option string)
    (logs : list (list entry)) (ps : list Parsed) id :
  Forall2 (λ p es, ∀ id, earliest [events g es] id (f p !! id)) ps logs →
  earliest (map (events g) logs) id (merged f ps !! id).
Proof.
  intros Hf. unfold merged. rewrite <-(map_map f map_to_list). apply merged_earliest.
  apply Forall2_fmap. exact Hf.
Qed.

(** C37 The earliest times of all nodes: from the logs of nodes that have reported their
    settings the parser gets, for every proposal and commit of a block or batch, the
    earliest time at which a node has logged it, and none for what no node has logged;
    also for the batches received, if no node has logged one twice. *)
Theorem log_parser_exact (logs : list (list entry)) faults :
  logs ≠ [] → Forall (λ es, Forall entry_ok es ∧ is_Some (configs_of es) ∧
    NoDup (map fst (events batch_of es))) logs →
  ∃ lp, LogParser_init (map log_text logs) faults = Ret lp ∧
    lp_committee_size lp = Z.of_nat (length logs) ∧ lp_faults lp = faults ∧
    (∃ es, head logs = Some es ∧ configs_of es = Some (pn_configs (lp_parsed lp))) ∧
    ∀ id, earliest (map (events proposal_of) logs) id (pn_proposals (lp_parsed lp) !! id) ∧
      earliest (map (events proposalcommit_of) logs) id (pn_proposalcommits (lp_parsed lp) !! id) ∧
      earliest (map (events commit_of) logs) id (pn_commits (lp_parsed lp) !! id) ∧
      earliest (map (events batch_of) logs) id (pn_batchs (lp_parsed lp) !! id).
Proof.
  intros Hne Hlogs.
  assert (∃ ps, collect parse_nodes (map log_text logs) = Ret ps ∧
    Forall2 (λ p es, NoDup (map fst (events batch_of es)) ∧
      ∃ cfg, configs_of es = Some cfg ∧ p = parsed_of es cfg) ps logs) as (ps & Hps & H2).
  { clear Hne. induction Hlogs as [|es logs (Hok & [cfg Hcfg] & Hnd) _ (ps & Hps & H2)]; [by exists []|].
    exists (parsed_of es cfg :: ps). cbn [map collect]. rewrite parse_log_exact, Hcfg by done.
    cbn [fmap option_fmap option_map or_raise mbind outcome_bind]. rewrite Hps.
    split; [done|]. constructor; [by split; [|exists cfg]|done]. }
  unfold LogParser_init. rewrite Hps.
  pose proof H2 as Hall. destruct H2 as [|p es ps logs (_ & cfg & Hcfg & Hp) _]; [done|].
  eexists. split; [reflexivity|]. cbn [lp_committee_size lp_faults lp_parsed pn_configs pn_proposals
    pn_proposalcommits pn_commits pn_batchs]. rewrite length_map. split; [done|]. split; [done|].
  split; [by exists es; subst p|].
  intros id. split_and!; apply merged_maps.
  - eapply Forall2_impl; [exact Hall|]. intros p' es' (_ & cfg' & _ & ->) id'. apply merge_one_earliest.
  - eapply Forall2_impl; [exact Hall|]. intros p' es' (_ & cfg' & _ & ->) id'. apply merge_one_earliest.
  - eapply Forall2_impl; [exact Hall|]. intros p' es' (_ & cfg' & _ & ->) id'. apply merge_one_earliest.
  - eapply Forall2_impl; [exact Hall|]. intros p' es' (Hnd & cfg' & _ & ->) id'.
    by apply dict_of_earliest.
Qed.
End stats.

(** ** When there are figures *)

Definition least (m : gmap string Z) (a : Z) : Prop :=
  (∃ k, m !! k = Some a) ∧ ∀ k v, m !! k = Some v → a <= v.
Definition greatest (m : gmap string Z) (a : Z) : Prop :=
  (∃ k, m !! k = Some a) ∧ ∀ k v, m !! k = Some v → v <= a.

Lemma elem_of_values m v : v ∈ values m ↔ ∃ k, m !! k = Some v.
Proof.
  unfold values. rewrite list_elem_of_fmap. setoid_rewrite <-elem_of_map_to_list. split.
  - intros ([k w] & -> & H). by exists k.
  - intros (k & H). by exists (k, v).
Qed.

Lemma foldl_min x l : foldl Z.min x l ∈ x :: l ∧ ∀ v, v ∈ x :: l → foldl Z.min x l <= v.
Proof.
  revert x. induction l as [|y l IH]; intros x; simpl.
  { split; [left|]. by intros v ->%list_elem_of_singleton. }
  destruct (IH (Z.min x y)) as [H1 H2]. split.
  - apply elem_of_cons in H1 as [H1|H1]; [|by do 2 right]. rewrite H1.
    destruct (Z.min_spec x y) as [[_ ->]|[_ ->]]; [left|right; left].
  - intros v [->|[->|Hv]%elem_of_cons]%elem_of_cons.
    + specialize (H2 (Z.min x y) ltac:(left)). lia.
    + specialize (H2 (Z.min x y) ltac:(left)). lia.
    + apply H2. by right.
Qed.

Lemma foldl_max x l : foldl Z.max x l ∈ x :: l ∧ ∀ v, v ∈ x :: l → v <= foldl Z.max x l.
Proof.
  revert x. induction l as [|y l IH]; intros x; simpl.
  { split; [left|]. by intros v ->%list_elem_of_singleton. }
  destruct (IH (Z.max x y)) as [H1 H2]. split.
  - apply elem_of_cons in H1 as [H1|H1]; [|by do 2 right]. rewrite H1.
    destruct (Z.max_spec x y) as [[_ ->]|[_ ->]]; [right; left|left].
  - intros v [->|[->|Hv]%elem_of_cons]%elem_of_cons.
    + specialize (H2 (Z.max x y) ltac:(left)). lia.
    + specialize (H2 (Z.max x y) ltac:(left)). lia.
    + apply H2. by right.
Qed.

Lemma py_min_least m a : py_min (values m) = Ret a ↔ least m a.
Proof.
  unfold least. setoid_rewrite <-elem_of_values. destruct (values m) as [|x l] eqn:Hv; simpl.
  { split; [done|]. by intros [[]%not_elem_of_nil _]. }
  assert (∀ k v, m !! k = Some v → v ∈ x :: l) as Hin by (intros k v Hk; rewrite <-Hv; apply elem_of_values; eauto).
  assert (∀ v, v ∈ x :: l → ∃ k, m !! k = Some v) as Hout by (intros v; rewrite <-Hv; apply elem_of_values).
  destruct (foldl_min x l) as [H1 H2]. split.
  - intros [= <-]. split; [done|]. intros k v Hk. by eapply H2, Hin.
  - intros [Ha Hle]. f_equal. apply Z.le_antisymm; [by apply H2|].
    destruct (Hout _ H1) as (k & Hk). by apply (Hle k).
Qed.

Lemma py_max_greatest m a : py_max (values m) = Ret a ↔ greatest m a.
Proof.
  unfold greatest. setoid_rewrite <-elem_of_values. destruct (values m) as [|x l] eqn:Hv; simpl.
  { split; [done|]. by intros [[]%not_elem_of_nil _]. }
  assert (∀ k v, m !! k = Some v → v ∈ x :: l) as Hin by (intros k v Hk; rewrite <-Hv; apply elem_of_values; eauto).
  assert (∀ v, v ∈ x :: l → ∃ k, m !! k = Some v) as Hout by (intros v; rewrite <-Hv; apply elem_of_values).
  destruct (foldl_max x l) as [H1 H2]. split.
  - intros [= <-]. split; [done|]. intros k v Hk. by eapply H2, Hin.
  - intros [Ha Hle]. f_equal. apply Z.le_antisymm; [|by apply H2].
    destruct (Hout _ H1) as (k & Hk). by apply (Hle k).
Qed.

(** Something has started and something has ended, not at the same time. *)
Definition measurable (starts ends : gmap string Z) : Prop :=
  ∃ a b, least starts a ∧ greatest ends b ∧ a ≠ b.

Lemma throughput_defined starts ends commits batch_size :
  (∃ r, throughput starts ends commits batch_size = Ret r) ↔
  commits = ∅ ∨ measurable starts ends.
Proof.
  unfold throughput. case_decide as Hc; [split; eauto|]. split.
  - intros (r & Hr). right. destruct (py_min (values starts)) as [a|] eqn:Ha; [|done].
    destruct (py_max (values ends)) as [b|] eqn:Hb; [|done]. cbn [mbind outcome_bind] in Hr.
    unfold py_div in Hr. case_decide; [done|]. exists a, b.
    split_and!; [by apply py_min_least|by apply py_max_greatest|lia].
  - intros [|(a & b & Ha%py_min_least & Hb%py_max_greatest & Hne)]; [done|].
    rewrite Ha, Hb. cbn [mbind outcome_bind]. unfold py_div. rewrite decide_False by lia. by eexists.
Qed.

(** The summary exists if and only if no batch was committed, or the first proposal and
    the last commit of a block, and also the first batch and the last commit of a batch,
    exist and have different times.  Otherwise the script ends with an exception, for
    example when it was stopped after the first line about a committed batch and before
    the line about its block. *)
Theorem result_defined lp :
  (∃ s, LogParser_result lp = Ret s) ↔
  pn_commits (lp_parsed lp) = ∅ ∨
  measurable (pn_proposals (lp_parsed lp)) (pn_proposalcommits (lp_parsed lp)) ∧
  measurable (pn_batchs (lp_parsed lp)) (pn_commits (lp_parsed lp)).
Proof.
  unfold LogParser_result, consensus_throughput, end_to_end_throughput. set (p := lp_parsed lp).
  pose proof (throughput_defined (pn_proposals p) (pn_proposalcommits p) (pn_commits p)
    (cf_batch_size (pn_configs p))) as H1.
  pose proof (throughput_defined (pn_batchs p) (pn_commits p) (pn_commits p)
    (cf_batch_size (pn_configs p))) as H2.
  destruct (throughput (pn_proposals p) _ _ _) as [[t1 d1]|e1]; cbn [mbind outcome_bind].
  2: { split; [by intros [s Hs]|]. destruct H1 as [_ H1]. intros Hd. exfalso.
       assert (∃ r, (Raise e1 : outcome (quotient * Z)) = Ret r) as [r Hr] by (apply H1; tauto). done. }
  destruct (throughput (pn_batchs p) _ _ _) as [[t2 d2]|e2]; cbn [mbind outcome_bind].
  - split; [intros _|by eexists]. destruct H1 as [H1 _], H2 as [H2 _].
    specialize (H1 (ex_intro _ _ eq_refl)). specialize (H2 (ex_intro _ _ eq_refl)). tauto.
  - split; [by intros [s Hs]|]. destruct H2 as [_ H2]. intros Hd. exfalso.
    assert (∃ r, (Raise e2 : outcome (quotient * Z)) = Ret r) as [r Hr] by (apply H2; tauto). done.
Qed.

(** What has started before it ended has a latency that is not negative. *)
Lemma latency_nonneg starts ends :
  (∀ id s e, starts !! id = Some s → ends !! id = Some e → s <= e) →
  0 <= py_round (mean_ms (latencies starts ends)).
Proof.
  intros Hse. assert (Forall (λ x, 0 <= x) (latencies starts ends)) as Hl.
  { apply Forall_forall. intros x ([k e] & Hin & Hx)%list_elem_of_omap.
    apply elem_of_map_to_list in Hin. simpl in Hx. destruct (starts !! k) as [s0|] eqn:Hs; [|done].
    injection Hx as <-. specialize (Hse k s0 e Hs Hin). lia. }
  assert (0 <= sum (latencies starts ends)) as Hsum.
  { induction Hl as [|x l Hx _ IH]; simpl; lia. }
  unfold mean_ms. destruct (latencies starts ends) as [|x l]; [done|].
  set (n := sum _) in *. set (d := 1000 * _). assert (0 < d) by (unfold d; simpl length; lia).
  unfold py_round. cbn [qu_num qu_den]. rewrite Z.abs_eq, Z.sgn_pos, Z.mul_1_r by lia.
  assert (0 <= n / d) by (apply Z.div_pos; lia). repeat case_decide; try lia. by case_match; lia.
Qed.
