(* ===== verification/Core.v ===== *)
(** * The consensus core (src/core/smvba/consensus/core.go)

    One goroutine takes messages from the receive channel and runs the handler
    of each; the goroutines of the broadcast instances run beside it.  Every
    handler of core.go is one definition in the panicking state monad [GoM]
    over [Core]; an error is the value that the loop logs.

    The fields [Aggreator], [Elector] and [Commitor] are the components of
    their files.  The nested Go maps of flags are sets and maps keyed by epoch,
    round and node.  The mempool is used through the interface of Port.v.  The
    store is shared with the mempool.  What is handed to the network is recorded
    in [c_sent], the own receive channel is [c_recvCh].  The goroutines of the
    broadcast instances are in [c_threads], each with its instance. *)

From stdpp Require Import base gmap list strings.
From S2P Require Import Prelude Committee Crypto Message Aggreator Elector Commitor Store.
From S2P Require Import Synchronizer Port Spb.

(** Epoch, round and proposer *)
Abbreviation instance_id := (Z * Z * NodeID)%type.

Section core.
Context {CL : CryptoLib} {D : DB} {P : MempoolPort} {G : Gob ConsensusBlock}.
Context (Name : NodeID) (committee : Committee) (parameters : Parameters)
  (sigService : SigService).

Record Core : Type := mkCore {
  c_Store : Store;
  c_mempool : port_state;
  c_Aggreator : Aggreator;
  c_Elector : Elector;
  c_Commitor : Committor;
  c_FinishFlags : gmap instance_id Digest;
  c_SPbInstances : gmap instance_id SPB;
  c_DoneFlags : gset (Z * Z);
  c_ReadyFlags : gset (Z * Z);
  c_HaltFlags : gset Z;
  c_Epoch : Z;
  c_threads : list (instance_id * thread);
  c_sent : list effect;
  c_recvCh : list Message
}.

Definition NewCore (store : Store) (mempool : port_state) : Core :=
  mkCore store mempool (NewAggreator committee) (NewElector sigService committee)
    NewCommittor ∅ ∅ ∅ ∅ ∅ 0 [] [] [].

(** ** Updates of one field *)

Section fields.
Implicit Types (c : Core).
Definition set_c_world (st : Store) (mp : port_state) c : Core :=
  mkCore st mp (c_Aggreator c) (c_Elector c) (c_Commitor c) (c_FinishFlags c)
    (c_SPbInstances c) (c_DoneFlags c) (c_ReadyFlags c) (c_HaltFlags c) (c_Epoch c)
    (c_threads c) (c_sent c) (c_recvCh c).
Definition set_c_Aggreator (a : Aggreator) c : Core :=
  mkCore (c_Store c) (c_mempool c) a (c_Elector c) (c_Commitor c) (c_FinishFlags c)
    (c_SPbInstances c) (c_DoneFlags c) (c_ReadyFlags c) (c_HaltFlags c) (c_Epoch c)
    (c_threads c) (c_sent c) (c_recvCh c).
Definition set_c_Elector (e : Elector) c : Core :=
  mkCore (c_Store c) (c_mempool c) (c_Aggreator c) e (c_Commitor c) (c_FinishFlags c)
    (c_SPbInstances c) (c_DoneFlags c) (c_ReadyFlags c) (c_HaltFlags c) (c_Epoch c)
    (c_threads c) (c_sent c) (c_recvCh c).
Definition set_c_Commitor (m : Committor) c : Core :=
  mkCore (c_Store c) (c_mempool c) (c_Aggreator c) (c_Elector c) m (c_FinishFlags c)
    (c_SPbInstances c) (c_DoneFlags c) (c_ReadyFlags c) (c_HaltFlags c) (c_Epoch c)
    (c_threads c) (c_sent c) (c_recvCh c).
Definition set_c_FinishFlags (f : gmap instance_id Digest) c : Core :=
  mkCore (c_Store c) (c_mempool c) (c_Aggreator c) (c_Elector c) (c_Commitor c) f
    (c_SPbInstances c) (c_DoneFlags c) (c_ReadyFlags c) (c_HaltFlags c) (c_Epoch c)
    (c_threads c) (c_sent c) (c_recvCh c).
Definition set_c_spb (i : gmap instance_id SPB) (ts : list (instance_id * thread)) c : Core :=
  mkCore (c_Store c) (c_mempool c) (c_Aggreator c) (c_Elector c) (c_Commitor c)
    (c_FinishFlags c) i (c_DoneFlags c) (c_ReadyFlags c) (c_HaltFlags c) (c_Epoch c)
    ts (c_sent c) (c_recvCh c).
Definition set_c_flags (dn rd : gset (Z * Z)) c : Core :=
  mkCore (c_Store c) (c_mempool c) (c_Aggreator c) (c_Elector c) (c_Commitor c)
    (c_FinishFlags c) (c_SPbInstances c) dn rd (c_HaltFlags c) (c_Epoch c)
    (c_threads c) (c_sent c) (c_recvCh c).
Definition set_c_HaltFlags (h : gset Z) c : Core :=
  mkCore (c_Store c) (c_mempool c) (c_Aggreator c) (c_Elector c) (c_Commitor c)
    (c_FinishFlags c) (c_SPbInstances c) (c_DoneFlags c) (c_ReadyFlags c) h (c_Epoch c)
    (c_threads c) (c_sent c) (c_recvCh c).
Definition set_c_Epoch (e : Z) c : Core :=
  mkCore (c_Store c) (c_mempool c) (c_Aggreator c) (c_Elector c) (c_Commitor c)
    (c_FinishFlags c) (c_SPbInstances c) (c_DoneFlags c) (c_ReadyFlags c) (c_HaltFlags c)
    e (c_threads c) (c_sent c) (c_recvCh c).
Definition set_c_out (sent : list effect) (recv : list Message) c : Core :=
  mkCore (c_Store c) (c_mempool c) (c_Aggreator c) (c_Elector c) (c_Commitor c)
    (c_FinishFlags c) (c_SPbInstances c) (c_DoneFlags c) (c_ReadyFlags c) (c_HaltFlags c)
    (c_Epoch c) (c_threads c) sent recv.
End fields.

(** ** Output *)

(** [Transimtor.Send(c.Name, core.NONE, msg)] *)
Definition transmit (msg : Message) : GoM Core unit :=
  modify (λ c, set_c_out (c_sent c ++ [Send Name NONE msg]) (c_recvCh c) c).

(** [Transimtor.RecvChannel() <- msg] *)
Definition enqueue (msg : Message) : GoM Core unit :=
  modify (λ c, set_c_out (c_sent c) (c_recvCh c ++ [msg]) c).

(** A message whose construction failed is a nil pointer, on which encoding and
    verification panic. *)
Definition must {A} (r : result A) : GoM Core A :=
  match r with
  | Ok a => mret a
  | Err _ => panic "nil message"
  end.

(** ** Helpers *)

Definition messgaeFilter (epoch : Z) : GoM Core bool :=
  read (λ c, bool_decide (epoch < c_Epoch c)).

Definition storeConsensusBlock (block : option ConsensusBlock) : GoM Core (result unit) :=
  match block with
  | None => panic "nil pointer dereference"
  | Some b =>
      λ c,
      match gob_Encode b with
      | Err e => Returns (Err e) c
      | Ok value =>
          let '(err, st) := Store_Write (c_Store c) (ConsensusBlock_Hash b) value in
          Returns err (set_c_world st (c_mempool c) c)
      end
  end.

Definition getConsensusBlock (digest : Digest) : GoM Core (result (option ConsensusBlock)) :=
  read (λ c,
    match Store_Read (c_Store c) digest with
    | Err e => if decide (e = ErrNotFoundKey) then Ok None else Err e
    | Ok value =>
        match gob_Decode value with
        | Err e => Err e
        | Ok b => Ok (Some b)
        end
    end).

(** The instance is created on first use. *)
Definition getSpbInstance (k : instance_id) : GoM Core SPB := λ c,
  match c_SPbInstances c !! k with
  | Some s => Returns s c
  | None =>
      let s := NewSPB k.1.1 k.1.2 k.2 in
      Returns s (set_c_spb (<[k := s]> (c_SPbInstances c)) (c_threads c) c)
  end.

(** The [go] statement *)
Definition spawn (k : instance_id) (t : thread) : GoM Core unit :=
  modify (λ c, set_c_spb (c_SPbInstances c) (c_threads c ++ [(k, t)]) c).

(** [go c.getSpbInstance(...).process...(...)] *)
Definition launch (k : instance_id) (t : thread) : GoM Core unit :=
  getSpbInstance k;; spawn k t.

Definition hasFinish (epoch round : Z) (node : NodeID) : GoM Core (option Digest) :=
  read (λ c, c_FinishFlags c !! (epoch, round, node)).

Definition hasReady (epoch round : Z) : GoM Core bool :=
  read (λ c, bool_decide ((epoch, round) ∈ c_ReadyFlags c)).

Definition hasDone (epoch round : Z) : GoM Core bool :=
  read (λ c, bool_decide ((epoch, round) ∈ c_DoneFlags c)).

(** [c.Elector.Leader(epoch, round)] *)
Definition leader_of (epoch round : Z) : GoM Core NodeID := λ c,
  let '(leader, e) := Elector_Leader (c_Elector c) epoch round in
  Returns leader (set_c_Elector e c).

Definition generatorBlock (epoch : Z) : GoM Core ConsensusBlock := λ c,
  let '(payloads, (mp, st)) :=
    port_make (MaxPayloadSize parameters) (c_mempool c) (c_Store c) in
  Returns (NewConsensusBlock Name payloads epoch) (set_c_world st mp c).

Definition verifyConsensusBlock (block : option ConsensusBlock) : GoM Core bool :=
  match block with
  | None => panic "nil pointer dereference"
  | Some b =>
      λ c,
      let msg := mkVerifyBlockMsg (cb_Proposer b) (cb_Epoch b) (cb_PayLoads b)
                   (ConsensusBlock_Hash b) in
      let '(status, (mp, st)) := port_verify msg (c_mempool c) (c_Store c) in
      Returns (bool_decide (status = OK)) (set_c_world st mp c)
  end.

(** [c.Commitor.Commit(block)] *)
Definition commit (block : option ConsensusBlock) : GoM Core unit :=
  match block with
  | None => panic "nil pointer dereference"
  | Some b => modify (λ c, set_c_Commitor (Committor_Commit (c_Commitor c) b) c)
  end.

(** A block is committed only after its payloads are verified. *)
Definition commit_if_verified (block : option ConsensusBlock) : GoM Core unit :=
  ok ← verifyConsensusBlock block;
  if ok : bool then commit block else mret tt.

(** The first lines of [handleSpbProposal] and the middle of [handleLoopBack]: a
    block of the leader of a halted epoch is committed. *)
Definition commit_if_halted (epoch round : Z) (author : NodeID)
    (block : option ConsensusBlock) : GoM Core unit :=
  halted ← read (λ c, bool_decide (epoch ∈ c_HaltFlags c));
  if halted : bool then
    leader ← leader_of epoch round;
    if decide (leader = author) then commit_if_verified block else mret tt
  else mret tt.

(** ** Handlers *)

Definition handleSpbProposal (p : SPBProposal) : GoM Core (result unit) :=
  (if decide (sp_Phase p = SPB_ONE_PHASE)
   then commit_if_halted (sp_Epoch p) (sp_Round p) (sp_Author p) (sp_B p)
   else mret tt);;
  stale ← messgaeFilter (sp_Epoch p);
  if stale : bool then mret (Ok tt)
  else
    let start :=
      let k := (sp_Epoch p, sp_Round p, sp_Author p) in
      launch k (TProposal p);; mret (Ok tt) in
    if decide (sp_Phase p = SPB_ONE_PHASE) then
      err ← storeConsensusBlock (sp_B p);
      match err with
      | Err e => mret (Err e)
      | Ok _ =>
          ok ← verifyConsensusBlock (sp_B p);
          if ok : bool then start else mret (Ok tt)
      end
    else start.

Definition handleSpbVote (v : SPBVote) : GoM Core (result unit) :=
  stale ← messgaeFilter (sv_Epoch v);
  if stale : bool then mret (Ok tt)
  else
    let k := (sv_Epoch v, sv_Round v, sv_Proposer v) in
    launch k (TVote v);; mret (Ok tt).

Definition invokeDoneAndShare (epoch round : Z) : GoM Core (result unit) :=
  done ← hasDone epoch round;
  if done : bool then mret (Ok tt)
  else
    done ← must (NewDone Name epoch round sigService);
    share ← must (NewElectShare Name epoch round sigService);
    transmit (MDone done);; transmit (MElectShare share);;
    enqueue (MDone done);; enqueue (MElectShare share);;
    modify (λ c, set_c_flags ({[(epoch, round)]} ∪ c_DoneFlags c) (c_ReadyFlags c) c);;
    mret (Ok tt).

Definition handleFinish (f : Finish) : GoM Core (result unit) :=
  stale ← messgaeFilter (fi_Epoch f);
  if stale : bool then mret (Ok tt)
  else
    flag ← act (λ c, let '(r, a) := Aggreator_AddFinishVote (c_Aggreator c) f in
                     (r, set_c_Aggreator a c));
    match flag with
    | Err e => mret (Err e)
    | Ok flag =>
        modify (λ c, set_c_FinishFlags
          (<[(fi_Epoch f, fi_Round f, fi_Author f) := fi_BlockHash f]> (c_FinishFlags c)) c);;
        if flag : bool then invokeDoneAndShare (fi_Epoch f) (fi_Round f) else mret (Ok tt)
    end.

(** [halt] and [preVote] go to all nodes and to the own channel. *)
Definition broadcast (msg : Message) : GoM Core unit := transmit msg;; enqueue msg.

Definition processLeader (epoch round : Z) : GoM Core (result unit) :=
  leader_of epoch round;;
  ready ← hasReady epoch round;
  if ready : bool then
    leader ← leader_of epoch round;
    if decide (leader = NONE) then mret (Ok tt)
    else
      finish ← hasFinish epoch round leader;
      match finish with
      | Some d =>
          halt ← must (NewHalt Name leader d epoch round sigService);
          broadcast (MHalt halt);; mret (Ok tt)
      | None =>
          spb ← getSpbInstance (epoch, round, leader);
          preVote ←
            (if SPB_IsLock spb then
               match SPB_GetBlockHash spb with
               | None => panic "block hash is nil"
               | Some blockHash =>
                   must (NewPrevote Name leader epoch round VOTE_FLAG_YES blockHash sigService)
               end
             else must (NewPrevote Name leader epoch round VOTE_FLAG_NO zero_Digest sigService));
          broadcast (MPrevote preVote);; mret (Ok tt)
      end
  else mret (Ok tt).

Definition handleDone (d : Done) : GoM Core (result unit) :=
  stale ← messgaeFilter (dn_Epoch d);
  if stale : bool then mret (Ok tt)
  else
    flag ← act (λ c, let '(r, a) := Aggreator_AddDoneVote (c_Aggreator c) d in
                     (r, set_c_Aggreator a c));
    match flag with
    | Err e => mret (Err e)
    | Ok flag =>
        if decide (flag = DONE_LOW_FLAG) then invokeDoneAndShare (dn_Epoch d) (dn_Round d)
        else if decide (flag = DONE_HIGH_FLAG) then
          modify (λ c, set_c_flags (c_DoneFlags c)
            ({[(dn_Epoch d, dn_Round d)]} ∪ c_ReadyFlags c) c);;
          processLeader (dn_Epoch d) (dn_Round d)
        else mret (Ok tt)
    end.

(** [c.Elector.AddShareVote(share)] *)
Definition add_share (share : ElectShare) : GoM Core (result NodeID) := λ c,
  match Elector_AddShareVote (c_Elector c) share with
  | Crash why => Crash why
  | Returns r e => Returns r (set_c_Elector e c)
  end.

Definition handleElectShare (share : ElectShare) : GoM Core (result unit) :=
  stale ← messgaeFilter (es_Epoch share);
  if stale : bool then mret (Ok tt)
  else
    leader ← add_share share;
    match leader with
    | Err e => mret (Err e)
    | Ok leader =>
        if decide (leader ≠ NONE)
        then processLeader (es_Epoch share) (es_Round share);; mret (Ok tt)
        else mret (Ok tt)
    end.

Definition handlePrevote (pv : Prevote) : GoM Core (result unit) :=
  stale ← messgaeFilter (pv_Epoch pv);
  if stale : bool then mret (Ok tt)
  else
    flag ← act (λ c, let '(r, a) := Aggreator_AddPreVote (c_Aggreator c) pv in
                     (r, set_c_Aggreator a c));
    match flag with
    | Err e => mret (Err e)
    | Ok flag =>
        if decide (flag = ACTION_NO) then
          vote ← must (NewFinVote Name (pv_Leader pv) (pv_Epoch pv) (pv_Round pv)
                         VOTE_FLAG_NO (pv_BlockHash pv) sigService);
          broadcast (MFinVote vote);; mret (Ok tt)
        else if decide (flag = ACTION_YES) then
          vote ← must (NewFinVote Name (pv_Leader pv) (pv_Epoch pv) (pv_Round pv)
                         VOTE_FLAG_YES (pv_BlockHash pv) sigService);
          broadcast (MFinVote vote);; mret (Ok tt)
        else mret (Ok tt)
    end.

Definition advanceNextRound (epoch round flag : Z) (blockHash : Digest)
  : GoM Core (result unit) :=
  stale ← messgaeFilter epoch;
  if stale : bool then mret (Ok tt)
  else
    blockHash ←
      (if decide (flag = ACTION_NO) then
         spb ← getSpbInstance (epoch, round, Name);
         mret (default blockHash (SPB_GetBlockHash spb))
       else mret blockHash);
    block ← getConsensusBlock blockHash;
    match block with
    | Err e => mret (Err e)
    | Ok block =>
        proposal ←
          match block with
          | Some b => must (NewSPBProposal Name (Some b) epoch (wrap64 (round + 1))
                              SPB_ONE_PHASE sigService)
          | None =>
              b ← generatorBlock epoch;
              must (NewSPBProposal Name (Some b) epoch (wrap64 (round + 1))
                      SPB_ONE_PHASE sigService)
          end;
        broadcast (MSPBProposal proposal);; mret (Ok tt)
    end.

Definition handleFinvote (fv : FinVote) : GoM Core (result unit) :=
  stale ← messgaeFilter (fv_Epoch fv);
  if stale : bool then mret (Ok tt)
  else
    flag ← act (λ c, let '(r, a) := Aggreator_AddFinVote (c_Aggreator c) fv in
                     (r, set_c_Aggreator a c));
    match flag with
    | Err e => mret (Err e)
    | Ok flag =>
        if decide (flag = ACTION_YES) then
          advanceNextRound (fv_Epoch fv) (fv_Round fv) flag (fv_BlockHash fv)
        else if decide (flag = ACTION_NO) then
          advanceNextRound (fv_Epoch fv) (fv_Round fv) flag zero_Digest
        else if decide (flag = ACTION_COMMIT) then
          halt ← must (NewHalt Name (fv_Leader fv) (fv_BlockHash fv) (fv_Epoch fv)
                         (fv_Round fv) sigService);
          broadcast (MHalt halt);; mret (Ok tt)
        else mret (Ok tt)
    end.

Definition advanceNextEpoch (epoch : Z) : GoM Core unit :=
  old ← read (λ c, bool_decide (epoch <= c_Epoch c));
  if old : bool then mret tt
  else
    modify (set_c_Epoch epoch);;
    block ← generatorBlock epoch;
    proposal ← must (NewSPBProposal Name (Some block) epoch 0 SPB_ONE_PHASE sigService);
    broadcast (MSPBProposal proposal).

Definition handleOutput (epoch : Z) (blockHash : Digest) : GoM Core (result unit) :=
  b ← getConsensusBlock blockHash;
  match b with
  | Err e => mret (Err e)
  | Ok (Some b) => commit_if_verified (Some b);; mret (Ok tt)
  | Ok None => mret (Ok tt)
  end.

Definition handleHalt (h : Halt) : GoM Core (result unit) :=
  stale ← messgaeFilter (ha_Epoch h);
  if stale : bool then mret (Ok tt)
  else
    halted ← read (λ c, bool_decide (ha_Epoch h ∈ c_HaltFlags c));
    if halted : bool then mret (Ok tt)
    else
      modify (λ c, set_c_Elector
        (Elector_SetLeader (c_Elector c) (ha_Epoch h) (ha_Round h) (ha_Leader h)) c);;
      err ← handleOutput (ha_Epoch h) (ha_BlockHash h);
      match err with
      | Err e => mret (Err e)
      | Ok _ =>
          modify (λ c, set_c_HaltFlags ({[ha_Epoch h]} ∪ c_HaltFlags c) c);;
          advanceNextEpoch (wrap64 (ha_Epoch h + 1));;
          mret (Ok tt)
      end.

Definition handleLoopBack (blockhash : Digest) : GoM Core (result unit) :=
  block ← getConsensusBlock blockhash;
  match block with
  | Err e => mret (Err e)
  | Ok None => panic "nil pointer dereference"
  | Ok (Some b) =>
      proposal ← must (NewSPBProposal (cb_Proposer b) (Some b) (cb_Epoch b) 0
                         SPB_ONE_PHASE sigService);
      commit_if_halted (sp_Epoch proposal) (sp_Round proposal) (sp_Author proposal)
        (sp_B proposal);;
      stale ← messgaeFilter (cb_Epoch b);
      if stale : bool then mret (Ok tt)
      else
        let k := (sp_Epoch proposal, sp_Round proposal, sp_Author proposal) in
        launch k (TProposal proposal);; mret (Ok tt)
  end.

(** ** [Run] *)

(** Before the loop: the first proposal.  A node that is configured as faulty
    stops here. *)
Definition Core_start : GoM Core unit :=
  if decide (Name < Faults parameters) then mret tt
  else
    epoch ← read c_Epoch;
    block ← generatorBlock epoch;
    proposal ← must (NewSPBProposal Name (Some block) epoch 0 SPB_ONE_PHASE sigService);
    broadcast (MSPBProposal proposal).

Definition dispatch (msg : Message) : GoM Core (result unit) :=
  match msg with
  | MSPBProposal p => handleSpbProposal p
  | MSPBVote v => handleSpbVote v
  | MFinish f => handleFinish f
  | MDone d => handleDone d
  | MElectShare share => handleElectShare share
  | MPrevote pv => handlePrevote pv
  | MFinVote fv => handleFinvote fv
  | MHalt h => handleHalt h
  end.

(** One turn of the loop on a message *)
Definition Core_receive (msg : Message) : GoM Core (result unit) :=
  match Verify committee msg with
  | None => panic "ed25519: bad public key length"
  | Some false => mret (Err (ErrSignature (MsgType msg)))
  | Some true => dispatch msg
  end.

(** ** The node as a transition system *)

(** The effects of a broadcast goroutine on the core's channels *)
Definition emit (es : list effect) (c : Core) : Core :=
  set_c_out
    (c_sent c ++ List.filter (λ e, match e with Send _ _ _ => true | _ => false end) es)
    (c_recvCh c ++ omap (λ e, match e with Enqueue m => Some m | _ => None end) es) c.

Inductive node_step : Core → Core → Prop :=
  (** the loop takes a message *)
  | node_receive c msg rest r c' :
      c_recvCh c = msg :: rest →
      Core_receive msg (set_c_out (c_sent c) rest c) = Returns r c' →
      node_step c c'
  (** the loop takes a block that the synchronizer has completed *)
  | node_loopback c h r c' :
      handleLoopBack h c = Returns r c' → node_step c c'
  (** the network delivers a message *)
  | node_deliver c msg :
      node_step c (set_c_out (c_sent c) (c_recvCh c ++ [msg]) c)
  (** a goroutine of a broadcast instance takes a step *)
  | node_thread c l1 k t l2 s ts es s' :
      c_threads c = l1 ++ (k, t) :: l2 → c_SPbInstances c !! k = Some s →
      spb_step Name committee sigService t s = Returns (ts, es) s' →
      node_step c (emit es (set_c_spb (<[k := s']> (c_SPbInstances c))
                              (l1 ++ map (pair k) ts ++ l2) c))
  (** the mempool and the synchronizer work on their own; the store only grows *)
  | node_world c st mp :
      (∀ d, readable (c_Store c) d → readable st d) →
      node_step c (set_c_world st mp c).

Definition node_reachable (store : Store) (mempool : port_state) (c : Core) : Prop :=
  ∃ c0, Core_start (NewCore store mempool) = Returns tt c0 ∧ rtc node_step c0 c.

(** ** Every broadcast instance of a node runs as Spb.v describes *)

Definition spb_of (k : instance_id) (c : Core) : SPB :=
  default (NewSPB k.1.1 k.1.2 k.2) (c_SPbInstances c !! k).

Definition of_instance (k : instance_id) (kt : instance_id * thread) : bool :=
  bool_decide (kt.1 = k).

Definition threads_of (k : instance_id) (c : Core) : list thread :=
  map snd (List.filter (of_instance k) (c_threads c)).

(** The instance [k] of the node as a system of Spb.v *)
Definition view (k : instance_id) (c : Core) (tr : list effect) (ps : list SPBProposal)
    (vs : list SPBVote) : sys :=
  mkSys (spb_of k c) (threads_of k c) tr ps vs.

(** Goroutines belong to existing instances. *)
Definition keyed (c : Core) : Prop :=
  ∀ k t, (k, t) ∈ c_threads c → is_Some (c_SPbInstances c !! k).

(** In going from [c] to [c'] the core has only handed messages to instances. *)
Definition grows (c c' : Core) : Prop :=
  (∀ k tr ps vs, ∃ ps' vs', rtc arrival (view k c tr ps vs) (view k c' tr ps' vs')) ∧
  (keyed c → keyed c').

#[local] Instance grows_preorder : PreOrder grows.
Proof.
  split.
  - intros c. split; [|done]. intros k tr ps vs. by exists ps, vs.
  - intros c1 c2 c3 [H12 K12] [H23 K23]. split; [|auto]. intros k tr ps vs.
    destruct (H12 k tr ps vs) as (ps2 & vs2 & Hr2).
    destruct (H23 k tr ps2 vs2) as (ps3 & vs3 & Hr3). exists ps3, vs3. by etrans.
Qed.

Lemma grows_same c c' :
  c_SPbInstances c' = c_SPbInstances c → c_threads c' = c_threads c → grows c c'.
Proof.
  intros Hi Ht. split.
  - intros k tr ps vs. exists ps, vs. unfold view, spb_of, threads_of. by rewrite Hi, Ht.
  - unfold keyed. by rewrite Hi, Ht.
Qed.

Lemma getSpbInstance_grows k : respects grows (getSpbInstance k).
Proof.
  intros c. unfold wlp, getSpbInstance. destruct (c_SPbInstances c !! k) eqn:Hk; [done|].
  split.
  - intros k' tr ps vs. exists ps, vs. unfold view, spb_of, threads_of. simpl.
    destruct (decide (k = k')) as [->|Hne].
    + by rewrite lookup_insert_eq, Hk.
    + by rewrite lookup_insert_ne.
  - intros Hkeyed k' t Hin. simpl in *. destruct (decide (k = k')) as [->|Hne].
    + rewrite lookup_insert_eq. eauto.
    + rewrite lookup_insert_ne by done. by apply (Hkeyed k' t).
Qed.

Lemma threads_of_spawn k k' t c :
  threads_of k' (set_c_spb (c_SPbInstances c) (c_threads c ++ [(k, t)]) c) =
  threads_of k' c ++ if decide (k = k') then [t] else [].
Proof.
  unfold threads_of. simpl. rewrite List.filter_app, map_app. f_equal. simpl.
  unfold of_instance. simpl. case_bool_decide; case_decide; done.
Qed.

(** What the core starts is a message for the instance. *)
Definition starts (t : thread) : Prop :=
  match t with TProposal p => has_block p = true | TVote _ => True | _ => False end.

Lemma spawn_grows k t c :
  starts t → is_Some (c_SPbInstances c !! k) →
  grows c (set_c_spb (c_SPbInstances c) (c_threads c ++ [(k, t)]) c).
Proof.
  intros Ht Hk. split.
  - intros k' tr ps vs. unfold view. rewrite threads_of_spawn.
    destruct (decide (k = k')) as [->|Hne].
    + destruct t; try done; simpl in Ht.
      * exists (ps ++ [p]), vs. by apply rtc_once, arrive_proposal.
      * exists ps, (vs ++ [v]). by apply rtc_once, arrive_vote.
    + exists ps, vs. by rewrite app_nil_r.
  - intros Hkeyed k' t' Hin. simpl in *.
    apply elem_of_app in Hin as [Hin|Heq%list_elem_of_singleton]; [by apply (Hkeyed k' t')|].
    by simplify_eq.
Qed.

Lemma launch_grows k t : starts t → respects grows (launch k t).
Proof.
  intros Ht c. pose proof (getSpbInstance_grows k c) as Hg.
  unfold wlp, launch, mbind, GoM_bind, spawn, modify in *.
  destruct (getSpbInstance k c) as [s c1|] eqn:Hs; [|done]. etrans; [exact Hg|].
  apply spawn_grows; [done|]. unfold getSpbInstance in Hs.
  destruct (c_SPbInstances c !! k) eqn:Hk; simplify_eq; [by eauto|].
  simpl. rewrite lookup_insert_eq. eauto.
Qed.

Lemma modify_grows (f : Core → Core) :
  (∀ c, c_SPbInstances (f c) = c_SPbInstances c) → (∀ c, c_threads (f c) = c_threads c) →
  respects grows (modify f).
Proof. intros. apply respects_modify. intros c. by apply grows_same. Qed.

Lemma world_grows {A} (f : Core → A * (port_state * Store)) :
  respects grows (λ c, Returns (f c).1 (set_c_world (f c).2.2 (f c).2.1 c)).
Proof. intros c. by apply grows_same. Qed.

Lemma storeConsensusBlock_grows b : respects grows (storeConsensusBlock b).
Proof.
  destruct b as [b|]; [|apply respects_panic]. intros c. unfold wlp. simpl.
  destruct (gob_Encode b); [|done]. destruct (Store_Write _ _ _). by apply grows_same.
Qed.

Lemma verifyConsensusBlock_grows b : respects grows (verifyConsensusBlock b).
Proof.
  destruct b as [b|]; [|apply respects_panic]. intros c. unfold wlp. simpl.
  destruct (port_verify _ _ _) as [s [mp st]]. by apply grows_same.
Qed.

Lemma generatorBlock_grows e : respects grows (generatorBlock e).
Proof.
  intros c. unfold wlp, generatorBlock. destruct (port_make _ _ _) as [s [mp st]].
  by apply grows_same.
Qed.

Lemma leader_of_grows e r : respects grows (leader_of e r).
Proof. intros c. by apply grows_same. Qed.

Lemma add_share_grows share : respects grows (add_share share).
Proof.
  intros c. unfold wlp, add_share. destruct (Elector_AddShareVote _ _); [|done].
  by apply grows_same.
Qed.

Lemma must_grows {A} (r : result A) : respects grows (must r).
Proof. unfold must. respects_steps fail. Qed.

Lemma commit_grows b : respects grows (commit b).
Proof. destruct b; [by apply modify_grows|apply respects_panic]. Qed.

(** A step that only touches other fields *)
Ltac grows_tac :=
  first
    [ apply must_grows | apply leader_of_grows | apply generatorBlock_grows
    | apply verifyConsensusBlock_grows | apply storeConsensusBlock_grows
    | apply add_share_grows | apply commit_grows | apply getSpbInstance_grows
    | by apply modify_grows
    | apply respects_act; intros ?; repeat case_match; by apply grows_same
    | by apply launch_grows ].

Lemma broadcast_grows m : respects grows (broadcast m).
Proof. unfold broadcast, transmit, enqueue. respects_steps grows_tac. Qed.

Lemma commit_if_verified_grows b : respects grows (commit_if_verified b).
Proof. unfold commit_if_verified. respects_steps grows_tac. Qed.

Lemma commit_if_halted_grows e r a b : respects grows (commit_if_halted e r a b).
Proof. unfold commit_if_halted. respects_steps ltac:(first [apply commit_if_verified_grows|grows_tac]). Qed.

Lemma processLeader_grows e r : respects grows (processLeader e r).
Proof.
  unfold processLeader, hasReady, hasFinish.
  respects_steps ltac:(first [apply broadcast_grows|grows_tac]).
Qed.

Lemma invokeDoneAndShare_grows e r : respects grows (invokeDoneAndShare e r).
Proof.
  unfold invokeDoneAndShare, hasDone, transmit, enqueue. respects_steps grows_tac.
Qed.

Lemma advanceNextRound_grows e r f h : respects grows (advanceNextRound e r f h).
Proof.
  unfold advanceNextRound, messgaeFilter, getConsensusBlock.
  respects_steps ltac:(first [apply broadcast_grows|grows_tac]).
Qed.

Lemma handleSpbProposal_grows p : respects grows (handleSpbProposal p).
Proof.
  unfold handleSpbProposal, messgaeFilter. refine (respects_bind _ _ _ _ _); [respects_steps
    ltac:(first [apply commit_if_halted_grows|grows_tac])|intros _].
  refine (respects_bind _ _ _ _ _); [refine (respects_read _ _)|intros stale].
  destruct stale; [refine (respects_ret _ _)|]. destruct (decide (sp_Phase p = SPB_ONE_PHASE)).
  - destruct (sp_B p) as [b|] eqn:Hb; [|apply respects_bind_panic].
    assert (has_block p = true) by (apply bool_decide_eq_true; rewrite Hb; eauto).
    respects_steps grows_tac.
  - assert (has_block p = true) by (by apply bool_decide_eq_true). respects_steps grows_tac.
Qed.

Lemma handleLoopBack_grows h : respects grows (handleLoopBack h).
Proof.
  unfold handleLoopBack, getConsensusBlock, messgaeFilter.
  refine (respects_bind _ _ _ _ _); [refine (respects_read _ _)|intros [[b|]|]]; [|apply respects_panic|refine (respects_ret _ _)].
  apply (respects_bind_ret (A := SPBProposal)). simpl.
  respects_steps ltac:(first [apply commit_if_halted_grows|grows_tac
    |apply launch_grows, bool_decide_eq_true; eauto]).
Qed.

Lemma dispatch_grows m : respects grows (dispatch m).
Proof.
  destruct m; simpl; [apply handleSpbProposal_grows|..];
    unfold handleSpbVote, handleFinish, handleDone, handleElectShare, handlePrevote,
      handleFinvote, handleHalt, handleOutput, advanceNextEpoch, messgaeFilter, getConsensusBlock;
    respects_steps ltac:(first [apply broadcast_grows|apply processLeader_grows
      |apply commit_if_verified_grows|apply invokeDoneAndShare_grows|apply advanceNextRound_grows|grows_tac]).
Qed.

Lemma Core_receive_grows m : respects grows (Core_receive m).
Proof. unfold Core_receive. respects_steps ltac:(apply dispatch_grows). Qed.

Lemma Core_start_grows : respects grows Core_start.
Proof. unfold Core_start. respects_steps ltac:(first [apply broadcast_grows|grows_tac]). Qed.

Definition instances_ok (c : Core) : Prop :=
  keyed c ∧
  ∀ k, ∃ tr ps vs,
    reachable Name committee sigService k.1.1 k.1.2 k.2 (view k c tr ps vs).

Lemma grows_ok c c' : grows c c' → instances_ok c → instances_ok c'.
Proof.
  intros [Hg Hk] [Hkey Hok]. split; [auto|]. intros k.
  destruct (Hok k) as (tr & ps & vs & Hr). destruct (Hg k tr ps vs) as (ps' & vs' & Ha).
  exists tr, ps', vs'. unfold reachable in *. etrans; [exact Hr|].
  eapply (rtc_congruence id); [|exact Ha]. intros y y' Hy. by right.
Qed.

Lemma of_instance_threads k k' ts :
  map snd (List.filter (of_instance k) (map (pair k') ts)) = if decide (k' = k) then ts else [].
Proof.
  induction ts as [|t ts IH]; simpl; [by case_decide|]. unfold of_instance at 1. simpl.
  case_bool_decide; case_decide; simpl; try done. by rewrite IH.
Qed.

Lemma thread_ok_node c l1 k t l2 s ts es s' :
  c_threads c = l1 ++ (k, t) :: l2 → c_SPbInstances c !! k = Some s →
  spb_step Name committee sigService t s = Returns (ts, es) s' → instances_ok c →
  instances_ok (set_c_spb (<[k := s']> (c_SPbInstances c)) (l1 ++ map (pair k) ts ++ l2) c).
Proof.
  intros Hts Hs Hstep [Hkey Hok]. split.
  - intros k' t' Hin. simpl in *. destruct (decide (k = k')) as [->|Hne];
      [rewrite lookup_insert_eq; eauto|]. rewrite lookup_insert_ne by done.
    apply (Hkey k' t'). rewrite Hts. rewrite !elem_of_app in Hin.
    destruct Hin as [Hin|[Hin|Hin]]; [set_solver| |set_solver].
    apply list_elem_of_In, in_map_iff in Hin as (? & ? & _). by simplify_eq.
  - intros k'. destruct (Hok k') as (tr & ps & vs & Hr).
    unfold view, spb_of, threads_of in *. simpl.
    rewrite !List.filter_app, !map_app, of_instance_threads.
    rewrite Hts, List.filter_app, map_app in Hr. simpl in Hr. unfold of_instance at 2 in Hr.
    simpl in Hr. destruct (decide (k = k')) as [->|Hne].
    + rewrite bool_decide_eq_true_2 in Hr by done. rewrite Hs in Hr. simpl in Hr.
      rewrite lookup_insert_eq. simpl. exists (tr ++ es), ps, vs.
      eapply rtc_r; [exact Hr|]. left. by constructor.
    + rewrite bool_decide_eq_false_2 in Hr by done. rewrite lookup_insert_ne by done.
      exists tr, ps, vs. exact Hr.
Qed.

Lemma node_step_ok c c' : node_step c c' → instances_ok c → instances_ok c'.
Proof.
  intros [c1 msg rest r c2 Hq Hrun|c1 h r c2 Hrun|c1 msg|c1 l1 k t l2 s ts es s' Hts Hs Hstep
    |c1 st mp Hworld] Hok.
  - apply (grows_ok _ c2 (respects_run _ _ _ _ _ (Core_receive_grows msg) Hrun)).
    by apply (grows_ok c1); [apply grows_same|].
  - by apply (grows_ok _ c2 (respects_run _ _ _ _ _ (handleLoopBack_grows h) Hrun)).
  - by apply (grows_ok c1); [apply grows_same|].
  - eapply grows_ok; [|by eapply thread_ok_node]. by apply grows_same.
  - by apply (grows_ok c1); [apply grows_same|].
Qed.

Lemma NewCore_ok st mp : instances_ok (NewCore st mp).
Proof.
  split.
  - intros k t Hin. by apply not_elem_of_nil in Hin.
  - intros k. exists [], [], []. unfold view, spb_of. simpl. rewrite lookup_empty. apply rtc_refl.
Qed.

Lemma node_reachable_ok st mp c : node_reachable st mp c → instances_ok c.
Proof.
  intros (c0 & Hstart & Hr). apply (rtc_invariant _ instances_ok _ _ Hr).
  - apply (grows_ok (NewCore st mp)); [|apply NewCore_ok].
    exact (respects_run _ _ _ _ _ Core_start_grows Hstart).
  - intros a b Ha Hs. by eapply node_step_ok.
Qed.

(** ** What only ever grows *)

Definition is_done (er : Z * Z) (e : effect) : bool :=
  match e with
  | Send _ _ (MDone d) => bool_decide ((dn_Epoch d, dn_Round d) = er)
  | _ => false
  end.

Definition is_share (er : Z * Z) (e : effect) : bool :=
  match e with
  | Send _ _ (MElectShare s) => bool_decide ((es_Epoch s, es_Round s) = er)
  | _ => false
  end.

(** 1 for a round in which the node is done, else 0 *)
Definition done_flag (er : Z * Z) (c : Core) : nat :=
  if decide (er ∈ c_DoneFlags c) then 1 else 0.

(** Every halted epoch lies before the current one, but for the last of the type, to
    which the code cannot add 1. *)
Definition halted_ok (c : Core) : Prop :=
  ∀ e, e ∈ c_HaltFlags c → in_int64 e → e < c_Epoch c ∨ e = 2 ^ 63 - 1.

Record core_le (c c' : Core) : Prop := mkCoreLe {
  le_epoch : c_Epoch c <= c_Epoch c';
  le_halt : c_HaltFlags c ⊆ c_HaltFlags c';
  le_halted : halted_ok c → halted_ok c';
  le_done : c_DoneFlags c ⊆ c_DoneFlags c';
  le_ready : c_ReadyFlags c ⊆ c_ReadyFlags c';
  le_committed : cm_committed (c_Commitor c) `prefix_of` cm_committed (c_Commitor c');
  le_sent : c_sent c `prefix_of` c_sent c';
  le_elector : el_committee (c_Elector c') = el_committee (c_Elector c);
  le_dones : ∀ er, (countb (is_done er) (c_sent c') + done_flag er c =
                    countb (is_done er) (c_sent c) + done_flag er c')%nat;
  le_shares : ∀ er, (countb (is_share er) (c_sent c') + done_flag er c =
                     countb (is_share er) (c_sent c) + done_flag er c')%nat;
  le_int64 : in_int64 (c_Epoch c) → in_int64 (c_Epoch c')
}.

#[local] Instance core_le_preorder : PreOrder core_le.
Proof.
  split.
  - intros c. by constructor.
  - intros c1 c2 c3 [] []. constructor; try (by etrans); auto; try lia.
    + intros er. specialize (le_dones0 er). specialize (le_dones1 er). lia.
    + intros er. specialize (le_shares0 er). specialize (le_shares1 er). lia.
Qed.

(** Steps that change none of these fields *)
Lemma core_le_same c c' :
  c_Epoch c' = c_Epoch c → c_HaltFlags c' = c_HaltFlags c → c_DoneFlags c' = c_DoneFlags c →
  c_ReadyFlags c' = c_ReadyFlags c → c_Commitor c' = c_Commitor c → c_sent c' = c_sent c →
  el_committee (c_Elector c') = el_committee (c_Elector c) →
  core_le c c'.
Proof.
  intros He Hh Hd Hr Hc Hs Hel.
  constructor; unfold halted_ok, done_flag; by rewrite ?He, ?Hh, ?Hd, ?Hr, ?Hc, ?Hs.
Qed.

(** A message other than the two that are sent once per round *)
Definition ordinary (m : Message) : bool :=
  match m with MDone _ | MElectShare _ => false | _ => true end.

Lemma sends_le es recv c :
  (∀ e, e ∈ es → ordinary (effect_msg e) = true) →
  core_le c (set_c_out (c_sent c ++ es) recv c).
Proof.
  intros Hes.
  assert (∀ f, (∀ e, ordinary (effect_msg e) = true → f e = false) →
    countb f (c_sent c ++ es) = countb f (c_sent c)) as Hcount.
  { intros f Hf. rewrite countb_app.
    rewrite (proj2 (countb_0 f es)); [lia|]. auto. }
  constructor; try done; simpl.
  - by eexists.
  - intros er. rewrite Hcount; [done|]. by intros [? ? []|[]].
  - intros er. rewrite Hcount; [done|]. by intros [? ? []|[]].
Qed.

Lemma spb_step_ordinary t s ts es s' e :
  spb_step Name committee sigService t s = Returns (ts, es) s' → e ∈ es →
  ordinary (effect_msg e) = true.
Proof.
  intros Hs He. pose proof (spb_step_messages _ _ _ _ _ _ _ _ _ Hs He) as Hm.
  by destruct (effect_msg e).
Qed.

Lemma emit_le es c :
  (∀ e, e ∈ es → ordinary (effect_msg e) = true) → core_le c (emit es c).
Proof.
  intros Hes. apply sends_le. intros e He.
  apply Hes. apply list_elem_of_In, List.filter_In in He as [He _]. by apply list_elem_of_In.
Qed.

(** A step that changes none of the fields of [core_le] *)
Ltac le_same := by apply core_le_same.

Lemma getSpbInstance_le k : respects core_le (getSpbInstance k).
Proof.
  intros c. unfold wlp, getSpbInstance. destruct (c_SPbInstances c !! k); [done|le_same].
Qed.

Lemma storeConsensusBlock_le b : respects core_le (storeConsensusBlock b).
Proof.
  destruct b as [b|]; [|apply respects_panic]. intros c. unfold wlp. simpl.
  destruct (gob_Encode b); [|done]. destruct (Store_Write _ _ _). le_same.
Qed.

Lemma verifyConsensusBlock_le b : respects core_le (verifyConsensusBlock b).
Proof.
  destruct b as [b|]; [|apply respects_panic]. intros c. unfold wlp. simpl.
  destruct (port_verify _ _ _) as [s [mp st]]. le_same.
Qed.

Lemma generatorBlock_le e : respects core_le (generatorBlock e).
Proof.
  intros c. unfold wlp, generatorBlock. destruct (port_make _ _ _) as [s [mp st]]. le_same.
Qed.

Lemma leader_of_le e r : respects core_le (leader_of e r).
Proof. intros c. le_same. Qed.

Lemma add_share_le share : respects core_le (add_share share).
Proof.
  intros c. unfold wlp, add_share. destruct (Elector_AddShareVote _ _) eqn:Ha; [|done].
  apply core_le_same; try done. simpl. by eapply AddShareVote_committee.
Qed.

Lemma must_le {A} (r : result A) : respects core_le (must r).
Proof. unfold must. respects_steps fail. Qed.

Lemma commit_le b : respects core_le (commit b).
Proof.
  destruct b as [b|]; [|apply respects_panic]. apply respects_modify. intros c.
  constructor; try done. simpl. apply Commit_prefix.
Qed.

Lemma broadcast_le m : ordinary m = true → respects core_le (broadcast m).
Proof.
  intros Hm. unfold broadcast, transmit, enqueue.
  refine (respects_bind _ _ _ _ _); [|intros _]; apply respects_modify; intros c; [|le_same].
  apply sends_le. intros e He%list_elem_of_singleton. by subst e.
Qed.

Lemma ready_le er c : core_le c (set_c_flags (c_DoneFlags c) ({[er]} ∪ c_ReadyFlags c) c).
Proof. constructor; try done. simpl. set_solver. Qed.

Ltac le_tac :=
  first
    [ apply must_le | apply leader_of_le | apply generatorBlock_le
    | apply verifyConsensusBlock_le | apply storeConsensusBlock_le
    | apply add_share_le | apply commit_le | apply getSpbInstance_le
    | by apply broadcast_le
    | apply respects_modify; intros ?; first [le_same|apply ready_le]
    | apply respects_act; intros ?; repeat case_match; le_same ].

Lemma launch_le k t : respects core_le (launch k t).
Proof. unfold launch, spawn. respects_steps le_tac. Qed.

Lemma commit_if_verified_le b : respects core_le (commit_if_verified b).
Proof. unfold commit_if_verified. respects_steps le_tac. Qed.

Lemma commit_if_halted_le e r a b : respects core_le (commit_if_halted e r a b).
Proof.
  unfold commit_if_halted. respects_steps ltac:(first [apply commit_if_verified_le|le_tac]).
Qed.

Lemma processLeader_le e r : respects core_le (processLeader e r).
Proof. unfold processLeader, hasReady, hasFinish. respects_steps le_tac. Qed.

Lemma advanceNextRound_le e r f h : respects core_le (advanceNextRound e r f h).
Proof. unfold advanceNextRound, messgaeFilter, getConsensusBlock. respects_steps le_tac. Qed.

(** Sending both messages of a round and setting its flag *)
Lemma once_le e r done share recv c :
  dn_Epoch done = e → dn_Round done = r → es_Epoch share = e → es_Round share = r →
  (e, r) ∉ c_DoneFlags c →
  core_le c (set_c_flags ({[(e, r)]} ∪ c_DoneFlags c) (c_ReadyFlags c)
    (set_c_out (c_sent c ++ [Send Name NONE (MDone done); Send Name NONE (MElectShare share)])
       recv c)).
Proof.
  intros Hde Hdr Hse Hsr Hnew. set (c' := set_c_flags _ _ _).
  assert (∀ er, done_flag er c' =
    (done_flag er c + if decide ((e, r) = er) then 1 else 0)%nat) as Hflag.
  { intros er. unfold done_flag. simpl. repeat case_decide; set_solver. }
  constructor; try done; [simpl; set_solver|by eexists|..]; intros er;
    rewrite (Hflag er); simpl; rewrite countb_app, !countb_cons; simpl;
    rewrite ?Hde, ?Hdr, ?Hse, ?Hsr; rewrite countb_nil; case_bool_decide; case_decide; simplify_eq; simpl; try done; lia.
Qed.

(** The only place where they are sent *)
Lemma invokeDoneAndShare_le e r : respects core_le (invokeDoneAndShare e r).
Proof.
  unfold invokeDoneAndShare, hasDone. intros c. apply wlp_bind. unfold wlp at 1. simpl.
  case_bool_decide as Hd; [done|]. unfold mbind, GoM_bind, wlp. simpl.
  destruct (NewElectShare Name e r sigService) as [share|] eqn:Hs; simpl; [|done].
  assert (es_Epoch share = e ∧ es_Round share = r) as [He Hr].
  { unfold NewElectShare in Hs. destruct (SigService_RequestTsSugnature _ _); by simplify_eq. }
  etrans; [by apply (once_le e r (mkDone Name e r (ed25519_Sign (Prikey (PriKey sigService))
    (Done_Hash (mkDone Name e r [])))) share [] c)|].
  apply core_le_same; try done. simpl. by rewrite <-app_assoc.
Qed.

(** Halting an epoch also ends it. *)
Lemma advanceNextEpoch_spec e c :
  in_int64 e →
  wlp (advanceNextEpoch e) (λ _ c', core_le c c' ∧ e <= c_Epoch c' ∧
    c_HaltFlags c' = c_HaltFlags c) c.
Proof.
  intros He64. unfold advanceNextEpoch, mbind, GoM_bind, read, modify, wlp. case_bool_decide; [done|].
  unfold generatorBlock. destruct (port_make _ _ _) as [ds [mp st]]. simpl.
  split_and!; [|lia|done].
  trans (set_c_Epoch e c).
  - constructor; try done; simpl; [lia|]. intros Hh e' He' Hin.
    destruct (Hh e' He' Hin); simpl; [left; lia|by right].
  - trans (set_c_world st mp (set_c_Epoch e c)); [le_same|].
    exact (broadcast_le (MSPBProposal _) eq_refl (set_c_world st mp (set_c_Epoch e c))).
Qed.

Lemma handleOutput_le e h : respects core_le (handleOutput e h).
Proof.
  unfold handleOutput, getConsensusBlock.
  respects_steps ltac:(first [apply commit_if_verified_le|le_tac]).
Qed.

Lemma handleHalt_le h : respects core_le (handleHalt h).
Proof.
  unfold handleHalt, messgaeFilter.
  refine (respects_bind _ _ _ _ _); [refine (respects_read _ _)|intros []];
    [refine (respects_ret _ _)|].
  refine (respects_bind _ _ _ _ _); [refine (respects_read _ _)|intros []];
    [refine (respects_ret _ _)|].
  refine (respects_bind _ _ _ _ _); [le_tac|intros _].
  refine (respects_bind _ _ _ _ _); [apply handleOutput_le|intros [|]];
    [|refine (respects_ret _ _)].
  intros c. unfold mbind, GoM_bind, modify, wlp.
  pose proof (advanceNextEpoch_spec (wrap64 (ha_Epoch h + 1))
    (set_c_HaltFlags ({[ha_Epoch h]} ∪ c_HaltFlags c) c) (wrap64_range _)) as Hspec.
  unfold wlp in Hspec. destruct (advanceNextEpoch _ _) as [[] c'|]; [|done].
  destruct Hspec as ([] & Hep & Hhf). simpl in *.
  constructor; try done; [set_solver|].
  intros Hok e He Hin. rewrite Hhf in He.
  apply elem_of_union in He as [->%elem_of_singleton|He].
  - destruct (decide (ha_Epoch h = 2 ^ 63 - 1)) as [|Hne]; [by right|left].
    rewrite wrap64_succ in Hep by (unfold in_int64 in *; lia). lia.
  - destruct (Hok e He Hin); [left; lia|by right].
Qed.

Lemma dispatch_le m : respects core_le (dispatch m).
Proof.
  destruct m; simpl; [| | | | | | |apply handleHalt_le];
    unfold handleSpbProposal, handleSpbVote, handleFinish, handleDone, handleElectShare,
      handlePrevote, handleFinvote, messgaeFilter;
    respects_steps ltac:(first [apply commit_if_halted_le|apply processLeader_le
      |apply invokeDoneAndShare_le|apply advanceNextRound_le|apply launch_le|le_tac]).
Qed.

Lemma Core_receive_le m : respects core_le (Core_receive m).
Proof. unfold Core_receive. respects_steps ltac:(apply dispatch_le). Qed.

Lemma handleLoopBack_le h : respects core_le (handleLoopBack h).
Proof.
  unfold handleLoopBack, getConsensusBlock, messgaeFilter.
  respects_steps ltac:(first [apply commit_if_halted_le|apply launch_le|le_tac]).
Qed.

Lemma Core_start_le : respects core_le Core_start.
Proof. unfold Core_start. respects_steps le_tac. Qed.

Lemma node_step_le c c' : node_step c c' → core_le c c'.
Proof.
  intros [c1 msg rest r c2 Hq Hrun|c1 h r c2 Hrun|c1 msg|c1 l1 k t l2 s ts es s' Hts Hs Hstep
    |c1 st mp Hworld]; try le_same.
  - etrans; [|exact (respects_run _ _ _ _ _ (Core_receive_le msg) Hrun)]. le_same.
  - exact (respects_run _ _ _ _ _ (handleLoopBack_le h) Hrun).
  - etrans; [|apply emit_le; intros e He; by eapply spb_step_ordinary]. le_same.
Qed.

Lemma node_steps_le c c' : rtc node_step c c' → core_le c c'.
Proof.
  induction 1 as [c|c1 c2 c3 Hs _ IH]; [done|]. etrans; [by apply node_step_le|done].
Qed.

Lemma node_reachable_le st mp c : node_reachable st mp c → core_le (NewCore st mp) c.
Proof.
  intros (c0 & Hstart & Hr). etrans; [|by apply node_steps_le].
  exact (respects_run _ _ _ _ _ Core_start_le Hstart).
Qed.

(** ** The core does not panic *)

(** A locked instance has a block hash, and the elector works for the committee. *)
Definition core_inv (c : Core) : Prop :=
  (∀ k s, c_SPbInstances c !! k = Some s → spb_LockFlag s = true →
    is_Some (spb_BlockHash s)) ∧
  el_committee (c_Elector c) = committee.

Lemma instances_ok_locks c k s :
  instances_ok c → c_SPbInstances c !! k = Some s → spb_LockFlag s = true →
  is_Some (spb_BlockHash s).
Proof.
  intros [_ Hok] Hs Hl. destruct (Hok k) as (tr & ps & vs & Hr).
  destruct (reachable_ok _ _ _ _ _ _ _ Hr) as ((_ & Hlock & _) & _).
  unfold view, spb_of in Hlock. simpl in Hlock. rewrite Hs in Hlock. by apply Hlock.
Qed.

Lemma node_reachable_inv st mp c : node_reachable st mp c → core_inv c.
Proof.
  intros Hr. split.
  - intros k s. by apply instances_ok_locks, (node_reachable_ok st mp).
  - exact (le_elector _ _ (node_reachable_le _ _ _ Hr)).
Qed.

(** What the code relies on: members have public keys of the right length, and
    signing a coin share succeeds. *)
Definition keys_ok : Prop :=
  (∀ id, id ∈ members committee → length (Committee_Name committee id) = 32%nat) ∧
  ∀ d, is_ok (SigService_RequestTsSugnature sigService d) = true.

(** A message of a member, with a block if it is a phase-one proposal *)
Definition proper (m : Message) : Prop :=
  msg_Author m ∈ members committee ∧
  match m with MSPBProposal p => has_block p = true | _ => True end.

Lemma NewCore_inv st mp : core_inv (NewCore st mp).
Proof. split; [|done]. intros k s Hs. simpl in Hs. by rewrite lookup_empty in Hs. Qed.

Section no_panic.
Context {Hcoin : CoinLaw}.
Hypothesis Hkeys : keys_ok.
Hypothesis Hsize : Committee_Size committee ≠ 0.

Lemma getSpbInstance_safe k : safe core_inv (getSpbInstance k).
Proof.
  intros c [Hl He]. unfold wp, getSpbInstance. destruct (c_SPbInstances c !! k); [done|].
  split; [|done]. intros k' s. simpl.
  intros [[<- <-]|[? Hs]]%lookup_insert_Some; [done|by apply (Hl k')].
Qed.

(** The instance that is looked up is one of the state. *)
Lemma getSpbInstance_locks k c :
  core_inv c →
  wp (getSpbInstance k)
    (λ s c', core_inv c' ∧ (SPB_IsLock s = true → is_Some (SPB_GetBlockHash s))) c.
Proof.
  intros Hc. pose proof (getSpbInstance_safe k c Hc) as Hs. destruct Hc as [Hl He].
  unfold wp, getSpbInstance in *. destruct (c_SPbInstances c !! k) eqn:Hk; [|done].
  split; [done|]. by apply (Hl k).
Qed.

Lemma modify_safe (f : Core → Core) :
  (∀ c, c_SPbInstances (f c) = c_SPbInstances c) →
  (∀ c, el_committee (c_Elector (f c)) = el_committee (c_Elector c)) →
  safe core_inv (modify f).
Proof.
  intros Hi He. apply safe_modify. intros c. unfold core_inv. by rewrite Hi, He.
Qed.

Lemma storeConsensusBlock_safe b : safe core_inv (storeConsensusBlock (Some b)).
Proof.
  intros c Hc. unfold wp. simpl. destruct (gob_Encode b); [|done].
  by destruct (Store_Write _ _ _).
Qed.

Lemma verifyConsensusBlock_safe b : safe core_inv (verifyConsensusBlock (Some b)).
Proof. intros c Hc. unfold wp. simpl. by destruct (port_verify _ _ _) as [s [mp st]]. Qed.

Lemma generatorBlock_safe e : safe core_inv (generatorBlock e).
Proof. intros c Hc. unfold wp, generatorBlock. by destruct (port_make _ _ _) as [s [mp st]]. Qed.

Lemma leader_of_safe e r : safe core_inv (leader_of e r).
Proof. by intros c Hc. Qed.

Lemma add_share_safe share : safe core_inv (add_share share).
Proof.
  intros c [Hl He]. unfold wp, add_share.
  destruct (AddShareVote_returns (c_Elector c) share) as (r & e & -> & Hel);
    [by rewrite He|]. split; simpl; [done|congruence].
Qed.

Lemma commit_safe b : safe core_inv (commit (Some b)).
Proof. by apply modify_safe. Qed.

Lemma must_ok_safe {A} (a : A) : safe core_inv (must (Ok a)).
Proof. apply safe_ret. Qed.

Lemma must_share_safe e r : safe core_inv (must (NewElectShare Name e r sigService)).
Proof.
  unfold NewElectShare. destruct Hkeys as [_ Hsign].
  specialize (Hsign (ElectShare_Hash (mkElectShare Name e r []))).
  destruct (SigService_RequestTsSugnature _ _); [apply safe_ret|done].
Qed.

Ltac inv_tac :=
  first
    [ apply must_share_safe | apply must_ok_safe | apply leader_of_safe
    | apply generatorBlock_safe | apply verifyConsensusBlock_safe
    | apply storeConsensusBlock_safe | apply add_share_safe | apply commit_safe
    | apply getSpbInstance_safe | by apply modify_safe
    | apply safe_act; intros ? ?; by repeat case_match ].

Lemma broadcast_safe m : safe core_inv (broadcast m).
Proof. unfold broadcast, transmit, enqueue. safe_steps inv_tac. Qed.

Lemma Core_start_safe : safe core_inv Core_start.
Proof. unfold Core_start. safe_steps ltac:(first [apply broadcast_safe|inv_tac]). Qed.

Lemma launch_safe k t : safe core_inv (launch k t).
Proof. unfold launch, spawn. safe_steps inv_tac. Qed.

Lemma commit_if_halted_safe e r a b : safe core_inv (commit_if_halted e r a (Some b)).
Proof. unfold commit_if_halted, commit_if_verified. safe_steps inv_tac. Qed.

Lemma invokeDoneAndShare_safe e r : safe core_inv (invokeDoneAndShare e r).
Proof. unfold invokeDoneAndShare, hasDone, transmit, enqueue. safe_steps inv_tac. Qed.

Lemma processLeader_safe e r : safe core_inv (processLeader e r).
Proof.
  unfold processLeader, hasReady, hasFinish.
  apply safe_bind; [inv_tac|intros _]. apply safe_bind; [apply safe_read|intros []];
    [|apply safe_ret]. apply safe_bind; [inv_tac|intros leader].
  destruct (decide _); [apply safe_ret|].
  apply safe_bind; [apply safe_read|intros [d|]];
    [safe_steps ltac:(first [apply broadcast_safe|inv_tac])|].
  intros c Hc. apply wp_bind. eapply wp_mono; [|by apply getSpbInstance_locks]. simpl.
  intros s c1 [Hc1 Hlock]. destruct (SPB_IsLock s).
  - destruct Hlock as [h ->]; [done|].
    apply (safe_bind core_inv _ _ (must_ok_safe _)
      (λ _, safe_bind core_inv _ _ (broadcast_safe _) (λ _, safe_ret core_inv _)) c1 Hc1).
  - apply (safe_bind core_inv _ _ (must_ok_safe _)
      (λ _, safe_bind core_inv _ _ (broadcast_safe _) (λ _, safe_ret core_inv _)) c1 Hc1).
Qed.

Lemma advanceNextRound_safe e r f h : safe core_inv (advanceNextRound e r f h).
Proof.
  unfold advanceNextRound, messgaeFilter, getConsensusBlock.
  safe_steps ltac:(first [apply broadcast_safe|inv_tac]).
Qed.

Lemma handleSpbProposal_safe p : has_block p = true → safe core_inv (handleSpbProposal p).
Proof.
  intros Hb. apply bool_decide_eq_true in Hb. unfold handleSpbProposal, messgaeFilter.
  destruct (decide (sp_Phase p = SPB_ONE_PHASE)) as [Hp|Hp].
  - destruct (Hb Hp) as [b ->].
    safe_steps ltac:(first [apply commit_if_halted_safe|apply launch_safe|inv_tac]).
  - safe_steps ltac:(first [apply launch_safe|inv_tac]).
Qed.

Lemma dispatch_safe m : proper m → safe core_inv (dispatch m).
Proof.
  intros [_ Hp]. destruct m; simpl; [by apply handleSpbProposal_safe|..];
    unfold handleSpbVote, handleFinish, handleDone, handleElectShare, handlePrevote,
      handleFinvote, handleHalt, handleOutput, commit_if_verified, advanceNextEpoch,
      messgaeFilter, getConsensusBlock;
    safe_steps ltac:(first [apply broadcast_safe|apply processLeader_safe|apply launch_safe
      |apply invokeDoneAndShare_safe|apply advanceNextRound_safe|inv_tac]).
Qed.

Lemma handleLoopBack_returns h c :
  core_inv c → Store_Read (c_Store c) h ≠ Err ErrNotFoundKey →
  ∃ r c', handleLoopBack h c = Returns r c'.
Proof.
  intros Hc Hh. unfold handleLoopBack, getConsensusBlock. unfold mbind at 1, GoM_bind at 1, read.
  destruct (Store_Read (c_Store c) h) as [v|e]; [|rewrite decide_False by congruence; eauto].
  destruct (gob_Decode v) as [b|]; [|eauto].
  eapply (safe_returns core_inv); [|exact Hc].
  apply (safe_bind_ret (A := SPBProposal)). simpl. unfold messgaeFilter.
  safe_steps ltac:(first [apply commit_if_halted_safe|apply launch_safe|inv_tac]).
Qed.

Lemma Verify_member m : proper m → Verify committee m ≠ None.
Proof.
  intros [Hm _]. destruct Hkeys as [Hlen _]. specialize (Hlen _ Hm).
  destruct m; simpl in *; try (intros ?%Signature_Verify_bad_key; done). done.
Qed.
End no_panic.

(** ** Committed blocks are complete *)

(** All payloads of the blocks that the committor holds are stored. *)
Definition complete (c : Core) : Prop :=
  ∀ b, holds_block (c_Commitor c) b → Forall (readable (c_Store c)) (cb_PayLoads b).

Record stores_more (c c' : Core) : Prop := mkStoresMore {
  sm_store : ∀ d, readable (c_Store c) d → readable (c_Store c') d;
  sm_complete : complete c → complete c'
}.

#[local] Instance stores_more_preorder : PreOrder stores_more.
Proof. split; [by constructor|]. intros c1 c2 c3 [] []. constructor; auto. Qed.

Lemma stores_more_same c c' :
  (∀ d, readable (c_Store c) d → readable (c_Store c') d) → c_Commitor c' = c_Commitor c →
  stores_more c c'.
Proof.
  intros Hs Hc. constructor; [done|]. intros Hok b Hb. rewrite Hc in Hb.
  eapply Forall_impl; [by apply Hok|done].
Qed.

Section complete.
Context `{!DBLaws} {PL : MempoolPortLaws}.

Ltac more_same := by apply stores_more_same.

Lemma storeConsensusBlock_more b : respects stores_more (storeConsensusBlock b).
Proof.
  destruct b as [b|]; [|apply respects_panic]. intros c. unfold wlp. simpl.
  destruct (gob_Encode b) as [v|]; [|done].
  pose proof (λ d, readable_write (c_Store c) (ConsensusBlock_Hash b) v d) as Hw.
  destruct (Store_Write _ _ _). by apply stores_more_same.
Qed.

Lemma verifyConsensusBlock_more b : respects stores_more (verifyConsensusBlock b).
Proof.
  destruct b as [b|]; [|apply respects_panic]. intros c. unfold wlp. simpl.
  destruct (port_verify _ _ _) as [s [mp st]] eqn:Hv.
  apply port_verify_spec in Hv as (-> & _). more_same.
Qed.

Lemma generatorBlock_more e : respects stores_more (generatorBlock e).
Proof.
  intros c. unfold wlp, generatorBlock.
  destruct (port_make _ _ _) as [s [mp st]] eqn:Hm.
  apply stores_more_same; [|done]. simpl. exact (port_make_keeps _ _ _ _ _ _ Hm).
Qed.

(** The only place where a block is committed *)
Lemma commit_if_verified_more b : respects stores_more (commit_if_verified b).
Proof.
  destruct b as [b|]; [|apply respects_bind_panic]. intros c.
  unfold commit_if_verified, mbind, GoM_bind, wlp. simpl.
  destruct (port_verify _ _ _) as [s [mp st]] eqn:Hv.
  apply port_verify_spec in Hv as (-> & _ & Hok). simpl in Hok.
  case_bool_decide as Hs; [|more_same]. simpl. constructor; [done|].
  intros Hc b' Hb'. simpl in *. apply Commit_holds in Hb' as [Hb'| ->]; [by apply Hc|].
  apply Forall_forall. by apply Hok.
Qed.

Lemma getSpbInstance_more k : respects stores_more (getSpbInstance k).
Proof.
  intros c. unfold wlp, getSpbInstance. destruct (c_SPbInstances c !! k); [done|more_same].
Qed.

Lemma add_share_more share : respects stores_more (add_share share).
Proof.
  intros c. unfold wlp, add_share. destruct (Elector_AddShareVote _ _); [more_same|done].
Qed.

Lemma must_more {A} (r : result A) : respects stores_more (must r).
Proof. unfold must. respects_steps fail. Qed.

Ltac more_tac :=
  first
    [ apply must_more | apply generatorBlock_more | apply verifyConsensusBlock_more
    | apply storeConsensusBlock_more | apply add_share_more | apply getSpbInstance_more
    | apply commit_if_verified_more
    | apply respects_modify; intros ?; more_same
    | apply respects_act; intros ?; repeat case_match; more_same
    | intros ?; more_same ].

Lemma dispatch_more m : respects stores_more (dispatch m).
Proof.
  destruct m; simpl;
    unfold handleSpbProposal, handleSpbVote, handleFinish, handleDone, handleElectShare,
      handlePrevote, handleFinvote, handleHalt, handleOutput, advanceNextEpoch,
      advanceNextRound, invokeDoneAndShare, processLeader, commit_if_halted, launch, spawn,
      broadcast, transmit, enqueue, hasReady, hasDone, hasFinish, messgaeFilter,
      getConsensusBlock, leader_of;
    respects_steps more_tac.
Qed.

Lemma handleLoopBack_more h : respects stores_more (handleLoopBack h).
Proof.
  unfold handleLoopBack, commit_if_halted, launch, spawn, messgaeFilter, getConsensusBlock,
    leader_of. respects_steps more_tac.
Qed.

Lemma Core_start_more : respects stores_more Core_start.
Proof. unfold Core_start, broadcast, transmit, enqueue. respects_steps more_tac. Qed.

Lemma node_step_more c c' : node_step c c' → stores_more c c'.
Proof.
  intros [c1 msg rest r c2 Hq Hrun|c1 h r c2 Hrun|c1 msg|c1 l1 k t l2 s ts es s' Hts Hs Hstep
    |c1 st mp Hworld]; try more_same.
  - trans (set_c_out (c_sent c1) rest c1); [more_same|].
    unfold Core_receive in Hrun. destruct (Verify committee msg) as [[]|]; [| |done].
    + exact (respects_run _ _ _ _ _ (dispatch_more msg) Hrun).
    + unfold mret, GoM_ret in Hrun. simplify_eq. reflexivity.
  - exact (respects_run _ _ _ _ _ (handleLoopBack_more h) Hrun).
Qed.
End complete.

(** ** Theorems *)

(** C3 Every broadcast instance of a running node, whatever messages arrive and
    however its goroutines are scheduled, is in a state that the broadcast
    system of Spb.v can reach.  So all that is proved there of an instance holds
    in a node; in particular a locked instance has the hash of a received block
    of its proposer. *)
Theorem node_runs_broadcast_instances st mp c k :
  node_reachable st mp c →
  ∃ tr ps vs,
    reachable Name committee sigService k.1.1 k.1.2 k.2 (view k c tr ps vs) ∧
    (SPB_IsLock (spb_of k c) = true →
     ∃ h, SPB_GetBlockHash (spb_of k c) = Some h ∧
          seen_hash ps (spb_Proposer (spb_of k c)) h).
Proof.
  intros Hr. destruct (node_reachable_ok _ _ _ Hr) as [_ Hok].
  destruct (Hok k) as (tr & ps & vs & Hk). exists tr, ps, vs. split; [done|].
  destruct (reachable_ok _ _ _ _ _ _ _ Hk) as ((Hh & Hl & _) & _). simpl in *.
  intros Hlock. destruct (Hl Hlock) as [h Heq]. eauto.
Qed.

(** C6 The core never panics on a message of a committee member: in every
    reachable state, if the members' keys have the right length and the node can
    sign coin shares, a message of a member (with a block, if it is a phase-one
    proposal) is handled to the end; and so is a block from the synchronizer
    that is in the store. *)
Theorem core_never_panics {Hcoin : CoinLaw} st mp c :
  node_reachable st mp c → keys_ok → Committee_Size committee ≠ 0 →
  (∀ m, proper m → ∃ r c', Core_receive m c = Returns r c') ∧
  (∀ h, Store_Read (c_Store c) h ≠ Err ErrNotFoundKey →
     ∃ r c', handleLoopBack h c = Returns r c').
Proof.
  intros Hr Hkeys Hsize. pose proof (node_reachable_inv _ _ _ Hr) as Hinv. split.
  - intros m Hm. unfold Core_receive.
    destruct (Verify committee m) as [[]|] eqn:Hv; [| |by apply (Verify_member Hkeys) in Hv].
    + destruct (safe_run _ _ _ (dispatch_safe Hkeys Hsize m Hm) Hinv) as (r & c' & Hrun & _).
      eauto.
    + by do 2 eexists.
  - intros h Hh. by apply handleLoopBack_returns.
Qed.

(** C9 Progress is never undone: along every run of a node its epoch never
    decreases, halted epochs stay halted and lie before the current one, except for the
    last epoch of the 64-bit type, which can be recorded as halted without being left,
    and its log of committed blocks and the list of its sent messages are only ever
    extended. *)
Theorem node_progress_monotone st mp c c' :
  node_reachable st mp c → rtc node_step c c' →
  c_Epoch c <= c_Epoch c' ∧ c_HaltFlags c ⊆ c_HaltFlags c' ∧
  (∀ e, e ∈ c_HaltFlags c' → in_int64 e → e < c_Epoch c' ∨ e = 2 ^ 63 - 1) ∧
  cm_committed (c_Commitor c) `prefix_of` cm_committed (c_Commitor c') ∧
  c_sent c `prefix_of` c_sent c'.
Proof.
  intros Hr Hs. pose proof (node_steps_le _ _ Hs) as [He Hh Hok _ _ Hc Hsent _ _ _ _].
  split_and!; try done. apply Hok.
  pose proof (le_halted _ _ (node_reachable_le _ _ _ Hr)) as Hhalt. apply Hhalt.
  intros e He'. set_solver.
Qed.

(** C21 The epoch stays in its type: in every reachable state it is a non-negative 64-bit
    integer, although the code adds 1 to the epoch of any halt message without a
    check; the price is that the last epoch is never left. *)
Theorem epoch_bounds st mp c :
  node_reachable st mp c →
  0 <= c_Epoch c < 2 ^ 63 ∧
  (c_Epoch c = 2 ^ 63 - 1 → ∀ c', rtc node_step c c' → c_Epoch c' = 2 ^ 63 - 1).
Proof.
  intros Hr.
  assert (∀ c, node_reachable st mp c → 0 <= c_Epoch c < 2 ^ 63) as Hb.
  { intros c1 Hr1. destruct (node_reachable_le _ _ _ Hr1) as [He _ _ _ _ _ _ _ _ _ H64].
    simpl in *. destruct H64; unfold in_int64; lia. }
  split; [by apply Hb|]. intros Hmax c' Hs.
  pose proof (le_epoch _ _ (node_steps_le _ _ Hs)) as Hle.
  assert (node_reachable st mp c') as Hr'.
  { destruct Hr as (c0 & H0 & Hr). exists c0. split; [done|by etrans]. }
  specialize (Hb _ Hr'). lia.
Qed.

(** C8 A node sends its done message and its coin share of a round at most once,
    both together, and exactly in the rounds of [DoneFlags]. *)
Theorem done_and_share_sent_once st mp c er :
  node_reachable st mp c →
  countb (is_done er) (c_sent c) = (if decide (er ∈ c_DoneFlags c) then 1%nat else 0%nat) ∧
  countb (is_share er) (c_sent c) = (if decide (er ∈ c_DoneFlags c) then 1%nat else 0%nat).
Proof.
  intros Hr. pose proof (node_reachable_le _ _ _ Hr) as Hle.
  pose proof (le_dones _ _ Hle er) as Hd. pose proof (le_shares _ _ Hle er) as Hs.
  assert (done_flag er (NewCore st mp) = 0%nat) as H0.
  { unfold done_flag. rewrite decide_False by set_solver. done. }
  rewrite H0 in Hd, Hs. unfold done_flag in Hd, Hs. simpl in Hd, Hs. lia.
Qed.

(** C7 Nodes commit only complete blocks: in every reachable state, with a mempool
    that keeps its promises and a database that keeps what is written, all
    payloads of all committed blocks are in the node's store. *)
Theorem committed_blocks_complete `{!DBLaws} {PL : MempoolPortLaws} st mp c b :
  node_reachable st mp c → b ∈ cm_committed (c_Commitor c) →
  ∀ d, d ∈ cb_PayLoads b → readable (c_Store c) d.
Proof.
  intros (c0 & Hstart & Hr) Hb. apply Forall_forall.
  enough (complete c) as Hc by (apply Hc; by left).
  apply (rtc_invariant _ complete _ _ Hr).
  - apply (sm_complete _ _ (respects_run _ _ _ _ _ Core_start_more Hstart)).
    intros b' [Hb'|[k Hk]]; simpl in *; [by apply not_elem_of_nil in Hb'|].
    by rewrite lookup_empty in Hk.
  - intros a b' Ha Hs. by apply (sm_complete _ _ (node_step_more _ _ Hs)).
Qed.

(** A node accepts its own blocks: the block that it generates for an epoch
    has its name and the epoch, and passes its own verification. *)
Theorem own_block_verifies {PL : MempoolPortLaws} e c :
  port_ok (c_mempool c) (c_Store c) →
  ∃ b c1 c2, generatorBlock e c = Returns b c1 ∧ cb_Proposer b = Name ∧ cb_Epoch b = e ∧
    verifyConsensusBlock (Some b) c1 = Returns true c2.
Proof.
  intros Hok. unfold generatorBlock.
  destruct (port_make _ _ _) as [ds [mp st]] eqn:Hm.
  destruct (port_make_spec _ _ _ _ _ _ Hok Hm) as [_ Hall].
  do 2 eexists. unfold verifyConsensusBlock. cbn [c_mempool c_Store set_c_world].
  destruct (port_verify _ _ _) as [s [mp' st']] eqn:Hv.
  apply port_verify_spec in Hv as (_ & _ & Hs).
  eexists. split_and!; [done..|]. rewrite bool_decide_eq_true_2; [done|].
  apply Hs. by apply Forall_forall.
Qed.

(** ** What the handlers do *)

Lemma verify_complete {PL : MempoolPortLaws} b c :
  (∀ d, d ∈ cb_PayLoads b → readable (c_Store c) d) →
  ∃ mp, verifyConsensusBlock (Some b) c = Returns true (set_c_world (c_Store c) mp c).
Proof.
  intros Hall. unfold verifyConsensusBlock. simpl.
  destruct (port_verify _ _ _) as [s [mp st]] eqn:Hv.
  apply port_verify_spec in Hv as (-> & _ & Hs). exists mp.
  rewrite bool_decide_eq_true_2; [done|]. by apply Hs.
Qed.

(** What a leader vote sends *)
Definition leader_vote (c : Core) (epoch round : Z) (m : Message) : Prop :=
  let leader := (Elector_Leader (c_Elector c) epoch round).1 in
  match c_FinishFlags c !! (epoch, round, leader) with
  | Some d => ∃ h, NewHalt Name leader d epoch round sigService = Ok h ∧ m = MHalt h
  | None =>
      let spb := spb_of (epoch, round, leader) c in
      ∃ pv, m = MPrevote pv ∧
      if SPB_IsLock spb then
        ∃ d, SPB_GetBlockHash spb = Some d ∧
             NewPrevote Name leader epoch round VOTE_FLAG_YES d sigService = Ok pv
      else NewPrevote Name leader epoch round VOTE_FLAG_NO zero_Digest sigService = Ok pv
  end.

Lemma leader_of_idle epoch round c :
  leader_of epoch round c =
  Returns (Elector_Leader (c_Elector c) epoch round).1
    (set_c_Elector (Elector_Leader (c_Elector c) epoch round).2 c).
Proof. done. Qed.

Lemma Elector_Leader_again e epoch round :
  (Elector_Leader (Elector_Leader e epoch round).2 epoch round).1 =
  (Elector_Leader e epoch round).1.
Proof. unfold Elector_Leader. simpl. by rewrite lookup2_touch. Qed.

(** The vote of a round: when a round is ready and its leader is known, the
    node sends exactly one message, to all nodes and to itself: a halt if the
    leader's broadcast is known to be finished, otherwise a pre-vote, YES with
    the leader's block if the node holds the lock on it and NO if it does not.
    In a round that is not ready or has no leader it sends nothing. *)
Theorem leader_vote_sent st mp c epoch round :
  node_reachable st mp c →
  ∃ c', processLeader epoch round c = Returns (Ok tt) c' ∧
    if decide ((epoch, round) ∈ c_ReadyFlags c ∧
               (Elector_Leader (c_Elector c) epoch round).1 ≠ NONE)
    then ∃ m, leader_vote c epoch round m ∧
         c_sent c' = c_sent c ++ [Send Name NONE m] ∧ c_recvCh c' = c_recvCh c ++ [m]
    else c_sent c' = c_sent c ∧ c_recvCh c' = c_recvCh c.
Proof.
  intros Hr. destruct (node_reachable_inv _ _ _ Hr) as [Hlocks _].
  unfold processLeader, hasReady, hasFinish, leader_vote, spb_of.
  unfold mbind, GoM_bind, read. rewrite leader_of_idle. cbn [c_ReadyFlags set_c_Elector].
  destruct (decide (_ ∧ _)) as [[Hrd Hl]|Hn].
  2: { case_bool_decide as Hrd; [|by eexists]. rewrite leader_of_idle.
       cbn [c_Elector set_c_Elector]. rewrite Elector_Leader_again.
       rewrite decide_True by (apply dec_stable; tauto). by eexists. }
  rewrite bool_decide_eq_true_2, leader_of_idle by done. cbn [c_Elector set_c_Elector].
  rewrite Elector_Leader_again, decide_False by done. cbn [c_FinishFlags set_c_Elector].
  set (leader := (Elector_Leader (c_Elector c) epoch round).1).
  destruct (c_FinishFlags c !! (epoch, round, leader)) as [d|];
    [eexists; split; [done|]; eexists; split; [|by split]; by eexists|].
  unfold getSpbInstance. cbn [c_SPbInstances set_c_Elector].
  destruct (c_SPbInstances c !! (epoch, round, leader)) as [s|] eqn:Hs; cbn [default];
    [unfold SPB_IsLock, SPB_GetBlockHash; destruct (spb_LockFlag s) eqn:Hlk;
     [destruct (Hlocks _ _ Hs Hlk) as [h Hh]; rewrite Hh|]|];
    (eexists; split; [done|]); (eexists; split; [|by split]); (eexists; split; [done|]).
  - cbn [id]. rewrite Hlk. by eexists.
  - cbn [id]. by rewrite Hlk.
  - done.
Qed.

(** Messages of past epochs have no effect: except for a phase-one proposal
    (which may still be committed), a message whose epoch is below the node's
    leaves the node exactly as it was. *)
Theorem stale_messages_ignored m c r c' :
  msg_Epoch m < c_Epoch c →
  match m with MSPBProposal p => sp_Phase p ≠ SPB_ONE_PHASE | _ => True end →
  Core_receive m c = Returns r c' → c' = c.
Proof.
  intros He Hp Hrun. unfold Core_receive, mret, GoM_ret in Hrun.
  destruct (Verify committee m) as [[]|]; [|by simplify_eq|done].
  destruct m; simpl in *;
    unfold handleSpbProposal, handleSpbVote, handleFinish, handleDone, handleElectShare,
      handlePrevote, handleFinvote, handleHalt, messgaeFilter, mbind, GoM_bind, read, mret, GoM_ret in Hrun;
    rewrite ?(decide_False (P := _ = SPB_ONE_PHASE)) in Hrun by done; simpl in Hrun;
    rewrite bool_decide_eq_true_2 in Hrun by done; by simplify_eq.
Qed.

Lemma SetLeader_Leader e epoch round leader :
  (Elector_Leader (Elector_SetLeader e epoch round leader) epoch round).1 = leader.
Proof. unfold Elector_Leader. simpl. by rewrite lookup2_insert2_eq. Qed.

(** Deciding an epoch: a halt of a current or later epoch that is not halted
    yet, with a valid signature of any one member, whose block is stored with
    all its payloads, makes the node commit the block, record the epoch as
    halted with the leader of the message, enter the next epoch, and propose a
    block of its own for round 0 of that epoch. *)
Theorem halt_decides {PL : MempoolPortLaws} h v b c :
  Verify committee (MHalt h) = Some true →
  c_Epoch c <= ha_Epoch h → in_int64 (ha_Epoch h + 1) →
  ha_Epoch h ∉ c_HaltFlags c →
  Store_Read (c_Store c) (ha_BlockHash h) = Ok v → gob_Decode v = Ok b →
  (∀ d, d ∈ cb_PayLoads b → readable (c_Store c) d) →
  ∃ c' p, Core_receive (MHalt h) c = Returns (Ok tt) c' ∧
    c_Epoch c' = ha_Epoch h + 1 ∧ c_HaltFlags c' = {[ha_Epoch h]} ∪ c_HaltFlags c ∧
    (Elector_Leader (c_Elector c') (ha_Epoch h) (ha_Round h)).1 = ha_Leader h ∧
    c_Commitor c' = Committor_Commit (c_Commitor c) b ∧
    c_sent c' = c_sent c ++ [Send Name NONE (MSPBProposal p)] ∧
    c_recvCh c' = c_recvCh c ++ [MSPBProposal p] ∧
    sp_Author p = Name ∧ sp_Epoch p = ha_Epoch h + 1 ∧ sp_Round p = 0 ∧
    sp_Phase p = SPB_ONE_PHASE ∧
    ∃ b', sp_B p = Some b' ∧ cb_Proposer b' = Name ∧ cb_Epoch b' = ha_Epoch h + 1.
Proof.
  intros Hv He Hin1 Hnew Hrd Hdec Hall. unfold Core_receive. rewrite Hv. simpl.
  unfold handleHalt, handleOutput, messgaeFilter, mbind, GoM_bind, read, modify.
  rewrite bool_decide_eq_false_2 by lia. rewrite bool_decide_eq_false_2 by done.
  unfold getConsensusBlock, read. cbn [c_Store set_c_Elector]. rewrite Hrd, Hdec.
  unfold commit_if_verified, mbind, GoM_bind.
  set (c1 := set_c_Elector _ c).
  destruct (verify_complete b c1 Hall) as [mp Hver]. rewrite Hver. simpl.
  unfold advanceNextEpoch, mbind, GoM_bind, read, modify. simpl.
  rewrite wrap64_id by done. rewrite bool_decide_eq_false_2 by lia.
  unfold generatorBlock. simpl. destruct (port_make _ _ _) as [ds [mp' st']]. simpl.
  do 2 eexists. split; [done|]. simpl. split_and!; try done.
  - by rewrite lookup2_insert2_eq.
  - by eexists.
Qed.

(** A halt whose block cannot be read is given up half way: the node returns
    the store's error and stays in its epoch, but the leader of the round has
    been overwritten with the one of the message. *)
Theorem halt_without_block h e c :
  Verify committee (MHalt h) = Some true → c_Epoch c <= ha_Epoch h →
  ha_Epoch h ∉ c_HaltFlags c →
  Store_Read (c_Store c) (ha_BlockHash h) = Err e → e ≠ ErrNotFoundKey →
  ∃ c', Core_receive (MHalt h) c = Returns (Err e) c' ∧
    c_Epoch c' = c_Epoch c ∧ c_HaltFlags c' = c_HaltFlags c ∧
    c_Commitor c' = c_Commitor c ∧ c_sent c' = c_sent c ∧
    (Elector_Leader (c_Elector c') (ha_Epoch h) (ha_Round h)).1 = ha_Leader h.
Proof.
  intros Hv He Hnew Hrd Hnf. unfold Core_receive. rewrite Hv. simpl.
  unfold handleHalt, handleOutput, messgaeFilter, mbind, GoM_bind, read, modify.
  rewrite bool_decide_eq_false_2 by lia. rewrite bool_decide_eq_false_2 by done.
  unfold getConsensusBlock, read. cbn [c_Store set_c_Elector]. rewrite Hrd.
  rewrite decide_False by done. eexists. split; [done|]. simpl. split_and!; try done.
  by rewrite lookup2_insert2_eq.
Qed.

(** Late proposals are committed unchecked: once an epoch is halted, a
    phase-one proposal of that epoch, signed by the node recorded as leader of
    the named round, has its block committed if its payloads are stored.
    Neither the decided block hash nor the block's own epoch is compared: a
    block that claims the next epoch to be committed is committed for it. *)
Theorem late_proposal_commits {PL : MempoolPortLaws} p b c :
  Verify committee (MSPBProposal p) = Some true →
  sp_Phase p = SPB_ONE_PHASE → sp_B p = Some b →
  sp_Epoch p ∈ c_HaltFlags c → sp_Epoch p < c_Epoch c →
  (Elector_Leader (c_Elector c) (sp_Epoch p) (sp_Round p)).1 = sp_Author p →
  (∀ d, d ∈ cb_PayLoads b → readable (c_Store c) d) →
  ∃ c', Core_receive (MSPBProposal p) c = Returns (Ok tt) c' ∧
    c_Commitor c' = Committor_Commit (c_Commitor c) b ∧
    (cb_Epoch b = cm_Index (c_Commitor c) → b ∈ cm_committed (c_Commitor c')).
Proof.
  intros Hv Hph Hb Hh Hlt Hl Hall. unfold Core_receive. rewrite Hv. simpl.
  unfold handleSpbProposal, commit_if_halted, messgaeFilter, mbind, GoM_bind, read.
  rewrite decide_True by done. rewrite bool_decide_eq_true_2 by done.
  rewrite leader_of_idle, Hl, decide_True, Hb by done.
  unfold commit_if_verified, mbind, GoM_bind. set (c1 := set_c_Elector _ c).
  destruct (verify_complete b c1 Hall) as [mp Hver]. rewrite Hver. simpl.
  rewrite bool_decide_eq_true_2 by done. eexists. split; [done|]. split; [done|].
  apply Commit_next.
Qed.
End core.
