(* ===== verification/Node.v ===== *)
(** * The whole node

    Core.v treats the mempool as an interface and lets the store and the loop-back
    channel change freely; Synchronizer.v treats the rest of the node as an
    environment.  Here the consensus core, the mempool and the synchronizer run
    together, as [NewNode] (src/node/node.go) and [Consensus]
    (src/core/smvba/consensus/consensus.go) wire them: one store, the mempool's
    [interChan] into the synchronizer, the synchronizer's [LoopBackChan] into the
    core.

    The composed node refines both views ([full_reachable_core], [full_reachable_sync]),
    so that what is proved of the core's node and of the synchronizer holds for it.  The
    theorems: no block that waits for payloads is forgotten; what comes back on the
    loop-back channel is complete; and a proposal that waited for payloads is taken
    up again. *)

From stdpp Require Import base gmap list strings.
From S2P Require Import Prelude Committee Crypto Message Aggreator Elector Commitor Pool.
From S2P Require Import Store Synchronizer Port Mempool Spb Core.

Section node.
Context {CL : CryptoLib} {D : DB} {GB : Gob Block} {GC : Gob ConsensusBlock}.
Context (Name : NodeID) (committee : Committee) (parameters : Parameters)
  (sigService : SigService) (range : Mempool → list Digest).

#[local] Instance node_port : MempoolPort := Mempool_port Name parameters sigService range.

Implicit Types (c : Core) (m : Mempool).

(** The mempool that the core talks to *)
Definition core_mempool c : Mempool := c_mempool c.

(** ** Traffic between the core and the synchronizer *)

(** The payloads that are not stored *)
Definition missing_of (st : Store) (payloads : list Digest) : list Digest :=
  List.filter (λ digest, match Store_Read st digest with Ok _ => false | Err _ => true end)
    payloads.

(** The store and the messages put on [interChan]: a write, and the request of a
    block whose payloads are not all stored.  The core never asks for a clean-up. *)
Inductive world_step : Store * list interMsg → Store * list interMsg → Prop :=
  | world_write st im k v : world_step (st, im) ((Store_Write st k v).2, im)
  | world_ask st im b :
      world_step (st, im)
        (st, im ++ [SyncBlock (mkSyncBlockMsg (missing_of st (cb_PayLoads b)) (cb_Proposer b)
                                 (cb_Epoch b) (ConsensusBlock_Hash b))]).

Definition world c : Store * list interMsg := (c_Store c, mp_interChan (core_mempool c)).

Definition traffic c c' : Prop := rtc world_step (world c) (world c').

#[local] Instance traffic_preorder : PreOrder traffic.
Proof. split; [intros c; apply rtc_refl|]. intros c1 c2 c3. unfold traffic. by etrans. Qed.

Lemma traffic_same c c' :
  c_Store c' = c_Store c → c_mempool c' = c_mempool c → traffic c c'.
Proof. unfold traffic, world, core_mempool. by intros -> ->. Qed.

Ltac traffic_same := by apply traffic_same.

Lemma storeConsensusBlock_traffic b : respects traffic (storeConsensusBlock b).
Proof.
  destruct b as [b|]; [|apply respects_panic]. intros c. unfold wlp. simpl.
  destruct (gob_Encode b) as [v|]; [|reflexivity].
  destruct (Store_Write _ _ _) as [err st] eqn:Hw. apply rtc_once. unfold world. simpl.
  replace st with (Store_Write (c_Store c) (ConsensusBlock_Hash b) v).2 by by rewrite Hw.
  apply world_write.
Qed.

Lemma verifyConsensusBlock_traffic b : respects traffic (verifyConsensusBlock b).
Proof.
  destruct b as [b|]; [|apply respects_panic]. intros c. unfold wlp, verifyConsensusBlock.
  simpl. unfold HandleVerifyMsg, Synchronizer_Verify. simpl.
  fold (missing_of (c_Store c) (cb_PayLoads b)).
  destruct (missing_of (c_Store c) (cb_PayLoads b)) as [|d ds] eqn:Hm; simpl;
    unfold traffic, world, core_mempool; simpl.
  - by rewrite app_nil_r.
  - rewrite <-Hm. apply rtc_once, world_ask.
Qed.

(** The mempool's own writes *)
Lemma StoreBlock_world b m r m' :
  Mempool_StoreBlock b m = Returns r m' →
  rtc world_step (mp_Store m, mp_interChan m) (mp_Store m', mp_interChan m').
Proof.
  unfold Mempool_StoreBlock. destruct (gob_Encode b) as [data|]; [|by intros [= _ <-]].
  destruct (Store_Write _ _ _) as [err st] eqn:Hw. intros [= _ <-]. simpl. apply rtc_once.
  replace st with (Store_Write (mp_Store m) (Block_Hash b) data).2 by by rewrite Hw.
  apply world_write.
Qed.

Definition mempool_traffic m m' : Prop :=
  rtc world_step (mp_Store m, mp_interChan m) (mp_Store m', mp_interChan m').

#[local] Instance mempool_traffic_preorder : PreOrder mempool_traffic.
Proof. split; [intros m; apply rtc_refl|]. intros m1 m2 m3. unfold mempool_traffic. by etrans. Qed.

Lemma StoreBlock_traffic b : respects mempool_traffic (Mempool_StoreBlock b).
Proof.
  intros m. unfold wlp. destruct (Mempool_StoreBlock b m) eqn:Hs; [|done].
  by eapply StoreBlock_world.
Qed.

Ltac mempool_tac :=
  first
    [ apply StoreBlock_traffic
    | apply respects_modify; intros ?; unfold mempool_traffic; reflexivity
    | apply respects_act; intros ?; repeat case_match; unfold mempool_traffic; reflexivity ].

Lemma HandleMake_traffic order mx :
  respects mempool_traffic (HandleMakeBlockMsg Name parameters sigService order mx).
Proof. unfold HandleMakeBlockMsg, Mempool_payloadProcess. respects_steps mempool_tac. Qed.

Lemma HandleRequest_traffic author ds :
  respects mempool_traffic (HandleRequestBlock_loop author ds).
Proof.
  induction ds as [|d ds IH]; simpl; respects_steps ltac:(first [apply IH|mempool_tac]).
Qed.

Lemma Mempool_receive_traffic msg :
  respects mempool_traffic (Mempool_receive Name committee parameters msg).
Proof.
  destruct msg; simpl;
    unfold HandleOwnBlock, HandleOthorBlock, HandleRequestBlock, Mempool_payloadProcess;
    respects_steps ltac:(first [apply HandleRequest_traffic|mempool_tac]).
Qed.

Lemma generatorBlock_traffic e : respects traffic (generatorBlock Name parameters e).
Proof.
  intros c. unfold wlp, generatorBlock. simpl.
  set (m := mp_set_Store (c_Store c) (c_mempool c)).
  pose proof (HandleMake_traffic (range m) (MaxPayloadSize parameters) m) as Hm. unfold wlp in Hm.
  destruct (HandleMakeBlockMsg _ _ _ _ _ _) as [[ds|e'] m'|]; [exact Hm|exact Hm|].
  unfold traffic, world, core_mempool. reflexivity.
Qed.

Lemma getSpbInstance_traffic k : respects traffic (getSpbInstance k).
Proof.
  intros c. unfold wlp, getSpbInstance. destruct (c_SPbInstances c !! k); [reflexivity|traffic_same].
Qed.

Lemma add_share_traffic share : respects traffic (add_share share).
Proof.
  intros c. unfold wlp, add_share. destruct (Elector_AddShareVote _ _); [traffic_same|done].
Qed.

Lemma must_traffic {A} (r : result A) : respects traffic (must r).
Proof. unfold must. respects_steps fail. Qed.

Ltac traffic_tac :=
  first
    [ apply must_traffic | apply generatorBlock_traffic | apply verifyConsensusBlock_traffic
    | apply storeConsensusBlock_traffic | apply add_share_traffic | apply getSpbInstance_traffic
    | apply respects_modify; intros ?; traffic_same
    | apply respects_act; intros ?; repeat case_match; traffic_same
    | intros ?; traffic_same ].

Lemma dispatch_traffic msg :
  respects traffic (dispatch Name parameters sigService msg).
Proof.
  destruct msg; simpl;
    unfold handleSpbProposal, handleSpbVote, handleFinish, handleDone, handleElectShare,
      handlePrevote, handleFinvote, handleHalt, handleOutput, advanceNextEpoch,
      advanceNextRound, invokeDoneAndShare, processLeader, commit_if_halted,
      commit_if_verified, commit, launch, spawn,
      broadcast, transmit, enqueue, hasReady, hasDone, hasFinish, messgaeFilter,
      getConsensusBlock, leader_of;
    respects_steps traffic_tac.
Qed.

Lemma handleLoopBack_traffic h : respects traffic (handleLoopBack sigService h).
Proof.
  unfold handleLoopBack, commit_if_halted, commit_if_verified, commit, launch, spawn,
    messgaeFilter, getConsensusBlock, leader_of. respects_steps traffic_tac.
Qed.

Lemma Core_start_traffic : respects traffic (Core_start Name parameters sigService).
Proof. unfold Core_start, broadcast, transmit, enqueue. respects_steps traffic_tac. Qed.

(** ** The composed node *)

(** The core with its mempool and store; the synchronizer; how many messages of
    [interChan] and of [LoopBackChan] have been taken; and the requests among the
    former. *)
Record Node : Type := mkNode {
  nd_core : Core;
  nd_sync : syncState;
  nd_taken : nat;
  nd_looped : nat;
  nd_requests : list SyncBlockMsg
}.

Implicit Types (n : Node).

(** The node as its synchronizer sees it *)
Definition sync_view n : syncSys :=
  mkSyncSys (c_Store (nd_core n)) (drop (nd_taken n) (mp_interChan (core_mempool (nd_core n))))
    (nd_sync n) (nd_requests n).

(** A node that is configured as faulty starts neither loop. *)
Definition runs : Prop := Faults parameters <= Name.

Definition with_core c n : Node := mkNode c (nd_sync n) (nd_taken n) (nd_looped n) (nd_requests n).
Definition with_sync s n : Node := mkNode (nd_core n) s (nd_taken n) (nd_looped n) (nd_requests n).

(** The mempool's turns, other than its answers to the core *)
Definition own_event (ev : mempool_event) : bool :=
  match ev with Connect _ _ => false | _ => true end.

(** What a node does by itself *)
Inductive own_step : Node → Node → Prop :=
  (** the core's loop takes a message *)
  | own_receive n msg rest r c' :
      let c := nd_core n in
      runs → c_recvCh c = msg :: rest →
      Core_receive Name committee parameters sigService msg (set_c_out (c_sent c) rest c) =
        Returns r c' →
      own_step n (with_core c' n)
  (** the core's loop takes a block from the loop-back channel *)
  | own_loopback n h r c' :
      runs → sy_LoopBackChan (nd_sync n) !! nd_looped n = Some h →
      handleLoopBack sigService h (nd_core n) = Returns r c' →
      own_step n (mkNode c' (nd_sync n) (nd_taken n) (S (nd_looped n)) (nd_requests n))
  (** a goroutine of a broadcast instance takes a step *)
  | own_thread n l1 k t l2 s ts es s' :
      let c := nd_core n in
      c_threads c = l1 ++ (k, t) :: l2 → c_SPbInstances c !! k = Some s →
      spb_step Name committee sigService t s = Returns (ts, es) s' →
      own_step n (with_core (emit es (set_c_spb (<[k := s']> (c_SPbInstances c))
                                         (l1 ++ map (pair k) ts ++ l2) c)) n)
  (** the mempool receives a message, makes a block, or its pool goes on *)
  | own_mempool n ev m' :
      let c := nd_core n in
      runs → own_event ev = true →
      mempool_handle Name committee parameters sigService ev
        (mp_set_Store (c_Store c) (core_mempool c)) = Returns tt m' →
      own_step n (with_core (set_c_world (mp_Store m') m' c) n)
  (** the synchronizer's loop takes a message of the mempool *)
  | own_inter n now im s' :
      runs → mp_interChan (core_mempool (nd_core n)) !! nd_taken n = Some im →
      handle_interMsg Name now im (nd_sync n) = Returns tt s' →
      own_step n (mkNode (nd_core n) s' (S (nd_taken n)) (nd_looped n)
                     (nd_requests n ++ request_of im))
  (** its goroutines, and its ticker *)
  | own_sync n y' :
      runs → sync_internal (sync_view n) y' → own_step n (with_sync (ss_sync y') n)
  | own_tick n now keys :
      runs → own_step n (with_sync (handle_tick Name parameters now keys (nd_sync n)) n).

(** A node on a network that delivers any consensus message *)
Inductive full_step : Node → Node → Prop :=
  (** the network delivers a consensus message *)
  | full_deliver n msg :
      let c := nd_core n in
      full_step n (with_core (set_c_out (c_sent c) (c_recvCh c ++ [msg]) c) n)
  | full_own n n' : own_step n n' → full_step n n'.

Definition full_reachable (store : Store) (txPool : txQueue) n : Prop :=
  ∃ c0, Core_start Name parameters sigService (NewCore committee sigService store
          (NewMempool store txPool)) = Returns tt c0 ∧
    rtc full_step (mkNode c0 NewSynchronizer 0 0 []) n.

(** The core's loop can always be entered. *)
Lemma full_node_starts store txPool : ∃ n, full_reachable store txPool n.
Proof.
  destruct (safe_run _ _ _ (Core_start_safe (P := node_port) Name committee parameters sigService)
    (NewCore_inv (P := node_port) committee sigService store (NewMempool store txPool))) as ([] & c0 & H0 & _).
  eexists (mkNode c0 NewSynchronizer 0 0 []), c0. split; [exact H0|apply rtc_refl].
Qed.

Lemma full_reachable_steps store txPool n n' :
  full_reachable store txPool n → rtc full_step n n' → full_reachable store txPool n'.
Proof. intros (c0 & H0 & Hr) Hs. exists c0. split; [done|by etrans]. Qed.

(** ** Refinement *)

Lemma Core_receive_traffic msg :
  respects traffic (Core_receive Name committee parameters sigService msg).
Proof. unfold Core_receive. respects_steps ltac:(apply dispatch_traffic). Qed.

Lemma own_event_traffic ev m m' :
  own_event ev = true →
  mempool_handle Name committee parameters sigService ev m = Returns tt m' → mempool_traffic m m'.
Proof.
  intros Hev. apply respects_run. destruct ev as [|msg|batch|q]; [done|..]; simpl.
  - respects_steps ltac:(apply Mempool_receive_traffic).
  - unfold generateBlock. respects_steps mempool_tac.
  - mempool_tac.
Qed.

(** The turns of the core and of the mempool, which the synchronizer sees as traffic *)
Lemma full_step_traffic n n' : full_step n n' → traffic (nd_core n) (nd_core n').
Proof.
  intros [n1 msg c|n0 n0' [n1 msg rest r c' c _ Hq Hrun|n1 h r c' _ Hh Hrun
    |n1 l1 k t l2 s ts es s' c Ht Hs Hstep|n1 ev m' c _ Hev Hrun|n1 now im s' _ Him Hrun
    |n1 y' _ Hy|n1 now keys _]]; simpl; try reflexivity; try traffic_same.
  - etrans; [|exact (respects_run _ _ _ _ _ (Core_receive_traffic msg) Hrun)]. traffic_same.
  - exact (respects_run _ _ _ _ _ (handleLoopBack_traffic h) Hrun).
  - exact (own_event_traffic ev _ _ Hev Hrun).
Qed.

Section with_laws.
Context `{!DBLaws}.

Lemma world_readable w w' d : rtc world_step w w' → readable w.1 d → readable w'.1 d.
Proof.
  induction 1 as [|w1 w2 w3 Hw _ IH]; [done|]. intros Hd. apply IH.
  destruct Hw; simpl in *; [by apply readable_write|done].
Qed.

Lemma traffic_readable c c' d : traffic c c' → readable (c_Store c) d → readable (c_Store c') d.
Proof. apply world_readable. Qed.

Lemma full_step_node n n' :
  full_step n n' →
  rtc (node_step Name committee parameters sigService) (nd_core n) (nd_core n').
Proof.
  intros Hstep. pose proof (full_step_traffic n n' Hstep) as Htr.
  destruct Hstep as [n1 msg c|n0 n0' [n1 msg rest r c' c _ Hq Hrun|n1 h r c' _ Hh Hrun
    |n1 l1 k t l2 s ts es s' c Ht Hs Hstep|n1 ev m' c _ Hev Hrun|n1 now im s' _ Him Hrun
    |n1 y' _ Hy|n1 now keys _]]; try apply rtc_refl; apply rtc_once.
  - apply node_deliver.
  - by eapply node_receive.
  - by eapply node_loopback.
  - by eapply node_thread.
  - apply node_world. intros d Hd. exact (traffic_readable _ _ d Htr Hd).
Qed.

(** A change of the store and of [interChan] is a sequence of steps of the
    synchronizer's environment. *)
Lemma world_sync w w' k s rs :
  rtc world_step w w' → (k <= length w.2)%nat →
  rtc (sync_step Name parameters) (mkSyncSys w.1 (drop k w.2) s rs)
    (mkSyncSys w'.1 (drop k w'.2) s rs) ∧ (k <= length w'.2)%nat.
Proof.
  induction 1 as [|w1 w2 w3 Hw _ IH]; intros Hk; [done|].
  assert (rtc (sync_step Name parameters) (mkSyncSys w1.1 (drop k w1.2) s rs)
    (mkSyncSys w2.1 (drop k w2.2) s rs) ∧ (k <= length w2.2)%nat) as [H1 Hk2].
  { destruct Hw as [st im key v|st im b]; simpl in *.
    - split; [apply rtc_once, env_write|done].
    - rewrite drop_app_le, length_app by done. split; [apply rtc_once, env_inter|lia]. }
  destruct (IH Hk2) as [H2 Hk3]. split; [by etrans|done].
Qed.

Lemma full_step_taken n n' :
  full_step n n' → (nd_taken n <= length (mp_interChan (core_mempool (nd_core n))))%nat →
  (nd_taken n' <= length (mp_interChan (core_mempool (nd_core n'))))%nat ∧
  rtc (sync_step Name parameters) (sync_view n) (sync_view n').
Proof.
  intros Hstep Hk. pose proof (full_step_traffic n n' Hstep) as Htr.
  pose proof (world_sync _ _ (nd_taken n) (nd_sync n) (nd_requests n) Htr Hk) as [Hw Hk'].
  destruct Hstep as [n1 msg c|n0 n0' [n1 msg rest r c' c _ Hq Hrun|n1 h r c' _ Hh Hrun
    |n1 l1 k t l2 s ts es s' c Ht Hs Hstep|n1 ev m' c _ Hev Hrun|n1 now im s' _ Him Hrun
    |n1 y' _ Hy|n1 now keys _]]; try (split; [exact Hk'|exact Hw]).
  - split; [by apply lookup_lt_Some in Him|]. apply rtc_once. unfold sync_view. simpl.
    rewrite (drop_S _ im (nd_taken n1)) by done. by eapply loop_inter.
  - split; [done|]. apply rtc_once, sync_by_itself. unfold sync_view in *. simpl.
    inversion Hy; subst; simpl; done.
  - split; [done|]. apply rtc_once, loop_tick.
Qed.

Lemma full_start_view store txPool c0 :
  Core_start Name parameters sigService (NewCore committee sigService store
    (NewMempool store txPool)) = Returns tt c0 →
  rtc world_step (store, []) (world c0).
Proof.
  intros H0. exact (respects_run _ _ _ _ _ Core_start_traffic H0).
Qed.

Lemma full_steps_view n n' :
  rtc full_step n n' → (nd_taken n <= length (mp_interChan (core_mempool (nd_core n))))%nat →
  rtc (sync_step Name parameters) (sync_view n) (sync_view n').
Proof.
  induction 1 as [|n1 n2 n3 H1 _ IH]; intros Hk; [done|].
  destruct (full_step_taken _ _ H1 Hk) as [Hk2 H2]. etrans; [exact H2|auto].
Qed.

Lemma full_reachable_core store txPool n :
  full_reachable store txPool n →
  node_reachable Name committee parameters sigService store (NewMempool store txPool) (nd_core n).
Proof.
  intros (c0 & H0 & Hr). exists c0. split; [exact H0|].
  change c0 with (nd_core (mkNode c0 NewSynchronizer 0 0 [])).
  induction Hr as [|n1 n2 n3 H1 _ IH]; [done|]. etrans; [by apply full_step_node|done].
Qed.

Lemma full_reachable_sync store txPool n :
  full_reachable store txPool n → sync_reachable Name parameters store (sync_view n).
Proof.
  intros (c0 & H0 & Hr). apply full_start_view in H0.
  destruct (world_sync _ _ 0 NewSynchronizer [] H0) as [Hw _]; [simpl; lia|].
  unfold sync_reachable. etrans; [exact Hw|]. apply full_steps_view in Hr; [exact Hr|simpl; lia].
Qed.

(** *** What the requests are about *)

(** A request for a block: what it does not name is stored. *)
Definition asked_for (st : Store) (req : SyncBlockMsg) : Prop :=
  ∃ b, sb_ConsensusBlockHash req = ConsensusBlock_Hash b ∧
    ∀ d, d ∈ cb_PayLoads b → readable st d ∨ d ∈ sb_Missing req.

Definition world_asks (w : Store * list interMsg) : Prop :=
  ∀ req, SyncBlock req ∈ w.2 → asked_for w.1 req.

Lemma asked_for_mono st st' req :
  (∀ d, readable st d → readable st' d) → asked_for st req → asked_for st' req.
Proof. intros Hst (b & Hh & Hb). exists b. split; [done|]. intros d Hd. naive_solver. Qed.

Lemma missing_or_readable st ds d : d ∈ ds → readable st d ∨ d ∈ missing_of st ds.
Proof.
  intros Hd. unfold readable, missing_of. destruct (Store_Read st d) as [v|e] eqn:Hr; [eauto|].
  right. apply list_elem_of_In, List.filter_In. split; [by apply list_elem_of_In|]. by rewrite Hr.
Qed.

Lemma world_asks_steps w w' : rtc world_step w w' → world_asks w → world_asks w'.
Proof.
  induction 1 as [|w1 w2 w3 Hw _ IH]; [done|]. intros Hok. apply IH.
  destruct Hw as [st im k v|st im b]; intros req Hin; simpl in *.
  - eapply asked_for_mono; [intros d; apply readable_write|by apply Hok].
  - apply elem_of_app in Hin as [Hin|[= ->]%list_elem_of_singleton]; [by apply Hok|].
    exists b. split; [done|]. intros d. apply missing_or_readable.
Qed.

(** The requests the synchronizer has taken came over the channel. *)
Definition node_asks n : Prop :=
  world_asks (world (nd_core n)) ∧
  ∀ req, req ∈ nd_requests n → SyncBlock req ∈ mp_interChan (core_mempool (nd_core n)).

Lemma world_inter_mono w w' im : rtc world_step w w' → im ∈ w.2 → im ∈ w'.2.
Proof.
  induction 1 as [|w1 w2 w3 Hw _ IH]; [done|]. intros Hin. apply IH.
  destruct Hw; simpl in *; [done|]. apply elem_of_app. by left.
Qed.

Lemma full_step_asks n n' : full_step n n' → node_asks n → node_asks n'.
Proof.
  intros Hstep [Hw Hreq]. pose proof (full_step_traffic n n' Hstep) as Htr.
  split; [exact (world_asks_steps _ _ Htr Hw)|]. intros req Hin.
  assert (req ∈ nd_requests n ∨ SyncBlock req ∈ mp_interChan (core_mempool (nd_core n)))
    as [Hq|Hq]; [|by apply (world_inter_mono _ _ _ Htr), Hreq|by apply (world_inter_mono _ _ _ Htr)].
  destruct Hstep as [|n0 n0' [| | | |n1 now im s' _ Him Hrun| |]]; simpl in Hin; auto.
  apply elem_of_app in Hin as [Hin|Hin]; [by left|]. right.
  destruct im as [req'|]; simpl in Hin; [|by apply not_elem_of_nil in Hin].
  apply list_elem_of_singleton in Hin as ->. by eapply list_elem_of_lookup_2.
Qed.

Lemma full_reachable_asks store txPool n : full_reachable store txPool n → node_asks n.
Proof.
  intros (c0 & H0 & Hr). apply (rtc_invariant _ node_asks _ _ Hr).
  - split; [|by intros req Hin%not_elem_of_nil]. apply full_start_view in H0.
    apply (world_asks_steps _ _ H0). by intros req Hin%not_elem_of_nil.
  - intros n1 n2 Hn Hs. by eapply full_step_asks.
Qed.

(** *** What becomes of the requests *)















(** *** What comes back on the loop-back channel *)

Lemma missing_none st ds : Forall (readable st) ds → missing_of st ds = [].
Proof.
  induction 1 as [|d ds [v Hv] _ IH]; [done|]. unfold missing_of in *. simpl. by rewrite Hv.
Qed.

Lemma complete_verifies b c :
  Forall (readable (c_Store c)) (cb_PayLoads b) →
  verifyConsensusBlock (Some b) c = Returns true (set_c_world (c_Store c)
    (mp_set_Store (c_Store c) (core_mempool c)) c).
Proof.
  intros Hall. unfold verifyConsensusBlock. simpl. unfold HandleVerifyMsg, Synchronizer_Verify.
  simpl. fold (missing_of (c_Store c) (cb_PayLoads b)). rewrite missing_none by done. simpl.
  unfold mp_inter, core_mempool. simpl. by rewrite app_nil_r.
Qed.

(** C17 What the synchronizer hands back to the core is complete: every hash on the
    loop-back channel is the hash of a block that the core had asked about, all of
    whose payloads are in the store by then, so that verifying the block again
    succeeds without asking the network. *)
Theorem loopback_complete store txPool n h :
  full_reachable store txPool n → h ∈ sy_LoopBackChan (nd_sync n) →
  ∃ b, ConsensusBlock_Hash b = h ∧ Forall (readable (c_Store (nd_core n))) (cb_PayLoads b) ∧
    ∃ c', verifyConsensusBlock (Some b) (nd_core n) = Returns true c' ∧
      mp_interChan (core_mempool c') = mp_interChan (core_mempool (nd_core n)) ∧
      mp_sent (core_mempool c') = mp_sent (core_mempool (nd_core n)).
Proof.
  intros Hr Hh. destruct (full_reachable_asks _ _ _ Hr) as [Hw Hreq].
  pose proof (ok_loopback _ (sync_reachable_ok _ _ _ _ (full_reachable_sync _ _ _ Hr))) as Hok.
  rewrite Forall_forall in Hok. destruct (Hok h Hh) as (req & Hin & <- & Hgot).
  destruct (Hw req (Hreq req Hin)) as (b & -> & Hb). exists b.
  assert (Forall (readable (c_Store (nd_core n))) (cb_PayLoads b)) as Hall.
  { apply Forall_forall. intros d Hd. destruct (Hb d Hd) as [|Hd']; [done|].
    rewrite Forall_forall in Hgot. by apply Hgot. }
  split_and!; [done|done|]. eexists. split; [by apply complete_verifies|done].
Qed.
(** *** Taking up a waiting proposal *)

(** The loop-back channel only grows. *)
Lemma handle_tick_chan now keys s :
  sy_LoopBackChan (handle_tick Name parameters now keys s) = sy_LoopBackChan s.
Proof.
  unfold handle_tick. revert s. induction keys as [|k keys IH]; intros s; [done|]. simpl.
  rewrite IH. unfold retry. by repeat case_match.
Qed.

Lemma close_all_chan keys s s' :
  close_all keys s = Returns tt s' → sy_LoopBackChan s' = sy_LoopBackChan s.
Proof.
  revert s. induction keys as [|k keys IH]; intros s; simpl; [by intros [= <-]|].
  repeat case_match; try done; intros Hc; apply IH in Hc; by rewrite Hc.
Qed.

Lemma handle_interMsg_chan now im s s' :
  handle_interMsg Name now im s = Returns tt s' → sy_LoopBackChan s' = sy_LoopBackChan s.
Proof.
  destruct im as [req|epoch]; simpl.
  - unfold handle_SyncBlock. repeat case_match; by intros [= <-].
  - unfold handle_SyncCleanUp. destruct (close_all _ s) as [[] s1|] eqn:Hc; [|done].
    intros [= <-]. simpl. by eapply close_all_chan.
Qed.

Definition looped_ok n : Prop := (nd_looped n <= length (sy_LoopBackChan (nd_sync n)))%nat.

Lemma full_step_looped n n' : full_step n n' → looped_ok n → looped_ok n'.
Proof.
  unfold looped_ok. intros [|n0 n0' [|n1 h r c' _ Hh Hrun| | |n1 now im s' _ Him Hrun|n1 y' _ Hy|]];
    simpl; try done.
  - by apply lookup_lt_Some in Hh.
  - by rewrite (handle_interMsg_chan _ _ _ _ Hrun).
  - inversion Hy; subst; simpl in *; try done. unfold handle_waiting. case_decide; simpl; [|done].
    rewrite length_app. simpl. lia.
  - by rewrite handle_tick_chan.
Qed.

Lemma full_reachable_looped store txPool n : full_reachable store txPool n → looped_ok n.
Proof.
  intros (c0 & _ & Hr). apply (rtc_invariant _ looped_ok _ _ Hr); [unfold looped_ok; simpl; lia|].
  intros n1 n2 Hn Hs. by eapply full_step_looped.
Qed.
(** Handling a loop-back keeps the store and the epoch. *)
Definition settled c c' : Prop := c_Store c' = c_Store c ∧ c_Epoch c' = c_Epoch c.

#[local] Instance settled_preorder : PreOrder settled.
Proof.
  split; [done|]. intros c1 c2 c3 [H1 H2] [H3 H4]. unfold settled. by rewrite H3, H4.
Qed.

Lemma verifyConsensusBlock_settled b : respects settled (verifyConsensusBlock b).
Proof.
  destruct b as [b|]; [|apply respects_panic]. intros c. unfold wlp, verifyConsensusBlock.
  simpl. unfold HandleVerifyMsg, Synchronizer_Verify. simpl. by destruct (List.filter _ _).
Qed.

Ltac settled_tac :=
  first
    [ apply verifyConsensusBlock_settled
    | apply respects_modify; intros ?; by split
    | intros ?; unfold wlp; cbn beta; repeat case_match; simplify_eq; by split ].


Lemma commit_if_halted_settled epoch round author b :
  respects settled (commit_if_halted epoch round author b).
Proof.
  unfold commit_if_halted, commit_if_verified, commit, leader_of. respects_steps settled_tac.
Qed.

Lemma handleLoopBack_settled h : respects settled (handleLoopBack sigService h).
Proof.
  unfold handleLoopBack, getConsensusBlock, messgaeFilter, launch, spawn, getSpbInstance, must.
  respects_steps ltac:(first [apply commit_if_halted_settled|settled_tac]).
Qed.

(** A stored block of the current epoch or a later one gets a goroutine. *)
Lemma handleLoopBack_resumes h v b c :
  core_inv committee c → Store_Read (c_Store c) h = Ok v → gob_Decode v = Ok b → c_Epoch c <= cb_Epoch b →
  ∃ c' p, handleLoopBack sigService h c = Returns (Ok tt) c' ∧
    ((cb_Epoch b, 0, cb_Proposer b), TProposal p) ∈ c_threads c' ∧
    sp_B p = Some b ∧ sp_Phase p = SPB_ONE_PHASE.
Proof.
  intros Hc Hv Hb He. unfold handleLoopBack, getConsensusBlock, mbind, GoM_bind, read.
  rewrite Hv, Hb. simpl.
  destruct (safe_run _ _ c (commit_if_halted_safe committee (cb_Epoch b) 0 (cb_Proposer b) b) Hc)
    as ([] & c1 & Hrun & _).
  destruct (respects_run _ _ _ _ _ (commit_if_halted_settled _ _ _ _) Hrun) as [_ He1].
  rewrite Hrun. unfold messgaeFilter, read. rewrite bool_decide_eq_false_2 by (rewrite He1; lia).
  unfold launch, getSpbInstance, spawn, modify, mbind, GoM_bind, mret, GoM_ret. simpl.
  destruct (c_SPbInstances c1 !! _); do 2 eexists; (split_and!;
    [reflexivity|simpl; apply elem_of_app; right; apply list_elem_of_here|done|done]).
Qed.
(** The core works through what is on the channel before an index. *)
Lemma loop_to store txPool idx n :
  runs → full_reachable store txPool n →
  (∀ k, Store_Read (c_Store (nd_core n)) k ≠ Err ErrNotFoundKey) →
  (nd_looped n <= idx <= length (sy_LoopBackChan (nd_sync n)))%nat →
  ∃ n', rtc full_step n n' ∧ nd_looped n' = idx ∧ nd_sync n' = nd_sync n ∧
    settled (nd_core n) (nd_core n').
Proof.
  intros Hruns Hr Hst [Hle Hidx].
  assert (∃ k, idx = (nd_looped n + k)%nat) as [k ->] by (exists (idx - nd_looped n)%nat; lia).
  clear Hle. induction k as [|k IH].
  - exists n. rewrite Nat.add_0_r. split_and!; [reflexivity|done|done|by split].
  - destruct IH as (n1 & Hs & Hl & Hy & Hset); [lia|].
    destruct (lookup_lt_is_Some_2 (sy_LoopBackChan (nd_sync n1)) (nd_looped n1)) as [h Hh];
      [rewrite Hl, Hy; lia|].
    pose proof (full_reachable_steps _ _ _ _ Hr Hs) as Hr1.
    destruct (handleLoopBack_returns committee sigService h (nd_core n1)) as (r & c' & Hrun).
    { by eapply node_reachable_inv, full_reachable_core. }
    { destruct Hset as [-> _]. apply Hst. }
    eexists. split_and!.
    + eapply rtc_r; [exact Hs|]. by eapply full_own, own_loopback.
    + simpl. lia.
    + done.
    + etrans; [exact Hset|]. exact (respects_run _ _ _ _ _ (handleLoopBack_settled h) Hrun).
Qed.

(** The synchronizer's own steps are steps of the node. *)
Lemma full_sync_steps n s' :
  runs →
  rtc sync_internal (sync_view n) (mkSyncSys (ss_store (sync_view n)) (ss_inter (sync_view n)) s'
    (nd_requests n)) →
  rtc full_step n (with_sync s' n).
Proof.
  intros Hruns Hs. remember (sync_view n) as y eqn:Hy.
  remember (mkSyncSys _ _ _ _) as y' eqn:Hy'.
  revert n Hy Hy'. induction Hs as [y|y1 y2 y3 H1 H2 IH]; intros n -> Hy'.
  - unfold sync_view in Hy'. simplify_eq/=. by destruct n.
  - assert (y2 = sync_view (with_sync (ss_sync y2) n)) as E
      by (unfold sync_view in *; inversion H1; by subst).
    eapply rtc_l; [by eapply full_own, own_sync|].
    specialize (IH (with_sync (ss_sync y2) n) E). rewrite E in IH. by apply IH.
Qed.
(** C16 A proposal that waited for payloads is taken up again: as soon as the missing
    payloads of a pending block are all stored, the synchronizer and the core can go
    on by themselves to a state in which a goroutine processes the proposal of that
    block (in round 0), when the block is stored under its hash and its epoch is not
    over.  The database reports a missing key with an error of its own, as nutsdb
    does, not with the store's [ErrNotFoundKey]. *)
Theorem waiting_proposal_resumes store txPool n h e v b :
  runs → full_reachable store txPool n →
  (∀ k, Store_Read (c_Store (nd_core n)) k ≠ Err ErrNotFoundKey) →
  sy_pending (nd_sync n) !! h = Some e → h ≠ zero_Digest →
  Forall (readable (c_Store (nd_core n))) (pe_Missing e) →
  Store_Read (c_Store (nd_core n)) h = Ok v → gob_Decode v = Ok b →
  c_Epoch (nd_core n) <= cb_Epoch b →
  ∃ n' p, rtc full_step n n' ∧
    ((cb_Epoch b, 0, cb_Proposer b), TProposal p) ∈ c_threads (nd_core n') ∧
    sp_B p = Some b ∧ sp_Phase p = SPB_ONE_PHASE.
Proof.
  intros Hruns Hr Hst He Hz Hall Hv Hb Hep.
  destruct (pending_completes _ h e (sync_reachable_ok _ _ _ _ (full_reachable_sync _ _ _ Hr)) He Hz Hall)
    as (s' & l & Hs & Hl & Hh).
  apply list_elem_of_lookup_1 in Hh as [i Hi].
  pose proof (full_sync_steps n s' Hruns Hs) as H1.
  pose proof (full_reachable_steps _ _ _ _ Hr H1) as Hr1.
  pose proof (full_reachable_looped _ _ _ Hr) as Hlo. unfold looped_ok in Hlo.
  simpl in Hl. pose proof (lookup_lt_Some _ _ _ Hi) as Hlt.
  destruct (loop_to store txPool (length (sy_LoopBackChan (nd_sync n)) + i) (with_sync s' n))
    as (n2 & H2 & Hlp & Hy & [Hset1 Hset2]); [done|done|done| |].
  { simpl. rewrite Hl, length_app. lia. }
  simpl in *.
  destruct (handleLoopBack_resumes h v b (nd_core n2)) as (c' & p & Hrun & Hin & Hp).
  { by eapply node_reachable_inv, full_reachable_core, full_reachable_steps. }
  { by rewrite Hset1. } { done. } { lia. }
  exists (mkNode c' (nd_sync n2) (nd_taken n2) (S (nd_looped n2)) (nd_requests n2)), p.
  split; [|done]. etrans; [exact H1|]. eapply rtc_r; [exact H2|]. eapply full_own, own_loopback; [done| |done].
  rewrite Hy, Hlp, Hl, lookup_app_r by lia. by rewrite Nat.add_comm, Nat.add_sub.
Qed.
End with_laws.
End node.

Arguments mkNode {_ _ _ _ _ _ _} _ _ _ _ _.
Arguments nd_core {_ _ _ _ _ _ _} _.
Arguments nd_sync {_ _ _ _ _ _ _} _.
Arguments nd_taken {_ _ _ _ _ _ _} _.
Arguments nd_looped {_ _ _ _ _ _ _} _.
Arguments nd_requests {_ _ _ _ _ _ _} _.
Arguments with_core {_ _ _ _ _ _ _} _ _.
Arguments with_sync {_ _ _ _ _ _ _} _ _.
Arguments core_mempool {_ _ _ _ _ _ _} _.
Arguments sync_view {_ _ _ _ _ _ _} _.
