(* ===== verification/Errors.v ===== *)
(** * Errors of the core's loop (the error returns of the handlers of
    src/core/smvba/consensus/core.go, with src/core/error.go)

    The loop of the core logs the error of a handler and goes on.  The theorem says
    what such an error means: where it comes from, and that the message which caused
    it has had no effect that another node or goroutine could see. *)

From stdpp Require Import base gmap list strings.
From S2P Require Import Prelude Committee Crypto Message Aggreator Elector Commitor Store.
From S2P Require Import Port Spb Core.

Section errors.
Context {CL : CryptoLib} {D : DB} {P : MempoolPort} {G : Gob ConsensusBlock}.
Context (Name : NodeID) (committee : Committee) (parameters : Parameters)
  (sigService : SigService).
Implicit Types (c : Core) (m : Message).

(** Nothing is sent or queued, no goroutine is started, the epoch and the flags of the
    protocol are as before. *)
Definition quiet c c' : Prop :=
  c_sent c' = c_sent c ∧ c_recvCh c' = c_recvCh c ∧ c_threads c' = c_threads c ∧
  c_Epoch c' = c_Epoch c ∧ c_HaltFlags c' = c_HaltFlags c ∧ c_DoneFlags c' = c_DoneFlags c ∧
  c_ReadyFlags c' = c_ReadyFlags c ∧ c_FinishFlags c' = c_FinishFlags c.

#[local] Instance quiet_preorder : PreOrder quiet.
Proof.
  split; [done|]. unfold quiet. intros c1 c2 c3 H1 H2. by destruct_and!; split_and!; etrans.
Qed.

(** The error of an operation of the store or of the serialiser *)
Definition library_error (e : goerror) : Prop :=
  (∃ st k, Store_Read st k = Err e) ∨ (∃ st k v, (Store_Write st k v).1 = Err e) ∨
  (∃ b : ConsensusBlock, gob_Encode b = Err e) ∨
  (∃ data, gob_Decode (A := ConsensusBlock) data = Err e).

(** A message of an author that has been counted already in its epoch and round *)
Definition counted c m : Prop :=
  match m with
  | MFinish f => ∃ a, lookup2 (ag_finish (c_Aggreator c)) (fi_Epoch f) (fi_Round f) = Some a ∧
      fi_Author f ∈ fia_Authors a
  | MDone d => ∃ a, lookup2 (ag_done (c_Aggreator c)) (dn_Epoch d) (dn_Round d) = Some a ∧
      dn_Author d ∈ dna_Authors a
  | MPrevote p => ∃ a, lookup2 (ag_prevote (c_Aggreator c)) (pv_Epoch p) (pv_Round p) = Some a ∧
      pv_Author p ∈ pva_authors a
  | MFinVote v => ∃ a, lookup2 (ag_finvote (c_Aggreator c)) (fv_Epoch v) (fv_Round v) = Some a ∧
      fv_Author v ∈ fva_authors a
  | _ => False
  end.

Definition msg_Round m : Z :=
  match m with
  | MSPBProposal p => sp_Round p | MSPBVote v => sv_Round v
  | MFinish f => fi_Round f | MDone d => dn_Round d
  | MElectShare e => es_Round e | MPrevote p => pv_Round p
  | MFinVote v => fv_Round v | MHalt h => ha_Round h
  end.

(** Where the error of a handler comes from *)
Definition handler_error c m (e : goerror) : Prop :=
  (e = ErrOneMoreMessage (MsgType m) (msg_Epoch m) (msg_Round m) (msg_Author m) ∧ counted c m) ∨
  library_error e.

(** ** Handlers that cannot fail, and handlers that fail quietly *)

Definition never_err {A} (h : GoM Core (result A)) : Prop :=
  ∀ c e c', h c ≠ Returns (Err e) c'.

Definition errs {A} (Q : Core → goerror → Prop) (h : GoM Core (result A)) : Prop :=
  ∀ c e c', h c = Returns (Err e) c' → quiet c c' ∧ Q c e.

Lemma never_ret {A} (a : A) : never_err (mret (Ok a)).
Proof. by intros c e c' [=]. Qed.

Lemma never_panic {A} why : never_err (A := A) (panic why).
Proof. by intros c e c' [=]. Qed.

Lemma never_bind {A B} (h : GoM Core A) (k : A → GoM Core (result B)) :
  (∀ a, never_err (k a)) → never_err (h ≫= k).
Proof.
  intros Hk c e c'. unfold mbind, GoM_bind. destruct (h c) as [a c1|]; [apply Hk|done].
Qed.

Lemma errs_never {A} Q (h : GoM Core (result A)) : never_err h → errs Q h.
Proof. intros Hh c e c' H. by apply Hh in H. Qed.

(** The error of the first part is returned, and the second part cannot fail. *)
Lemma errs_try {A B} Q (h : GoM Core (result A)) (k : A → GoM Core (result B)) :
  errs Q h → (∀ a, never_err (k a)) →
  errs Q (h ≫= λ r, match r with Ok a => k a | Err e => mret (Err e) end).
Proof.
  intros Hh Hk c e c'. unfold mbind, GoM_bind. destruct (h c) as [[a|e1] c1|] eqn:Hr; [| |done].
  - intros H. by apply Hk in H.
  - intros [= <- <-]. by apply Hh.
Qed.

(** The first part does nothing visible. *)
Lemma errs_then {A B} Q Q' (h : GoM Core A) (k : A → GoM Core (result B)) :
  respects quiet h → (∀ a, errs Q (k a)) →
  (∀ c c' e, Q c' e → Q' c e) → errs Q' (h ≫= k).
Proof.
  intros Hh Hk HQ c e c'. unfold mbind, GoM_bind. destruct (h c) as [a c1|] eqn:Hr; [|done].
  intros H. apply Hk in H as [Hq HQ1]. split; [|by eapply HQ].
  etrans; [exact (respects_run _ _ _ _ _ Hh Hr)|exact Hq].
Qed.

Lemma errs_read {A B} Q (f : Core → A) (k : A → GoM Core (result B)) :
  (∀ a, errs Q (k a)) → errs Q (read f ≫= k).
Proof. intros Hk c. apply Hk. Qed.

(** Both parts may fail. *)
Lemma errs_try_then {A B} (Q : Core → goerror → Prop) (h : GoM Core (result A))
    (k : A → GoM Core (result B)) :
  errs Q h → respects quiet h → (∀ a, errs (λ _, library_error) (k a)) →
  (∀ c e, library_error e → Q c e) →
  errs Q (h ≫= λ r, match r with Ok a => k a | Err e => mret (Err e) end).
Proof.
  intros Hh Hq Hk HQ c e c'. unfold mbind, GoM_bind.
  destruct (h c) as [[a|e1] c1|] eqn:Hr; [| |done].
  - intros [Hq1 He]%Hk. split; [|auto].
    etrans; [exact (respects_run _ _ _ _ _ Hq Hr)|exact Hq1].
  - intros [= <- <-]. by apply Hh.
Qed.

Ltac never :=
  repeat first
    [ apply never_ret | apply never_panic | apply never_bind; intros ?
    | match goal with |- never_err (match ?x with _ => _ end) => destruct x end ].

Lemma invokeDoneAndShare_never e r : never_err (invokeDoneAndShare Name sigService e r).
Proof. unfold invokeDoneAndShare. never. Qed.

Lemma processLeader_never e r : never_err (processLeader Name sigService e r).
Proof. unfold processLeader. never. Qed.

(** Reading and writing blocks *)
Lemma getConsensusBlock_errs d : errs (λ _, library_error) (getConsensusBlock d).
Proof.
  intros c e c'. unfold getConsensusBlock, read.
  destruct (Store_Read (c_Store c) d) as [v|e1] eqn:Hr.
  - destruct (gob_Decode v) as [b|e1] eqn:Hd; [done|]. intros [= <- <-].
    split; [done|]. right. right. right. by exists v.
  - case_decide; [done|]. intros [= <- <-]. split; [done|]. left. by exists (c_Store c), d.
Qed.

Lemma storeConsensusBlock_errs b : errs (λ _, library_error) (storeConsensusBlock b).
Proof.
  destruct b as [b|]; [|done]. intros c e c'. unfold storeConsensusBlock.
  destruct (gob_Encode b) as [v|e1] eqn:Hb.
  - destruct (Store_Write _ _ _) as [err st] eqn:Hw. intros [= -> <-]. split; [done|].
    right. left. exists (c_Store c), (ConsensusBlock_Hash b), v. by rewrite Hw.
  - intros [= <- <-]. split; [done|]. right. right. left. by exists b.
Qed.

Lemma errs_weaken {A} (Q Q' : Core → goerror → Prop) (h : GoM Core (result A)) :
  (∀ c e, Q c e → Q' c e) → errs Q h → errs Q' h.
Proof. intros HQ Hh c e c' H. destruct (Hh c e c' H). auto. Qed.

(** ** The handlers *)

Ltac quiet_tac :=
  first
    [ apply respects_modify; intros ?; by split_and!
    | intros ?; unfold wlp; cbn beta; repeat case_match; simplify_eq; by split_and! ].

Lemma verifyConsensusBlock_quiet b : respects quiet (verifyConsensusBlock b).
Proof.
  destruct b as [b|]; [|apply respects_panic]. intros c. unfold wlp, verifyConsensusBlock.
  by destruct (port_verify _ _ _) as [s [mp st]].
Qed.

Lemma commit_if_halted_quiet e r a b : respects quiet (commit_if_halted e r a b).
Proof.
  unfold commit_if_halted, commit_if_verified, commit, leader_of.
  respects_steps ltac:(first [apply verifyConsensusBlock_quiet|quiet_tac]).
Qed.

Lemma handleSpbProposal_errs p :
  errs (λ c, handler_error c (MSPBProposal p)) (handleSpbProposal p).
Proof.
  unfold handleSpbProposal. apply (errs_then (λ _, library_error)); [|intros _|by right].
  { respects_steps ltac:(apply commit_if_halted_quiet). }
  apply (errs_then (λ _, library_error)); [refine (respects_read _ _)|intros [] |done];
    [apply errs_never; never|]. destruct (decide _); [|apply errs_never; never].
  apply errs_try; [apply storeConsensusBlock_errs|]. intros _. never.
Qed.

Lemma advanceNextRound_errs e r f h :
  errs (λ _, library_error) (advanceNextRound Name parameters sigService e r f h).
Proof.
  unfold advanceNextRound. apply (errs_then (λ _, library_error)); [refine (respects_read _ _)| |done].
  intros []; [apply errs_never; never|].
  apply (errs_then (λ _, library_error)); [|intros d|done].
  { unfold getSpbInstance. respects_steps quiet_tac. }
  apply errs_try; [apply getConsensusBlock_errs|]. intros b. never.
Qed.

Lemma handleOutput_errs e h : errs (λ _, library_error) (handleOutput e h).
Proof.
  unfold handleOutput. apply (errs_try _ _ (λ b, match b with
    | Some b => commit_if_verified (Some b);; mret (Ok tt) | None => mret (Ok tt) end));
    [apply getConsensusBlock_errs|]. intros b. never.
Qed.

Lemma handleHalt_errs h :
  errs (λ c, handler_error c (MHalt h)) (handleHalt Name parameters sigService h).
Proof.
  unfold handleHalt. apply (errs_then (λ _, library_error)); [refine (respects_read _ _)| |by right].
  intros []; [apply errs_never; never|].
  apply (errs_then (λ _, library_error)); [refine (respects_read _ _)| |done].
  intros []; [apply errs_never; never|].
  apply (errs_then (λ _, library_error)); [quiet_tac|intros _|done].
  apply errs_try; [apply handleOutput_errs|]. intros _. never.
Qed.

(** Votes: the only error of counting is a second message of an author. *)
Lemma vote_errs {A} m (add : Aggreator → result A * Aggreator) :
  (∀ a e a', add a = (Err e, a') →
     e = ErrOneMoreMessage (MsgType m) (msg_Epoch m) (msg_Round m) (msg_Author m) ∧
     ∀ c, c_Aggreator c = a → counted c m) →
  errs (λ c, handler_error c m)
    (act (λ c, let '(r, a) := add (c_Aggreator c) in (r, set_c_Aggreator a c))) ∧
  respects quiet (act (λ c, let '(r, a) := add (c_Aggreator c) in (r, set_c_Aggreator a c))).
Proof.
  intros Hadd. split.
  - intros c e c'. unfold act. destruct (add (c_Aggreator c)) as [r a] eqn:Ha. intros [= -> <-].
    destruct (Hadd _ _ _ Ha) as [-> Hc]. split; [done|]. left. split; [done|by apply Hc].
  - intros c. unfold wlp, act. by destruct (add (c_Aggreator c)).
Qed.

Lemma AddFinishVote_err f a e a' :
  Aggreator_AddFinishVote a f = (Err e, a') →
  e = ErrOneMoreMessage FinishType (fi_Epoch f) (fi_Round f) (fi_Author f) ∧
  ∀ c, c_Aggreator c = a → counted c (MFinish f).
Proof.
  unfold Aggreator_AddFinishVote, FinishAggreator_Append.
  destruct (lookup2 _ _ _) as [x|] eqn:Hl; simpl;
    (case_decide as Ha; [intros [= <- <-]|case_decide; by intros [=]]).
  - split; [done|]. intros c <-. by exists x.
  - set_solver.
Qed.

Lemma AddDoneVote_err d a e a' :
  Aggreator_AddDoneVote a d = (Err e, a') →
  e = ErrOneMoreMessage DoneType (dn_Epoch d) (dn_Round d) (dn_Author d) ∧
  ∀ c, c_Aggreator c = a → counted c (MDone d).
Proof.
  unfold Aggreator_AddDoneVote, DoneAggreator_Append.
  destruct (lookup2 _ _ _) as [x|] eqn:Hl; simpl;
    (case_decide as Ha; [intros [= <- <-]|repeat case_decide; by intros [=]]).
  - split; [done|]. intros c <-. by exists x.
  - set_solver.
Qed.

Lemma AddPreVote_err v a e a' :
  Aggreator_AddPreVote a v = (Err e, a') →
  e = ErrOneMoreMessage PrevoteType (pv_Epoch v) (pv_Round v) (pv_Author v) ∧
  ∀ c, c_Aggreator c = a → counted c (MPrevote v).
Proof.
  unfold Aggreator_AddPreVote, PreVoteAggreator_Append.
  destruct (lookup2 _ _ _) as [x|] eqn:Hl; simpl;
    (case_decide as Ha; [intros [= <- <-]|repeat case_match; intros; by simplify_eq]).
  - split; [done|]. intros c <-. by exists x.
  - set_solver.
Qed.

Lemma AddFinVote_err v a e a' :
  Aggreator_AddFinVote a v = (Err e, a') →
  e = ErrOneMoreMessage FinVoteType (fv_Epoch v) (fv_Round v) (fv_Author v) ∧
  ∀ c, c_Aggreator c = a → counted c (MFinVote v).
Proof.
  unfold Aggreator_AddFinVote, FinVoteAggreator_Append.
  destruct (lookup2 _ _ _) as [x|] eqn:Hl; simpl;
    (case_decide as Ha; [intros [= <- <-]|repeat case_match; intros; by simplify_eq]).
  - split; [done|]. intros c <-. by exists x.
  - set_solver.
Qed.

Lemma handleFinish_errs f :
  errs (λ c, handler_error c (MFinish f)) (handleFinish Name sigService f).
Proof.
  unfold handleFinish. apply errs_read. intros []; [apply errs_never; never|].
  apply errs_try; [apply (vote_errs (MFinish f) (λ a, Aggreator_AddFinishVote a f)), AddFinishVote_err|].
  intros flag. never; apply invokeDoneAndShare_never.
Qed.

Lemma handleDone_errs d : errs (λ c, handler_error c (MDone d)) (handleDone Name sigService d).
Proof.
  unfold handleDone. apply errs_read. intros []; [apply errs_never; never|].
  apply errs_try; [apply (vote_errs (MDone d) (λ a, Aggreator_AddDoneVote a d)), AddDoneVote_err|].
  intros flag. never; first [apply invokeDoneAndShare_never|apply processLeader_never].
Qed.

Lemma handlePrevote_errs v :
  errs (λ c, handler_error c (MPrevote v)) (handlePrevote Name sigService v).
Proof.
  unfold handlePrevote. apply errs_read. intros []; [apply errs_never; never|].
  apply errs_try; [apply (vote_errs (MPrevote v) (λ a, Aggreator_AddPreVote a v)), AddPreVote_err|]. intros flag. never.
Qed.

Lemma handleFinvote_errs v :
  errs (λ c, handler_error c (MFinVote v)) (handleFinvote Name parameters sigService v).
Proof.
  unfold handleFinvote. apply errs_read. intros []; [apply errs_never; never|].
  destruct (vote_errs (MFinVote v) (λ a, Aggreator_AddFinVote a v)) as [Herr Hq];
    [apply AddFinVote_err|].
  apply errs_try_then; [exact Herr|exact Hq| |by right]. intros flag.
  do 2 (destruct (decide _); [apply advanceNextRound_errs|]).
  apply errs_never. never.
Qed.

Lemma handleElectShare_errs s :
  errs (λ c, handler_error c (MElectShare s)) (handleElectShare Name sigService s).
Proof.
  unfold handleElectShare. apply errs_read. intros []; [apply errs_never; never|].
  apply errs_try; [|intros leader; never]. intros c e c'. unfold add_share, Elector_AddShareVote.
  destruct (ElectAggreator_Append _ _ _ _) as [[node|] ea|]; [|done|done].
  case_decide; done.
Qed.

Lemma dispatch_errs m :
  errs (λ c, handler_error c m) (dispatch Name parameters sigService m).
Proof.
  destruct m; simpl; auto using handleSpbProposal_errs, handleFinish_errs, handleDone_errs,
    handleElectShare_errs, handlePrevote_errs, handleFinvote_errs, handleHalt_errs.
  apply errs_never. unfold handleSpbVote. never.
Qed.

(** C19 What an error means: when the core's loop reports an error for a message, either
    the signature does not verify and the state is unchanged; or the author's message
    of this kind was counted before in this epoch and round; or an operation of the
    store or of the serialiser failed.  In all cases nothing was sent or queued, no
    goroutine was started, and the epoch and the flags of the protocol are as
    before. *)
Theorem receive_errors m c e c' :
  Core_receive Name committee parameters sigService m c = Returns (Err e) c' →
  quiet c c' ∧
  ((Verify committee m = Some false ∧ e = ErrSignature (MsgType m) ∧ c' = c) ∨
   (Verify committee m = Some true ∧ handler_error c m e)).
Proof.
  unfold Core_receive. destruct (Verify committee m) as [[]|]; [| |done].
  - intros [Hq He]%dispatch_errs. auto.
  - intros [= <- <-]. split; [done|]. by left.
Qed.
End errors.
