(* ===== verification/Typing.v ===== *)
(** * Well-typed nodes (src/core/smvba/consensus/core.go and spb.go)

    Go's types say little about what the maps and channels of the core hold.  Here are
    the invariants that the code relies on without checking them: a broadcast instance
    is stored under its own epoch, round and proposer, a goroutine works for an
    existing instance on a message of that very instance, and what a node sends is a
    message that it has built itself, under its own name and with its own key.

    The theorems: every reachable node is well-typed in this sense; every message that
    it has sent is accepted by the check of every node of the committee; and when a
    round ends with a block of another node to be proposed again, all instances ignore
    the new proposal, since its block does not name its author; a node that has no
    block to propose again does not take part in the next round. *)

From stdpp Require Import base gmap list strings.
From S2P Require Import Prelude Committee Crypto Message Aggreator Elector Commitor Store.
From S2P Require Import Port Spb Core.

Section typing.
Context {CL : CryptoLib} {D : DB} {P : MempoolPort} {G : Gob ConsensusBlock}.
Context (Name : NodeID) (committee : Committee) (parameters : Parameters)
  (sigService : SigService).
Implicit Types (c : Core) (m : Message) (k : instance_id).

(** The instance that a message is for *)
Definition proposal_place (p : SPBProposal) : instance_id := (sp_Epoch p, sp_Round p, sp_Author p).
Definition vote_place (v : SPBVote) : instance_id := (sv_Epoch v, sv_Round v, sv_Proposer v).

(** A goroutine of the instance [k] *)
Definition thread_at k (t : thread) : Prop :=
  match t with
  | TProposal p | TStore p _ | TVoteOne p _ | TWaitProposal p | TLock p | TVoteTwo p =>
      proposal_place p = k
  | TVote v | TWaitVote v | TCount v | TAct v _ => vote_place v = k
  | TFlush => True
  end.

Definition instance_at k (s : SPB) : Prop :=
  (spb_Epoch s, spb_Round s, spb_Proposer s) = k ∧
  Forall (λ p, proposal_place p = k) (spb_unHandleProposal s) ∧
  Forall (λ v, vote_place v = k) (spb_unHandleVote s).

Definition typed c : Prop :=
  (∀ k s, c_SPbInstances c !! k = Some s → instance_at k s) ∧
  ∀ k t, (k, t) ∈ c_threads c → thread_at k t ∧ is_Some (c_SPbInstances c !! k).

(** A message of the node's own making *)
Definition own_effect (e : effect) : Prop :=
  match e with
  | Send from _ m => from = Name ∧ built_by sigService Name m
  | Enqueue m => built_by sigService Name m
  end.

(** A step keeps the types and sends only own messages. *)
Definition proceeds c c' : Prop :=
  (typed c → typed c') ∧ ∃ es, c_sent c' = c_sent c ++ es ∧ Forall own_effect es.

#[local] Instance proceeds_preorder : PreOrder proceeds.
Proof.
  split.
  - intros c. split; [done|]. exists []. by rewrite app_nil_r.
  - intros c1 c2 c3 [T1 (es1 & H1 & F1)] [T2 (es2 & H2 & F2)]. split; [auto|].
    exists (es1 ++ es2). rewrite H2, H1, <-app_assoc. split; [done|by apply Forall_app].
Qed.

Lemma proceeds_same c c' :
  c_SPbInstances c' = c_SPbInstances c → c_threads c' = c_threads c → c_sent c' = c_sent c →
  proceeds c c'.
Proof.
  unfold proceeds, typed. intros -> -> ->. split; [done|]. exists []. by rewrite app_nil_r.
Qed.

Lemma proceeds_send e recv c :
  own_effect e → proceeds c (set_c_out (c_sent c ++ [e]) recv c).
Proof. intros He. split; [done|]. exists [e]. by split; [|apply Forall_singleton]. Qed.

Lemma NewSPB_at k : instance_at k (NewSPB k.1.1 k.1.2 k.2).
Proof. by destruct k as [[e r] p]. Qed.

Lemma getSpbInstance_proceeds k : respects proceeds (getSpbInstance k).
Proof.
  intros c. unfold wlp, getSpbInstance. destruct (c_SPbInstances c !! k) eqn:Hk; [reflexivity|].
  split; [|exists []; by rewrite app_nil_r]. intros [Hi Ht]. split; simpl.
  - intros k' s [[<- <-]|[_ Hs]]%lookup_insert_Some; [apply NewSPB_at|by apply Hi].
  - intros k' t [Hat Hs]%Ht. split; [done|]. destruct (decide (k = k')) as [->|].
    + by rewrite lookup_insert_eq.
    + by rewrite lookup_insert_ne.
Qed.

Lemma launch_proceeds k t : thread_at k t → respects proceeds (launch k t).
Proof.
  intros Hat c. unfold wlp, launch, spawn, modify, mbind, GoM_bind.
  pose proof (getSpbInstance_proceeds k c) as Hg. unfold wlp in Hg.
  destruct (getSpbInstance k c) as [s c1|] eqn:Hs; [|done]. etrans; [exact Hg|].
  assert (is_Some (c_SPbInstances c1 !! k)) as Hk.
  { unfold getSpbInstance in Hs. destruct (c_SPbInstances c !! k) eqn:He; simplify_eq; [by eexists|].
    simpl. by rewrite lookup_insert_eq. }
  split; [|exists []; by rewrite app_nil_r]. intros [Hi Ht]. split; [done|]. simpl.
  intros k' t' [Hin|[= -> ->]%list_elem_of_singleton]%elem_of_app; [by apply Ht|done].
Qed.

(** ** Handlers *)

Lemma respects_must {A B} (R : relation Core) (r : result A) (k : A → GoM Core B) :
  (∀ a, r = Ok a → respects R (k a)) → respects R (must r ≫= k).
Proof.
  intros Hk. destruct r as [a|]; [|by intros c]. intros c. by apply (Hk a).
Qed.

Lemma respects_bind_assoc {A B C} (R : relation Core) (h : GoM Core A) (f : A → GoM Core B)
    (k : B → GoM Core C) :
  respects R (h ≫= λ a, f a ≫= k) → respects R ((h ≫= f) ≫= k).
Proof.
  intros Hr c. specialize (Hr c). unfold wlp, mbind, GoM_bind in *. by destruct (h c).
Qed.

Lemma broadcast_proceeds m : built_by sigService Name m → respects proceeds (broadcast Name m).
Proof.
  intros Hm. unfold broadcast, transmit, enqueue.
  refine (respects_bind _ _ _ _ _); [|intros _]; apply respects_modify; intros c.
  - by apply proceeds_send.
  - by apply proceeds_same.
Qed.

Ltac proceeds_tac :=
  first
    [ apply getSpbInstance_proceeds
    | apply broadcast_proceeds; by econstructor
    | by apply launch_proceeds
    | apply respects_modify; intros ?; by apply proceeds_same
    | apply respects_modify; intros ?; apply proceeds_send; split; [done|by econstructor]
    | apply respects_act; intros ?; repeat case_match; by apply proceeds_same
    | intros ?; unfold wlp; cbn beta; repeat case_match; simplify_eq;
      first [done|by apply proceeds_same] ].

(** As [respects_steps], but a constructed message is remembered as such. *)
Ltac proceeds_steps :=
  repeat lazymatch goal with
    | |- respects _ (must _ ≫= _) => apply respects_must; intros ? ?
    | |- respects _ ((_ ≫= _) ≫= _) => apply respects_bind_assoc
    | |- respects _ (panic _ ≫= _) => apply respects_bind_panic
    | |- respects _ (match ?x with _ => _ end ≫= _) => destruct x eqn:?
    | |- respects _ (_ ≫= _) => refine (respects_bind _ _ _ _ _); [|intros ?]
    | |- respects _ (mret _) => refine (respects_ret _ _)
    | |- respects _ (panic _) => apply respects_panic
    | |- respects _ (read _) => refine (respects_read _ _)
    | |- respects _ (match ?x with _ => _ end) => destruct x eqn:?
    | |- _ => solve [proceeds_tac]
    end.

Lemma commit_if_verified_proceeds b : respects proceeds (commit_if_verified b).
Proof.
  unfold commit_if_verified, verifyConsensusBlock, commit. proceeds_steps.
Qed.

Lemma commit_if_halted_proceeds e r a b : respects proceeds (commit_if_halted e r a b).
Proof.
  unfold commit_if_halted, leader_of. proceeds_steps. apply commit_if_verified_proceeds.
Qed.

Lemma invokeDoneAndShare_proceeds e r :
  respects proceeds (invokeDoneAndShare Name sigService e r).
Proof. unfold invokeDoneAndShare, hasDone, transmit, enqueue. proceeds_steps. Qed.

Lemma processLeader_proceeds e r : respects proceeds (processLeader Name sigService e r).
Proof. unfold processLeader, hasReady, hasFinish, leader_of. proceeds_steps. Qed.

Lemma storeConsensusBlock_proceeds b : respects proceeds (storeConsensusBlock b).
Proof.
  destruct b as [b|]; [|apply respects_panic]. intros c. unfold wlp. simpl.
  destruct (gob_Encode b); [|reflexivity]. destruct (Store_Write _ _ _). by apply proceeds_same.
Qed.

Lemma verifyConsensusBlock_proceeds b : respects proceeds (verifyConsensusBlock b).
Proof. unfold verifyConsensusBlock. proceeds_steps. Qed.

Lemma advanceNextRound_proceeds e r f h :
  respects proceeds (advanceNextRound Name parameters sigService e r f h).
Proof.
  unfold advanceNextRound, messgaeFilter, getConsensusBlock, generatorBlock. proceeds_steps.
Qed.

Lemma advanceNextEpoch_proceeds e :
  respects proceeds (advanceNextEpoch Name parameters sigService e).
Proof. unfold advanceNextEpoch, generatorBlock. proceeds_steps. Qed.

Lemma handleOutput_proceeds e h : respects proceeds (handleOutput e h).
Proof.
  unfold handleOutput, getConsensusBlock. proceeds_steps. apply commit_if_verified_proceeds.
Qed.

Lemma handleSpbProposal_proceeds p : respects proceeds (handleSpbProposal p).
Proof.
  unfold handleSpbProposal, messgaeFilter. proceeds_steps;
    first [apply commit_if_halted_proceeds|apply storeConsensusBlock_proceeds
      |apply verifyConsensusBlock_proceeds].
Qed.

Lemma dispatch_proceeds m : respects proceeds (dispatch Name parameters sigService m).
Proof.
  destruct m; simpl; [apply handleSpbProposal_proceeds|..];
    unfold handleSpbVote, handleFinish, handleDone, handleElectShare, handlePrevote, handleFinvote,
      handleHalt, messgaeFilter, add_share; proceeds_steps;
    first [apply invokeDoneAndShare_proceeds|apply processLeader_proceeds
      |apply advanceNextRound_proceeds|apply advanceNextEpoch_proceeds|apply handleOutput_proceeds].
Qed.

Lemma Core_receive_proceeds m :
  respects proceeds (Core_receive Name committee parameters sigService m).
Proof. unfold Core_receive. proceeds_steps. apply dispatch_proceeds. Qed.

Lemma handleLoopBack_proceeds h : respects proceeds (handleLoopBack sigService h).
Proof.
  unfold handleLoopBack, getConsensusBlock, messgaeFilter. proceeds_steps.
  apply commit_if_halted_proceeds.
Qed.

Lemma Core_start_proceeds : respects proceeds (Core_start Name parameters sigService).
Proof. unfold Core_start, generatorBlock. proceeds_steps. Qed.

(** ** Goroutines *)

Lemma spb_step_typed k t s ts es s' :
  spb_step Name committee sigService t s = Returns (ts, es) s' →
  thread_at k t → instance_at k s →
  instance_at k s' ∧ Forall (thread_at k) ts ∧ Forall own_effect es.
Proof.
  intros Hs Ht (Hk & Hps & Hvs). destruct t; cbn -[ConsensusBlock_Hash] in Hs; repeat go_case_in Hs; simplify_eq;
    (split; [split_and!; simpl; auto|split]); auto;
    unfold to_proposer, to_all; repeat case_decide; repeat constructor; try done; try (by econstructor).
  - apply Forall_app. by rewrite !Forall_map.
  - apply Forall_app. by rewrite Forall_singleton.
  - apply Forall_app. by rewrite Forall_singleton.
Qed.

Lemma emit_proceeds es c :
  Forall own_effect es → proceeds c (emit es c).
Proof.
  intros Hes. split; [done|]. eexists. split; [reflexivity|]. apply Forall_forall. intros e He.
  apply list_elem_of_In, List.filter_In in He as [He _]. rewrite Forall_forall in Hes.
  by apply Hes, list_elem_of_In.
Qed.

Lemma thread_step_proceeds c l1 k t l2 s ts es s' :
  c_threads c = l1 ++ (k, t) :: l2 → c_SPbInstances c !! k = Some s →
  spb_step Name committee sigService t s = Returns (ts, es) s' → typed c →
  Forall own_effect es ∧
  typed (set_c_spb (<[k := s']> (c_SPbInstances c)) (l1 ++ map (pair k) ts ++ l2) c).
Proof.
  intros Hth Hk Hs [Hi Ht]. destruct (Ht k t) as [Hat _]; [rewrite Hth; set_solver|].
  destruct (spb_step_typed k t s ts es s' Hs Hat (Hi _ _ Hk)) as (Hs' & Hts & Hes).
  split; [done|]. split; simpl.
  - intros k' s0 [[<- <-]|[_ Hs0]]%lookup_insert_Some; [done|by apply Hi].
  - intros k' t' Hin.
    assert ((k', t') ∈ c_threads c ∨ k' = k ∧ t' ∈ ts) as [Hin'|[-> Hin']].
    { rewrite Hth. apply elem_of_app in Hin as [Hin|Hin]; [set_solver|].
      apply elem_of_app in Hin as [Hin|Hin]; [|set_solver].
      apply list_elem_of_fmap in Hin as (t0 & [= -> ->] & Hin). by right. }
    + destruct (Ht k' t' Hin') as [H1 H2]. split; [done|].
      destruct (decide (k = k')) as [->|]; [by rewrite lookup_insert_eq|by rewrite lookup_insert_ne].
    + rewrite Forall_forall in Hts. split; [by apply Hts|by rewrite lookup_insert_eq].
Qed.

(** ** Runs *)

Definition node_typed c : Prop := typed c ∧ Forall own_effect (c_sent c).

Lemma proceeds_typed c c' : proceeds c c' → node_typed c → node_typed c'.
Proof.
  intros [Ht (es & Hs & Hes)] [H1 H2]. split; [auto|]. rewrite Hs. by apply Forall_app.
Qed.

Lemma node_step_typed c c' :
  node_step Name committee parameters sigService c c' → node_typed c → node_typed c'.
Proof.
  intros [c1 msg rest r c2 Hq Hrun|c1 h r c2 Hrun|c1 msg|c1 l1 k t l2 s ts es s' Hts Hs Hstep
    |c1 st mp Hworld]; intros Hok.
  - eapply proceeds_typed; [exact (respects_run _ _ _ _ _ (Core_receive_proceeds msg) Hrun)|].
    eapply proceeds_typed; [by apply proceeds_same|exact Hok].
  - eapply proceeds_typed; [exact (respects_run _ _ _ _ _ (handleLoopBack_proceeds h) Hrun)|done].
  - eapply proceeds_typed; [by apply proceeds_same|exact Hok].
  - destruct Hok as [Ht Hsent].
    destruct (thread_step_proceeds _ _ _ _ _ _ _ _ _ Hts Hs Hstep Ht) as [Hes Ht'].
    eapply proceeds_typed; [by apply emit_proceeds|]. by split.
  - eapply proceeds_typed; [by apply proceeds_same|exact Hok].
Qed.

Lemma node_reachable_typed st mp c :
  node_reachable Name committee parameters sigService st mp c → node_typed c.
Proof.
  intros (c0 & H0 & Hr). apply (rtc_invariant _ node_typed _ _ Hr).
  - eapply proceeds_typed; [exact (respects_run _ _ _ _ _ Core_start_proceeds H0)|].
    split; [split; simpl|by constructor]; [intros k s Hs; by rewrite lookup_empty in Hs|].
    intros k t Hin. by apply not_elem_of_nil in Hin.
  - intros c1 c2 Hc Hs. by eapply node_step_typed.
Qed.

(** C20 Nodes are well-typed: in every reachable state each broadcast instance is stored
    under its own epoch, round and proposer and has set aside only messages for
    itself, and each goroutine works for an existing instance on a message of that
    instance. *)
Theorem node_well_typed st mp c :
  node_reachable Name committee parameters sigService st mp c →
  (∀ k s, c_SPbInstances c !! k = Some s → instance_at k s) ∧
  (∀ k t, (k, t) ∈ c_threads c → thread_at k t ∧ is_Some (c_SPbInstances c !! k)).
Proof. intros Hr. apply (node_reachable_typed _ _ _ Hr). Qed.

(** C18 What a node sends is accepted: every message that a node has sent carries its own
    name as sender and author and, if its private key belongs to its public key of
    the committee, passes the check of every node. *)
Theorem sent_messages_verify st mp c from to m :
  node_reachable Name committee parameters sigService st mp c →
  keypair (Committee_Name committee Name) (Prikey (PriKey sigService)) →
  Send from to m ∈ c_sent c →
  from = Name ∧ msg_Author m = Name ∧ Verify committee m = Some true.
Proof.
  intros Hr Hkey Hin. destruct (node_reachable_typed _ _ _ Hr) as [_ Hsent].
  rewrite Forall_forall in Hsent. destruct (Hsent _ Hin) as [-> Hb].
  split_and!; [done|by eapply built_author|by eapply built_verifies].
Qed.

(** A re-proposed block is ignored: when the final votes of a round tell a node to go
    on with the block of another member, it broadcasts this block as its own proposal
    of the next round, and on every node the instance of that proposal drops it
    without a vote, because the block's proposer is not the instance's. *)
Theorem reproposed_block_ignored c epoch round h v b :
  c_Epoch c <= epoch → Store_Read (c_Store c) h = Ok v → gob_Decode v = Ok b →
  cb_Proposer b ≠ Name →
  ∃ p c', advanceNextRound Name parameters sigService epoch round ACTION_YES h c =
            Returns (Ok tt) c' ∧
    c_sent c' = c_sent c ++ [Send Name NONE (MSPBProposal p)] ∧
    sp_B p = Some b ∧ proposal_place p = (epoch, wrap64 (round + 1), Name) ∧
    ∀ node svc s, instance_at (proposal_place p) s →
      spb_step node committee svc (TProposal p) s = Returns ([], []) s.
Proof.
  intros He Hv Hb Hn. unfold advanceNextRound, messgaeFilter, getConsensusBlock, mbind, GoM_bind, read.
  rewrite bool_decide_eq_false_2 by lia. cbn [decide]. rewrite decide_False by done.
  unfold mret, GoM_ret. rewrite Hv, Hb. simpl. do 2 eexists. split_and!; [reflexivity|done|done|done|].
  intros node svc s (Hk & _). simpl. destruct (spb_BlockHash s); [done|].
  rewrite decide_True; [done|]. unfold proposal_place in Hk. simpl in Hk. congruence.
Qed.

(** A node without a block drops out of the epoch's rounds: when the final votes reject
    the leader's block and the node has no block of its own in the round, it is meant
    to propose a new one, but it looks up the empty hash first and gives up with the
    error of the database, as long as this is not the store's own [ErrNotFoundKey]. *)
Theorem no_round_without_block c epoch round e :
  c_Epoch c <= epoch →
  match c_SPbInstances c !! (epoch, round, Name) with
  | Some s => SPB_GetBlockHash s = None
  | None => True
  end →
  Store_Read (c_Store c) zero_Digest = Err e → e ≠ ErrNotFoundKey →
  ∃ c', advanceNextRound Name parameters sigService epoch round ACTION_NO zero_Digest c =
          Returns (Err e) c' ∧ c_sent c' = c_sent c.
Proof.
  intros He Hi Hr Hn.
  unfold advanceNextRound, messgaeFilter, getSpbInstance, getConsensusBlock, mbind, GoM_bind, read.
  rewrite bool_decide_eq_false_2 by lia. cbn [decide]. rewrite decide_True by done.
  destruct (c_SPbInstances c !! _) as [s|]; unfold mret, GoM_ret;
    [rewrite Hi|]; simpl; rewrite Hr, decide_False by done; by eexists.
Qed.
End typing.
