(* ===== verification/Origin.v ===== *)
(** * Where the blocks of a member come from
    (src/core/smvba/consensus/core.go and spb.go, seen from a committee)

    A member of a committee in which everybody runs the program only handles consensus
    blocks that some member has proposed.  This file states what that means for the
    state of one member ([member_ok]), relative to the set [O] of the blocks that were
    proposed so far, and shows that the handlers and the goroutines of the core keep
    it when the messages that arrive are of this kind ([good]).  System.v puts the
    members together.

    The rules at the beginning are a small Hoare logic for handlers: [keeps] for code
    that proposes no new block, [ends] for code that may propose one at its end. *)

From stdpp Require Import base gmap list strings.
From S2P Require Import Prelude Committee Crypto Message Aggreator Elector Commitor Store.
From S2P Require Import Port Spb Core Typing.

(** A database reports a missing key with an error of its own, as nutsdb does. *)
Class DBErrors {D : DB} : Prop :=
  get_own_error : ∀ d k, db_Get d k ≠ Err ErrNotFoundKey.

(** What the mempool asks the synchronizer about: only blocks that the core wants
    verified. *)
Class MempoolPortAsks {D : DB} {P : MempoolPort} : Type := {
  asked : port_state → Digest → Prop;
  make_asks : ∀ mx p st ds p' st' h,
    port_make mx p st = (ds, (p', st')) → asked p' h → asked p h;
  verify_asks : ∀ msg p st status p' st' h,
    port_verify msg p st = (status, (p', st')) →
    asked p' h → asked p h ∨ h = vb_ConsensusBlockHash msg;
  verify_store : ∀ msg p st status p' st',
    port_verify msg p st = (status, (p', st')) → st' = st
}.

(** ** Blocks, leaders and messages *)

Section good.
Context {CL : CryptoLib}.
Context (committee : Committee) (pub : PubPoly) (O : ConsensusBlock → Prop).

(** The leader that the coin of a round elects *)
Definition is_coin (e r : Z) (l : NodeID) : Prop :=
  ∃ s, bls_Verify pub (round_digest e r) s = Ok tt ∧ l = coin_leader committee s.

(** The leaders that members name for a round.  A halt after final votes names node 0
    whoever the leader is, since [NewFinVote] drops the leader. *)
Definition leadership (e r : Z) (l : NodeID) : Prop := is_coin e r l ∨ l = 0.

Definition block_of (e : Z) (p : NodeID) (b : ConsensusBlock) : Prop :=
  O b ∧ cb_Epoch b = e ∧ cb_Proposer b = p.

(** The digest of the epoch's block of a leader *)
Definition decided (e r : Z) (h : Digest) : Prop :=
  ∃ b, h = ConsensusBlock_Hash b ∧ block_of e (cb_Proposer b) b ∧
    leadership e r (cb_Proposer b).

(** The threshold key that a member signs coin shares with belongs to the group, and is
    used with as many shares as the polynomial of the group needs. *)
Definition group_key (svc : SigService) : Prop :=
  ssk_PubPoly (ShareKey svc) = pub ∧ key_fits svc.

Definition good (m : Message) : Prop :=
  match m with
  | MSPBProposal p =>
      sp_Phase p = SPB_ONE_PHASE → ∃ b, sp_B p = Some b ∧ O b ∧ cb_Epoch b = sp_Epoch p
  | MFinish f =>
      ∃ b, fi_BlockHash f = ConsensusBlock_Hash b ∧ block_of (fi_Epoch f) (fi_Author f) b
  | MPrevote v =>
      if decide (pv_Flag v = VOTE_FLAG_NO) then pv_BlockHash v = zero_Digest
      else decided (pv_Epoch v) (pv_Round v) (pv_BlockHash v)
  | MFinVote v =>
      fv_Leader v = 0 ∧
      if decide (fv_Flag v = VOTE_FLAG_YES) then decided (fv_Epoch v) (fv_Round v) (fv_BlockHash v)
      else fv_BlockHash v = zero_Digest
  | MHalt h =>
      leadership (ha_Epoch h) (ha_Round h) (ha_Leader h) ∧
      decided (ha_Epoch h) (ha_Round h) (ha_BlockHash h)
  | MSPBVote _ | MDone _ | MElectShare _ => True
  end.

(** Votes on broadcasts go to the proposer only. *)
Definition good_sent (to : NodeID) (m : Message) : Prop :=
  good m ∧ match m with MSPBVote v => to = sv_Proposer v ∧ to ≠ NONE | _ => True end.

Definition good_recv (id : NodeID) (m : Message) : Prop :=
  good m ∧ match m with MSPBVote v => sv_Proposer v = id | _ => True end.

Definition good_effect (id : NodeID) (e : effect) : Prop :=
  match e with Send _ to m => good_sent to m | Enqueue m => good_recv id m end.

Definition good_thread (id : NodeID) (k : instance_id) (t : thread) : Prop :=
  match t with
  | TProposal p | TWaitProposal p => good (MSPBProposal p)
  | TStore _ b => block_of k.1.1 k.2 b
  | TVoteOne _ h => ∃ b, h = ConsensusBlock_Hash b ∧ block_of k.1.1 k.2 b
  | TLock _ | TVoteTwo _ => ∃ b, block_of k.1.1 k.2 b
  | TVote _ | TWaitVote _ | TCount _ | TAct _ _ => k.2 = id
  | TFlush => True
  end.

Definition good_instance (id : NodeID) (k : instance_id) (s : SPB) : Prop :=
  (∀ h, spb_BlockHash s = Some h → ∃ b, h = ConsensusBlock_Hash b ∧ block_of k.1.1 k.2 b) ∧
  Forall (λ p, good (MSPBProposal p)) (spb_unHandleProposal s) ∧
  (spb_unHandleVote s = [] ∨ k.2 = id).

(** The aggregators count consistently. *)
Definition counts_ok (a : Aggreator) : Prop :=
  (∀ e r p, lookup2 (ag_prevote a) e r = Some p →
     0 <= pva_yesNums p ∧ (0 < pva_yesNums p → pva_flag p = true)) ∧
  (∀ e r f, lookup2 (ag_finvote a) e r = Some f → 0 <= fva_noNums f).
End good.

(** ** The state of a member *)

Section member.
Context {CL : CryptoLib} {D : DB} {P : MempoolPort} {G : Gob ConsensusBlock}.
Context {PA : MempoolPortAsks}.
Context (Name : NodeID) (committee : Committee) (parameters : Parameters)
  (sigService : SigService) (pub : PubPoly).
Implicit Types (c : Core) (O : ConsensusBlock → Prop) (b : ConsensusBlock).

(** A block of its own that the member has proposed *)
Definition proposed c b : Prop :=
  cb_Proposer b = Name ∧
  ∃ to p, Send Name to (MSPBProposal p) ∈ c_sent c ∧ sp_Phase p = SPB_ONE_PHASE ∧ sp_B p = Some b.

Record member_ok O c : Prop := mkMemberOk {
  ok_own : ∀ b, cb_Proposer b = Name → O b ↔ proposed c b;
  ok_unique : ∀ b b', proposed c b → proposed c b' → cb_Epoch b = cb_Epoch b' → b = b';
  ok_epoch : ∀ b, proposed c b → cb_Epoch b <= c_Epoch c;
  ok_recv : Forall (good_recv committee pub O Name) (c_recvCh c);
  ok_sent : Forall (good_effect committee pub O Name) (c_sent c);
  ok_threads : ∀ k t, (k, t) ∈ c_threads c → good_thread committee pub O Name k t;
  ok_instances : ∀ k s, c_SPbInstances c !! k = Some s → good_instance committee pub O Name k s;
  ok_finish : ∀ e r p h, c_FinishFlags c !! (e, r, p) = Some h →
    ∃ b, h = ConsensusBlock_Hash b ∧ block_of O e p b;
  ok_counts : counts_ok (c_Aggreator c);
  ok_leaders : ∀ e r l, lookup2 (el_leaders (c_Elector c)) e r = Some l →
    leadership committee pub e r l;
  ok_service : el_sigService (c_Elector c) = sigService ∧ el_committee (c_Elector c) = committee;
  ok_blocks : ∀ b, holds_block (c_Commitor c) b → O b;
  ok_asked : ∀ h, asked (c_mempool c) h → ∃ b, h = ConsensusBlock_Hash b ∧ O b
}.

(** *** The store

    [U] are the consensus blocks of the run.  They have different digests, none of
    which is the empty one. *)
Context (U : ConsensusBlock → Prop).

Definition distinct_digests : Prop :=
  (∀ b b', U b → U b' → ConsensusBlock_Hash b = ConsensusBlock_Hash b' → b = b') ∧
  ∀ b, U b → ConsensusBlock_Hash b ≠ zero_Digest.

(** What is stored under the digest of a block is this block. *)
Definition store_ok (st : Store) : Prop :=
  (∀ b v, U b → Store_Read st (ConsensusBlock_Hash b) = Ok v → gob_Decode v = Ok b) ∧
  ∀ v, Store_Read st zero_Digest ≠ Ok v.

(** Nothing else was written under the digest of a block. *)
Definition undisturbed (st st' : Store) : Prop :=
  (∀ b v, U b → Store_Read st' (ConsensusBlock_Hash b) = Ok v →
     Store_Read st (ConsensusBlock_Hash b) = Ok v ∨ gob_Decode v = Ok b) ∧
  ∀ v, Store_Read st' zero_Digest = Ok v → Store_Read st zero_Digest = Ok v.

Lemma undisturbed_ok st st' : undisturbed st st' → store_ok st → store_ok st'.
Proof.
  intros [H1 H2] [S1 S2]. split.
  - intros b v Hb [Hv|Hv]%H1; eauto.
  - intros v Hv%H2. by apply (S2 v).
Qed.

(** ** Monotonicity *)

Section monotone.
Context (O O' : ConsensusBlock → Prop) (Hsub : ∀ b, O b → O' b).

Lemma block_of_mono e p b : block_of O e p b → block_of O' e p b.
Proof. intros (?&?&?). split_and!; auto. Qed.

Lemma decided_mono e r h : decided committee pub O e r h → decided committee pub O' e r h.
Proof. intros (b & ? & ? & ?). exists b. split_and!; auto using block_of_mono. Qed.

Lemma good_mono m : good committee pub O m → good committee pub O' m.
Proof.
  destruct m; simpl; try done.
  - intros H Hp. destruct (H Hp) as (b & ? & ? & ?). exists b. auto.
  - intros (b & ? & ?). exists b. auto using block_of_mono.
  - case_decide; auto using decided_mono.
  - intros [? H]. split; [done|]. case_decide; auto using decided_mono.
  - intros [? H]. auto using decided_mono.
Qed.

Lemma good_effect_mono id e :
  good_effect committee pub O id e → good_effect committee pub O' id e.
Proof. destruct e as [? ? m|m]; intros [? ?]; split; auto using good_mono. Qed.

Lemma good_thread_mono id k t :
  good_thread committee pub O id k t → good_thread committee pub O' id k t.
Proof.
  destruct t; try done; try (apply (good_mono (MSPBProposal p))).
  - apply block_of_mono.
  - intros (b' & ? & ?). exists b'. auto using block_of_mono.
  - intros (b' & ?). exists b'. auto using block_of_mono.
  - intros (b' & ?). exists b'. auto using block_of_mono.
Qed.

Lemma good_instance_mono id k s :
  good_instance committee pub O id k s → good_instance committee pub O' id k s.
Proof.
  intros (H1 & H2 & H3). split_and!; [|by eapply Forall_impl, (λ p, good_mono (MSPBProposal p))|done].
  intros h Hh. destruct (H1 h Hh) as (b & ? & ?). exists b. auto using block_of_mono.
Qed.
End monotone.

(** ** Sending and receiving *)

Lemma proposed_send c to m recv b :
  proposed (set_c_out (c_sent c ++ [Send Name to m]) recv c) b ↔
  proposed c b ∨
    cb_Proposer b = Name ∧
    match m with
    | MSPBProposal p => sp_Phase p = SPB_ONE_PHASE ∧ sp_B p = Some b
    | _ => False
    end.
Proof.
  unfold proposed. simpl. split.
  - intros (Hb & to' & p & [Hin|[= -> <-]%list_elem_of_singleton]%elem_of_app & Hp); [left|right]; eauto.
  - intros [(Hb & to' & p & Hin & Hp)|[Hb Hm]].
    + split; [done|]. exists to', p. split; [|done]. apply elem_of_app. by left.
    + destruct m as [p| | | | | | |]; try done. split; [done|]. exists to, p.
      split; [|done]. apply elem_of_app. right. by apply list_elem_of_singleton.
Qed.

(** More blocks, sent and received messages *)
Lemma member_ok_extend O O' c sent recv :
  let c' := set_c_out sent recv c in
  member_ok O c → (∀ b, O b → O' b) → (∀ b, cb_Proposer b = Name → O' b ↔ proposed c' b) →
  (∀ b b', proposed c' b → proposed c' b' → cb_Epoch b = cb_Epoch b' → b = b') →
  (∀ b, proposed c' b → cb_Epoch b <= c_Epoch c) →
  Forall (good_recv committee pub O' Name) recv → Forall (good_effect committee pub O' Name) sent →
  member_ok O' c'.
Proof.
  intros c' [] Hsub Hown Huniq Hep Hrecv Hsent. constructor; try done; simpl.
  - intros k t Ht. eapply good_thread_mono; [exact Hsub|auto].
  - intros k t Ht. eapply good_instance_mono; [exact Hsub|auto].
  - intros e r q h Hh. destruct (ok_finish0 _ _ _ _ Hh) as (b' & ? & ?). exists b'.
    split; [done|by eapply block_of_mono].
  - auto.
  - intros h Hh. destruct (ok_asked0 _ Hh) as (b' & ? & ?). exists b'. auto.
Qed.

Lemma good_recvs_mono O O' ms :
  (∀ b, O b → O' b) → Forall (good_recv committee pub O Name) ms →
  Forall (good_recv committee pub O' Name) ms.
Proof.
  intros Hsub Hms. eapply Forall_impl; [exact Hms|]. intros m [? ?]. split; [by eapply good_mono|done].
Qed.

Lemma good_effects_mono O O' es :
  (∀ b, O b → O' b) → Forall (good_effect committee pub O Name) es →
  Forall (good_effect committee pub O' Name) es.
Proof. intros Hsub Hes. eapply Forall_impl; [exact Hes|]. intros e. by apply good_effect_mono. Qed.

(** Blocks of other members *)
Lemma member_ok_mono O O' c :
  (∀ b, O b → O' b) → (∀ b, cb_Proposer b = Name → O' b → O b) → member_ok O c → member_ok O' c.
Proof.
  intros Hsub Hown Hok. replace c with (set_c_out (c_sent c) (c_recvCh c) c) by by destruct c.
  eapply (member_ok_extend O); [done|done|..].
  - intros b Hb. pose proof (ok_own _ _ Hok b Hb) as Ho. split.
    + intros Hob. by apply Ho, Hown.
    + intros Hp. by apply Hsub, Ho.
  - apply (ok_unique _ _ Hok).
  - apply (ok_epoch _ _ Hok).
  - eapply good_recvs_mono; [done|apply (ok_recv _ _ Hok)].
  - eapply good_effects_mono; [done|apply (ok_sent _ _ Hok)].
Qed.

Section rules.
Context (O : ConsensusBlock → Prop).

Lemma good_not_new c to m recv b :
  member_ok O c → good committee pub O m →
  proposed (set_c_out (c_sent c ++ [Send Name to m]) recv c) b → proposed c b.
Proof.
  intros Hok Hm [H|[Hb H]]%proposed_send; [done|]. destruct m as [p| | | | | | |]; try done.
  destruct H as [Hp Hs]. destruct (Hm Hp) as (b' & Hs' & HO & _). simplify_eq.
  by apply (ok_own _ _ Hok).
Qed.

Lemma ok_send c to m :
  good_sent committee pub O to m → member_ok O c →
  member_ok O (set_c_out (c_sent c ++ [Send Name to m]) (c_recvCh c) c).
Proof.
  intros Hm Hok. pose proof (λ b, good_not_new c to m (c_recvCh c) b Hok (proj1 Hm)) as Hnew.
  destruct Hok. constructor; try done.
  - intros b Hb. rewrite ok_own0 by done. split; [|apply Hnew].
    intros Hp. apply proposed_send. by left.
  - intros b b' Hp%Hnew Hp'%Hnew. by apply ok_unique0.
  - intros b Hp%Hnew. by apply ok_epoch0.
  - simpl. apply Forall_app. by split; [|apply Forall_singleton].
Qed.

Lemma ok_enqueue c m :
  good_recv committee pub O Name m → member_ok O c →
  member_ok O (set_c_out (c_sent c) (c_recvCh c ++ [m]) c).
Proof.
  intros Hm []. constructor; try done. simpl. apply Forall_app. by split; [|apply Forall_singleton].
Qed.

(** A new block of the current epoch *)
Lemma ok_new c b p :
  cb_Proposer b = Name → cb_Epoch b = c_Epoch c → sp_Phase p = SPB_ONE_PHASE →
  sp_B p = Some b → sp_Epoch p = cb_Epoch b →
  (∀ b', proposed c b' → cb_Epoch b' < cb_Epoch b) → member_ok O c →
  member_ok (λ b', O b' ∨ b' = b)
    (set_c_out (c_sent c ++ [Send Name NONE (MSPBProposal p)])
       (c_recvCh c ++ [MSPBProposal p]) c).
Proof.
  intros Hb He Hph Hs Hep Hfresh Hok. set (O' b' := O b' ∨ b' = b).
  assert (∀ b', O b' → O' b') as Hsub by by left.
  assert (good committee pub O' (MSPBProposal p)) as Hp.
  { intros _. exists b. split_and!; [done|by right|done]. }
  assert (∀ b', proposed (set_c_out (c_sent c ++ [Send Name NONE (MSPBProposal p)])
    (c_recvCh c ++ [MSPBProposal p]) c) b' ↔ proposed c b' ∨ b' = b) as Hprop.
  { intros b'. rewrite proposed_send. split; [|intros [| ->]; auto].
    intros [|(_ & _ & ?)]; [by left|right; by simplify_eq]. }
  eapply (member_ok_extend O); [done|done|..].
  - intros b' Hb'. rewrite Hprop. unfold O'. by rewrite (ok_own _ _ Hok).
  - intros b1 b2 [H1| ->]%Hprop [H2| ->]%Hprop Heq; [by apply (ok_unique _ _ Hok)| | |done].
    + pose proof (Hfresh _ H1). lia.
    + pose proof (Hfresh _ H2). lia.
  - intros b' [H1| ->]%Hprop; [by apply (ok_epoch _ _ Hok)|lia].
  - apply Forall_app. split; [|by apply Forall_singleton].
    eapply good_recvs_mono; [exact Hsub|apply (ok_recv _ _ Hok)].
  - apply Forall_app. split; [|by apply Forall_singleton].
    eapply good_effects_mono; [exact Hsub|apply (ok_sent _ _ Hok)].
Qed.

(** ** Rules for handlers *)

(** From a member that is [member_ok], [m] leads to one, with a result in [Q]. *)
Definition keeps {A} (m : GoM Core A) (Q : A → Prop) : Prop :=
  ∀ c, member_ok O c → store_ok (c_Store c) →
    wlp m (λ a c', member_ok O c' ∧ store_ok (c_Store c') ∧ Q a) c.

(** The same, but the set of proposed blocks may grow by blocks of this member. *)
Definition ends {A} (m : GoM Core A) : Prop :=
  ∀ c, member_ok O c → store_ok (c_Store c) →
    wlp m (λ _ c', ∃ O', (∀ b, O b → O' b) ∧ (∀ b, cb_Proposer b ≠ Name → O' b → O b) ∧
      member_ok O' c') c.

Lemma keeps_ret {A} (a : A) (Q : A → Prop) : Q a → keeps (mret a) Q.
Proof. by intros Ha c. Qed.
Lemma keeps_panic {A} why (Q : A → Prop) : keeps (panic why) Q.
Proof. by intros c. Qed.
Lemma keeps_read {A} (f : Core → A) (Q : A → Prop) :
  (∀ c, member_ok O c → store_ok (c_Store c) → Q (f c)) → keeps (read f) Q.
Proof. intros Hf c H1 H2. split_and!; auto. Qed.
Lemma keeps_modify (f : Core → Core) :
  (∀ c, member_ok O c → member_ok O (f c)) → (∀ c, c_Store (f c) = c_Store c) →
  keeps (modify f) (λ _, True).
Proof. intros Hf Hs c H1 H2. unfold wlp, modify. rewrite Hs. auto. Qed.
Lemma keeps_act {A} (f : Core → A * Core) (Q : A → Prop) :
  (∀ c, member_ok O c → member_ok O (f c).2 ∧ c_Store (f c).2 = c_Store c ∧ Q (f c).1) →
  keeps (act f) Q.
Proof.
  intros Hf c H1 H2. unfold wlp, act. destruct (Hf c H1) as (? & Hs & ?). rewrite Hs. auto.
Qed.
Lemma keeps_bind {A B} (m : GoM Core A) (k : A → GoM Core B) (Q : A → Prop) (R : B → Prop) :
  keeps m Q → (∀ a, Q a → keeps (k a) R) → keeps (m ≫= k) R.
Proof.
  intros Hm Hk c H1 H2. apply wlp_bind. eapply wlp_mono; [|by apply Hm].
  intros a c' (? & ? & ?). by apply Hk.
Qed.
Lemma keeps_weaken {A} (m : GoM Core A) (Q R : A → Prop) :
  (∀ a, Q a → R a) → keeps m Q → keeps m R.
Proof.
  intros HQ Hm c H1 H2. eapply wlp_mono; [|by apply Hm]. intros a c' (? & ? & ?). auto.
Qed.
Lemma keeps_must {A B} (r : result A) (k : A → GoM Core B) (Q : B → Prop) :
  (∀ a, r = Ok a → keeps (k a) Q) → keeps (must r ≫= k) Q.
Proof. intros Hk. destruct r as [a|]; [|by intros c]. intros c. by apply (Hk a). Qed.

Lemma ends_keeps {A} (m : GoM Core A) (Q : A → Prop) : keeps m Q → ends m.
Proof.
  intros Hm c H1 H2. eapply wlp_mono; [|by apply Hm]. intros a c' (? & ? & ?).
  exists O. auto.
Qed.
Lemma ends_bind {A B} (m : GoM Core A) (k : A → GoM Core B) (Q : A → Prop) :
  keeps m Q → (∀ a, Q a → ends (k a)) → ends (m ≫= k).
Proof.
  intros Hm Hk c H1 H2. apply wlp_bind. eapply wlp_mono; [|by apply Hm].
  intros a c' (? & ? & ?). by apply Hk.
Qed.
Lemma ends_ret {A B} (m : GoM Core A) (b : B) : ends m → ends (m ≫= λ _, mret b).
Proof.
  intros Hm c H1 H2. apply wlp_bind. eapply wlp_mono; [|by apply Hm]. by intros a c' H.
Qed.

(** ** Operations of the core *)

Context `{!DBLaws} {GL : GobLaw ConsensusBlock} {HE : DBErrors} {HB : BlsLaws}.
Context (Hpub : group_key pub sigService) (Hdistinct : distinct_digests).
Context (HO : ∀ b, O b → U b) (HOmember : ∀ b, O b → cb_Proposer b ≠ NONE).

(** A field that [member_ok] does not mention, or one whose part is given *)
Ltac ok_field := let H := fresh "Hok" in intros ? H; destruct H; constructor; simpl; auto.

Lemma transmit_keeps m : good_sent committee pub O NONE m → keeps (transmit Name m) (λ _, True).
Proof. intros Hm. apply keeps_modify; [|done]. intros c. by apply ok_send. Qed.

Lemma enqueue_keeps m : good_recv committee pub O Name m → keeps (enqueue m) (λ _, True).
Proof. intros Hm. apply keeps_modify; [|done]. intros c. by apply ok_enqueue. Qed.

Lemma broadcast_keeps m :
  good committee pub O m → spb_message m = false ∨ (∃ p, m = MSPBProposal p) →
  keeps (broadcast Name m) (λ _, True).
Proof.
  intros Hm Hv. assert (match m with MSPBVote v => False | _ => True end) as Hn.
  { destruct m; try done. by destruct Hv as [|[]]. }
  eapply keeps_bind; [apply transmit_keeps|intros _ _; apply enqueue_keeps];
    (split; [done|by destruct m]).
Qed.

Lemma getSpbInstance_keeps k :
  keeps (getSpbInstance k) (good_instance committee pub O Name k).
Proof.
  intros c Hok Hst. unfold wlp, getSpbInstance. destruct (c_SPbInstances c !! k) as [s|] eqn:Hk.
  { split_and!; [done|done|]. by apply (ok_instances _ _ Hok). }
  assert (good_instance committee pub O Name k (NewSPB k.1.1 k.1.2 k.2)) as Hs.
  { split_and!; [done|by constructor|by left]. }
  split_and!; [|done|done]. destruct Hok. constructor; try done. simpl.
  intros k' s [[<- <-]|[_ Hs']]%lookup_insert_Some; [done|auto].
Qed.

Lemma launch_keeps k t :
  good_thread committee pub O Name k t → keeps (launch k t) (λ _, True).
Proof.
  intros Ht. eapply keeps_bind; [apply getSpbInstance_keeps|intros s _].
  apply keeps_modify; [|done]. ok_field.
  intros k' t' [Hin|[= -> ->]%list_elem_of_singleton]%elem_of_app; auto.
Qed.

Lemma leader_of_keeps e r :
  keeps (leader_of e r) (λ l, l ≠ NONE → leadership committee pub e r l).
Proof.
  intros c Hok Hst. unfold wlp, leader_of. simpl. split_and!; [|done|].
  - destruct Hok. constructor; try done. simpl. intros e' r' l. rewrite lookup2_touch. auto.
  - destruct (lookup2 _ e r) as [l|] eqn:Hl; [|done]. intros _. by apply (ok_leaders _ _ Hok).
Qed.

(** What a consensus block is looked up for *)
Definition known_digest (h : Digest) : Prop :=
  h = zero_Digest ∨ ∃ b, h = ConsensusBlock_Hash b ∧ O b.

Lemma getConsensusBlock_keeps h :
  known_digest h →
  keeps (getConsensusBlock h)
    (λ r, match r with
          | Ok (Some b) => O b ∧ h = ConsensusBlock_Hash b
          | Ok None => False
          | Err _ => True
          end).
Proof.
  intros Hh. apply keeps_read. intros c Hok [Hst Hz].
  destruct (Store_Read (c_Store c) h) as [v|e] eqn:Hr.
  - destruct Hh as [->|(b & -> & Hb)]; [by destruct (Hz v)|].
    by rewrite (Hst b v (HO b Hb) Hr).
  - rewrite decide_False; [done|]. intros ->. by apply (get_own_error _ _ Hr).
Qed.

Lemma storeConsensusBlock_keeps b :
  O b → keeps (storeConsensusBlock (Some b)) (λ _, True).
Proof.
  intros Hb c Hok [Hst Hz]. unfold wlp. cbn -[Store_Write ConsensusBlock_Hash].
  destruct (gob_round_trip b) as (data & He & Hd). rewrite He.
  destruct (Store_Write _ _ _) as [err st] eqn:Hw.
  assert (∀ k, Store_Read st k = if decide (ConsensusBlock_Hash b = k) then Ok data
    else Store_Read (c_Store c) k) as Hread.
  { intros k. replace st with (Store_Write (c_Store c) (ConsensusBlock_Hash b) data).2
      by by rewrite Hw. apply Store_Read_Write. }
  destruct Hdistinct as [Hinj Hne]. split_and!; [by destruct Hok; constructor| |done]. split.
  - intros b' v Hb'. simpl. rewrite Hread. case_decide as Heq; [|by apply Hst].
    intros [= <-]. by rewrite <-(Hinj b b') by auto.
  - intros v. simpl. rewrite Hread. rewrite decide_False by auto. apply Hz.
Qed.

Lemma verifyConsensusBlock_keeps b :
  O b → keeps (verifyConsensusBlock (Some b)) (λ _, True).
Proof.
  intros Hb c Hok Hst. unfold wlp, verifyConsensusBlock.
  destruct (port_verify _ _ _) as [status [mp st]] eqn:Hv.
  pose proof (verify_store _ _ _ _ _ _ Hv) as ->. split_and!; [|done|done].
  destruct Hok. constructor; try done. simpl.
  intros h [Ha| ->]%(verify_asks _ _ _ _ _ _ h Hv); [auto|]. simpl. eauto.
Qed.

Lemma commit_if_verified_keeps b : O b → keeps (commit_if_verified (Some b)) (λ _, True).
Proof.
  intros Hb. eapply keeps_bind; [by apply verifyConsensusBlock_keeps|intros ok _].
  destruct ok; [|by apply keeps_ret]. apply keeps_modify; [|done]. ok_field.
  intros b' [| ->]%Commit_holds; auto.
Qed.

Lemma commit_if_halted_keeps e r a b : O b → keeps (commit_if_halted e r a (Some b)) (λ _, True).
Proof.
  intros Hb. eapply keeps_bind; [by apply (keeps_read _ (λ _, True))|intros halted _].
  destruct halted; [|by apply keeps_ret].
  eapply keeps_bind; [apply leader_of_keeps|intros l _].
  case_decide; [by apply commit_if_verified_keeps|by apply keeps_ret].
Qed.

(** ** Handlers *)

(** The message that a constructor returns has the fields it was called with. *)
Ltac built :=
  match goal with
  | H : _ = Ok ?m |- _ =>
      cbv [NewSPBProposal NewSPBVote NewFinish NewDone NewElectShare NewPrevote NewFinVote
        NewHalt] in H; repeat case_match; simplify_eq
  end.

Lemma messgaeFilter_keeps e : keeps (messgaeFilter e) (λ _, True).
Proof. by apply keeps_read. Qed.

Lemma handleSpbProposal_keeps p :
  good committee pub O (MSPBProposal p) → keeps (handleSpbProposal p) (λ _, True).
Proof.
  intros Hp. unfold handleSpbProposal. eapply (keeps_bind _ _ (λ _, True)).
  { case_decide as Hph; [|by apply keeps_ret]. destruct (Hp Hph) as (b & -> & Hb & _).
    by apply commit_if_halted_keeps. }
  intros _ _. eapply keeps_bind; [apply messgaeFilter_keeps|intros stale _].
  destruct stale; [by apply keeps_ret|].
  assert (keeps (launch (sp_Epoch p, sp_Round p, sp_Author p) (TProposal p);;
    mret (Ok tt : result unit)) (λ _, True)) as Hstart.
  { eapply keeps_bind; [by apply launch_keeps|intros _ _; by apply keeps_ret]. }
  case_decide as Hph; [|exact Hstart]. destruct (Hp Hph) as (b & -> & Hb & _).
  eapply keeps_bind; [by apply storeConsensusBlock_keeps|intros [[]|e] _; [|by apply keeps_ret]].
  eapply keeps_bind; [by apply verifyConsensusBlock_keeps|intros ok _].
  destruct ok; [exact Hstart|by apply keeps_ret].
Qed.

Lemma handleSpbVote_keeps v : sv_Proposer v = Name → keeps (handleSpbVote v) (λ _, True).
Proof.
  intros Hv. eapply keeps_bind; [apply messgaeFilter_keeps|intros stale _].
  destruct stale; [by apply keeps_ret|].
  eapply keeps_bind; [by apply launch_keeps|intros _ _; by apply keeps_ret].
Qed.

Lemma invokeDoneAndShare_keeps e r :
  keeps (invokeDoneAndShare Name sigService e r) (λ _, True).
Proof.
  eapply keeps_bind; [by apply (keeps_read _ (λ _, True))|intros dn _].
  destruct dn; [by apply keeps_ret|].
  apply keeps_must. intros d _. apply keeps_must. intros sh _.
  eapply keeps_bind; [by apply transmit_keeps|intros _ _].
  eapply keeps_bind; [by apply transmit_keeps|intros _ _].
  eapply keeps_bind; [by apply enqueue_keeps|intros _ _].
  eapply keeps_bind; [by apply enqueue_keeps|intros _ _].
  eapply keeps_bind; [apply keeps_modify; [ok_field|done]|intros _ _; by apply keeps_ret].
Qed.

Lemma handleFinish_keeps f :
  good committee pub O (MFinish f) → keeps (handleFinish Name sigService f) (λ _, True).
Proof.
  intros (b & Hh & Hb). eapply keeps_bind; [apply messgaeFilter_keeps|intros stale _].
  destruct stale; [by apply keeps_ret|].
  eapply keeps_bind; [apply (keeps_act _ (λ _, True))|intros [flag|e] _; [|by apply keeps_ret]].
  { intros c Hok. unfold Aggreator_AddFinishVote. destruct (FinishAggreator_Append _ _ _).
    split_and!; [|done|done]. by destruct Hok; constructor. }
  eapply keeps_bind; [apply keeps_modify; [|done]|intros _ _].
  { ok_field. intros e r p h [[[= <- <- <-] <-]|[_ H']]%lookup_insert_Some; eauto. }
  destruct flag; [apply invokeDoneAndShare_keeps|by apply keeps_ret].
Qed.

Lemma processLeader_keeps e r : keeps (processLeader Name sigService e r) (λ _, True).
Proof.
  eapply keeps_bind; [apply leader_of_keeps|intros _ _].
  eapply keeps_bind; [by apply (keeps_read _ (λ _, True))|intros ready _].
  destruct ready; [|by apply keeps_ret].
  eapply keeps_bind; [apply leader_of_keeps|intros l Hl].
  case_decide as Hn; [by apply keeps_ret|]. specialize (Hl Hn).
  eapply keeps_bind; [apply (keeps_read _ (λ o, ∀ h, o = Some h →
    ∃ b, h = ConsensusBlock_Hash b ∧ block_of O e l b))|intros [d|] Hfin].
  { intros c Hok _ h. by apply (ok_finish _ _ Hok). }
  - apply keeps_must. intros h Hh.
    eapply keeps_bind; [apply broadcast_keeps; [|by left]|intros _ _; by apply keeps_ret].
    destruct (Hfin d eq_refl) as (b & -> & HOb & He & Hp). built. split; [done|].
    exists b. by split_and!.
  - eapply keeps_bind; [apply getSpbInstance_keeps|intros s (Hs & _)].
    eapply (keeps_bind _ _ (λ v, good committee pub O (MPrevote v))).
    + destruct (SPB_IsLock s).
      * unfold SPB_GetBlockHash. destruct (spb_BlockHash s) as [h|]; [|apply keeps_panic].
        destruct (Hs h eq_refl) as (b & -> & HOb & He & Hp).
        destruct (NewPrevote _ _ _ _ _ _ _) as [v|] eqn:Hv; [|apply keeps_panic].
        apply keeps_ret. built. exists b. by split_and!; [| |simpl in *; rewrite Hp].
      * destruct (NewPrevote _ _ _ _ _ _ _) as [v|] eqn:Hv; [|apply keeps_panic].
        apply keeps_ret. by built.
    + intros v Hv. eapply keeps_bind; [apply broadcast_keeps; [done|by left]|].
      intros _ _. by apply keeps_ret.
Qed.

Lemma handleDone_keeps d : keeps (handleDone Name sigService d) (λ _, True).
Proof.
  eapply keeps_bind; [apply messgaeFilter_keeps|intros stale _].
  destruct stale; [by apply keeps_ret|].
  eapply keeps_bind; [apply (keeps_act _ (λ _, True))|intros [flag|e] _; [|by apply keeps_ret]].
  { intros c Hok. unfold Aggreator_AddDoneVote. destruct (DoneAggreator_Append _ _ _).
    split_and!; [|done|done]. by destruct Hok; constructor. }
  repeat case_decide; [apply invokeDoneAndShare_keeps| |by apply keeps_ret].
  eapply keeps_bind; [apply keeps_modify; [ok_field|done]|intros _ _; apply processLeader_keeps].
Qed.

Lemma elected_is_coin eA share n eA' :
  ElectAggreator_Append eA committee sigService share = Returns (Ok n) eA' → n ≠ NONE →
  is_coin committee pub (es_Epoch share) (es_Round share) n.
Proof.
  unfold ElectAggreator_Append, CombineIntactTSPartial. intros Ha Hn.
  repeat go_case_in Ha; simplify_eq. eexists. split.
  { destruct Hpub as [<- Hfits]. by eapply recover_verifies. }
  unfold coin_leader. by match goal with H : coin_loop _ _ _ _ = _ |- _ => rewrite H end.
Qed.

Lemma add_share_keeps share : keeps (add_share share) (λ _, True).
Proof.
  intros c Hok Hst. unfold wlp, add_share, Elector_AddShareVote.
  destruct (ok_service _ _ Hok) as [-> ->].
  destruct (ElectAggreator_Append _ _ _ _) as [r eA|] eqn:Ha; [|done].
  assert (∀ el, el_sigService el = sigService → el_committee el = committee →
    (∀ e r l, lookup2 (el_leaders el) e r = Some l → leadership committee pub e r l) →
    member_ok O (set_c_Elector el c)) as Hel.
  { intros el H1 H2 H3. by destruct Hok; constructor. }
  pose proof (ok_service _ _ Hok) as [Hs Hc]. pose proof (ok_leaders _ _ Hok) as Hl.
  destruct r as [n|]; [|split_and!; [by apply Hel|done|done]].
  case_decide as Hn; (split_and!; [apply Hel|done|done]); simpl; try done.
  intros e r l. rewrite lookup2_insert2. case_decide as Her; [|auto].
  intros [= <-]. destruct Her as [<- <-]. left. by eapply elected_is_coin.
Qed.

Lemma handleElectShare_keeps share : keeps (handleElectShare Name sigService share) (λ _, True).
Proof.
  eapply keeps_bind; [apply messgaeFilter_keeps|intros stale _].
  destruct stale; [by apply keeps_ret|].
  eapply keeps_bind; [apply add_share_keeps|intros [l|e] _; [|by apply keeps_ret]].
  case_decide; [|by apply keeps_ret].
  eapply keeps_bind; [apply processLeader_keeps|intros _ _; by apply keeps_ret].
Qed.

(** A pre-vote that makes a member vote YES is a YES, one that makes it vote NO a NO. *)
Lemma AddPreVote_counts a v r a' :
  counts_ok a → Aggreator_AddPreVote a v = (r, a') →
  counts_ok a' ∧ (r = Ok ACTION_YES → pv_Flag v ≠ VOTE_FLAG_NO) ∧
  (r = Ok ACTION_NO → pv_Flag v = VOTE_FLAG_NO).
Proof.
  intros [Hp Hf]. unfold Aggreator_AddPreVote.
  set (item := default _ _).
  assert (0 <= pva_yesNums item ∧ (0 < pva_yesNums item → pva_flag item = true)) as [H0 H1].
  { unfold item. destruct (lookup2 _ _ _) as [p|] eqn:Hl; simpl; [by eapply Hp|]. split; [lia|lia]. }
  destruct (PreVoteAggreator_Append item _ v) as [r0 item'] eqn:Happ. intros [= <- <-].
  assert ((0 <= pva_yesNums item' ∧ (0 < pva_yesNums item' → pva_flag item' = true)) ∧
    (r0 = Ok ACTION_YES → pv_Flag v ≠ VOTE_FLAG_NO) ∧
    (r0 = Ok ACTION_NO → pv_Flag v = VOTE_FLAG_NO)) as (Hi & ? & ?).
  { unfold PreVoteAggreator_Append in Happ. case_decide; [by simplify_eq|].
    destruct (pva_flag item); case_decide; simpl in *;
      repeat (case_bool_decide; simpl in * ); simplify_eq/=; split_and!; try done; intros; lia || auto. }
  split_and!; [|done|done]. split; [|exact Hf]. simpl. intros e r p. rewrite lookup2_insert2.
  case_decide; [by intros [= <-]|apply Hp].
Qed.

(** A final vote that makes a member commit is a YES. *)
Lemma AddFinVote_counts a v r a' :
  counts_ok a → Aggreator_AddFinVote a v = (r, a') →
  counts_ok a' ∧ (r = Ok ACTION_COMMIT → fv_Flag v = VOTE_FLAG_YES).
Proof.
  intros [Hp Hf]. unfold Aggreator_AddFinVote.
  set (item := default _ _).
  assert (0 <= fva_noNums item) as H0.
  { unfold item. destruct (lookup2 _ _ _) as [p|] eqn:Hl; simpl; [by eapply Hf|lia]. }
  destruct (FinVoteAggreator_Append item _ v) as [r0 item'] eqn:Happ. intros [= <- <-].
  assert (0 <= fva_noNums item' ∧ (r0 = Ok ACTION_COMMIT → fv_Flag v = VOTE_FLAG_YES)) as (Hi & ?).
  { unfold FinVoteAggreator_Append in Happ. case_decide; [by simplify_eq|].
    case_decide; repeat case_decide; simplify_eq/=; split_and!; try done; intros; lia || auto. }
  split_and!; [|done]. split; [exact Hp|]. simpl. intros e r p. rewrite lookup2_insert2.
  case_decide; [by intros [= <-]|apply Hf].
Qed.

Lemma handlePrevote_keeps v :
  good committee pub O (MPrevote v) → keeps (handlePrevote Name sigService v) (λ _, True).
Proof.
  intros Hv. eapply keeps_bind; [apply messgaeFilter_keeps|intros stale _].
  destruct stale; [by apply keeps_ret|].
  eapply keeps_bind; [apply (keeps_act _ (λ r, (r = Ok ACTION_YES → pv_Flag v ≠ VOTE_FLAG_NO) ∧
    (r = Ok ACTION_NO → pv_Flag v = VOTE_FLAG_NO)))|].
  { intros c Hok. destruct (Aggreator_AddPreVote _ _) as [r a'] eqn:Ha.
    destruct (AddPreVote_counts _ _ _ _ (ok_counts _ _ Hok) Ha) as (? & ? & ?).
    split_and!; [|done|done|done]. by destruct Hok; constructor. }
  intros [flag|e] [Hyes Hno]; [|by apply keeps_ret]. simpl in Hv.
  destruct (decide (flag = ACTION_NO)) as [H1|];
    [|destruct (decide (flag = ACTION_YES)) as [H2|]; [|by apply keeps_ret]];
    apply keeps_must; intros fv Hfv;
    (eapply keeps_bind; [apply broadcast_keeps; [|by left]|intros _ _; by apply keeps_ret]).
  - rewrite decide_True in Hv by (apply Hno; congruence). by built.
  - rewrite decide_False in Hv by (apply Hyes; congruence). by built.
Qed.

Lemma advanceNextRound_keeps e r flag h :
  h = zero_Digest ∨ decided committee pub O e r h →
  keeps (advanceNextRound Name parameters sigService e r flag h) (λ _, True).
Proof.
  intros Hh. eapply keeps_bind; [apply messgaeFilter_keeps|intros stale _].
  destruct stale; [by apply keeps_ret|].
  eapply (keeps_bind _ _ (λ h, h = zero_Digest ∨ ∃ b, h = ConsensusBlock_Hash b ∧
    O b ∧ cb_Epoch b = e)).
  { assert (h = zero_Digest ∨ ∃ b, h = ConsensusBlock_Hash b ∧ O b ∧ cb_Epoch b = e) as Hh'.
    { destruct Hh as [|(b & ? & (? & ? & _) & _)]; [by left|right; eauto]. }
    case_decide; [|by apply keeps_ret].
    eapply keeps_bind; [apply getSpbInstance_keeps|intros s (Hs & _)]. apply keeps_ret.
    unfold SPB_GetBlockHash. destruct (spb_BlockHash s) as [h'|]; [|done]. right.
    destruct (Hs h' eq_refl) as (b & -> & HOb & He & _). eauto. }
  intros h' Hh'. eapply keeps_bind; [apply getConsensusBlock_keeps|].
  { destruct Hh' as [|(b & ? & ? & _)]; [by left|right; eauto]. }
  intros [[b|]|err] Hb; [|done|by apply keeps_ret]. destruct Hb as [HOb Heq].
  assert (cb_Epoch b = e) as He.
  { destruct Hdistinct as [Hinj Hne]. destruct Hh' as [Hz|(b' & Hb' & HOb' & <-)].
    - destruct (Hne b); [auto|congruence].
    - rewrite (Hinj b b'); [done|auto|auto|congruence]. }
  eapply (keeps_bind _ _ (λ p, good committee pub O (MSPBProposal p))).
  { destruct (NewSPBProposal _ _ _ _ _ _) as [p|] eqn:Hp; [|apply keeps_panic].
    apply keeps_ret. built. intros _. by exists b. }
  intros p Hp. eapply keeps_bind; [apply broadcast_keeps; [done|right; eauto]|].
  intros _ _. by apply keeps_ret.
Qed.

Lemma handleFinvote_keeps v :
  good committee pub O (MFinVote v) → keeps (handleFinvote Name parameters sigService v) (λ _, True).
Proof.
  intros [Hl Hv]. eapply keeps_bind; [apply messgaeFilter_keeps|intros stale _].
  destruct stale; [by apply keeps_ret|].
  eapply keeps_bind; [apply (keeps_act _ (λ r, r = Ok ACTION_COMMIT → fv_Flag v = VOTE_FLAG_YES))|].
  { intros c Hok. destruct (Aggreator_AddFinVote _ _) as [r a'] eqn:Ha.
    destruct (AddFinVote_counts _ _ _ _ (ok_counts _ _ Hok) Ha) as (? & ?).
    split_and!; [|done|done]. by destruct Hok; constructor. }
  intros [flag|e] Hcommit; [|by apply keeps_ret]. destruct (decide (flag = ACTION_YES)).
  { apply advanceNextRound_keeps. case_decide; auto. }
  destruct (decide (flag = ACTION_NO)); [apply advanceNextRound_keeps; by left|].
  destruct (decide (flag = ACTION_COMMIT)); [|by apply keeps_ret]. rewrite decide_True in Hv by (apply Hcommit; congruence).
  apply keeps_must. intros h Hh.
  eapply keeps_bind; [apply broadcast_keeps; [|by left]|intros _ _; by apply keeps_ret].
  built. split; [right; exact Hl|exact Hv].
Qed.

Lemma handleOutput_keeps e r h :
  decided committee pub O e r h → keeps (handleOutput e h) (λ _, True).
Proof.
  intros (b & -> & (HOb & _) & _). eapply keeps_bind; [apply getConsensusBlock_keeps; right; eauto|].
  intros [[b'|]|err] Hb; [|done|by apply keeps_ret].
  eapply keeps_bind; [apply commit_if_verified_keeps, Hb|intros _ _; by apply keeps_ret].
Qed.

(** Proposing a new block for an epoch in which there was none *)
Lemma propose_ends e c :
  member_ok O c → c_Epoch c = e → (∀ b, proposed c b → cb_Epoch b < e) →
  wlp (block ← generatorBlock Name parameters e;
       proposal ← must (NewSPBProposal Name (Some block) e 0 SPB_ONE_PHASE sigService);
       broadcast Name (MSPBProposal proposal))
    (λ _ c', ∃ O', (∀ b, O b → O' b) ∧ (∀ b, cb_Proposer b ≠ Name → O' b → O b) ∧
      member_ok O' c') c.
Proof.
  intros Hok He Hfresh. apply wlp_bind. unfold wlp at 1, generatorBlock.
  destruct (port_make _ _ _) as [ds [mp st]] eqn:Hm.
  set (b := NewConsensusBlock Name ds e). set (c1 := set_c_world st mp c).
  assert (member_ok O c1) as Hok1.
  { destruct Hok. constructor; try done. simpl.
    intros h Ha%(make_asks _ _ _ _ _ _ h Hm). auto. }
  destruct (NewSPBProposal _ _ _ _ _ _) as [p|] eqn:Hp; [|done].
  exists (λ b', O b' ∨ b' = b). split_and!.
  - by left.
  - intros b' Hb' [| ->]; [done|]. by destruct Hb'.
  - unfold NewSPBProposal in Hp. case_match; simplify_eq. by apply (ok_new c1 b).
Qed.

Lemma advanceNextEpoch_ends e : ends (advanceNextEpoch Name parameters sigService e).
Proof.
  intros c Hok Hst. unfold advanceNextEpoch. apply wlp_bind. unfold wlp at 1, read.
  case_bool_decide as Hle; [exists O; auto|]. apply wlp_bind. unfold wlp at 1, modify.
  apply propose_ends; [|done|].
  - destruct Hok. constructor; try done. simpl. intros b Hb%ok_epoch0. lia.
  - intros b Hb%(ok_epoch _ _ Hok). lia.
Qed.

Lemma handleHalt_ends h :
  good committee pub O (MHalt h) → ends (handleHalt Name parameters sigService h).
Proof.
  intros [Hl Hh]. eapply ends_bind; [apply messgaeFilter_keeps|intros stale _].
  destruct stale; [by eapply (ends_keeps _ (λ _, True)), keeps_ret|].
  eapply ends_bind; [by apply (keeps_read _ (λ _, True))|intros halted _].
  destruct halted; [by eapply (ends_keeps _ (λ _, True)), keeps_ret|].
  eapply ends_bind; [apply keeps_modify; [|done]|intros _ _].
  { ok_field. intros e r l. rewrite lookup2_insert2. case_decide as Her; [|auto].
    intros [= <-]. by destruct Her as [<- <-]. }
  eapply ends_bind; [by eapply handleOutput_keeps|].
  intros [[]|err] _; [|by eapply (ends_keeps _ (λ _, True)), keeps_ret].
  eapply ends_bind; [apply keeps_modify; [ok_field|done]|intros _ _].
  apply ends_ret, advanceNextEpoch_ends.
Qed.

Lemma handleLoopBack_keeps h b :
  h = ConsensusBlock_Hash b → O b → keeps (handleLoopBack sigService h) (λ _, True).
Proof.
  intros -> HOb. eapply keeps_bind; [apply getConsensusBlock_keeps; right; eauto|].
  intros [[b'|]|err] Hb; [|done|by apply keeps_ret]. destruct Hb as [HOb' _].
  apply keeps_must. intros p Hp.
  assert (sp_B p = Some b' ∧ sp_Epoch p = cb_Epoch b') as [HB' He].
  { unfold NewSPBProposal in Hp. case_match; by simplify_eq. }
  rewrite HB'. eapply keeps_bind; [by apply commit_if_halted_keeps|intros _ _].
  eapply keeps_bind; [apply messgaeFilter_keeps|intros stale _].
  destruct stale; [by apply keeps_ret|].
  eapply keeps_bind; [apply launch_keeps|intros _ _; by apply keeps_ret].
  intros _. by exists b'.
Qed.

Lemma Core_receive_ends m :
  good_recv committee pub O Name m → ends (Core_receive Name committee parameters sigService m).
Proof.
  intros [Hm Hv]. unfold Core_receive. destruct (Verify committee m) as [[]|];
    [|by eapply (ends_keeps _ (λ _, True)), keeps_ret|by eapply (ends_keeps _ (λ _, True)), keeps_panic].
  destruct m; simpl; [..|by apply handleHalt_ends]; eapply (ends_keeps _ (λ _, True)).
  - by apply handleSpbProposal_keeps.
  - by apply handleSpbVote_keeps.
  - by apply handleFinish_keeps.
  - apply handleDone_keeps.
  - apply handleElectShare_keeps.
  - by apply handlePrevote_keeps.
  - by apply handleFinvote_keeps.
Qed.

(** ** Goroutines *)


(** A vote of the instance [k] for a proposal of this instance *)
Lemma vote_good k s p h ph v :
  (spb_Epoch s, spb_Round s, spb_Proposer s) = k → proposal_place p = k →
  (∃ b, block_of O k.1.1 k.2 b) →
  NewSPBVote Name (sp_Author p) h (spb_Epoch s) (spb_Round s) ph sigService = Ok v →
  Forall (good_effect committee pub O Name) (to_proposer Name s (MSPBVote v)).
Proof.
  intros <- [= He Hr Ha] (b & HOb & _ & Hb) Hv. simpl in Hb.
  assert (sv_Proposer v = sp_Author p) as Hvp by (unfold NewSPBVote in Hv; case_match; by simplify_eq).
  unfold to_proposer. case_decide; apply Forall_singleton; (split; [done|]); simpl.
  - split; [congruence|]. rewrite <-Hb. auto.
  - rewrite Hvp, Ha. by destruct (decide (Name = spb_Proposer s)).
Qed.

Definition not_new (es : list effect) : Prop :=
  ∀ to p, Send Name to (MSPBProposal p) ∈ es → sp_Phase p ≠ SPB_ONE_PHASE.

Lemma not_new_vote s v : not_new (to_proposer Name s (MSPBVote v)).
Proof. intros to p. unfold to_proposer. case_decide; by intros ?%list_elem_of_singleton. Qed.

Lemma not_new_all m :
  match m with MSPBProposal p => sp_Phase p ≠ SPB_ONE_PHASE | _ => True end →
  not_new (to_all Name m).
Proof.
  intros Hm to p. unfold to_all. rewrite !elem_of_cons. intros [[= _ <-]|[|[]%not_elem_of_nil]]; done.
Qed.

Lemma not_new_nil : not_new [].
Proof. by intros to p ?%not_elem_of_nil. Qed.

Lemma to_all_good m :
  good committee pub O m → match m with MSPBVote _ => False | _ => True end →
  Forall (good_effect committee pub O Name) (to_all Name m).
Proof.
  intros Hm Hv. unfold to_all. apply Forall_cons. split; [|apply Forall_singleton];
    (split; [done|]); by destruct m.
Qed.

#[local] Hint Resolve not_new_nil not_new_vote : core.

Lemma spb_step_good k t s ts es s' :
  spb_step Name committee sigService t s = Returns (ts, es) s' →
  thread_at k t → instance_at k s →
  good_thread committee pub O Name k t → good_instance committee pub O Name k s →
  Forall (good_thread committee pub O Name k) ts ∧
  Forall (good_effect committee pub O Name) es ∧
  good_instance committee pub O Name k s' ∧ not_new es.
Proof.
  intros Hs Hat (Hk & _ & _) Ht Hi. pose proof Hi as (Hhash & Hps & Hvs).
  destruct t as [p|p b|p h| |p|p|p|v|v|v|v num]; cbn -[ConsensusBlock_Hash] in Hs, Hat, Ht.
  - (* a proposal arrives *)
    repeat go_case_in Hs; simplify_eq; split_and!; auto; apply Forall_singleton; try done; simpl.
    + destruct (Ht ltac:(done)) as (b' & HB' & HOb & He). simplify_eq. unfold proposal_place in *.
      split_and!; simplify_eq/=; [done|done|]. 
      apply dec_stable. intros Hne.
      match goal with H : ¬ (spb_Proposer _ ≠ _) |- _ => apply H; congruence end.
    + destruct (Hhash _ ltac:(done)) as (b & _ & Hb). eauto.
  - (* the hash is stored *)
    simplify_eq. split_and!; auto.
    + apply Forall_singleton. simpl. eauto.
    + split_and!; simpl; [|done|done]. intros h [= <-]. eauto.
  - (* the first vote *)
    destruct Ht as (b & -> & Hb).
    repeat go_case_in Hs; simplify_eq; split_and!; auto; try (by apply Forall_singleton).
    by eapply vote_good; eauto.
  - (* waiting messages *)
    simplify_eq. split_and!; auto.
    + apply Forall_app. rewrite !Forall_map. split; [done|]. destruct Hvs as [->|Hv]; [done|].
      by apply Forall_true.
    + split_and!; simpl; [done|done|by left].
  - simplify_eq. split_and!; auto. split_and!; simpl; [done| |done].
    apply Forall_app. split; [done|]. by apply Forall_singleton.
  - simplify_eq. split_and!; auto; by apply Forall_singleton.
  - (* the second vote *)
    repeat go_case_in Hs; simplify_eq; split_and!; auto. by eapply vote_good.
  - repeat go_case_in Hs; simplify_eq; split_and!; auto; by apply Forall_singleton.
  - simplify_eq. split_and!; auto. split_and!; simpl; [done|done|by right].
  - simplify_eq. split_and!; auto; by apply Forall_singleton.
  - (* a quorum *)
    repeat go_case_in Hs; simplify_eq; split_and!; auto.
    + apply to_all_good; [|done]. by built.
    + apply not_new_all. by built.
    + apply to_all_good; [|done]. destruct (Hhash _ ltac:(done)) as (b & -> & Hb). built.
      exists b. split; [done|]. by injection Hk as -> _ _.
    + by apply not_new_all.
Qed.

Lemma ok_emit es c :
  Forall (good_effect committee pub O Name) es → not_new es → member_ok O c →
  member_ok O (emit es c).
Proof.
  intros Hes Hnew Hok. unfold emit.
  set (sends := List.filter _ es). set (recvs := omap _ es).
  assert (∀ b, proposed (set_c_out (c_sent c ++ sends) (c_recvCh c ++ recvs) c) b ↔ proposed c b) as Hp.
  { intros b. unfold proposed. simpl. split; intros (Hb & to & p & Hin & Hph & Hs); (split; [done|]);
      exists to, p; (split; [|done]); [|apply elem_of_app; by left].
    apply elem_of_app in Hin as [Hin|Hin]; [done|]. unfold sends in Hin.
    apply list_elem_of_In, List.filter_In in Hin as [Hin%list_elem_of_In _]. by destruct (Hnew to p Hin). }
  rewrite Forall_forall in Hes. destruct Hok. constructor; try done; simpl.
  - intros b Hb. rewrite Hp. auto.
  - intros b b'. rewrite !Hp. apply ok_unique0.
  - intros b. rewrite Hp. apply ok_epoch0.
  - apply Forall_app. split; [done|]. apply Forall_forall. unfold recvs.
    intros m (e & He & Hm)%list_elem_of_omap. specialize (Hes e He). destruct e; by simplify_eq.
  - apply Forall_app. split; [done|]. apply Forall_forall. unfold sends.
    intros e [He _]%list_elem_of_In%List.filter_In. apply Hes. by apply list_elem_of_In.
Qed.

Lemma ok_thread c l1 k t l2 s ts es s' :
  c_threads c = l1 ++ (k, t) :: l2 → c_SPbInstances c !! k = Some s →
  spb_step Name committee sigService t s = Returns (ts, es) s' →
  typed c → member_ok O c →
  member_ok O (emit es (set_c_spb (<[k := s']> (c_SPbInstances c)) (l1 ++ map (pair k) ts ++ l2) c)).
Proof.
  intros Hth Hk Hs [Hi Ht] Hok. assert ((k, t) ∈ c_threads c) as Hin by (rewrite Hth; set_solver).
  destruct (spb_step_good k t s ts es s' Hs (proj1 (Ht k t Hin)) (Hi k s Hk)
    (ok_threads _ _ Hok k t Hin) (ok_instances _ _ Hok k s Hk)) as (Hts & Hes & Hs' & Hnew).
  apply ok_emit; [done|done|]. destruct Hok. constructor; try done; simpl.
  - intros k' t' Hin'. rewrite !elem_of_app in Hin'. rewrite Hth in ok_threads0.
    destruct Hin' as [Hin'|[Hin'|Hin']]; [apply ok_threads0; set_solver| |apply ok_threads0; set_solver].
    apply list_elem_of_fmap in Hin' as (t0 & [= -> ->] & Ht0). rewrite Forall_forall in Hts. auto.
  - intros k' s0 [[<- <-]|[_ Hs0]]%lookup_insert_Some; auto.
Qed.
End rules.

(** ** The first proposal *)

Lemma NewCore_member_ok store mp :
  (∀ h, ¬ asked mp h) → member_ok (λ _, False) (NewCore committee sigService store mp).
Proof.
  intros Hmp. assert (∀ b, ¬ proposed (NewCore committee sigService store mp) b) as Hnone.
  { intros b (_ & to & p & []%not_elem_of_nil & _). }
  constructor; simpl; try done.
  - intros b _. split; [done|]. by intros ?%Hnone.
  - by intros b b' ?%Hnone.
  - by intros b ?%Hnone.
  - by intros k t ?%not_elem_of_nil.
  - intros b [[]%not_elem_of_nil|[k Hk]]. simpl in Hk. by rewrite lookup_empty in Hk.
  - by intros h ?%Hmp.
Qed.

Lemma Core_start_ok store mp c0 :
  (∀ h, ¬ asked mp h) →
  Core_start Name parameters sigService (NewCore committee sigService store mp) = Returns tt c0 →
  member_ok (proposed c0) c0.
Proof.
  intros Hmp. pose proof (NewCore_member_ok store mp Hmp) as Hok. unfold Core_start. case_decide.
  { intros [= <-]. eapply member_ok_mono; [| |exact Hok]; [done|].
    by intros b _ (_ & to & p & []%not_elem_of_nil & _). }
  pose proof (propose_ends _ 0 _ Hok eq_refl) as Hp. unfold wlp in Hp.
  unfold mbind, GoM_bind, read in *. simpl in *. intros Hs. rewrite Hs in Hp.
  destruct Hp as (O' & _ & Hother & Hok').
  { by intros b (_ & to & p & []%not_elem_of_nil & _). }
  assert (∀ b, O' b → cb_Proposer b = Name) as Hown.
  { intros b Hb. destruct (decide (cb_Proposer b = Name)); [done|]. by destruct (Hother b). }
  eapply member_ok_mono; [| |exact Hok'].
  - intros b Hb. by apply (ok_own _ _ Hok'); [apply Hown|].
  - intros b Hb. by apply (ok_own _ _ Hok').
Qed.
End member.
