(* ===== verification/Network.v ===== *)
(** * The network layer (src/network/codec.go, src/network/network.go,
    src/core/transmitor.go, src/mempool/transmit.go)

    A connection is the sequence of gob values written to it; [Codec_Write] puts
    the type number of a message and the message, [Codec_Read] takes them off.
    The sender keeps one connection per address and opens it on first use; the
    outcome of each [net.Dial] is a parameter.  The transmitors turn node numbers
    into addresses and sort what arrives by module.

    The theorems: a connection delivers exactly what was written, in order; the
    sender drops at most the messages for an address that precede its first
    connection; and, end to end, a member receives exactly the messages that were
    broadcast or sent to it, in order.  A type number outside the table panics
    the process. *)

From stdpp Require Import base gmap list strings.
From S2P Require Import Prelude Committee Crypto Message.

(** ** Codec *)

(** One value written to a connection *)
Abbreviation frame := (list byte) (only parsing).

Section codec.
(** A message type: its number, how gob encodes it, and the table from numbers to
    the types that values are decoded into. *)
Context {M : Type} (msgType : M → Z) (encode : M → result (list byte))
  (types : gmap Z (list byte → result M)) {GI : Gob Z}.

(** [cc.encoder.Encode] of an encoded value *)
Definition Encode (v : result frame) : GoM (list frame) (result unit) := λ conn,
  match v with
  | Ok data => Returns (Ok tt) (conn ++ [data])
  | Err e => Returns (Err e) conn
  end.

Definition Codec_Write (msg : M) : GoM (list frame) (result unit) :=
  let typeId := msgType msg in
  err ← Encode (gob_Encode typeId);
  match err with
  | Err e => mret (Err e)
  | Ok _ =>
      err ← Encode (encode msg);
      match err with
      | Err e => mret (Err e)
      | Ok _ => mret (Ok tt)
      end
  end.

(** [cc.decoder.Decode]: the next value, or [io.EOF] at the end. *)
Definition EOF : goerror := ErrLib "EOF".

Definition Decode {A} (decode : frame → result A) : GoM (list frame) (result A) := λ conn,
  match conn with
  | [] => Returns (Err EOF) []
  | data :: conn => Returns (decode data) conn
  end.

(** [reflect.New] of a missing entry of the table is a call with a nil type. *)
Definition Codec_Read : GoM (list frame) (result M) :=
  typeId ← Decode gob_Decode;
  match typeId with
  | Err e => mret (Err e)
  | Ok typeId =>
      match types !! typeId with
      | None => panic "reflect: New(nil)"
      | Some decode => Decode decode
      end
  end.

(** The goroutine of [Sender.connect]: a failed write is logged and skipped. *)
Fixpoint write_all (msgs : list M) : GoM (list frame) unit :=
  match msgs with
  | [] => mret tt
  | msg :: msgs => _ ← Codec_Write msg; write_all msgs
  end.

(** [Receiver.serveConn]: the messages put on the receiver's channel until the
    first error.  Every turn consumes a value, so the length of the stream bounds
    the turns. *)
Fixpoint serveConn (fuel : nat) : GoM (list frame) (list M) :=
  match fuel with
  | O => mret []
  | S fuel =>
      msg ← Codec_Read;
      match msg with
      | Err _ => mret []
      | Ok msg => msgs ← serveConn fuel; mret (msg :: msgs)
      end
  end.

(** What gob and the table have to provide for a message: its number and the
    message itself decode to what was encoded. *)
Definition transmissible (m : M) : Prop :=
  ∃ tdata data decode, gob_Encode (msgType m) = Ok tdata ∧
    gob_Decode tdata = Ok (msgType m) ∧ types !! msgType m = Some decode ∧
    encode m = Ok data ∧ decode data = Ok m.

Lemma Codec_Write_frames m conn :
  transmissible m →
  ∃ fs, length fs = 2%nat ∧ Codec_Write m conn = Returns (Ok tt) (conn ++ fs) ∧
    ∀ rest, Codec_Read (fs ++ rest) = Returns (Ok m) rest.
Proof.
  intros (tdata & data & decode & Ht & Htd & Htab & He & Hd). exists [tdata; data].
  unfold Codec_Write, Codec_Read, Encode, mbind, GoM_bind. rewrite Ht, He. simpl.
  split_and!; [done|by rewrite <-app_assoc|]. intros rest.
  rewrite Htd. simpl. rewrite Htab. simpl. by rewrite Hd.
Qed.

Lemma write_all_frames ms conn :
  Forall transmissible ms →
  ∃ fs, (length ms <= length fs)%nat ∧ write_all ms conn = Returns tt (conn ++ fs) ∧
    ∀ fuel, (length ms < fuel)%nat → serveConn fuel fs = Returns ms [].
Proof.
  intros Hms. revert conn. induction Hms as [|m ms Hm _ IH]; intros conn.
  { exists []. split_and!; [done|by rewrite app_nil_r|]. intros [|fuel] Hf; [simpl in Hf; lia|].
    done. }
  destruct (Codec_Write_frames m conn Hm) as (fs & Hl & Hw & Hr).
  destruct (IH (conn ++ fs)) as (gs & Hlg & Hws & Hrs). exists (fs ++ gs). split_and!.
  - rewrite length_app. simpl. lia.
  - simpl. unfold mbind at 1, GoM_bind. by rewrite Hw, Hws, <-app_assoc.
  - intros [|fuel] Hf; [simpl in Hf; lia|]. simpl in Hf. simpl.
    unfold mbind, GoM_bind in *. rewrite Hr, Hrs by lia. done.
Qed.

(** The bound on the turns of [serveConn] is enough: the result does not depend
    on it. *)
Lemma Codec_Read_consumes conn m conn' :
  Codec_Read conn = Returns (Ok m) conn' → (length conn' < length conn)%nat.
Proof.
  unfold Codec_Read, mbind, GoM_bind, Decode.
  destruct conn as [|f [|g conn]]; simpl; [done| |];
    (destruct (gob_Decode f) as [t|]; [|done]; destruct (types !! t); [|done]);
    intros [= _ <-] || intros [=]; simpl; lia.
Qed.

Lemma serveConn_enough fuel fuel' conn :
  (length conn < fuel)%nat → (length conn < fuel')%nat →
  serveConn fuel conn = serveConn fuel' conn.
Proof.
  revert fuel' conn. induction fuel as [|fuel IH]; intros fuel' conn H1 H2; [lia|].
  destruct fuel' as [|fuel']; [lia|]. simpl. unfold mbind, GoM_bind in *.
  destruct (Codec_Read conn) as [[m|e] conn'|] eqn:Hr; [|done|done].
  apply Codec_Read_consumes in Hr. by rewrite (IH fuel') by lia.
Qed.
End codec.

(** ** Sender *)

(** [NetMessage] *)
Record NetMessage (M : Type) : Type := mkNetMessage { nm_Msg : M; nm_Address : list string }.
Arguments mkNetMessage {_} _ _.
Arguments nm_Msg {_} _.
Arguments nm_Address {_} _.

(** [Sender]: the open connections, each with the messages put on its channel, and
    the number of connection attempts. *)
Record Sender (M : Type) : Type := mkSender {
  se_conns : gmap string (list M);
  se_dials : nat
}.
Arguments mkSender {_} _ _.
Arguments se_conns {_} _.
Arguments se_dials {_} _.

Section sender.
Context {M : Type} (up : nat → string → bool).

Definition NewSender : Sender M := mkSender ∅ 0.

(** [Sender.connect]: whether the [n]-th attempt succeeds is given by [up]. *)
Definition Sender_connect (addr : string) (s : Sender M) : bool * Sender M :=
  (up (se_dials s) addr, mkSender (se_conns s) (S (se_dials s))).

(** The body of the inner loop of [Sender.Run] *)
Definition Sender_deliver (msg : M) (s : Sender M) (addr : string) : Sender M :=
  match se_conns s !! addr with
  | Some conn => mkSender (<[addr := conn ++ [msg]]> (se_conns s)) (se_dials s)
  | None =>
      let '(ok, s) := Sender_connect addr s in
      if ok then mkSender (<[addr := [msg]]> (se_conns s)) (se_dials s) else s
  end.

Definition Sender_handle (s : Sender M) (nm : NetMessage M) : Sender M :=
  foldl (Sender_deliver (nm_Msg nm)) s (nm_Address nm).

Definition Sender_Run (nms : list (NetMessage M)) : Sender M :=
  foldl Sender_handle NewSender nms.

(** The deliveries of a run, in order *)
Definition deliveries (nms : list (NetMessage M)) : list (string * M) :=
  nms ≫= λ nm, map (λ a, (a, nm_Msg nm)) (nm_Address nm).

Definition addressed (addr : string) (ds : list (string * M)) : list M :=
  map snd (List.filter (λ d, bool_decide (d.1 = addr)) ds).

Definition conn_of (s : Sender M) (addr : string) : list M := default [] (se_conns s !! addr).

Lemma Sender_Run_deliveries nms s :
  foldl Sender_handle s nms = foldl (λ s d, Sender_deliver d.2 s d.1) s (deliveries nms).
Proof.
  revert s. induction nms as [|nm nms IH]; intros s; [done|]. unfold deliveries in *. simpl.
  rewrite foldl_app, IH. f_equal. unfold Sender_handle. generalize (nm_Address nm).
  intros l. revert s. induction l as [|a l IHl]; intros s; [done|]. apply IHl.
Qed.

Lemma deliveries_cons nm nms :
  deliveries (nm :: nms) = map (λ a, (a, nm_Msg nm)) (nm_Address nm) ++ deliveries nms.
Proof. done. Qed.

Lemma addressed_app addr ds ds' :
  addressed addr (ds ++ ds') = addressed addr ds ++ addressed addr ds'.
Proof. unfold addressed. by rewrite List.filter_app, map_app. Qed.

Lemma addressed_snoc addr ds d :
  addressed addr (ds ++ [d]) =
  addressed addr ds ++ (if decide (d.1 = addr) then [d.2] else []).
Proof.
  rewrite addressed_app. f_equal. unfold addressed. simpl.
  case_bool_decide; case_decide; done.
Qed.

(** One delivery: on an open connection the message is appended; on a closed one
    it opens the connection or is dropped. *)
Lemma Sender_deliver_conn m s a addr :
  se_conns (Sender_deliver m s a) !! addr =
  if decide (a = addr) then
    match se_conns s !! addr with
    | Some conn => Some (conn ++ [m])
    | None => if up (se_dials s) addr then Some [m] else None
    end
  else se_conns s !! addr.
Proof.
  unfold Sender_deliver, Sender_connect. case_decide as Ha; [subst a|].
  - destruct (se_conns s !! addr) eqn:Hc; [simpl; by rewrite lookup_insert_eq|].
    destruct (up _ _); simpl; [by rewrite lookup_insert_eq|done].
  - destruct (se_conns s !! a) eqn:Hc; [simpl; by rewrite lookup_insert_ne|].
    destruct (up _ _); simpl; [by rewrite lookup_insert_ne|done].
Qed.

Lemma sender_conns ds addr :
  match se_conns (foldl (λ s d, Sender_deliver d.2 s d.1) NewSender ds) !! addr with
  | Some conn => ∃ lost, addressed addr ds = lost ++ conn
  | None => True
  end.
Proof.
  induction ds as [|d ds IH] using rev_ind; [done|].
  rewrite foldl_app. simpl. rewrite Sender_deliver_conn, addressed_snoc.
  case_decide as Ha; [|by rewrite app_nil_r].
  destruct (se_conns _ !! addr) as [conn|].
  - destruct IH as [lost ->]. exists lost. by rewrite app_assoc.
  - destruct (up _ _); [by eexists|done].
Qed.

Lemma sender_conns_up ds addr :
  (∀ n, up n addr = true) →
  conn_of (foldl (λ s d, Sender_deliver d.2 s d.1) NewSender ds) addr = addressed addr ds.
Proof.
  intros Hup. unfold conn_of. induction ds as [|d ds IH] using rev_ind; [done|].
  rewrite foldl_app. simpl. rewrite Sender_deliver_conn, addressed_snoc, <-IH.
  case_decide; [|by rewrite app_nil_r]. destruct (se_conns _ !! addr); [done|].
  by rewrite Hup.
Qed.
End sender.

(** ** Transmitors *)

Section transmitors.
Context {M : Type} (committee : Committee).

(** [Transmitor.Send] of core/transmitor.go: the message that goes to the sender *)
Definition Transmitor_Send (from to : NodeID) (msg : M) : NetMessage M :=
  mkNetMessage msg
    (if decide (to = NONE) then Committee_BroadCast committee from
     else [Committee_Address committee to]).

(** [Transmit.MempoolSend] of mempool/transmit.go *)
Definition MempoolSend (from to : NodeID) (msg : M) : NetMessage M :=
  mkNetMessage msg
    (if decide (to = NONE) then Committee_MempoolBroadCast committee from
     else [Committee_MempoolAddress committee to]).

(** The receiving goroutine of [NewTransmitor]: messages of another module are
    logged and dropped. *)
Definition Transmitor_route (Module : M → string) (msgs : list M) : list M :=
  List.filter (λ m, bool_decide (Module m = "consensus")) msgs.

(** The one of [NewTransmit] *)
Definition Transmit_route (Module : M → string) (msgs : list M) : list M :=
  List.filter (λ m, bool_decide (Module m = "mempool")) msgs.

Lemma Transmitor_route_all Module msgs :
  (∀ m, Module m = "consensus") → Transmitor_route Module msgs = msgs.
Proof.
  intros Hm. unfold Transmitor_route. induction msgs as [|m msgs IH]; [done|]. simpl.
  by rewrite bool_decide_eq_true_2, IH.
Qed.

(** The sends that are meant for a node *)
Definition meant_for (id : NodeID) (sends : list (NodeID * M)) : list M :=
  map snd (List.filter (λ s, bool_decide (s.1 = NONE ∨ s.1 = id)) sends).

Lemma NoDup_is_singleton {A} (l : list A) x : NoDup l → (∀ y, y ∈ l ↔ y = x) → l = [x].
Proof.
  intros Hnd Hl. apply Permutation_singleton_r, NoDup_Permutation; [done|apply NoDup_singleton|].
  intros y. by rewrite Hl, list_elem_of_singleton.
Qed.

Lemma NoDup_List_filter {A} (f : A → bool) (l : list A) : NoDup l → NoDup (List.filter f l).
Proof. rewrite !NoDup_ListNoDup. apply List.NoDup_filter. Qed.

Section addresses.
(** One of the two address columns of the committee, without repetition *)
Context (addr : Authority → string)
  (addr_inj : ∀ i j a b, Authorities committee !! i = Some a →
     Authorities committee !! j = Some b → addr a = addr b → i = j).

(** A broadcast of [from] has the address of each other member once. *)
Lemma broadcast_once from id a (msg : M) :
  Authorities committee !! id = Some a → id ≠ from →
  addressed (addr a)
    (map (λ x, (x, msg)) (map (λ p, addr p.2)
      (List.filter (λ p, negb (bool_decide (p.1 = from)))
        (map_to_list (Authorities committee))))) = [msg].
Proof.
  intros Ha Hid. unfold addressed.
  rewrite map_map, List.filter_map_swap, map_map. simpl.
  rewrite (NoDup_is_singleton _ (id, a)); [done| |].
  - apply NoDup_List_filter, NoDup_List_filter, NoDup_map_to_list.
  - intros [j b]. rewrite !list_elem_of_In, !List.filter_In, <-list_elem_of_In,
      elem_of_map_to_list. simpl. rewrite bool_decide_eq_true, negb_true_iff,
      bool_decide_eq_false. split.
    + intros [[Hj _] Hab]. assert (j = id) as -> by by eapply addr_inj. congruence.
    + intros [= -> ->]. done.
Qed.

Lemma address_of id a to :
  Authorities committee !! id = Some a → is_Some (Authorities committee !! to) →
  addr (default zero_Authority (Authorities committee !! to)) = addr a ↔ to = id.
Proof.
  intros Ha [b Hb]. rewrite Hb. simpl. split; [by apply addr_inj|].
  intros ->. congruence.
Qed.
(** The messages of a list of sends that carry the address of a member are the
    ones meant for it. *)
Lemma addressed_sends (send : NodeID → M → NetMessage M) from id a sends :
  (∀ to msg, send to msg = mkNetMessage msg
     (if decide (to = NONE) then
        map (λ p, addr p.2) (List.filter (λ p, negb (bool_decide (p.1 = from)))
          (map_to_list (Authorities committee)))
      else [addr (default zero_Authority (Authorities committee !! to))])) →
  Authorities committee !! id = Some a → id ≠ from →
  Forall (λ s, s.1 = NONE ∨ s.1 ∈ members committee) sends →
  addressed (addr a) (deliveries (map (λ s, send s.1 s.2) sends)) = meant_for id sends.
Proof.
  intros Hsend Ha Hid. unfold meant_for.
  induction 1 as [|[to msg] sends Hto _ IH]; [done|]. simpl in Hto. cbn [map List.filter fst snd].
  rewrite deliveries_cons, addressed_app, IH, Hsend. cbn [nm_Msg nm_Address].
  destruct (decide (to = NONE)) as [->|Hnone].
  { rewrite bool_decide_eq_true_2 by auto. by rewrite (broadcast_once from id). }
  destruct Hto as [|Hm]; [done|]. unfold addressed. cbn [map List.filter fst snd].
  unfold members in Hm. apply elem_of_dom in Hm. pose proof (address_of id a to Ha Hm) as Haddr.
  destruct (decide (to = id)) as [->|Hne].
  - rewrite !bool_decide_eq_true_2 by tauto. done.
  - rewrite !bool_decide_eq_false_2 by tauto. done.
Qed.

(** From the sends of a node to what a member's receiver reads *)
Lemma sends_delivered (msgType : M → Z) encode types {GI : Gob Z} up
    (send : NodeID → M → NetMessage M) from id a sends :
  (∀ to msg, send to msg = mkNetMessage msg
     (if decide (to = NONE) then
        map (λ p, addr p.2) (List.filter (λ p, negb (bool_decide (p.1 = from)))
          (map_to_list (Authorities committee)))
      else [addr (default zero_Authority (Authorities committee !! to))])) →
  Authorities committee !! id = Some a → id ≠ from → (∀ n, up n (addr a) = true) →
  Forall (λ s, s.1 = NONE ∨ s.1 ∈ members committee) sends →
  (∀ m, transmissible msgType encode types m) →
  ∃ stream,
    write_all msgType encode
      (conn_of (Sender_Run up (map (λ s, send s.1 s.2) sends)) (addr a)) [] = Returns tt stream ∧
    serveConn types (S (length stream)) stream = Returns (meant_for id sends) [].
Proof.
  intros Hsend Ha Hid Hup Hsends Ht. unfold Sender_Run.
  rewrite Sender_Run_deliveries, sender_conns_up by done.
  rewrite (addressed_sends send from id a) by done.
  destruct (write_all_frames msgType encode types (meant_for id sends) []) as (fs & Hlen & Hw & Hr).
  { apply Forall_forall. auto. }
  exists fs. split; [done|apply Hr; lia].
Qed.
End addresses.
End transmitors.

(** ** The consensus messages on the wire *)

Section consensus_codec.
Context {GI : Gob Z} {G1 : Gob SPBProposal} {G2 : Gob SPBVote} {G3 : Gob Finish}
  {G4 : Gob Done} {G5 : Gob ElectShare} {G6 : Gob Prevote} {G7 : Gob FinVote} {G8 : Gob Halt}.

Definition encode_Message (m : Message) : result (list byte) :=
  match m with
  | MSPBProposal p => gob_Encode p
  | MSPBVote v => gob_Encode v
  | MFinish f => gob_Encode f
  | MDone d => gob_Encode d
  | MElectShare e => gob_Encode e
  | MPrevote p => gob_Encode p
  | MFinVote v => gob_Encode v
  | MHalt h => gob_Encode h
  end.

(** Decoding into the type [A] of a message *)
Definition decode_as {A} {G : Gob A} (c : A → Message) (data : list byte) : result Message :=
  match gob_Decode data with Ok a => Ok (c a) | Err e => Err e end.

Definition DefaultMessageTypeMap : gmap Z (list byte → result Message) :=
  list_to_map
    [(SPBProposalType, decode_as MSPBProposal);
     (SPBVoteType, decode_as MSPBVote);
     (FinishType, decode_as MFinish);
     (DoneType, decode_as MDone);
     (ElectShareType, decode_as MElectShare);
     (PrevoteType, decode_as MPrevote);
     (FinVoteType, decode_as MFinVote);
     (HaltType, decode_as MHalt)].

Section laws.
Context {LI : GobLaw Z} {L1 : GobLaw SPBProposal} {L2 : GobLaw SPBVote} {L3 : GobLaw Finish}
  {L4 : GobLaw Done} {L5 : GobLaw ElectShare} {L6 : GobLaw Prevote} {L7 : GobLaw FinVote}
  {L8 : GobLaw Halt}.

Lemma decode_as_ok {A} {G : Gob A} (c : A → Message) x data :
  gob_Decode data = Ok x → decode_as c data = Ok (c x).
Proof. unfold decode_as. by intros ->. Qed.

(** Every consensus message has its own entry of the table. *)
Lemma Message_transmissible m :
  transmissible MsgType encode_Message DefaultMessageTypeMap m.
Proof.
  destruct (gob_round_trip (MsgType m)) as (tdata & Ht & Htd).
  assert (∃ data decode, DefaultMessageTypeMap !! MsgType m = Some decode ∧
    encode_Message m = Ok data ∧ decode data = Ok m) as (data & decode & Htab & He & Hd);
    [|by exists tdata, data, decode].
  destruct m as [x|x|x|x|x|x|x|x]; destruct (gob_round_trip x) as (data & He & Hd);
    exists data; eexists; (split; [reflexivity|]); (split; [exact He|]);
    match goal with |- _ = Ok (?c x) => exact (decode_as_ok c x data Hd) end.
Qed.

(** End to end: if the committee's addresses are distinct and the connections to
    a member can be established, then the member's consensus module receives from
    another node exactly the messages that this node broadcast or sent to the
    member, in the order of the sends.  This goes through the address book, the
    sender's table of connections, the codec, the receiver and the routing by
    module. *)
Theorem sent_messages_arrive (committee : Committee) up from id a sends :
  (∀ i j a b, Authorities committee !! i = Some a → Authorities committee !! j = Some b →
     au_Addr a = au_Addr b → i = j) →
  Authorities committee !! id = Some a → id ≠ from →
  (∀ n, up n (Committee_Address committee id) = true) →
  Forall (λ s, s.1 = NONE ∨ s.1 ∈ members committee) sends →
  let sender := Sender_Run up (map (λ s, Transmitor_Send committee from s.1 s.2) sends) in
  ∃ stream msgs,
    write_all MsgType encode_Message
      (conn_of sender (Committee_Address committee id)) [] = Returns tt stream ∧
    serveConn DefaultMessageTypeMap (S (length stream)) stream = Returns msgs [] ∧
    Transmitor_route Module_ msgs = meant_for id sends.
Proof.
  intros Hinj Ha Hid Hup Hsends sender. unfold sender.
  assert (Committee_Address committee id = au_Addr a) as Haddr.
  { unfold Committee_Address. by rewrite Ha. }
  rewrite Haddr in *.
  destruct (sends_delivered committee au_Addr Hinj MsgType encode_Message DefaultMessageTypeMap up
    (Transmitor_Send committee from) from id a sends) as (stream & Hw & Hr); try done.
  { apply Message_transmissible. }
  exists stream, (meant_for id sends). split_and!; [done|done|].
  apply Transmitor_route_all. by intros [].
Qed.
End laws.

(** A peer can stop the process: a type number that is not in the table reaches
    [reflect.New] as a nil type. *)
Theorem unknown_type_panics typeId data rest :
  GobLaw Z → ¬ 0 <= typeId <= 7 →
  ∃ tdata, gob_Encode typeId = Ok tdata ∧
    ∀ fuel, serveConn DefaultMessageTypeMap (S fuel) (tdata :: data :: rest) =
              Crash "reflect: New(nil)".
Proof.
  intros LI Ht. destruct (gob_round_trip typeId) as (tdata & He & Hd).
  exists tdata. split; [done|]. intros fuel. simpl. unfold Codec_Read, mbind, GoM_bind, Decode.
  rewrite Hd. assert (DefaultMessageTypeMap !! typeId = None) as ->; [|done].
  apply not_elem_of_list_to_map_1. simpl.
  rewrite !not_elem_of_cons. unfold SPBProposalType, SPBVoteType, FinishType, DoneType,
    ElectShareType, PrevoteType, FinVoteType, HaltType. split_and!; try lia.
  apply not_elem_of_nil.
Qed.
End consensus_codec.

(** The sender keeps the order and, once connected, loses nothing: for every
    outcome of the connection attempts, the messages on the connection to an
    address are all the messages for it from some point on, and after a connection
    is open every later message for its address is appended to it. *)
Theorem sender_keeps_order {M} up (nms later : list (NetMessage M)) addr conn :
  se_conns (Sender_Run up nms) !! addr = Some conn →
  (∃ lost, addressed addr (deliveries nms) = lost ++ conn) ∧
  se_conns (Sender_Run up (nms ++ later)) !! addr =
    Some (conn ++ addressed addr (deliveries later)).
Proof.
  unfold Sender_Run. rewrite foldl_app, !Sender_Run_deliveries. intros Hc. split.
  { pose proof (sender_conns up (deliveries nms) addr) as Hs. by rewrite Hc in Hs. }
  revert Hc. generalize (foldl (λ s d, Sender_deliver up d.2 s d.1) (NewSender (M := M)) (deliveries nms)).
  intros s. generalize (deliveries later) as ds. intros ds Hc.
  induction ds as [|d ds IH] using rev_ind; [by rewrite app_nil_r|].
  rewrite foldl_app. simpl. rewrite Sender_deliver_conn, addressed_snoc, IH, app_assoc.
  case_decide; [done|by rewrite app_nil_r].
Qed.
