(* ===== verification/Transport.v ===== *)
(** * Channels and goroutines of the transport (src/network/network.go,
    src/core/transmitor.go, src/mempool/transmit.go)

    Network.v follows a message through the address book, the codec and the routing.
    Here the same path is seen as it runs: goroutines that pass messages on from one
    bounded channel to the next and wait while a channel is full or empty.  A run is a
    sequence of steps of these goroutines, in any order.

    - [Outgoing] is the half of a [Transmitor] (or of the mempool's [Transmit], which has
      the same goroutines) that sends: its channel, the goroutine that passes messages
      on to the [Sender], the loop of the sender, and a goroutine per connection.
    - [Incoming] is the half that receives: a goroutine per accepted connection, the
      goroutine that sorts by module, and the channel of the core.
    - [CoreLoop] adds the goroutine of the core, which also puts messages on its own
      channel.

    Dialling may fail, and then the message is dropped for the address; writing to a
    connection may fail at any time, and then fails for good.  The theorems: after what
    was dropped on failed dials a link delivers in order, and nothing that was not sent,
    also if it breaks ([link_fifo]); the goroutines come to rest only after everything
    else was delivered if it does not, and they do come to rest ([link_delivers]); a
    broadcast is never more than 1002 messages ahead of the slowest connection, so a
    member that was dialled and does not read stops the sender for all
    ([slow_peer_stops_all]); and the core stops forever when its channel is full at the
    moment it sends to itself ([self_send_deadlock]). *)

From stdpp Require Import base gmap list strings.
From S2P Require Import Prelude Committee Crypto Message Network.

(** ** Capacities *)

Definition CHANNEL : Z := 10000.
Definition CONN_CHANNEL : Z := 1000.

(** ** Sending *)

(** A connection: the channel of [connect], what its goroutine has taken off, what it has
    written, and the messages for which writing has failed. *)
Record Conn (M : Type) : Type := mkConn {
  cn_msgCh : list M;
  cn_hand : option M;
  cn_written : list M;
  cn_lost : list M
}.
Arguments mkConn {_} _ _ _ _.
Arguments cn_msgCh {_} _.
Arguments cn_hand {_} _.
Arguments cn_written {_} _.
Arguments cn_lost {_} _.

(** [Sender]: [sq_current] is the message that the loop works on, with the addresses
    that are left.  [sq_dropped] records the messages that were given up, with the address
    that could not be dialled. *)
Record SenderQ (M : Type) : Type := mkSenderQ {
  sq_msgCh : list (NetMessage M);
  sq_current : option (M * list string);
  sq_conns : gmap string (Conn M);
  sq_dials : nat;
  sq_dropped : list (string * M)
}.
Arguments mkSenderQ {_} _ _ _ _ _.
Arguments sq_msgCh {_} _.
Arguments sq_current {_} _.
Arguments sq_conns {_} _.
Arguments sq_dials {_} _.
Arguments sq_dropped {_} _.

(** The sending half of a [Transmitor]: [og_forward] is what the goroutine that feeds
    the sender has taken off. *)
Record Outgoing (M : Type) : Type := mkOutgoing {
  og_msgCh : list (NetMessage M);
  og_forward : option (NetMessage M);
  og_sender : SenderQ M
}.
Arguments mkOutgoing {_} _ _ _.
Arguments og_msgCh {_} _.
Arguments og_forward {_} _.
Arguments og_sender {_} _.

Inductive out_event (M : Type) : Type :=
  | OSend (to : NodeID) (msg : M)
  | OForward
  | ORun
  | OWrite (ok : bool) (addr : string).
Arguments OSend {_} _ _.
Arguments OForward {_}.
Arguments ORun {_}.
Arguments OWrite {_} _ _.

Section outgoing.
Context {M : Type} (up : nat → string → bool) (send : NodeID → M → NetMessage M).
Implicit Types (o : Outgoing M) (s : SenderQ M) (c : Conn M) (addr : string).

Definition NewSenderQ : SenderQ M := mkSenderQ [] None ∅ 0 [].
Definition NewOutgoing : Outgoing M := mkOutgoing [] None NewSenderQ.

(** [Sender.Send] *)
Definition Sender_Send (nm : NetMessage M) s : option (SenderQ M) :=
  ch ← chan_send CHANNEL nm (sq_msgCh s);
  Some (mkSenderQ ch (sq_current s) (sq_conns s) (sq_dials s) (sq_dropped s)).

(** A turn of one of the two loops of [Sender.Run]: the next message, the end of one,
    or the next address of one.  A new connection has room; without a connection the
    message is dropped for the address. *)
Definition Sender_Run_turn s : option (SenderQ M) :=
  match sq_current s with
  | None =>
      '(nm, ch) ← chan_recv (sq_msgCh s);
      Some (mkSenderQ ch (Some (nm_Msg nm, nm_Address nm)) (sq_conns s) (sq_dials s)
        (sq_dropped s))
  | Some (msg, []) =>
      Some (mkSenderQ (sq_msgCh s) None (sq_conns s) (sq_dials s) (sq_dropped s))
  | Some (msg, addr :: rest) =>
      match sq_conns s !! addr with
      | Some c =>
          ch ← chan_send CONN_CHANNEL msg (cn_msgCh c);
          Some (mkSenderQ (sq_msgCh s) (Some (msg, rest))
            (<[addr := mkConn ch (cn_hand c) (cn_written c) (cn_lost c)]> (sq_conns s)) (sq_dials s)
            (sq_dropped s))
      | None =>
          if up (sq_dials s) addr then
            Some (mkSenderQ (sq_msgCh s) (Some (msg, rest))
              (<[addr := mkConn [msg] None [] []]> (sq_conns s)) (S (sq_dials s)) (sq_dropped s))
          else
            Some (mkSenderQ (sq_msgCh s) (Some (msg, rest)) (sq_conns s) (S (sq_dials s))
              (sq_dropped s ++ [(addr, msg)]))
      end
  end.

Definition unbroken c : bool := match cn_lost c with [] => true | _ :: _ => false end.

(** The goroutine of [connect] takes a message or writes it.  Writing may fail, and does
    so once it has failed on the connection; this is logged, and the goroutine goes on. *)
Definition connect_write (ok : bool) c : option (Conn M) :=
  match cn_hand c with
  | None =>
      '(msg, ch) ← chan_recv (cn_msgCh c); Some (mkConn ch (Some msg) (cn_written c) (cn_lost c))
  | Some msg =>
      if ok && unbroken c then Some (mkConn (cn_msgCh c) None (cn_written c ++ [msg]) (cn_lost c))
      else Some (mkConn (cn_msgCh c) None (cn_written c) (cn_lost c ++ [msg]))
  end.

(** The first goroutine of [NewTransmitor] takes a message or passes it to the sender. *)
Definition Transmitor_forward o : option (Outgoing M) :=
  match og_forward o with
  | None =>
      '(nm, ch) ← chan_recv (og_msgCh o); Some (mkOutgoing ch (Some nm) (og_sender o))
  | Some nm => s ← Sender_Send nm (og_sender o); Some (mkOutgoing (og_msgCh o) None s)
  end.

Definition out_exec (ev : out_event M) o : option (Outgoing M) :=
  match ev with
  | OSend to msg =>
      ch ← chan_send CHANNEL (send to msg) (og_msgCh o);
      Some (mkOutgoing ch (og_forward o) (og_sender o))
  | OForward => Transmitor_forward o
  | ORun => s ← Sender_Run_turn (og_sender o); Some (mkOutgoing (og_msgCh o) (og_forward o) s)
  | OWrite ok addr =>
      let s := og_sender o in
      c ← sq_conns s !! addr; c' ← connect_write ok c;
      Some (mkOutgoing (og_msgCh o) (og_forward o)
        (mkSenderQ (sq_msgCh s) (sq_current s) (<[addr := c']> (sq_conns s)) (sq_dials s)
          (sq_dropped s)))
  end.

Fixpoint out_run (evs : list (out_event M)) o : option (Outgoing M) :=
  match evs with
  | [] => Some o
  | ev :: evs => out_exec ev o ≫= out_run evs
  end.

(** The calls of [Send] in a run *)
Definition out_sends (evs : list (out_event M)) : list (NodeID * M) :=
  omap (λ ev, match ev with OSend to msg => Some (to, msg) | _ => None end) evs.

(** *** Order *)

(** What was put on the connection to an address, and what is on its way there *)
Definition put_on addr s : list M :=
  match sq_conns s !! addr with
  | Some c => cn_written c ++ cn_lost c ++ held (cn_hand c) ++ cn_msgCh c
  | None => []
  end.

(** What was dropped because the address could not be dialled *)
Definition dropped addr s : list M := addressed addr (sq_dropped s).

Definition current_for addr s : list M :=
  match sq_current s with
  | Some (msg, addrs) => addressed addr (map (λ a, (a, msg)) addrs)
  | None => []
  end.

Definition queued o : list (NetMessage M) :=
  sq_msgCh (og_sender o) ++ held (og_forward o) ++ og_msgCh o.

Definition pending addr o : list M :=
  current_for addr (og_sender o) ++ addressed addr (deliveries (queued o)).

Lemma addressed_cons addr a (m : M) ds :
  addressed addr ((a, m) :: ds) = (if decide (a = addr) then [m] else []) ++ addressed addr ds.
Proof.
  change ((a, m) :: ds) with ([(a, m)] ++ ds). rewrite addressed_app. f_equal.
  unfold addressed. simpl. case_bool_decide; by case_decide.
Qed.

(** A turn of the sender moves messages, it neither loses nor reorders them: messages
    are dropped only before the first connection to the address. *)
Lemma Sender_Run_turn_balance addr s s' :
  Sender_Run_turn s = Some s' →
  dropped addr s' ++ put_on addr s' ++ current_for addr s' ++ addressed addr (deliveries (sq_msgCh s')) =
  dropped addr s ++ put_on addr s ++ current_for addr s ++ addressed addr (deliveries (sq_msgCh s)).
Proof.
  unfold Sender_Run_turn, current_for, dropped.
  destruct (sq_current s) as [[msg [|a rest]]|] eqn:Hc.
  - by intros [= <-].
  - cbn [map]. rewrite addressed_cons. destruct (sq_conns s !! a) as [c|] eqn:Ha.
    + intros (ch & [_ ->]%chan_send_Some & [= <-])%bind_Some. unfold put_on. simpl.
      case_decide as Hd; [subst a|by rewrite lookup_insert_ne].
      rewrite lookup_insert_eq, Ha. simpl. by rewrite <-!app_assoc.
    + case_match; intros [= <-]; unfold put_on; simpl.
      * case_decide as Hd; [subst a|by rewrite lookup_insert_ne]. by rewrite lookup_insert_eq, Ha.
      * rewrite addressed_app, addressed_cons, <-app_assoc.
        case_decide as Hd; [subst a; by rewrite Ha|done].
  - intros ([nm ch] & Hr%chan_recv_Some & [= <-])%bind_Some. rewrite Hr, deliveries_cons, addressed_app.
    by unfold put_on.
Qed.

(** Nothing is dropped for an address that can be dialled. *)
Lemma Sender_Run_turn_dropped addr s s' :
  (∀ n, up n addr = true) → Sender_Run_turn s = Some s' → dropped addr s' = dropped addr s.
Proof.
  intros Hup. unfold Sender_Run_turn, dropped. destruct (sq_current s) as [[msg [|a rest]]|].
  - by intros [= <-].
  - destruct (sq_conns s !! a).
    + by intros (ch & _ & [= <-])%bind_Some.
    + case_match eqn:Hu; intros [= <-]; [done|]. simpl. rewrite addressed_app, addressed_cons.
      rewrite decide_False; [by rewrite app_nil_r|]. intros ->. by rewrite Hup in Hu.
  - by intros ([nm ch] & _ & [= <-])%bind_Some.
Qed.

Lemma deliveries_app (nms nms' : list (NetMessage M)) :
  deliveries (nms ++ nms') = deliveries nms ++ deliveries nms'.
Proof. apply bind_app. Qed.

Lemma connect_write_put ok c c' :
  connect_write ok c = Some c' →
  cn_written c' ++ cn_lost c' ++ held (cn_hand c') ++ cn_msgCh c' =
  cn_written c ++ cn_lost c ++ held (cn_hand c) ++ cn_msgCh c.
Proof.
  unfold connect_write, unbroken. destruct (cn_hand c).
  - destruct ok, (cn_lost c); intros [= <-]; simpl; by rewrite <-?app_assoc.
  - intros ([m ch] & Hr%chan_recv_Some & [= <-])%bind_Some. simpl. by rewrite Hr.
Qed.

Lemma out_exec_balance addr ev o o' :
  out_exec ev o = Some o' →
  dropped addr (og_sender o') ++ put_on addr (og_sender o') ++ pending addr o' =
  dropped addr (og_sender o) ++ put_on addr (og_sender o) ++ pending addr o ++
    addressed addr (deliveries (map (λ x, send x.1 x.2) (out_sends [ev]))).
Proof.
  unfold pending, queued, out_sends. destruct ev as [to msg| | |ok a];
    cbn [out_exec omap list_omap map fst snd];
    try change (addressed addr (deliveries [])) with (@nil M); rewrite ?app_nil_r.
  - intros (ch & [_ ->]%chan_send_Some & [= <-])%bind_Some. cbn [og_sender og_forward og_msgCh].
    rewrite !(app_assoc (sq_msgCh _)), !(app_assoc (_ ++ held _)).
    by rewrite (deliveries_app _ [_]), addressed_app, !app_assoc.
  - unfold Transmitor_forward. destruct (og_forward o) as [nm|].
    + unfold Sender_Send.
      intros (s & (ch & [_ ->]%chan_send_Some & [= <-])%bind_Some & [= <-])%bind_Some.
      unfold dropped, put_on, current_for. cbn. by rewrite <-!app_assoc.
    + intros ([nm ch] & Hr%chan_recv_Some & [= <-])%bind_Some. by rewrite Hr.
  - intros (s & Hs & [= <-])%bind_Some. cbn [og_sender og_forward og_msgCh].
    rewrite !deliveries_app, !addressed_app, !app_assoc.
    do 2 f_equal. pose proof (Sender_Run_turn_balance addr _ _ Hs) as Hb.
    by rewrite !app_assoc in Hb.
  - intros (c & Hc & (c' & Hw & [= <-])%bind_Some)%bind_Some. simpl. unfold dropped. simpl. do 2 f_equal.
    unfold put_on. simpl. destruct (decide (a = addr)) as [->|Hne].
    + rewrite lookup_insert_eq, Hc. by eapply connect_write_put.
    + by rewrite lookup_insert_ne.
Qed.

Lemma out_run_snoc evs ev o : out_run (evs ++ [ev]) o = out_run evs o ≫= out_exec ev.
Proof.
  revert o. induction evs as [|e evs IH]; intros o; simpl.
  - by destruct (out_exec ev o).
  - destruct (out_exec e o); simpl; [apply IH|done].
Qed.

Lemma out_run_balance addr evs o :
  out_run evs NewOutgoing = Some o →
  dropped addr (og_sender o) ++ put_on addr (og_sender o) ++ pending addr o =
  addressed addr (deliveries (map (λ x, send x.1 x.2) (out_sends evs))).
Proof.
  revert o. induction evs as [|ev evs IH] using rev_ind; intros o.
  { by intros [= <-]. }
  rewrite out_run_snoc. intros (o1 & H1 & H2)%bind_Some.
  rewrite (out_exec_balance _ _ _ _ H2), !app_assoc, <-(app_assoc (dropped _ _)), (IH _ H1).
  unfold out_sends. by rewrite omap_app, map_app, deliveries_app, addressed_app.
Qed.

Lemma out_run_dropped addr evs o o' :
  (∀ n, up n addr = true) → out_run evs o = Some o' →
  dropped addr (og_sender o') = dropped addr (og_sender o).
Proof.
  intros Hup. revert o. induction evs as [|ev evs IH]; intros o; simpl; [by intros [= <-]|].
  intros (o1 & H1 & H2)%bind_Some. rewrite (IH _ H2). clear IH H2.
  destruct ev as [to msg| | |ok a]; cbn [out_exec] in H1.
  - by apply bind_Some in H1 as (ch & _ & [= <-]).
  - unfold Transmitor_forward, Sender_Send in H1. destruct (og_forward o).
    + by apply bind_Some in H1 as (s & (ch & _ & [= <-])%bind_Some & [= <-]).
    + by apply bind_Some in H1 as ([nm ch] & _ & [= <-]).
  - apply bind_Some in H1 as (s & Hs & [= <-]). by apply (Sender_Run_turn_dropped addr _ s Hup).
  - by apply bind_Some in H1 as (c & _ & (c' & _ & [= <-])%bind_Some).
Qed.

(** *** Broken connections *)

Definition broken addr (written : list M) o : Prop :=
  ∃ c, sq_conns (og_sender o) !! addr = Some c ∧ unbroken c = false ∧ cn_written c = written.

Lemma connect_write_broken ok c c' :
  unbroken c = false → connect_write ok c = Some c' →
  unbroken c' = false ∧ cn_written c' = cn_written c.
Proof.
  unfold connect_write. intros Hb. destruct (cn_hand c).
  - rewrite Hb, andb_false_r. intros [= <-]. split; [|done]. unfold unbroken. simpl.
    by destruct (cn_lost c).
  - by intros ([m ch] & _ & [= <-])%bind_Some.
Qed.

Lemma out_exec_broken addr written ev o o' :
  broken addr written o → out_exec ev o = Some o' → broken addr written o'.
Proof.
  unfold broken. intros (c & Hc & Hb & Hw). destruct ev as [to msg| | |ok a]; cbn [out_exec].
  - intros (ch & _ & [= <-])%bind_Some. by exists c.
  - unfold Transmitor_forward, Sender_Send. destruct (og_forward o) as [nm|].
    + intros (s & (ch & _ & [= <-])%bind_Some & [= <-])%bind_Some. by exists c.
    + intros ([nm ch] & _ & [= <-])%bind_Some. by exists c.
  - intros (s & Hs & [= <-])%bind_Some. unfold Sender_Run_turn in Hs.
    destruct (sq_current (og_sender o)) as [[msg [|a rest]]|]; [by simplify_eq; exists c| |].
    + destruct (decide (a = addr)) as [->|Hne].
      * rewrite Hc in Hs. apply bind_Some in Hs as (ch & _ & [= <-]). simpl.
        rewrite lookup_insert_eq. by eexists.
      * exists c. split; [|done]. destruct (sq_conns (og_sender o) !! a).
        -- apply bind_Some in Hs as (ch & _ & [= <-]). simpl. by rewrite lookup_insert_ne.
        -- case_match; simplify_eq; simpl; by rewrite ?lookup_insert_ne.
    + apply bind_Some in Hs as ([nm ch] & _ & [= <-]). by exists c.
  - intros (c1 & Hc1 & (c' & Hwr & [= <-])%bind_Some)%bind_Some. simpl.
    destruct (decide (a = addr)) as [->|Hne].
    + rewrite Hc in Hc1. simplify_eq. rewrite lookup_insert_eq.
      destruct (connect_write_broken _ _ _ Hb Hwr). by eexists.
    + rewrite lookup_insert_ne by done. by exists c.
Qed.

(** A connection that has failed is never opened again: it stays in the table, and whatever
    is sent to its address from then on is lost. *)
Theorem broken_never_reconnects addr written evs o o' :
  broken addr written o → out_run evs o = Some o' → broken addr written o'.
Proof.
  revert o. induction evs as [|ev evs IH]; intros o Hb; simpl; [by intros [= <-]|].
  intros (o1 & H1 & H2)%bind_Some. eauto using out_exec_broken.
Qed.

(** *** Rest

    The goroutines rest when all of them wait. *)
Definition out_quiet o : Prop :=
  out_exec OForward o = None ∧ out_exec ORun o = None ∧ ∀ addr, out_exec (OWrite true addr) o = None.

Lemma OWrite_waits addr o c :
  out_exec (OWrite true addr) o = None → sq_conns (og_sender o) !! addr = Some c →
  cn_hand c = None ∧ cn_msgCh c = [].
Proof.
  simpl. intros Hw Hc. rewrite Hc in Hw. simpl in Hw. unfold connect_write in Hw.
  destruct (cn_hand c); [by destruct (unbroken c)|]. by destruct (cn_msgCh c).
Qed.

(** A connection that is full is being written, so that nobody waits for nothing: at
    rest everything is written, or lost because writing failed. *)
Lemma out_quiet_written addr o :
  out_quiet o → pending addr o = [] ∧
    put_on addr (og_sender o) =
      from_option (λ c, cn_written c ++ cn_lost c) [] (sq_conns (og_sender o) !! addr).
Proof.
  intros (Hf & Hr & Hw).
  assert (sq_current (og_sender o) = None ∧ sq_msgCh (og_sender o) = []) as [Hcur Hq].
  { cbn [out_exec] in Hr. unfold Sender_Run_turn in Hr.
    destruct (sq_current (og_sender o)) as [[msg [|a rest]]|]; [done| |].
    - destruct (sq_conns (og_sender o) !! a) as [c|] eqn:Ha; [|by destruct (up _ _)].
      destruct (OWrite_waits a o c (Hw a) Ha) as [_ Hch]. by rewrite Hch in Hr.
    - by destruct (sq_msgCh (og_sender o)). }
  assert (og_forward o = None ∧ og_msgCh o = []) as [Hfw Hch].
  { cbn [out_exec] in Hf. unfold Transmitor_forward, Sender_Send in Hf. rewrite Hq in Hf.
    destruct (og_forward o); [done|]. by destruct (og_msgCh o). }
  unfold pending, current_for, queued, put_on. rewrite Hcur, Hq, Hfw, Hch. split; [done|].
  destruct (sq_conns (og_sender o) !! addr) as [c|] eqn:Hc; [|done].
  destruct (OWrite_waits addr o c (Hw addr) Hc) as [-> ->]. simpl. by rewrite app_nil_r.
Qed.

(** The number of steps that are left to do *)
Definition conn_work c : nat := 2 * length (cn_msgCh c) + length (held (cn_hand c)).
Definition conns_work (m : gmap string (Conn M)) : nat :=
  sum_list_with (λ p, conn_work p.2) (map_to_list m).
Definition nm_work (k : nat) (nm : NetMessage M) : nat := k + 3 * length (nm_Address nm).

Definition sender_work s : nat :=
  conns_work (sq_conns s) +
  match sq_current s with Some (_, addrs) => 1 + 3 * length addrs | None => 0 end +
  sum_list_with (nm_work 2) (sq_msgCh s).

Definition out_work o : nat :=
  sender_work (og_sender o) + sum_list_with (nm_work 3) (held (og_forward o)) +
  sum_list_with (nm_work 4) (og_msgCh o).

Lemma conns_work_insert (m : gmap string (Conn M)) a c :
  (conns_work (<[a := c]> m) + from_option conn_work 0 (m !! a) = conns_work m + conn_work c)%nat.
Proof.
  unfold conns_work. rewrite <-insert_delete_eq.
  rewrite (map_to_list_insert (delete a m)) by apply lookup_delete_eq. simpl.
  destruct (m !! a) as [c0|] eqn:Ha; simpl.
  - rewrite <-(map_to_list_delete m a c0 Ha). simpl. lia.
  - rewrite delete_id by done. lia.
Qed.

Lemma Sender_Run_turn_work s s' :
  Sender_Run_turn s = Some s' → (sender_work s' < sender_work s)%nat.
Proof.
  unfold Sender_Run_turn, sender_work. destruct (sq_current s) as [[msg [|a rest]]|].
  - intros [= <-]. simpl. lia.
  - pose proof (conns_work_insert (sq_conns s) a) as Hi.
    destruct (sq_conns s !! a) as [c|].
    + intros (ch & [_ ->]%chan_send_Some & [= <-])%bind_Some. cbn [sq_conns sq_current sq_msgCh length].
      specialize (Hi (mkConn (cn_msgCh c ++ [msg]) (cn_hand c) (cn_written c) (cn_lost c))).
      unfold conn_work in Hi. simpl in Hi. rewrite length_app in Hi. simpl in Hi. lia.
    + specialize (Hi (mkConn [msg] None [] [])). unfold conn_work in Hi. simpl in Hi.
      case_match; intros [= <-]; cbn [sq_conns sq_current sq_msgCh length]; lia.
  - intros ([nm ch] & Hr%chan_recv_Some & [= <-])%bind_Some. rewrite Hr. simpl.
    unfold nm_work. lia.
Qed.

Lemma connect_write_work ok c c' :
  connect_write ok c = Some c' → (conn_work c' < conn_work c)%nat.
Proof.
  unfold connect_write, conn_work. destruct (cn_hand c).
  - case_match; intros [= <-]; simpl; lia.
  - intros ([m ch] & Hr%chan_recv_Some & [= <-])%bind_Some. rewrite Hr. simpl. lia.
Qed.

Definition is_OSend (ev : out_event M) : bool := match ev with OSend _ _ => true | _ => false end.

Lemma out_exec_work ev o o' :
  is_OSend ev = false → out_exec ev o = Some o' → (out_work o' < out_work o)%nat.
Proof.
  unfold out_work. destruct ev as [to msg| | |ok a]; [done|intros _..]; cbn [out_exec].
  - unfold Transmitor_forward, Sender_Send. destruct (og_forward o) as [nm|].
    + intros (s & (ch & [_ ->]%chan_send_Some & [= <-])%bind_Some & [= <-])%bind_Some.
      unfold sender_work. cbn. rewrite sum_list_with_snoc. unfold nm_work. lia.
    + intros ([nm ch] & Hr%chan_recv_Some & [= <-])%bind_Some. rewrite Hr. cbn. unfold nm_work. lia.
  - intros (s & Hs%Sender_Run_turn_work & [= <-])%bind_Some. cbn. lia.
  - intros (c & Hc & (c' & Hw%connect_write_work & [= <-])%bind_Some)%bind_Some.
    pose proof (conns_work_insert (sq_conns (og_sender o)) a c') as Hi. rewrite Hc in Hi.
    unfold sender_work. cbn in *. lia.
Qed.

(** The goroutines come to rest: without new messages only so many steps are possible,
    and if they do not rest, one of them can go on. *)
Lemma out_run_work evs o o' :
  Forall (λ ev, is_OSend ev = false) evs → out_run evs o = Some o' →
  (length evs + out_work o' <= out_work o)%nat.
Proof.
  revert o. induction evs as [|ev evs IH]; intros o Hevs; simpl; [by intros [= <-]|].
  apply Forall_cons in Hevs as [Hev Hevs]. intros (o1 & H1 & H2)%bind_Some.
  pose proof (out_exec_work _ _ _ Hev H1). specialize (IH _ Hevs H2). lia.
Qed.

Lemma out_sends_internal evs : Forall (λ ev, is_OSend ev = false) evs → out_sends evs = [].
Proof. unfold out_sends. induction 1 as [|[] evs ? _ IH]; done. Qed.

(** *** Back-pressure *)

(** The channels of connections are bounded, and what the sender works on was sent. *)
Record out_inv (P : NetMessage M → Prop) o : Prop := mkOutInv {
  oi_room : ∀ addr c, sq_conns (og_sender o) !! addr = Some c →
    Z.of_nat (length (cn_msgCh c)) <= CONN_CHANNEL;
  oi_queued : Forall P (queued o);
  oi_current : ∀ msg rest, sq_current (og_sender o) = Some (msg, rest) →
    ∃ pre, P (mkNetMessage msg (pre ++ rest))
}.

Lemma NewOutgoing_inv P : out_inv P NewOutgoing.
Proof. split; [|constructor|done]. intros addr c. done. Qed.

Lemma out_inv_conn P o addr c ms cur dials fw s dr :
  out_inv P o → s = og_sender o → Z.of_nat (length (cn_msgCh c)) <= CONN_CHANNEL →
  Forall P (queued (mkOutgoing ms fw (mkSenderQ (sq_msgCh s) cur (<[addr := c]> (sq_conns s)) dials dr))) →
  (∀ msg rest, cur = Some (msg, rest) → ∃ pre, P (mkNetMessage msg (pre ++ rest))) →
  out_inv P (mkOutgoing ms fw (mkSenderQ (sq_msgCh s) cur (<[addr := c]> (sq_conns s)) dials dr)).
Proof.
  intros [H1 _ _] -> Hc Hq Hcur. split; [|done|done]. simpl. intros a c'.
  rewrite lookup_insert. case_decide; [by intros [= <-]|by apply H1].
Qed.

Lemma out_exec_inv P ev o o' :
  (∀ to msg, ev = OSend to msg → P (send to msg)) →
  out_inv P o → out_exec ev o = Some o' → out_inv P o'.
Proof.
  intros Hev Hi. pose proof Hi as [H1 H2 H3]. unfold queued in H2.
  destruct ev as [to msg| | |ok a]; cbn [out_exec].
  - intros (ch & [_ ->]%chan_send_Some & [= <-])%bind_Some. split; [done| |done].
    unfold queued. cbn. rewrite !app_assoc in *. apply Forall_app_2; [done|].
    by apply Forall_singleton, Hev.
  - unfold Transmitor_forward, Sender_Send. destruct (og_forward o) as [nm|].
    + intros (s & (ch & [_ ->]%chan_send_Some & [= <-])%bind_Some & [= <-])%bind_Some.
      split; [done| |done]. unfold queued. cbn in *. by rewrite <-!app_assoc.
    + intros ([nm ch] & Hr%chan_recv_Some & [= <-])%bind_Some. split; [done| |done].
      unfold queued. cbn in *. by rewrite Hr in H2.
  - intros (s & Hs & [= <-])%bind_Some. unfold Sender_Run_turn in Hs.
    destruct (sq_current (og_sender o)) as [[msg [|a rest]]|] eqn:Hcur.
    + simplify_eq. by split.
    + destruct (H3 _ _ eq_refl) as [pre Hpre].
      assert (∃ pre', P (mkNetMessage msg (pre' ++ rest))) as Hrest.
      { exists (pre ++ [a]). by rewrite <-app_assoc. }
      destruct (sq_conns (og_sender o) !! a) as [c|] eqn:Ha.
      * apply bind_Some in Hs as (ch & [Hroom ->]%chan_send_Some & [= <-]).
        eapply out_inv_conn; try done; [|naive_solver].
        simpl. rewrite length_app. simpl. lia.
      * case_match; simplify_eq.
        -- eapply out_inv_conn; try done; naive_solver.
        -- split; [done|done|naive_solver].
    + apply bind_Some in Hs as ([nm ch] & Hr%chan_recv_Some & [= <-]). rewrite Hr in H2.
      apply Forall_cons in H2 as [Hnm H2]. split; [done|done|].
      simpl. intros ? ? [= <- <-]. exists []. by destruct nm.
  - intros (c & Hc & (c' & Hw & [= <-])%bind_Some)%bind_Some.
    eapply out_inv_conn; try done. etrans; [|by apply (H1 a c)].
    unfold connect_write in Hw. destruct (cn_hand c); [case_match; by simplify_eq|].
    apply bind_Some in Hw as ([m ch] & Hr%chan_recv_Some & [= <-]). rewrite Hr. simpl. lia.
Qed.

Lemma out_run_inv P evs o :
  Forall (λ x, P (send x.1 x.2)) (out_sends evs) → out_run evs NewOutgoing = Some o → out_inv P o.
Proof.
  revert o. induction evs as [|ev evs IH] using rev_ind; intros o.
  { intros _ [= <-]. apply NewOutgoing_inv. }
  unfold out_sends. rewrite omap_app. intros [H1 H2]%Forall_app.
  rewrite out_run_snoc. intros (o1 & Hr & He)%bind_Some.
  eapply out_exec_inv; [|by apply IH|exact He]. intros to msg ->.
  by apply Forall_cons in H2 as [H2 _].
Qed.

(** An address that every message has once *)
Definition once addr (nm : NetMessage M) : Prop := addressed addr (deliveries [nm]) = [nm_Msg nm].

Lemma once_length addr nms :
  Forall (once addr) nms → length (addressed addr (deliveries nms)) = length nms.
Proof.
  induction 1 as [|nm nms Hnm _ IH]; [done|].
  change (nm :: nms) with ([nm] ++ nms). rewrite deliveries_app, addressed_app, length_app, Hnm, IH. done.
Qed.

Lemma current_once addr o : out_inv (once addr) o → (length (current_for addr (og_sender o)) <= 1)%nat.
Proof.
  intros [_ _ Hcur]. unfold current_for. destruct (sq_current (og_sender o)) as [[msg rest]|]; [|simpl; lia].
  destruct (Hcur _ _ eq_refl) as [pre Ho]. unfold once, deliveries in Ho. simpl in Ho.
  rewrite app_nil_r, map_app, addressed_app in Ho. apply (f_equal length) in Ho.
  rewrite length_app in Ho. simpl in Ho. lia.
Qed.

(** No address is ahead of another one by more than a message. *)
Lemma put_on_balanced addr addr' evs o :
  Forall (λ x, once addr (send x.1 x.2) ∧ once addr' (send x.1 x.2)) (out_sends evs) →
  out_run evs NewOutgoing = Some o →
  (length (dropped addr (og_sender o) ++ put_on addr (og_sender o)) <=
   S (length (dropped addr' (og_sender o) ++ put_on addr' (og_sender o))))%nat.
Proof.
  intros Hs Hr. apply Forall_and in Hs as [Hs Hs'].
  pose proof (out_run_inv _ _ _ Hs Hr) as Hi. pose proof (out_run_inv _ _ _ Hs' Hr) as Hi'.
  pose proof (f_equal length (out_run_balance addr _ _ Hr)) as Hb.
  pose proof (f_equal length (out_run_balance addr' _ _ Hr)) as Hb'.
  assert (∀ a, Forall (λ x, once a (send x.1 x.2)) (out_sends evs) →
    Forall (once a) (map (λ x, send x.1 x.2) (out_sends evs))) as Hmap.
  { intros a. by rewrite Forall_fmap. }
  unfold pending in *. rewrite !length_app in *.
  rewrite (once_length addr) in Hb by apply oi_queued, Hi.
  rewrite (once_length addr') in Hb' by apply oi_queued, Hi'.
  rewrite once_length in Hb by auto. rewrite once_length in Hb' by auto.
  pose proof (current_once addr' o Hi'). lia.
Qed.
End outgoing.

(** ** Receiving *)

(** A turn of a goroutine: it waits, goes on, or stops the process. *)
Inductive stepped (A : Type) : Type :=
  | Waits
  | Steps (a : A)
  | Panics (e : string).
Arguments Waits {_}.
Arguments Steps {_} _.
Arguments Panics {_} _.

Definition steps {A} (o : option A) : stepped A :=
  match o with Some a => Steps a | None => Waits end.

Lemma steps_Steps {A} (o : option A) a : steps o = Steps a ↔ o = Some a.
Proof. destruct o; naive_solver. Qed.

(** An accepted connection: all that has arrived, what of it is not read, whether the peer
    can still write, the message that [serveConn] has read, and whether [serveConn] runs. *)
Record InConn (M : Type) : Type := mkInConn {
  ic_arrived : list (list byte);
  ic_frames : list (list byte);
  ic_open : bool;
  ic_hand : option M;
  ic_serving : bool
}.
Arguments mkInConn {_} _ _ _ _ _.
Arguments ic_arrived {_} _.
Arguments ic_frames {_} _.
Arguments ic_open {_} _.
Arguments ic_hand {_} _.
Arguments ic_serving {_} _.

(** [Receiver]; a message is kept with the number of its connection. *)
Record Receiver (M : Type) : Type := mkReceiver {
  rc_conns : list (InConn M);
  rc_msg : list (nat * M)
}.
Arguments mkReceiver {_} _ _.
Arguments rc_conns {_} _.
Arguments rc_msg {_} _.

(** The receiving half of a [Transmitor]: [ig_route] is what the goroutine that sorts by
    module has taken off.  The messages that the core has for itself have no connection.
    [ig_received] records what was taken off the channel. *)
Record Incoming (M : Type) : Type := mkIncoming {
  ig_receiver : Receiver M;
  ig_route : option (nat * M);
  ig_recvCh : list (option nat * M);
  ig_received : list (option nat * M)
}.
Arguments mkIncoming {_} _ _ _ _.
Arguments ig_receiver {_} _.
Arguments ig_route {_} _.
Arguments ig_recvCh {_} _.
Arguments ig_received {_} _.

Inductive in_event (M : Type) : Type :=
  | IAccept (ok : bool)
  | IArrive (k : nat) (fs : list (list byte))
  | IClose (k : nat)
  | IServe (k : nat)
  | IRoute
  | IOwn (msg : M)
  | IRecv.
Arguments IAccept {_} _.
Arguments IArrive {_} _ _.
Arguments IClose {_} _.
Arguments IServe {_} _.
Arguments IRoute {_}.
Arguments IOwn {_} _.
Arguments IRecv {_}.

Section incoming.
Context {M : Type} (types : gmap Z (list byte → result M)) {GI : Gob Z}
  (Module_of : M → string) (module : string).
Implicit Types (i : Incoming M) (r : Receiver M) (c : InConn M) (k : nat).

Definition NewReceiver : Receiver M := mkReceiver [] [].
Definition NewIncoming : Incoming M := mkIncoming NewReceiver None [] [].

(** A turn of the loop of [Receiver.Run]: a failed [Accept] is logged. *)
Definition Receiver_accept (ok : bool) r : Receiver M :=
  if ok then mkReceiver (rc_conns r ++ [mkInConn [] [] true None true]) (rc_msg r) else r.

(** [Codec.Read] waits for more data: for the type number, or, if that is one of the
    table, for the message. *)
Definition Codec_waits (fs : list (list byte)) : bool :=
  match fs with
  | [] => true
  | [f] =>
      match gob_Decode f with
      | Ok t => match types !! t with Some _ => true | None => false end
      | Err _ => false
      end
  | _ => false
  end.

(** A turn of [serveConn]: it passes on the message that it has read, or reads the next
    one and returns on an error. *)
Definition serveConn_turn k r : stepped (Receiver M) :=
  match rc_conns r !! k with
  | None => Waits
  | Some c =>
      let with_conn c' := mkReceiver (<[k := c']> (rc_conns r)) (rc_msg r) in
      if negb (ic_serving c) then Waits
      else
        match ic_hand c with
        | Some msg =>
            steps (ch ← chan_send CHANNEL (k, msg) (rc_msg r);
                   Some (mkReceiver (<[k := mkInConn (ic_arrived c) (ic_frames c) (ic_open c) None true]>
                           (rc_conns r)) ch))
        | None =>
            if ic_open c && Codec_waits (ic_frames c) then Waits
            else
              match Codec_Read types (ic_frames c) with
              | Crash e => Panics e
              | Returns (Err _) fs => Steps (with_conn (mkInConn (ic_arrived c) fs (ic_open c) None false))
              | Returns (Ok msg) fs => Steps (with_conn (mkInConn (ic_arrived c) fs (ic_open c) (Some msg) true))
              end
        end
  end.

(** [Receiver.Recv] and the channel of [RecvChannel] *)
Definition Receiver_Recv r : option ((nat * M) * Receiver M) :=
  '(x, ch) ← chan_recv (rc_msg r); Some (x, mkReceiver (rc_conns r) ch).

(** The second goroutine of [NewTransmitor] takes a message, or passes it to the channel
    of the module; one of another module is logged and dropped. *)
Definition Transmitor_sort i : option (Incoming M) :=
  match ig_route i with
  | None =>
      '(x, r) ← Receiver_Recv (ig_receiver i);
      Some (mkIncoming r (Some x) (ig_recvCh i) (ig_received i))
  | Some (k, msg) =>
      if decide (Module_of msg = module) then
        ch ← chan_send CHANNEL (Some k, msg) (ig_recvCh i);
        Some (mkIncoming (ig_receiver i) None ch (ig_received i))
      else Some (mkIncoming (ig_receiver i) None (ig_recvCh i) (ig_received i))
  end.

(** [Transmitor.Recv], and receiving from [RecvChannel] *)
Definition Transmitor_Recv i : option (Incoming M) :=
  '(x, ch) ← chan_recv (ig_recvCh i);
  Some (mkIncoming (ig_receiver i) (ig_route i) ch (ig_received i ++ [x])).

(** Sending to [RecvChannel], as the core and its broadcast instances do *)
Definition RecvChannel_send (msg : M) i : option (Incoming M) :=
  ch ← chan_send CHANNEL (None, msg) (ig_recvCh i);
  Some (mkIncoming (ig_receiver i) (ig_route i) ch (ig_received i)).

Definition with_receiver i r : Incoming M := mkIncoming r (ig_route i) (ig_recvCh i) (ig_received i).

Definition with_in_conn (f : InConn M → InConn M) k i : stepped (Incoming M) :=
  match rc_conns (ig_receiver i) !! k with
  | Some c =>
      Steps (with_receiver i (mkReceiver (<[k := f c]> (rc_conns (ig_receiver i)))
        (rc_msg (ig_receiver i))))
  | None => Waits
  end.

Definition in_exec (ev : in_event M) i : stepped (Incoming M) :=
  match ev with
  | IAccept ok => Steps (with_receiver i (Receiver_accept ok (ig_receiver i)))
  | IArrive k fs =>
      let more c := if ic_open c then fs else [] in
      with_in_conn (λ c, mkInConn (ic_arrived c ++ more c) (ic_frames c ++ more c) (ic_open c)
        (ic_hand c) (ic_serving c)) k i
  | IClose k => with_in_conn (λ c, mkInConn (ic_arrived c) (ic_frames c) false (ic_hand c) (ic_serving c)) k i
  | IServe k =>
      match serveConn_turn k (ig_receiver i) with
      | Waits => Waits
      | Panics e => Panics e
      | Steps r => Steps (with_receiver i r)
      end
  | IRoute => steps (Transmitor_sort i)
  | IOwn msg => steps (RecvChannel_send msg i)
  | IRecv => steps (Transmitor_Recv i)
  end.

Fixpoint in_run (evs : list (in_event M)) i : stepped (Incoming M) :=
  match evs with
  | [] => Steps i
  | ev :: evs =>
      match in_exec ev i with Steps i' => in_run evs i' | Waits => Waits | Panics e => Panics e end
  end.

(** *** Order *)

(** [reads cs ms]: from the values [cs] the messages [ms] are read. *)
Inductive reads : list (list byte) → list M → Prop :=
  | reads_nil : reads [] []
  | reads_next cs ms f g m :
      reads cs ms → (∀ rest, Codec_Read types (f :: g :: rest) = Returns (Ok m) rest) →
      reads (cs ++ [f; g]) (ms ++ [m]).

Lemma Codec_Read_two fs m fs' :
  Codec_Read types fs = Returns (Ok m) fs' →
  ∃ f g, fs = f :: g :: fs' ∧ ∀ rest, Codec_Read types (f :: g :: rest) = Returns (Ok m) rest.
Proof.
  unfold Codec_Read, mbind, GoM_bind, Decode.
  destruct fs as [|f [|g fs]]; simpl; [done| |];
    (destruct (gob_Decode f) as [t|] eqn:Hd; [|done]; destruct (types !! t) as [d|] eqn:Ht; [|done]);
    intros [= He <-] || intros [=].
  exists f, g. split; [done|]. intros rest. by rewrite Hd, Ht, He.
Qed.

Lemma Codec_Read_consumes_two fs m fs' :
  Codec_Read types fs = Returns (Ok m) fs' → length fs = S (S (length fs')).
Proof. by intros (f & g & -> & _)%Codec_Read_two. Qed.

(** The messages of connection [k], after and before the sorting *)
Definition from_conn k (l : list (option nat * M)) : list M :=
  omap (λ x, if decide (x.1 = Some k) then Some x.2 else None) l.

Definition of_conn k (l : list (nat * M)) : list M :=
  omap (λ x, if decide (x.1 = k) then Some x.2 else None) l.

Definition unsorted k i : list M :=
  of_conn k (held (ig_route i) ++ rc_msg (ig_receiver i)) ++
  from_option (λ c, held (ic_hand c)) [] (rc_conns (ig_receiver i) !! k).

(** A connection from which [ms] were read: [rest] was not, unless [serveConn] has
    returned, which it does on bad data only while the connection is open. *)
Definition conn_read (oc : option (InConn M)) (ms : list M) : Prop :=
  match oc with
  | None => ms = []
  | Some c =>
      ∃ cs rest, ic_arrived c = cs ++ rest ∧ reads cs ms ∧
        (ic_serving c = true → rest = ic_frames c) ∧
        (ic_serving c = false → ic_open c = true →
           ∃ fs e fs', fs `prefix_of` rest ∧ Codec_waits fs = false ∧
             Codec_Read types fs = Returns (Err e) fs')
  end.

Definition in_inv k i : Prop :=
  ∃ sorted, from_conn k (ig_received i ++ ig_recvCh i) =
              List.filter (λ m, bool_decide (Module_of m = module)) sorted ∧
    conn_read (rc_conns (ig_receiver i) !! k) (sorted ++ unsorted k i) ∧
    ∀ c, rc_conns (ig_receiver i) !! k = Some c → is_Some (ic_hand c) → ic_serving c = true.

Lemma of_conn_app k l l' : of_conn k (l ++ l') = of_conn k l ++ of_conn k l'.
Proof. apply omap_app. Qed.

Lemma from_conn_app k l l' : from_conn k (l ++ l') = from_conn k l ++ from_conn k l'.
Proof. apply omap_app. Qed.

Lemma NewIncoming_inv k : in_inv k NewIncoming.
Proof. exists []. by split_and!. Qed.

(** Steps that only change what is known of the connections *)
Lemma in_inv_conns k i r' :
  in_inv k i → rc_msg r' = rc_msg (ig_receiver i) →
  (∀ ms, conn_read (rc_conns (ig_receiver i) !! k) ms → conn_read (rc_conns r' !! k) ms) →
  from_option (λ c, held (ic_hand c)) [] (rc_conns r' !! k) =
    from_option (λ c, held (ic_hand c)) [] (rc_conns (ig_receiver i) !! k) →
  (∀ c', rc_conns r' !! k = Some c' → is_Some (ic_hand c') → ic_serving c' = true) →
  in_inv k (with_receiver i r').
Proof.
  intros (sorted & Hs & Hc & Hh) Hmsg Hread Hhand Hserve. exists sorted. split_and!; [done| |done].
  unfold unsorted in *. simpl. rewrite Hmsg, Hhand. by apply Hread.
Qed.

Lemma conn_read_arrive c ms fs :
  conn_read (Some c) ms →
  conn_read (Some (mkInConn (ic_arrived c ++ fs) (ic_frames c ++ fs) (ic_open c) (ic_hand c)
    (ic_serving c))) ms.
Proof.
  intros (cs & rest & Ha & Hr & Hsv & Hns). exists cs, (rest ++ fs). simpl. split_and!.
  - by rewrite Ha, <-app_assoc.
  - done.
  - intros Hs. by rewrite (Hsv Hs).
  - intros H1 H2. destruct (Hns H1 H2) as (gs & e & gs' & Hp & ? & ?). exists gs, e, gs'.
    split_and!; [by apply prefix_app_r|done|done].
Qed.

Lemma in_inv_accept k ok i : in_inv k i → in_inv k (with_receiver i (Receiver_accept ok (ig_receiver i))).
Proof.
  intros Hi. pose proof Hi as (sorted & _ & Hread & Hh). unfold Receiver_accept.
  destruct ok; [|by destruct i].
  destruct (rc_conns (ig_receiver i) !! k) as [c|] eqn:Hk.
  - apply in_inv_conns; simpl; rewrite ?(lookup_app_l_Some _ _ _ _ Hk), ?Hk; done.
  - pose proof Hk as Hlen%lookup_ge_None. 
    assert (∀ c', (rc_conns (ig_receiver i) ++ [mkInConn [] [] true None true]) !! k = Some c' →
      c' = mkInConn [] [] true None true) as Hnew.
    { intros c'. rewrite lookup_app_r by done. by intros [_ ->]%list_lookup_singleton_Some. }
    apply in_inv_conns; [done|done|..]; simpl; rewrite ?Hk.
    + intros ms Hms. simpl in Hms. subst ms. destruct ((_ ++ _) !! k) as [c'|] eqn:Hl; [|done]. rewrite (Hnew c' eq_refl).
      exists [], []. split_and!; try done. constructor.
    + destruct ((_ ++ _) !! k) as [c'|] eqn:Hl; [|done]. by rewrite (Hnew c' eq_refl).
    + intros c' Hl. rewrite (Hnew c' Hl). by intros [? [=]].
Qed.

Lemma in_inv_with_conn k f j i i' :
  (∀ c ms, conn_read (Some c) ms → conn_read (Some (f c)) ms) →
  (∀ c, ic_hand (f c) = ic_hand c ∧ ic_serving (f c) = ic_serving c) →
  in_inv k i → with_in_conn f j i = Steps i' → in_inv k i'.
Proof.
  intros Hf Hsame Hi. pose proof Hi as (sorted & _ & Hread & Hh). unfold with_in_conn.
  destruct (rc_conns (ig_receiver i) !! j) as [c|] eqn:Hj; [|done]. intros [= <-].
  destruct (decide (j = k)) as [->|Hne].
  - apply in_inv_conns; simpl; rewrite ?list_lookup_insert_eq by (by eapply lookup_lt_Some);
      rewrite ?Hj; try done; [auto| |].
    + simpl. by rewrite (proj1 (Hsame c)).
    + intros c' [= <-]. destruct (Hsame c) as [-> ->]. by apply Hh.
  - apply in_inv_conns; simpl; rewrite ?list_lookup_insert_ne by done; done.
Qed.

Lemma of_conn_one k j (m : M) : of_conn k [(j, m)] = if decide (j = k) then [m] else [].
Proof. unfold of_conn. simpl. by case_decide. Qed.

(** [serveConn] puts its message on the channel. *)
Lemma in_inv_put k j i c m :
  in_inv k i → rc_conns (ig_receiver i) !! j = Some c → ic_hand c = Some m → ic_serving c = true →
  in_inv k (with_receiver i (mkReceiver
    (<[j := mkInConn (ic_arrived c) (ic_frames c) (ic_open c) None true]> (rc_conns (ig_receiver i)))
    (rc_msg (ig_receiver i) ++ [(j, m)]))).
Proof.
  intros (sorted & Hs & Hread & Hh) Hj Hm Hsv. exists sorted. split; [done|].
  unfold unsorted, with_receiver in *. cbn [ig_route ig_receiver rc_msg rc_conns].
  rewrite (app_assoc (held _)), (of_conn_app _ _ [_]), of_conn_one, <-app_assoc.
  destruct (decide (j = k)) as [->|Hne].
  - rewrite list_lookup_insert_eq by (by eapply lookup_lt_Some). rewrite Hj in Hread. simpl in *.
    rewrite Hm in Hread. simpl in Hread. split; [|by intros c' [= <-] [? [=]]].
    destruct Hread as (cs & rest & Ha & Hr & Hf & _). exists cs, rest. by split_and!; auto.
  - by rewrite list_lookup_insert_ne.
Qed.

(** [serveConn] reads a message. *)
Lemma in_inv_read k j i c m fs :
  in_inv k i → rc_conns (ig_receiver i) !! j = Some c → ic_hand c = None → ic_serving c = true →
  Codec_Read types (ic_frames c) = Returns (Ok m) fs →
  in_inv k (with_receiver i (mkReceiver
    (<[j := mkInConn (ic_arrived c) fs (ic_open c) (Some m) true]> (rc_conns (ig_receiver i)))
    (rc_msg (ig_receiver i)))).
Proof.
  intros (sorted & Hs & Hread & Hh) Hj Hm Hsv Hrd. exists sorted. split; [done|].
  unfold unsorted in *. simpl. destruct (decide (j = k)) as [->|Hne].
  - rewrite list_lookup_insert_eq by (by eapply lookup_lt_Some). rewrite Hj in Hread. simpl in *.
    rewrite Hm in Hread. simpl in Hread. rewrite app_nil_r in Hread.
    split; [|by intros c' [= <-]].
    destruct (Codec_Read_two _ _ _ Hrd) as (f & g & Hfs & Hall).
    destruct Hread as (cs & rest & Ha & Hr & Hf & _). rewrite (Hf Hsv), Hfs in Ha.
    exists (cs ++ [f; g]), fs. split_and!; [by rewrite <-app_assoc| |done|done].
    rewrite app_assoc. by constructor.
  - by rewrite list_lookup_insert_ne.
Qed.

(** [serveConn] returns. *)
Lemma in_inv_return k j i c e fs :
  in_inv k i → rc_conns (ig_receiver i) !! j = Some c → ic_hand c = None → ic_serving c = true →
  ic_open c && Codec_waits (ic_frames c) = false →
  Codec_Read types (ic_frames c) = Returns (Err e) fs →
  in_inv k (with_receiver i (mkReceiver
    (<[j := mkInConn (ic_arrived c) fs (ic_open c) None false]> (rc_conns (ig_receiver i)))
    (rc_msg (ig_receiver i)))).
Proof.
  intros (sorted & Hs & Hread & Hh) Hj Hm Hsv Hw Hrd. exists sorted. split; [done|].
  unfold unsorted in *. simpl. destruct (decide (j = k)) as [->|Hne].
  - rewrite list_lookup_insert_eq by (by eapply lookup_lt_Some). rewrite Hj in Hread. simpl in *.
    rewrite Hm in Hread. simpl in Hread. split; [|by intros c' [= <-] [? [=]]].
    destruct Hread as (cs & rest & Ha & Hr & Hf & _). specialize (Hf Hsv). subst rest.
    exists cs, (ic_frames c). split_and!; [done|done|done|]. simpl. intros _ Hopen.
    rewrite Hopen in Hw. by exists (ic_frames c), e, fs.
  - by rewrite list_lookup_insert_ne.
Qed.

Lemma in_inv_serve k j i r : in_inv k i → serveConn_turn j (ig_receiver i) = Steps r →
  in_inv k (with_receiver i r).
Proof.
  intros Hi. unfold serveConn_turn. destruct (rc_conns (ig_receiver i) !! j) as [c|] eqn:Hj; [|done].
  destruct (ic_serving c) eqn:Hsv; [|done]. simpl. destruct (ic_hand c) as [m|] eqn:Hm.
  - rewrite steps_Steps. intros (ch & [_ ->]%chan_send_Some & [= <-])%bind_Some.
    by apply in_inv_put.
  - destruct (ic_open c && Codec_waits (ic_frames c)) eqn:Hw; [done|].
    destruct (Codec_Read types (ic_frames c)) as [[m|e] fs|] eqn:Hrd; [| |done]; intros [= <-].
    + by apply in_inv_read.
    + by eapply in_inv_return.
Qed.

(** The sorting, and the core *)
Lemma in_inv_sort k i i' : in_inv k i → Transmitor_sort i = Some i' → in_inv k i'.
Proof.
  intros (sorted & Hs & Hread & Hh). unfold Transmitor_sort.
  destruct (ig_route i) as [[j m]|] eqn:Hrt.
  - assert (∀ i', ig_receiver i' = ig_receiver i → ig_route i' = None →
      from_conn k (ig_received i' ++ ig_recvCh i') =
        from_conn k (ig_received i ++ ig_recvCh i) ++
        List.filter (λ m, bool_decide (Module_of m = module)) (of_conn k [(j, m)]) → in_inv k i') as Hgo.
    { intros i2 Hr2 Hrt2 Hf. exists (sorted ++ of_conn k [(j, m)]).
      rewrite Hf, Hs, List.filter_app, Hr2. split_and!; [done| |done].
      unfold unsorted in *. rewrite Hr2, Hrt2, Hrt in *. simpl. rewrite <-!app_assoc.
      cbn [held] in Hread. by rewrite of_conn_app, <-app_assoc in Hread. }
    case_decide as Hmod.
    + intros (ch & [_ ->]%chan_send_Some & [= <-])%bind_Some. apply Hgo; [done|done|].
      rewrite of_conn_one. cbn [ig_received ig_recvCh]. rewrite app_assoc, (from_conn_app _ _ [_]).
      f_equal. unfold from_conn. simpl. destruct (decide (j = k)) as [->|Hne].
      * rewrite decide_True by done. simpl. by rewrite bool_decide_eq_true_2.
      * by rewrite decide_False by congruence.
    + intros [= <-]. apply Hgo; [done|done|]. rewrite of_conn_one. simpl.
      case_decide; simpl; [|by rewrite app_nil_r].
      by rewrite bool_decide_eq_false_2, app_nil_r.
  - intros ([x r] & Hx & [= <-])%bind_Some. unfold Receiver_Recv in Hx.
    apply bind_Some in Hx as ([y ch] & Hr%chan_recv_Some & [= <- <-]). exists sorted.
    split_and!; [done| |done]. unfold unsorted in *. simpl in *. by rewrite Hrt, Hr in Hread.
Qed.

Lemma in_exec_inv k ev i i' : in_inv k i → in_exec ev i = Steps i' → in_inv k i'.
Proof.
  intros Hi. destruct ev as [ok|j fs|j|j| |msg|]; cbn [in_exec].
  - intros [= <-]. by apply in_inv_accept.
  - apply in_inv_with_conn; [|done|done]. intros c ms. apply conn_read_arrive.
  - apply in_inv_with_conn; [|done|done]. intros c ms (cs & rest & ? & ? & ? & _).
    exists cs, rest. by split_and!.
  - destruct (serveConn_turn j _) as [|r|] eqn:Hs; [done| |done]. intros [= <-].
    by eapply in_inv_serve.
  - rewrite steps_Steps. by apply in_inv_sort.
  - rewrite steps_Steps. intros (ch & [_ ->]%chan_send_Some & [= <-])%bind_Some.
    destruct Hi as (sorted & Hs & ?). exists sorted. split; [|done]. simpl.
    rewrite app_assoc, from_conn_app, Hs. unfold from_conn. simpl. by rewrite app_nil_r.
  - rewrite steps_Steps. intros ([x ch] & Hr%chan_recv_Some & [= <-])%bind_Some.
    destruct Hi as (sorted & Hs & ?). exists sorted. split; [|done]. simpl.
    by rewrite Hr, (app_assoc _ [x] ch) in Hs.
Qed.

Lemma in_run_inv k evs i : in_run evs NewIncoming = Steps i → in_inv k i.
Proof.
  generalize (NewIncoming_inv k). generalize NewIncoming as i0.
  induction evs as [|ev evs IH]; intros i0 Hi0; simpl; [by intros [= <-]|].
  destruct (in_exec ev i0) as [|i1|] eqn:He; [done| |done]. apply IH. by eapply in_exec_inv.
Qed.

(** *** Rest *)

Definition in_quiet i : Prop :=
  (∀ k, in_exec (IServe k) i = Waits) ∧ in_exec IRoute i = Waits ∧ in_exec IRecv i = Waits.

Lemma in_quiet_empty i :
  in_quiet i → ig_route i = None ∧ rc_msg (ig_receiver i) = [] ∧ ig_recvCh i = [].
Proof.
  intros (_ & Hr & Hv). cbn [in_exec] in *. unfold Transmitor_Recv, Transmitor_sort in *.
  destruct (ig_recvCh i) as [|x ch]; [|done].
  destruct (ig_route i) as [[j m]|]; [by destruct (decide _)|].
  unfold Receiver_Recv in Hr. by destruct (rc_msg (ig_receiver i)).
Qed.

Lemma in_quiet_conn i k c :
  in_quiet i → rc_conns (ig_receiver i) !! k = Some c → ic_serving c = true →
  ic_hand c = None ∧ Codec_waits (ic_frames c) = true.
Proof.
  intros Hq Hk Hsv. destruct (in_quiet_empty i Hq) as (_ & Hm & _). destruct Hq as (Hs & _).
  specialize (Hs k). cbn [in_exec] in Hs. unfold serveConn_turn in Hs. rewrite Hk, Hsv, Hm in Hs.
  simpl in Hs. destruct (ic_hand c); [done|]. split; [done|].
  destruct (Codec_waits (ic_frames c)); [done|]. rewrite andb_false_r in Hs.
  by destruct (Codec_Read types (ic_frames c)) as [[]|].
Qed.

(** The steps that are left to do *)
Definition in_conn_work c : nat :=
  if ic_serving c then 1 + 3 * length (ic_frames c) + 4 * length (held (ic_hand c)) else 0.

Definition in_work i : nat :=
  sum_list_with in_conn_work (rc_conns (ig_receiver i)) + 3 * length (rc_msg (ig_receiver i)) +
  2 * length (held (ig_route i)) + length (ig_recvCh i).

Definition is_internal (ev : in_event M) : bool :=
  match ev with IServe _ | IRoute | IRecv => true | _ => false end.

Lemma in_exec_work ev i i' :
  is_internal ev = true → in_exec ev i = Steps i' → (in_work i' < in_work i)%nat.
Proof.
  unfold in_work. destruct ev as [| | |k| | |]; try done; intros _; cbn [in_exec].
  - destruct (serveConn_turn k (ig_receiver i)) as [|r|] eqn:Hs; [done| |done]. intros [= <-].
    unfold serveConn_turn in Hs. destruct (rc_conns (ig_receiver i) !! k) as [c|] eqn:Hk; [|done].
    destruct (ic_serving c) eqn:Hsv; [|done]. simpl in Hs.
    pose proof (λ y, sum_list_with_insert in_conn_work _ _ _ y Hk) as Hi. cbn.
    unfold in_conn_work in Hi at 2. rewrite Hsv in Hi. destruct (ic_hand c) as [m|].
    + apply steps_Steps, bind_Some in Hs as (ch & [_ ->]%chan_send_Some & [= <-]). cbn.
      specialize (Hi (mkInConn (ic_arrived c) (ic_frames c) (ic_open c) None true)).
      cbn in Hi. rewrite length_app. cbn. lia.
    + destruct (ic_open c && _); [done|].
      destruct (Codec_Read types (ic_frames c)) as [[m|e] fs|] eqn:Hr; [| |done]; injection Hs as <-.
      * apply Codec_Read_consumes_two in Hr.
        specialize (Hi (mkInConn (ic_arrived c) fs (ic_open c) (Some m) true)). cbn in *. lia.
      * specialize (Hi (mkInConn (ic_arrived c) fs (ic_open c) None false)). cbn in *. lia.
  - rewrite steps_Steps. unfold Transmitor_sort. destruct (ig_route i) as [[j m]|].
    + case_decide; [|intros [= <-]; cbn; lia].
      intros (ch & [_ ->]%chan_send_Some & [= <-])%bind_Some. cbn. rewrite length_app. cbn. lia.
    + unfold Receiver_Recv.
      intros ([x r] & ([y ch] & Hr%chan_recv_Some & [= <- <-])%bind_Some & [= <-])%bind_Some.
      rewrite Hr. cbn. lia.
  - rewrite steps_Steps. intros ([x ch] & Hr%chan_recv_Some & [= <-])%bind_Some. rewrite Hr. cbn. lia.
Qed.

Lemma in_run_work evs i i' :
  Forall (λ ev, is_internal ev = true) evs → in_run evs i = Steps i' →
  (length evs + in_work i' <= in_work i)%nat.
Proof.
  revert i. induction evs as [|ev evs IH]; intros i Hevs; simpl; [by intros [= <-]|].
  apply Forall_cons in Hevs as [Hev Hevs]. destruct (in_exec ev i) as [|i1|] eqn:He; [done| |done].
  intros Hr. pose proof (in_exec_work _ _ _ Hev He). specialize (IH _ Hevs Hr). lia.
Qed.
End incoming.

(** ** A link *)

Section link.
Context {M : Type} (msgType : M → Z) (encode : M → result (list byte))
  (types : gmap Z (list byte → result M)) {GI : Gob Z} (Module_of : M → string) (module : string).

(** What is written for a message *)
Definition frames_of (m : M) : list (list byte) :=
  match gob_Encode (msgType m) with
  | Err _ => []
  | Ok tdata => tdata :: match encode m with Ok data => [data] | Err _ => [] end
  end.

Lemma write_all_frames_of ms conn :
  write_all msgType encode ms conn = Returns tt (conn ++ concat (map frames_of ms)).
Proof.
  revert conn. induction ms as [|m ms IH]; intros conn; simpl; [by rewrite app_nil_r|].
  unfold mbind at 1, GoM_bind. unfold Codec_Write, frames_of, Encode, mbind, GoM_bind in *.
  destruct (gob_Encode (msgType m)) as [t|]; simpl; [|apply IH].
  destruct (encode m) as [d|]; simpl; rewrite IH; by rewrite <-!app_assoc.
Qed.

(** All that was written to the connection to an address.  Of the first message for which
    writing has failed a part may have been sent. *)
Definition attempted addr (s : SenderQ M) : list M :=
  from_option (λ c, cn_written c ++ take 1 (cn_lost c)) [] (sq_conns s !! addr).

Definition wire addr (s : SenderQ M) : list (list byte) :=
  match write_all msgType encode (attempted addr s) [] with Returns _ fs => fs | Crash _ => [] end.

Abbreviation trans := (transmissible msgType encode types).
Abbreviation ours := (List.filter (λ m, bool_decide (Module_of m = module))).

Lemma transmissible_frames m :
  trans m → ∃ t d, frames_of m = [t; d] ∧ Codec_waits types [t] = true ∧
    ∀ rest, Codec_Read types (t :: d :: rest) = Returns (Ok m) rest.
Proof.
  intros (t & d & decode & Ht & Htd & Htab & He & Hd). exists t, d.
  unfold frames_of, Codec_waits, Codec_Read, mbind, GoM_bind, Decode.
  rewrite Ht, He, Htd, Htab. split_and!; [done|done|]. intros rest. simpl. by rewrite ?Htd, ?Htab, Hd.
Qed.

Lemma wire_attempted addr s : wire addr s = concat (map frames_of (attempted addr s)).
Proof. unfold wire. by rewrite write_all_frames_of. Qed.

(** What is read from a part of what was written are the first messages written. *)
Lemma reads_prefix cs ms rest written :
  Forall trans written → reads types cs ms →
  cs ++ rest `prefix_of` concat (map frames_of written) →
  ∃ later, written = ms ++ later ∧ cs = concat (map frames_of ms) ∧
    rest `prefix_of` concat (map frames_of later).
Proof.
  intros Hw Hr. revert rest. induction Hr as [|cs ms f g m _ IH Hrd]; intros rest Hp.
  { by exists written. }
  rewrite <-app_assoc in Hp. destruct (IH _ Hp) as (later & Hlater & Hcs & Hl).
  destruct later as [|m' later].
  { destruct Hl as [x Hx]. by destruct x. }
  rewrite Hlater in Hw. apply Forall_app in Hw as [_ [Hm' _]%Forall_cons].
  destruct (transmissible_frames m' Hm') as (t & d & Hfr & _ & Hrd'). simpl in Hl. rewrite Hfr in Hl.
  destruct Hl as [x [= <- <- Hx]]. exists later.
  specialize (Hrd []). specialize (Hrd' []). rewrite Hrd in Hrd'. injection Hrd' as <-.
  split_and!; [by rewrite <-app_assoc| |by exists x].
  rewrite map_app, concat_app, <-Hcs. simpl. by rewrite Hfr.
Qed.

(** Data that was written for good messages makes [serveConn] neither wait nor return
    before it is read. *)
Lemma frames_read fs later :
  Forall trans later → fs `prefix_of` concat (map frames_of later) → Codec_waits types fs = false →
  ∃ m fs', Codec_Read types fs = Returns (Ok m) fs'.
Proof.
  intros Hw [x Hx] Hwait. destruct later as [|m later].
  { by destruct fs. }
  apply Forall_cons in Hw as [Hm _]. destruct (transmissible_frames m Hm) as (t & d & Hfr & Ht & Hrd).
  simpl in Hx. rewrite Hfr in Hx. destruct fs as [|f [|g fs]]; simplify_eq/=; [|eauto].
  by rewrite Ht in Hwait.
Qed.

Section run.
Context (k : nat) (evs : list (in_event M)) (i : Incoming M) (c : InConn M) (written : list M).
Context (Hrun : in_run types Module_of module evs NewIncoming = Steps i)
  (Hk : rc_conns (ig_receiver i) !! k = Some c) (Hw : Forall trans written)
  (Hp : ic_arrived c `prefix_of` concat (map frames_of written)).

Lemma in_run_order : ∃ ms, ms `prefix_of` written ∧ from_conn k (ig_received i ++ ig_recvCh i) = ours ms.
Proof.
  destruct (in_run_inv types Module_of module k evs i Hrun) as (sorted & Hs & Hread & _).
  rewrite Hk in Hread. destruct Hread as (cs & rest & Ha & Hr & _). rewrite Ha in Hp.
  destruct (reads_prefix _ _ _ _ Hw Hr Hp) as (later & -> & _ & _).
  exists sorted. split; [|done]. rewrite <-app_assoc. by eexists.
Qed.

Lemma in_run_complete :
  in_quiet types Module_of module i → ic_open c = true →
  ic_arrived c = concat (map frames_of written) → from_conn k (ig_received i) = ours written.
Proof.
  intros Hq Hopen Harr.
  destruct (in_run_inv types Module_of module k evs i Hrun) as (sorted & Hs & Hread & _).
  destruct (in_quiet_empty _ _ _ _ Hq) as (Hrt & Hm & Hch). rewrite Hch, app_nil_r in Hs.
  unfold unsorted in Hread. rewrite Hrt, Hm, Hk in Hread. cbn [held app from_option] in Hread.
  destruct Hread as (cs & rest & Ha & Hr & Hsv & Hns). pose proof Hp as Hp'. rewrite Ha in Hp'.
  destruct (reads_prefix _ _ _ _ Hw Hr Hp') as (later & Hwl & Hcs & Hl).
  pose proof Hw as Hw'. rewrite Hwl in Hw'. apply Forall_app in Hw' as [_ Hlater].
  destruct (ic_serving c) eqn:Hserve.
  2: { exfalso. destruct (Hns eq_refl Hopen) as (fs & e & fs' & Hpre & Hwait & Hrd).
       destruct (frames_read fs later) as (m & fs2 & Hok); [done|by etrans|done|congruence]. }
  specialize (Hsv eq_refl). subst rest.
  destruct (in_quiet_conn _ _ _ _ _ _ Hq Hk Hserve) as [Hhand Hwait]. rewrite Hhand in *.
  cbn [held] in *. rewrite app_nil_r in *. rewrite Hs. f_equal. rewrite Hwl.
  destruct later as [|m later]; [by rewrite app_nil_r|]. exfalso.
  assert (ic_frames c = concat (map frames_of (m :: later))) as Hfr.
  { rewrite Harr, Hwl, map_app, concat_app, <-Hcs in Ha. by apply app_inv_head in Ha. }
  apply Forall_cons in Hlater as [Hm' _].
  destruct (transmissible_frames m Hm') as (t & d & Hft & _ & _). simpl in Hfr. rewrite Hft in Hfr.
  by rewrite Hfr in Hwait.
Qed.
End run.

Lemma put_on_attempted addr (s : SenderQ M) : attempted addr s `prefix_of` put_on addr s.
Proof.
  unfold put_on, attempted. destruct (sq_conns s !! addr) as [c|]; [|done]. simpl.
  apply prefix_app, prefix_app_r. destruct (cn_lost c); [done|]. by eexists.
Qed.

(** No message was lost on the connection to an address. *)
Definition lossless addr (s : SenderQ M) : Prop :=
  from_option cn_lost [] (sq_conns s !! addr) = [].

(** *** Two nodes

    [addr] is one of the two address columns of the committee, and [send] addresses
    messages with it. *)
Section two_nodes.
Context (committee : Committee) (addr : Authority → string) (up : nat → string → bool)
  (from : NodeID) (send : NodeID → M → NetMessage M).
Context (addr_inj : ∀ i j a b, Authorities committee !! i = Some a →
  Authorities committee !! j = Some b → addr a = addr b → i = j).
Context (Hsend : ∀ to msg, send to msg = mkNetMessage msg
  (if decide (to = NONE) then
     map (λ p, addr p.2) (List.filter (λ p, negb (bool_decide (p.1 = from)))
       (map_to_list (Authorities committee)))
   else [addr (default zero_Authority (Authorities committee !! to))])).
Context (id : NodeID) (a : Authority) (evs : list (out_event M)) (o : Outgoing M)
  (evs' : list (in_event M)) (i : Incoming M) (k : nat) (c : InConn M).
Context (Ha : Authorities committee !! id = Some a) (Hid : id ≠ from)
  (Hsends : Forall (λ s, s.1 = NONE ∨ s.1 ∈ members committee) (out_sends evs))
  (Hout : out_run up send evs NewOutgoing = Some o)
  (Hin : in_run types Module_of module evs' NewIncoming = Steps i)
  (Hk : rc_conns (ig_receiver i) !! k = Some c)
  (Hlink : ic_arrived c `prefix_of` wire (addr a) (og_sender o))
  (Htrans : ∀ m, trans m).

Lemma sending_order :
  dropped (addr a) (og_sender o) ++ put_on (addr a) (og_sender o) ++ pending (addr a) o =
  meant_for id (out_sends evs).
Proof.
  rewrite (out_run_balance _ _ _ _ _ Hout).
  by apply (addressed_sends committee addr addr_inj send from).
Qed.

Lemma ours_prefix ms ms' : ms `prefix_of` ms' → ours ms `prefix_of` ours ms'.
Proof. intros [x ->]. rewrite List.filter_app. by eexists. Qed.

Lemma link_order :
  ours (dropped (addr a) (og_sender o)) ++ from_conn k (ig_received i)
    `prefix_of` ours (meant_for id (out_sends evs)).
Proof.
  rewrite <-sending_order, !List.filter_app. apply prefix_app. rewrite wire_attempted in Hlink.
  destruct (in_run_order k evs' i c _ Hin Hk (proj2 (Forall_forall _ _) (λ m _, Htrans m)) Hlink)
    as (ms & Hms & Hr).
  rewrite from_conn_app in Hr. apply prefix_app_r. etrans; [|apply ours_prefix, put_on_attempted].
  etrans; [|apply ours_prefix, Hms]. rewrite <-Hr. by eexists.
Qed.

Lemma link_rest :
  out_quiet up send o → in_quiet types Module_of module i → ic_open c = true →
  lossless (addr a) (og_sender o) → ic_arrived c = wire (addr a) (og_sender o) →
  ours (dropped (addr a) (og_sender o)) ++ from_conn k (ig_received i) =
    ours (meant_for id (out_sends evs)).
Proof.
  intros Hoq Hiq Hopen Hll Harr. rewrite <-sending_order.
  destruct (out_quiet_written up send (addr a) o Hoq) as [-> ->].
  rewrite wire_attempted in Harr, Hlink. rewrite app_nil_r, List.filter_app. f_equal.
  assert (attempted (addr a) (og_sender o) = from_option (λ c, cn_written c ++ cn_lost c) []
    (sq_conns (og_sender o) !! addr a)) as Hatt.
  { unfold attempted, lossless in *. destruct (sq_conns _ !! _) as [c'|]; [|done]. simpl in *.
    by rewrite Hll. }
  rewrite Hatt in *.
  by apply (in_run_complete k evs' i c _ Hin Hk (proj2 (Forall_forall _ _) (λ m _, Htrans m)) Hlink).
Qed.
End two_nodes.
End link.

(** ** The core's own channel *)

Section core_loop.
Context {M : Type} (types : gmap Z (list byte → result M)) {GI : Gob Z}
  (Module_of : M → string) (module : string).

(** The goroutine of [Core.Run]: in its [select], or in a handler that still has
    messages to put on the core's own channel. *)
Record CoreLoop : Type := mkCoreLoop {
  cl_incoming : Incoming M;
  cl_handler : option (list M)
}.

(** The core takes a message, whose handler will send itself [own]; it sends the next
    of these; the handler returns.  Meanwhile other goroutines go on: they deliver
    messages, and the broadcast instances send to the channel of the core. *)
Inductive core_event : Type :=
  | KTake (own : list M)
  | KSend
  | KReturn
  | KOther (ev : in_event M).

Definition core_exec (ev : core_event) (c : CoreLoop) : stepped CoreLoop :=
  match ev, cl_handler c with
  | KTake own, None =>
      steps (i ← Transmitor_Recv (cl_incoming c); Some (mkCoreLoop i (Some own)))
  | KSend, Some (msg :: own) =>
      steps (i ← RecvChannel_send msg (cl_incoming c); Some (mkCoreLoop i (Some own)))
  | KReturn, Some [] => Steps (mkCoreLoop (cl_incoming c) None)
  | KOther IRecv, _ => Waits
  | KOther ev, h =>
      match in_exec types Module_of module ev (cl_incoming c) with
      | Steps i => Steps (mkCoreLoop i h)
      | Waits => Waits
      | Panics e => Panics e
      end
  | _, _ => Waits
  end.

Fixpoint core_run (evs : list core_event) (c : CoreLoop) : stepped CoreLoop :=
  match evs with
  | [] => Steps c
  | ev :: evs =>
      match core_exec ev c with Steps c' => core_run evs c' | Waits => Waits | Panics e => Panics e end
  end.

Definition stuck (own : list M) (c : CoreLoop) : Prop :=
  cl_handler c = Some own ∧ own ≠ [] ∧ Z.of_nat (length (ig_recvCh (cl_incoming c))) = CHANNEL.

Lemma full_channel_kept ev i i' :
  ev ≠ IRecv → in_exec types Module_of module ev i = Steps i' →
  CHANNEL <= Z.of_nat (length (ig_recvCh i)) →
  ig_recvCh i' = ig_recvCh i ∧ ig_received i' = ig_received i.
Proof.
  intros Hev He Hfull. destruct ev as [ok|j fs|j|j| |msg|]; try done; cbn [in_exec] in He.
  - by simplify_eq.
  - unfold with_in_conn in He. destruct (_ !! j); by simplify_eq.
  - unfold with_in_conn in He. destruct (_ !! j); by simplify_eq.
  - destruct (serveConn_turn _ _ _); by simplify_eq.
  - apply steps_Steps in He. unfold Transmitor_sort in He. destruct (ig_route i) as [[j m]|].
    + case_decide; [|by simplify_eq]. rewrite (proj2 (chan_send_None _ _ _) Hfull) in He. done.
    + by apply bind_Some in He as ([x r] & _ & [= <-]).
  - unfold RecvChannel_send in He. by rewrite (proj2 (chan_send_None _ _ _) Hfull) in He.
Qed.

Lemma stuck_step own ev c c' :
  stuck own c → core_exec ev c = Steps c' →
  stuck own c' ∧ ig_recvCh (cl_incoming c') = ig_recvCh (cl_incoming c) ∧
  ig_received (cl_incoming c') = ig_received (cl_incoming c).
Proof.
  intros (Hh & Hne & Hfull). unfold core_exec. rewrite Hh.
  destruct ev as [own'| | |ev]; [done| | |].
  - destruct own as [|msg own]; [done|]. unfold RecvChannel_send.
    rewrite (proj2 (chan_send_None _ _ _)); [done|lia].
  - by destruct own.
  - assert (ev ≠ IRecv → match in_exec types Module_of module ev (cl_incoming c) with
      | Steps i => Steps (mkCoreLoop i (Some own)) | Waits => Waits | Panics e => Panics e end =
      Steps c' → stuck own c' ∧ ig_recvCh (cl_incoming c') = ig_recvCh (cl_incoming c) ∧
        ig_received (cl_incoming c') = ig_received (cl_incoming c)) as Hgo.
    { intros Hev. destruct (in_exec _ _ _ ev _) as [|i|] eqn:He; [done| |done]. intros [= <-].
      pose proof (full_channel_kept _ _ _ Hev He ltac:(lia)) as [Hk Hv]. unfold stuck. simpl.
      by rewrite Hk, Hv. }
    destruct ev; try (by apply Hgo); done.
Qed.

(** C25 The core can stop forever: its goroutine is the only one that takes messages off
    its channel, and its handlers put messages there.  Once the channel is full while a
    handler has a message to put there, no step of any goroutine changes the channel or
    the handler: no message is ever handled again. *)
Theorem self_send_deadlock own c evs c' :
  stuck own c → core_run evs c = Steps c' →
  stuck own c' ∧ ig_recvCh (cl_incoming c') = ig_recvCh (cl_incoming c) ∧
  ig_received (cl_incoming c') = ig_received (cl_incoming c).
Proof.
  revert c. induction evs as [|ev evs IH]; intros c Hc; simpl; [by intros [= <-]|].
  destruct (core_exec ev c) as [|c1|] eqn:He; [done| |done]. intros Hr.
  destruct (stuck_step _ _ _ _ Hc He) as (Hc1 & <- & <-). by apply IH.
Qed.
End core_loop.
Arguments mkCoreLoop {_} _ _.
Arguments cl_incoming {_} _.
Arguments cl_handler {_} _.
Arguments KTake {_} _.
Arguments KSend {_}.
Arguments KReturn {_}.
Arguments KOther {_} _.

(** ** Theorems *)

Section consensus_link.
Context {GI : Gob Z} {G1 : Gob SPBProposal} {G2 : Gob SPBVote} {G3 : Gob Finish}
  {G4 : Gob Done} {G5 : Gob ElectShare} {G6 : Gob Prevote} {G7 : Gob FinVote} {G8 : Gob Halt}.
Context {LI : GobLaw Z} {L1 : GobLaw SPBProposal} {L2 : GobLaw SPBVote} {L3 : GobLaw Finish}
  {L4 : GobLaw Done} {L5 : GobLaw ElectShare} {L6 : GobLaw Prevote} {L7 : GobLaw FinVote}
  {L8 : GobLaw Halt}.
Context (committee : Committee) (up : nat → string → bool) (from : NodeID).
Context (Hinj : ∀ i j a b, Authorities committee !! i = Some a →
  Authorities committee !! j = Some b → au_Addr a = au_Addr b → i = j).

Abbreviation sending := (out_run up (Transmitor_Send (M := Message) committee from)).
Abbreviation receiving := (in_run DefaultMessageTypeMap Module_ "consensus").
Abbreviation address id := (Committee_Address committee id).

Lemma all_consensus (ms : list Message) :
  List.filter (λ m, bool_decide (Module_ m = "consensus")) ms = ms.
Proof. apply (Transmitor_route_all Module_). by intros []. Qed.

Section link.
Context (id : NodeID) (a : Authority) (evs : list (out_event Message)) (o : Outgoing Message)
  (evs' : list (in_event Message)) (i : Incoming Message) (k : nat) (c : InConn Message).
Context (Ha : Authorities committee !! id = Some a) (Hid : id ≠ from)
  (Hsends : Forall (λ s, s.1 = NONE ∨ s.1 ∈ members committee) (out_sends evs))
  (Hout : sending evs NewOutgoing = Some o) (Hin : receiving evs' NewIncoming = Steps i)
  (Hk : rc_conns (ig_receiver i) !! k = Some c)
  (Hlink : ic_arrived c `prefix_of` wire MsgType encode_Message (address id) (og_sender o)).

(** C22 Order on a link: whatever the goroutines of two nodes do and however far the data
    has come, the messages that the one node has broadcast or sent to the other are, in this
    order, those that it dropped because the other could not be dialled, those that the
    core of the other has received over the connection, without gaps or repetition, and
    those that are still to come or were lost when the connection broke.  If every dial to
    the other node succeeds, nothing was dropped. *)
Theorem link_fifo :
  dropped (address id) (og_sender o) ++ from_conn k (ig_received i)
    `prefix_of` meant_for id (out_sends evs) ∧
  ((∀ n, up n (address id) = true) → dropped (address id) (og_sender o) = []).
Proof.
  split; [|intros Hup; by rewrite (out_run_dropped _ _ _ _ _ _ Hup Hout)].
  rewrite <-(all_consensus (meant_for _ _)), <-(all_consensus (dropped _ _)).
  unfold Committee_Address in *. rewrite Ha in *.
  eapply (link_order MsgType encode_Message DefaultMessageTypeMap Module_ "consensus" committee au_Addr);
    try done. apply Message_transmissible.
Qed.

(** C23 Delivery on a link: without new messages the goroutines of both nodes can only
    take so many steps; and when all of them wait, the data of an open connection that
    has not failed has arrived and the core has taken what was on its channel, then the
    core has received, in order, all messages that were broadcast or sent to it, but for
    the first ones that were dropped because it could not be dialled. *)
Theorem link_delivers :
  (∀ more o', Forall (λ ev, is_OSend ev = false) more →
     out_run up (Transmitor_Send committee from) more o = Some o' → (length more <= out_work o)%nat) ∧
  (∀ more i', Forall (λ ev, is_internal ev = true) more →
     receiving more i = Steps i' → (length more <= in_work i)%nat) ∧
  (out_quiet up (Transmitor_Send committee from) o →
   in_quiet DefaultMessageTypeMap Module_ "consensus" i → ic_open c = true →
   lossless (address id) (og_sender o) →
   ic_arrived c = wire MsgType encode_Message (address id) (og_sender o) →
   dropped (address id) (og_sender o) ++ from_conn k (ig_received i) = meant_for id (out_sends evs)).
Proof.
  split_and!.
  - intros more o' Hmore Hr. pose proof (out_run_work _ _ _ _ _ Hmore Hr). lia.
  - intros more i' Hmore Hr. pose proof (in_run_work _ _ _ _ _ _ Hmore Hr). lia.
  - rewrite <-(all_consensus (meant_for _ _)), <-(all_consensus (dropped _ _)). unfold Committee_Address in *. rewrite Ha in *.
    eapply (link_rest MsgType encode_Message DefaultMessageTypeMap Module_ "consensus" committee au_Addr);
      try done. apply Message_transmissible.
Qed.
End link.

(** C24 Back-pressure: while a node broadcasts, the messages that were put on the
    connection to one member, or dropped because it could not be dialled, are never more
    than 1002 ahead of those for any other member that were dropped for this reason, or
    whose writing has ended, with success or not.  So a single member that was dialled and
    stops reading stops the broadcasts to all others. *)
Theorem slow_peer_stops_all evs o id a slow b :
  Authorities committee !! id = Some a → id ≠ from →
  Authorities committee !! slow = Some b → slow ≠ from →
  Forall (λ s, s.1 = NONE) (out_sends evs) → sending evs NewOutgoing = Some o →
  Z.of_nat (length (dropped (address id) (og_sender o) ++ put_on (address id) (og_sender o))) <=
  Z.of_nat (length (dropped (address slow) (og_sender o) ++ from_option (λ c, cn_written c ++ cn_lost c) []
    (sq_conns (og_sender o) !! address slow))) + 1002.
Proof.
  intros Ha Hid Hb Hslow Hs Hr.
  assert (∀ j x, Authorities committee !! j = Some x → j ≠ from →
    Forall (λ s, once (address j) (Transmitor_Send committee from s.1 s.2)) (out_sends evs)) as Honce.
  { intros j x Hx Hj. eapply Forall_impl; [exact Hs|]. intros [to msg] Hto. simpl in *. subst to.
    unfold once, Transmitor_Send, Committee_Address, deliveries. rewrite Hx. simpl.
    rewrite app_nil_r. by apply (broadcast_once committee au_Addr Hinj from j). }
  pose proof (put_on_balanced up (Transmitor_Send committee from) (address id) (address slow) evs o
    (proj2 (Forall_and _ _) (conj (Honce id a Ha Hid) (Honce slow b Hb Hslow))) Hr)
    as Hbal.
  pose proof (oi_room _ _ (out_run_inv up (Transmitor_Send committee from) (λ _, True) evs o
    (Forall_true _ _ (λ _, I)) Hr) (address slow)) as Hroom.
  rewrite !length_app in *. unfold put_on in Hbal at 2. destruct (sq_conns (og_sender o) !! address slow) as [c|].
  - specialize (Hroom c eq_refl). rewrite !length_app in Hbal. simpl. rewrite length_app.
    assert (length (held (cn_hand c)) <= 1)%nat by (destruct (cn_hand c); simpl; lia).
    unfold CONN_CHANNEL in Hroom. lia.
  - simpl in *. lia.
Qed.
End consensus_link.
