(* ===== verification/System.v ===== *)
(** * A committee of nodes

    All members of a committee run the program (Node.v), each with its own store, mempool
    and keys.  Consensus messages travel over one link per pair of members, in the
    order in which they were sent, as Network.v shows for src/network; they may be
    delayed for any time, and a member may stop at any time.  What the mempools send
    each other is left open: a mempool may receive anything at any time.

    The theorems hold for every run in which no other data is stored under the digest
    of a consensus block of the run (the set [U] of blocks):
    - what is committed anywhere was proposed by its proposer, and a proposer has one
      block per epoch, so that members never commit two different blocks of one
      proposer for the same epoch;
    - the broadcast instances of an epoch, round and proposer hold the same block hash
      on all members;
    - what the halts of a round decide is the block that the elected leader has
      proposed in the epoch, or the one of node 0, which halts name by mistake.
    That the members agree on one block per epoch is not among them: it does not hold,
    as SystemWitnesses.v shows. *)

From stdpp Require Import base gmap list strings.
From S2P Require Import Prelude Committee Crypto Message Aggreator Elector Commitor Pool.
From S2P Require Import Store Synchronizer Port Mempool Spb Core Typing Origin.
From S2P Require Import Node Network.

(** ** The mempool's questions *)

Section asks.
Context {CL : CryptoLib} {D : DB} {GB : Gob Block}.
Context (Name : NodeID) (committee : Committee) (parameters : Parameters)
  (sigService : SigService) (range : Mempool → list Digest).
Implicit Types (m : Mempool).

Definition asks m (h : Digest) : Prop :=
  ∃ req, SyncBlock req ∈ mp_interChan m ∧ sb_ConsensusBlockHash req = h.

(** Only the core's questions reach the synchronizer. *)
Definition silent m m' : Prop := mp_interChan m' = mp_interChan m.

#[local] Instance silent_preorder : PreOrder silent.
Proof. split; [done|]. intros m1 m2 m3. unfold silent. congruence. Qed.

Lemma StoreBlock_silent b : respects silent (Mempool_StoreBlock b).
Proof.
  intros m. unfold wlp, Mempool_StoreBlock. destruct (gob_Encode b); [|reflexivity].
  by destruct (Store_Write _ _ _).
Qed.

Ltac silent_tac :=
  first
    [ apply StoreBlock_silent
    | apply respects_modify; intros ?; unfold silent; reflexivity
    | apply respects_act; intros ?; repeat case_match; unfold silent; reflexivity ].

Lemma HandleMake_silent order mx :
  respects silent (HandleMakeBlockMsg Name parameters sigService order mx).
Proof. unfold HandleMakeBlockMsg, Mempool_payloadProcess. respects_steps silent_tac. Qed.

Lemma HandleRequest_silent author ds : respects silent (HandleRequestBlock_loop author ds).
Proof. induction ds as [|d ds IH]; simpl; respects_steps ltac:(first [apply IH|silent_tac]). Qed.

Lemma own_event_silent ev m m' :
  own_event ev = true →
  mempool_handle Name committee parameters sigService ev m = Returns tt m' → silent m m'.
Proof.
  intros Hev. apply respects_run. destruct ev as [|msg|batch|q]; [done|..]; simpl.
  - destruct msg; simpl;
      unfold HandleOwnBlock, HandleOthorBlock, HandleRequestBlock, Mempool_payloadProcess;
      respects_steps ltac:(first [apply HandleRequest_silent|silent_tac]).
  - unfold generateBlock. respects_steps silent_tac.
  - silent_tac.
Qed.

#[export] Instance Mempool_port_asks :
  MempoolPortAsks (P := node_port Name parameters sigService range).
Proof.
  refine (Build_MempoolPortAsks _ (node_port Name parameters sigService range) asks _ _ _); simpl.
  - intros mx p st ds p' st' h. set (m := mp_set_Store st p).
    pose proof (HandleMake_silent (range m) mx m) as Hm. unfold wlp in Hm.
    destruct (HandleMakeBlockMsg _ _ _ _ _ _) as [[ds'|e] m'|]; intros [= <- <- <-];
      unfold asks; [by rewrite Hm|by rewrite Hm|done].
  - intros msg p st status p' st' h. unfold HandleVerifyMsg, Synchronizer_Verify. simpl.
    destruct (List.filter _ _); intros [= <- <- <-] (req & Hin & Hh); unfold asks; simpl in *.
    + left. rewrite app_nil_r in Hin. eauto.
    + apply elem_of_app in Hin as [Hin|[= ->]%list_elem_of_singleton]; [left; eauto|by right].
  - intros msg p st status p' st'. unfold HandleVerifyMsg. simpl.
    destruct (Synchronizer_Verify _ _ _ _ _). by intros [= <- <- <-].
Defined.
End asks.

(** ** Digests of the two kinds of blocks

    Payloads and consensus blocks are kept in the same store, under digests of texts
    that do not say which of the two they are.  The payload that member 1 makes of a
    batch 0 with suitable transactions has the digest of any given consensus block of
    member 2, whatever the hash function is. *)

Section clash.
Context {CL : CryptoLib}.

Lemma foldl_Hasher_Add h ds : foldl Hasher_Add h ds = mkHasher (hasher_data h ++ concat ds).
Proof.
  revert h. induction ds as [|d ds IH]; intros h; simpl; [destruct h; by rewrite app_nil_r|].
  rewrite IH. simpl. by rewrite <-app_assoc.
Qed.

Lemma payload_digest_clash ds e sig :
  Block_Hash (mkBlock 1 (mkBatch 0 (ds ++ [AppendInt2 e])) sig) =
  ConsensusBlock_Hash (mkConsensusBlock 2 ds e).
Proof.
  unfold Block_Hash, ConsensusBlock_Hash, sum. cbn [bl_Batch bt_Txs cb_PayLoads].
  rewrite !foldl_Hasher_Add, concat_app. unfold Hasher_Sum256, Hasher_Add. simpl.
  by rewrite !app_nil_r.
Qed.
End clash.

(** ** The system *)

Section system.
Context {CL : CryptoLib} {D : DB} {GB : Gob Block} {GC : Gob ConsensusBlock}.
Context (committee : Committee) (parameters : Parameters)
  (service : NodeID → SigService) (range : NodeID → Mempool → list Digest).

Definition Member (i : NodeID) : Type :=
  Node i parameters (service i) (range i).

(** The members, and how many messages of each link have arrived *)
Record System : Type := mkSystem {
  sm_node : ∀ i, Member i;
  sm_got : NodeID → NodeID → nat
}.

Implicit Types (Σ : System) (i j : NodeID).

Definition core_of Σ i : Core (P := node_port i parameters (service i) (range i)) := nd_core (sm_node Σ i).

(** What a member has sent to [j], in order: a message to nobody in particular goes to
    all others. *)
Definition outgoing j (es : list effect) : list Message :=
  omap (λ e, match e with
             | Send _ to m => if decide (to = j ∨ to = NONE) then Some m else None
             | Enqueue _ => None
             end) es.

(** These are the messages that the transport delivers over the link, in the same order
    ([link_fifo]). *)
Definition sends_of (es : list effect) : list (NodeID * Message) :=
  omap (λ e, match e with Send _ to m => Some (to, m) | Enqueue _ => None end) es.

Lemma outgoing_meant_for j es : outgoing j es = meant_for j (sends_of es).
Proof.
  unfold outgoing, meant_for, sends_of. induction es as [|[from to m|m] es IH]; simpl; [done| |exact IH].
  case_bool_decide; case_decide; simpl; [f_equal; exact IH|tauto|tauto|exact IH].
Qed.

Definition receive {i} (m : Message) (n : Member i) : Member i :=
  with_core (set_c_out (c_sent (nd_core n)) (c_recvCh (nd_core n) ++ [m]) (nd_core n)) n.

Inductive system_step Σ Σ' : Prop :=
  (** the next message of the link from [i] arrives at [j] *)
  | system_deliver i j m :
      i ∈ members committee → j ∈ members committee → i ≠ j →
      outgoing j (c_sent (core_of Σ i)) !! sm_got Σ i j = Some m →
      sm_node Σ' j = receive m (sm_node Σ j) →
      (∀ k, k ≠ j → sm_node Σ' k = sm_node Σ k) →
      (∀ k l, sm_got Σ' k l = if decide (k = i ∧ l = j) then S (sm_got Σ k l) else sm_got Σ k l) →
      system_step Σ Σ'
  (** [i] takes a step by itself *)
  | system_own i :
      i ∈ members committee →
      own_step i committee parameters (service i) (range i) (sm_node Σ i) (sm_node Σ' i) →
      (∀ k, k ≠ i → sm_node Σ' k = sm_node Σ k) →
      (∀ k l, sm_got Σ' k l = sm_got Σ k l) →
      system_step Σ Σ'.

(** Every member has made its first proposal. *)
Definition system_start (store : NodeID → Store) (txPool : NodeID → txQueue) Σ : Prop :=
  (∀ i, i ∈ members committee →
     ∃ c0, Core_start (P := node_port i parameters (service i) (range i)) i parameters (service i)
             (NewCore (P := node_port i parameters (service i) (range i)) committee (service i) (store i)
                (NewMempool (store i) (txPool i))) =
             Returns tt c0 ∧
       sm_node Σ i = mkNode c0 NewSynchronizer 0 0 []) ∧
  ∀ i j, sm_got Σ i j = 0%nat.

Definition system_reachable store txPool Σ : Prop :=
  ∃ Σ0, system_start store txPool Σ0 ∧ rtc system_step Σ0 Σ.

(** The theorems about a single node hold for every member. *)
Lemma system_step_member Σ Σ' i :
  system_step Σ Σ' →
  rtc (full_step i committee parameters (service i) (range i)) (sm_node Σ i) (sm_node Σ' i).
Proof.
  intros [k j m _ _ _ _ Hj Hother _|k _ Hk Hother _].
  - destruct (decide (i = j)) as [->|]; [|by rewrite Hother].
    rewrite Hj. apply rtc_once, full_deliver.
  - destruct (decide (i = k)) as [->|]; [|by rewrite Hother]. by apply rtc_once, full_own.
Qed.

Lemma system_member_reachable store txPool Σ i :
  system_reachable store txPool Σ → i ∈ members committee →
  full_reachable i committee parameters (service i) (range i) (store i) (txPool i) (sm_node Σ i).
Proof.
  intros (Σ0 & [H0 _] & Hr) Hi. destruct (H0 i Hi) as (c0 & Hc & Hn). exists c0. split; [done|].
  rewrite <-Hn. clear -Hr. induction Hr as [|Σ1 Σ2 Σ3 H1 _ IH]; [done|].
  etrans; [by apply system_step_member|done].
Qed.

(** ** Blocks of a run *)

(** A consensus block that its proposer has proposed *)
Definition original Σ (b : ConsensusBlock) : Prop :=
  cb_Proposer b ∈ members committee ∧ proposed (cb_Proposer b) (core_of Σ (cb_Proposer b)) b.

(** [U] has all blocks that are proposed, and nothing but the block itself is stored
    under the digest of a block of [U]. *)
Definition within (U : ConsensusBlock → Prop) (store : NodeID → Store) Σ : Prop :=
  ∀ i, i ∈ members committee →
    undisturbed U (store i) (c_Store (core_of Σ i)) ∧
    ∀ b, proposed i (core_of Σ i) b → U b.

Definition system_run (U : ConsensusBlock → Prop) store txPool Σ : Prop :=
  ∃ Σ0, system_start store txPool Σ0 ∧ within U store Σ0 ∧
    rtc (λ Σ Σ', system_step Σ Σ' ∧ within U (λ i, c_Store (core_of Σ i)) Σ') Σ0 Σ.

Lemma system_run_reachable U store txPool Σ :
  system_run U store txPool Σ → system_reachable store txPool Σ.
Proof.
  intros (Σ0 & H0 & _ & Hr). exists Σ0. split; [done|]. clear H0.
  induction Hr as [|Σ1 Σ2 Σ3 [H1 _] _ IH]; [done|]. by eapply rtc_l.
Qed.

(** ** The invariant *)

Section invariant.
Context `{!DBLaws} {GL : GobLaw ConsensusBlock} {HE : DBErrors} {HB : BlsLaws}.
Context (pub : PubPoly) (U : ConsensusBlock → Prop).
Context (Hkeys : ∀ i, i ∈ members committee → group_key pub (service i))
  (Hdistinct : distinct_digests U) (Hnone : NONE ∉ members committee).

Abbreviation ok O i := (member_ok (P := node_port i parameters (service i) (range i)) i committee (service i) pub O).

(** What a member does by itself *)
Lemma own_step_ok O i store txPool (n n' : Member i) :
  i ∈ members committee → (∀ b, O b → U b) → (∀ b, O b → cb_Proposer b ≠ NONE) →
  full_reachable i committee parameters (service i) (range i) store txPool n →
  ok O i (nd_core n) → store_ok U (c_Store (nd_core n)) →
  own_step i committee parameters (service i) (range i) n n' →
  ∃ O', (∀ b, O b → O' b) ∧ (∀ b, cb_Proposer b ≠ i → O' b → O b) ∧ ok O' i (nd_core n').
Proof.
  intros Hi HO HOm Hr Hok Hst Hstep. specialize (Hkeys i Hi).
  assert (∀ c2, ok O i c2 → ∃ O', (∀ b, O b → O' b) ∧ (∀ b, cb_Proposer b ≠ i → O' b → O b) ∧
    ok O' i c2) as Hsame by (intros; exists O; auto).
  destruct Hstep as [n1 msg rest r c' c _ Hq Hrun|n1 h r c' _ Hh Hrun
    |n1 l1 k t l2 s ts es s' c Ht Hs Hstep|n1 ev m' c _ Hev Hrun|n1 now im s' _ Him Hrun
    |n1 y' _ Hy|n1 now keys _]; simpl; try (by apply Hsame).
  - pose proof (ok_recv _ _ _ _ _ _ Hok) as Hrecv. fold c in Hrecv, Hok, Hst. rewrite Hq in Hrecv.
    apply Forall_cons in Hrecv as [Hmsg Hrest].
    assert (ok O i (set_c_out (c_sent c) rest c)) as Hok1 by by destruct Hok; constructor.
    pose proof (Core_receive_ends (PA := Mempool_port_asks i parameters (service i) (range i))
      i committee parameters (service i) pub U O Hkeys Hdistinct HO msg Hmsg _ Hok1 Hst) as He.
    unfold wlp in He. by rewrite Hrun in He.
  - apply Hsame. simpl.
    pose proof (ok_loopback _ (sync_reachable_ok _ _ _ _ (full_reachable_sync _ _ _ _ _ _ _ _ Hr))) as Hlb.
    rewrite Forall_forall in Hlb.
    destruct (Hlb h (list_elem_of_lookup_2 _ _ _ Hh)) as (req & Hin & Hreq & _).
    destruct (ok_asked _ _ _ _ _ _ Hok h) as (b & Hb & HOb).
    { exists req. split; [|done]. by apply (full_reachable_asks _ _ _ _ _ _ _ _ Hr). }
    pose proof (handleLoopBack_keeps i committee (service i) pub U O HO h b Hb HOb _ Hok Hst) as Hk.
    unfold wlp in Hk. rewrite Hrun in Hk. apply Hk.
  - apply Hsame. simpl. eapply ok_thread; try done.
    apply (node_reachable_typed _ _ _ _ _ _ _ (full_reachable_core _ _ _ _ _ _ _ _ Hr)).
  - apply Hsame. simpl. pose proof (own_event_silent _ _ _ _ _ _ _ Hev Hrun) as Hsil.
    destruct Hok. constructor; try done. simpl. intros h (req & Hin & Hh). apply ok_asked.
    exists req. split; [|done]. unfold silent in Hsil. by rewrite Hsil in Hin.
Qed.

Definition system_ok Σ : Prop :=
  ∀ i, i ∈ members committee →
    ok (original Σ) i (core_of Σ i) ∧ store_ok U (c_Store (core_of Σ i)).

Lemma original_at Σ i b :
  cb_Proposer b = i → original Σ b ↔ i ∈ members committee ∧ proposed i (core_of Σ i) b.
Proof. by intros <-. Qed.

Lemma original_member Σ b : original Σ b → cb_Proposer b ≠ NONE.
Proof. intros [Hb _] Heq. by rewrite Heq in Hb. Qed.

Lemma original_within store Σ b : within U store Σ → original Σ b → U b.
Proof. intros Hw [Hb Hp]. by apply (Hw _ Hb). Qed.

Lemma system_start_ok store txPool Σ :
  system_start store txPool Σ → within U store Σ →
  (∀ i, i ∈ members committee → store_ok U (store i)) → system_ok Σ.
Proof.
  intros [Hs _] Hw Hst i Hi. destruct (Hw i Hi) as [Hu _].
  split; [|eapply undisturbed_ok; [exact Hu|by apply Hst]].
  destruct (Hs i Hi) as (c0 & H0 & Hn).
  assert (core_of Σ i = c0) as Hc by (unfold core_of; by rewrite Hn). rewrite Hc.
  assert (ok (proposed i c0) i c0) as Hok.
  { eapply Core_start_ok; [|exact H0]. by intros h (req & []%not_elem_of_nil & _). }
  eapply member_ok_mono; [| |exact Hok].
  - intros b Hb. apply (original_at Σ i); [apply Hb|]. by rewrite Hc.
  - intros b Hb Ho. apply (original_at Σ i b Hb) in Ho as [_ Ho]. by rewrite Hc in Ho.
Qed.

(** A delivered message was sent to the member it is delivered to. *)
Lemma outgoing_good O i j es n m :
  j ≠ NONE → Forall (good_effect committee pub O i) es → outgoing j es !! n = Some m →
  good_recv committee pub O j m.
Proof.
  intros Hj Hes Hm%list_elem_of_lookup_2. apply list_elem_of_omap in Hm as (e & He & Hm).
  rewrite Forall_forall in Hes. specialize (Hes e He). destruct e as [from to m'|]; [|done].
  case_decide as Hto; [|done]. simplify_eq. destruct Hes as [Hg Hv]. split; [done|].
  destruct m; try done. destruct Hv as [-> Hne]. by destruct Hto.
Qed.

Lemma deliver_ok Σ Σ' i j m :
  i ∈ members committee → j ∈ members committee →
  outgoing j (c_sent (core_of Σ i)) !! sm_got Σ i j = Some m →
  sm_node Σ' j = receive m (sm_node Σ j) → (∀ k, k ≠ j → sm_node Σ' k = sm_node Σ k) →
  system_ok Σ → ∀ k, k ∈ members committee → ok (original Σ') k (core_of Σ' k).
Proof.
  intros Hi Hj Hm Hnj Hother Hok k Hk.
  assert (∀ l, c_sent (core_of Σ' l) = c_sent (core_of Σ l)) as Hsent.
  { intros l. unfold core_of. destruct (decide (l = j)) as [->|]; [by rewrite Hnj|by rewrite Hother]. }
  assert (∀ b, original Σ' b ↔ original Σ b) as Ho.
  { intros b. unfold original, proposed. by rewrite Hsent. }
  assert (ok (original Σ) k (core_of Σ' k)) as Hok'.
  { unfold core_of. destruct (decide (k = j)) as [->|]; [|rewrite Hother by done; by apply Hok].
    rewrite Hnj. simpl. apply ok_enqueue; [|by apply Hok].
    eapply outgoing_good; [by intros -> | |exact Hm]. apply (ok_sent _ _ _ _ _ _ (proj1 (Hok i Hi))). }
  eapply member_ok_mono; [| |exact Hok']; intros b; by rewrite Ho.
Qed.

Lemma own_ok store txPool st Σ Σ' i :
  system_reachable store txPool Σ → within U st Σ →
  i ∈ members committee →
  own_step i committee parameters (service i) (range i) (sm_node Σ i) (sm_node Σ' i) →
  (∀ k, k ≠ i → sm_node Σ' k = sm_node Σ k) →
  system_ok Σ → ∀ k, k ∈ members committee → ok (original Σ') k (core_of Σ' k).
Proof.
  intros Hr Hw Hi Hstep Hother Hok.
  destruct (own_step_ok (original Σ) i _ _ _ _ Hi (λ b, original_within st Σ b Hw)
    (original_member Σ) (system_member_reachable _ _ _ _ Hr Hi) (proj1 (Hok i Hi)) (proj2 (Hok i Hi))
    Hstep) as (O' & Hsub & Hothers & HokO').
  assert (∀ k, k ≠ i → core_of Σ' k = core_of Σ k) as Hsame.
  { intros k Hk. unfold core_of. by rewrite Hother. }
  assert (∀ b, cb_Proposer b ≠ i → original Σ' b ↔ original Σ b) as Hne.
  { intros b Hb. unfold original. by rewrite Hsame. }
  assert (∀ b, cb_Proposer b = i → original Σ' b ↔ O' b) as Heq.
  { intros b Hb. rewrite (original_at Σ' i b Hb). rewrite (ok_own _ _ _ _ _ _ HokO' b Hb).
    split; [by intros [_ ?]|done]. }
  assert (∀ b, original Σ' b ↔ O' b) as HO'.
  { intros b. destruct (decide (cb_Proposer b = i)) as [Hb|Hb]; [by apply Heq|].
    rewrite (Hne b Hb). split; [apply Hsub|by apply Hothers]. }
  intros k Hk. destruct (decide (k = i)) as [->|Hki].
  - eapply member_ok_mono; [| |exact HokO']; intros b; by rewrite HO'.
  - rewrite Hsame by done. eapply member_ok_mono; [| |apply (Hok k Hk)].
    + intros b Hb. by apply HO', Hsub.
    + intros b Hb. apply Hne. congruence.
Qed.

Lemma system_run_ok store txPool Σ :
  (∀ i, i ∈ members committee → store_ok U (store i)) →
  system_run U store txPool Σ → system_ok Σ ∧ ∃ st, within U st Σ.
Proof.
  intros Hst (Σ0 & H0 & Hw0 & Hr).
  cut (system_reachable store txPool Σ ∧ system_ok Σ ∧ ∃ st, within U st Σ); [by intros (_ & ? & ?)|].
  apply (rtc_invariant _ (λ Σ, system_reachable store txPool Σ ∧ system_ok Σ ∧ ∃ st, within U st Σ)
    _ _ Hr).
  { split_and!; [by exists Σ0|by eapply system_start_ok|by exists store]. }
  intros Σ1 Σ2 (Hr1 & Hok1 & st & Hw1) [Hstep Hw2]. split_and!; [|intros i Hi; split|by eexists].
  - destruct Hr1 as (Σ0' & ? & ?). exists Σ0'. split; [done|by eapply rtc_r].
  - destruct Hstep as [i' j m Hi' Hj _ Hm Hnj Hother _|i' Hi' Hs Hother _].
    + eapply (deliver_ok Σ1 Σ2 i' j m); eassumption.
    + eapply (own_ok store txPool st Σ1 Σ2 i'); eassumption.
  - eapply undisturbed_ok; [apply (Hw2 i Hi)|by apply Hok1].
Qed.

(** ** Theorems *)

Context (store : NodeID → Store) (txPool : NodeID → txQueue).
Context (Hempty : ∀ i, i ∈ members committee → store_ok U (store i)).

Lemma original_unique Σ b b' :
  system_ok Σ → original Σ b → original Σ b' → cb_Proposer b = cb_Proposer b' →
  cb_Epoch b = cb_Epoch b' → b = b'.
Proof.
  intros Hok [Hm Hb] [_ Hb'] Hp He. rewrite <-Hp in Hb'.
  by apply (ok_unique _ _ _ _ _ _ (proj1 (Hok _ Hm))).
Qed.

(** C1 Validity: every block that a member commits, or holds back until the epochs before
    it are committed, was proposed by its proposer, a member that has proposed no other
    block for that epoch.  So two members never commit different blocks of the same
    proposer for the same epoch. *)
Theorem committed_blocks_proposed Σ i b :
  system_run U store txPool Σ → i ∈ members committee →
  holds_block (c_Commitor (core_of Σ i)) b →
  original Σ b ∧
  (∀ b', original Σ b' → cb_Proposer b' = cb_Proposer b → cb_Epoch b' = cb_Epoch b → b' = b) ∧
  ∀ j b', j ∈ members committee → holds_block (c_Commitor (core_of Σ j)) b' →
    cb_Proposer b' = cb_Proposer b → cb_Epoch b' = cb_Epoch b → b' = b.
Proof.
  intros Hr Hi Hb. destruct (system_run_ok _ _ _ Hempty Hr) as [Hok _].
  pose proof (ok_blocks _ _ _ _ _ _ (proj1 (Hok i Hi)) b Hb) as Ho.
  assert (∀ b', original Σ b' → cb_Proposer b' = cb_Proposer b → cb_Epoch b' = cb_Epoch b → b' = b)
    as Hone by (intros b' Hb'; by apply (original_unique Σ)).
  split_and!; [done|done|]. intros j b' Hj Hb'. apply Hone.
  by apply (ok_blocks _ _ _ _ _ _ (proj1 (Hok j Hj))).
Qed.

(** C2 Broadcasts are consistent: if two members have accepted a block in the broadcast of
    some proposer in some epoch and round, then it is the same one, and it is the block
    that the proposer has proposed in this epoch. *)
Theorem broadcast_consistent Σ i j e r p s s' h h' :
  system_run U store txPool Σ → i ∈ members committee → j ∈ members committee →
  c_SPbInstances (core_of Σ i) !! (e, r, p) = Some s → SPB_GetBlockHash s = Some h →
  c_SPbInstances (core_of Σ j) !! (e, r, p) = Some s' → SPB_GetBlockHash s' = Some h' →
  h = h' ∧ ∃ b, h = ConsensusBlock_Hash b ∧ original Σ b ∧ cb_Epoch b = e ∧ cb_Proposer b = p.
Proof.
  intros Hr Hi Hj Hs Hh Hs' Hh'. destruct (system_run_ok _ _ _ Hempty Hr) as [Hok _].
  destruct (ok_instances _ _ _ _ _ _ (proj1 (Hok i Hi)) _ _ Hs) as (H1 & _).
  destruct (ok_instances _ _ _ _ _ _ (proj1 (Hok j Hj)) _ _ Hs') as (H2 & _).
  destruct (H1 h Hh) as (b & -> & Ho & He & Hp). destruct (H2 h' Hh') as (b' & -> & Ho' & He' & Hp').
  simpl in *. assert (b = b') as -> by (eapply original_unique; try done; congruence).
  split; [done|]. by exists b'.
Qed.

Lemma halt_decided Σ i from to h :
  system_run U store txPool Σ → i ∈ members committee →
  Send from to (MHalt h) ∈ c_sent (core_of Σ i) → good committee pub (original Σ) (MHalt h).
Proof.
  intros Hr Hi Hin. destruct (system_run_ok _ _ _ Hempty Hr) as [Hok _].
  pose proof (ok_sent _ _ _ _ _ _ (proj1 (Hok i Hi))) as Hs. rewrite Forall_forall in Hs.
  by destruct (Hs _ Hin).
Qed.

(** C11 What is decided: every halt that a member has sent for an epoch and round carries
    the digest of the block that the elected leader of this round has proposed in this
    epoch, or the one of node 0, and names one of the two as leader. *)
Theorem halts_decide_leader_block Σ i from to h :
  system_run U store txPool Σ → i ∈ members committee →
  Send from to (MHalt h) ∈ c_sent (core_of Σ i) →
  leadership committee pub (ha_Epoch h) (ha_Round h) (ha_Leader h) ∧
  ∃ b, ha_BlockHash h = ConsensusBlock_Hash b ∧ original Σ b ∧ cb_Epoch b = ha_Epoch h ∧
    leadership committee pub (ha_Epoch h) (ha_Round h) (cb_Proposer b).
Proof.
  intros Hr Hi Hin.
  destruct (halt_decided _ _ _ _ _ Hr Hi Hin) as [Hl (b & Hh & (Ho & He & _) & Hb)].
  split; [done|]. by exists b.
Qed.

Lemma is_coin_unique e r l l' : is_coin committee pub e r l → is_coin committee pub e r l' → l = l'.
Proof. intros (s & Hs & ->) (s' & Hs' & ->). f_equal. by eapply bls_unique. Qed.

(** C12 Agreement in a round: two halts for the same epoch and round, of any members, carry
    the same digest, unless one of them carries the digest of the block of node 0. *)
Theorem halts_agree_in_round Σ i from to h i' from' to' h' :
  system_run U store txPool Σ → i ∈ members committee → i' ∈ members committee →
  Send from to (MHalt h) ∈ c_sent (core_of Σ i) →
  Send from' to' (MHalt h') ∈ c_sent (core_of Σ i') →
  ha_Epoch h' = ha_Epoch h → ha_Round h' = ha_Round h →
  ha_BlockHash h' = ha_BlockHash h ∨
  ∃ b, original Σ b ∧ cb_Proposer b = 0 ∧ cb_Epoch b = ha_Epoch h ∧
    (ha_BlockHash h = ConsensusBlock_Hash b ∨ ha_BlockHash h' = ConsensusBlock_Hash b).
Proof.
  intros Hr Hi Hi' Hin Hin' He Hro.
  destruct (halt_decided _ _ _ _ _ Hr Hi Hin) as [_ (b & Hh & (Ho & Heb & _) & Hb)].
  destruct (halt_decided _ _ _ _ _ Hr Hi' Hin') as [_ (b' & Hh' & (Ho' & Heb' & _) & Hb')].
  rewrite He, Hro in *. destruct Hb as [Hb|Hb]; [|right; exists b; auto].
  destruct Hb' as [Hb'|Hb']; [left|right; exists b'; auto].
  destruct (system_run_ok _ _ _ Hempty Hr) as [Hok _].
  rewrite Hh, Hh'. f_equal. eapply original_unique; try done; [|congruence].
  by eapply is_coin_unique.
Qed.
End invariant.
End system.

Arguments mkSystem {_ _ _ _ _ _} _ _.
Arguments sm_node {_ _ _ _ _ _} _ _.
Arguments sm_got {_ _ _ _ _ _} _ _ _.
Arguments core_of {_ _ _ _ _ _} _ _.
Arguments receive {_ _ _ _ _ _ _} _ _.
