(* ===== verification/SystemPlay.v ===== *)
(** * Computed runs of a committee

    Runs of the system of System.v can be computed: a plan is a list of links over which
    messages are delivered, and of payloads that are handed from mempool to mempool;
    after each delivery the receiver works until it has nothing left to do.  A computed
    run is one of the system, and if its checks succeed, one in which nothing else is
    stored under the digest of a consensus block ([play_system_run]). *)

From stdpp Require Import base gmap list strings.
From S2P Require Import Prelude Committee Crypto Message Aggreator Elector Commitor Pool.
From S2P Require Import Store Synchronizer Port Mempool Spb Core Typing Origin.
From S2P Require Import Node System.

Section play.
Context {CL : CryptoLib} {D : DB} {GB : Gob Block} {GC : Gob ConsensusBlock}.
Context (committee : Committee) (parameters : Parameters)
  (service : NodeID → SigService) (range : NodeID → Mempool → list Digest).
Abbreviation System := (System parameters service range).
Abbreviation Member := (Member parameters service range).
Implicit Types (Σ : System) (i j : NodeID).

Definition set_member Σ i (n : Member i) : System :=
  mkSystem
    (λ k, match decide (i = k) with
          | left e => eq_rect i Member n k e
          | right _ => sm_node Σ k
          end) (sm_got Σ).

(** The loop of the core takes a message. *)
Definition member_turn i (n : Member i) : option (Member i) :=
  match c_recvCh (nd_core n) with
  | [] => None
  | msg :: rest =>
      if decide (Faults parameters <= i) then
        match Core_receive i committee parameters (service i) msg
                (set_c_out (c_sent (nd_core n)) rest (nd_core n)) with
        | Returns _ c' => Some (with_core c' n)
        | Crash _ => None
        end
      else None
  end.

(** The oldest goroutine goes on. *)
Definition member_thread i (n : Member i) : option (Member i) :=
  match c_threads (nd_core n) with
  | [] => None
  | (k, t) :: l2 =>
      match c_SPbInstances (nd_core n) !! k with
      | None => None
      | Some s =>
          match spb_step i committee (service i) t s with
          | Crash _ => None
          | Returns (ts, es) s' =>
              Some (with_core (emit es (set_c_spb (<[k := s']> (c_SPbInstances (nd_core n)))
                ([] ++ map (pair k) ts ++ l2) (nd_core n))) n)
          end
      end
  end.

Definition member_move i (n : Member i) : option (Member i) :=
  match c_threads (nd_core n) with [] => member_turn i n | _ => member_thread i n end.

(** *** Checks

    [us] are the blocks that may be proposed, if they are checked. *)
Context (us : option (list ConsensusBlock)).

Definition own_blocks i (es : list effect) : list ConsensusBlock :=
  omap (λ e, match e with
             | Send _ _ (MSPBProposal p) =>
                 if decide (sp_Phase p = SPB_ONE_PHASE) then
                   b ← sp_B p; if decide (cb_Proposer b = i) then Some b else None
                 else None
             | _ => None
             end) es.

Definition entry_kept (st st' : Store) (b : ConsensusBlock) : bool :=
  match Store_Read st' (ConsensusBlock_Hash b) with
  | Err _ => true
  | Ok v => bool_decide (Store_Read st (ConsensusBlock_Hash b) = Ok v) ||
            bool_decide (gob_Decode v = Ok b)
  end.

Definition zero_kept (st st' : Store) : bool :=
  match Store_Read st' zero_Digest with
  | Err _ => true
  | Ok v => bool_decide (Store_Read st zero_Digest = Ok v)
  end.

Definition admissible i (st : Store) (n' : Member i) : bool :=
  match us with
  | None => true
  | Some us =>
      forallb (entry_kept st (c_Store (nd_core n'))) us &&
      zero_kept st (c_Store (nd_core n')) &&
      forallb (λ b, bool_decide (b ∈ us)) (own_blocks i (c_sent (nd_core n')))
  end.

(** A member works until nothing is left to do. *)
Fixpoint settle (fuel : nat) i Σ : option System :=
  match fuel with
  | O => Some Σ
  | S fuel =>
      match member_move i (sm_node Σ i) with
      | None => Some Σ
      | Some n' =>
          if admissible i (c_Store (core_of Σ i)) n' then settle fuel i (set_member Σ i n') else None
      end
  end.

Definition deliver i j Σ : option System :=
  if decide (i ∈ members committee ∧ j ∈ members committee ∧ i ≠ j) then
    m ← outgoing j (c_sent (core_of Σ i)) !! sm_got Σ i j;
    Some (mkSystem (sm_node (set_member Σ j (receive m (sm_node Σ j))))
      (λ k l, if decide (k = i ∧ l = j) then S (sm_got Σ k l) else sm_got Σ k l))
  else None.

(** The mempool of [j] receives what the mempool of [i] has sent to all. *)
Definition hand_over j (msg : mempoolMsg) Σ : option System :=
  let c := core_of Σ j in
  if decide (j ∈ members committee ∧ Faults parameters <= j) then
    match mempool_handle j committee parameters (service j) (Receive msg)
            (mp_set_Store (c_Store c) (core_mempool c)) with
    | Crash _ => None
    | Returns _ m' =>
        let n' : Member j := with_core (set_c_world (P := node_port j parameters (service j) (range j))
          (mp_Store m') m' c) (sm_node Σ j) in
        if admissible j (c_Store c) n' then Some (set_member Σ j n') else None
    end
  else None.

Definition share i j Σ : option System :=
  foldl (λ (o : option System) msg, o ≫= hand_over j msg) (Some Σ)
    (map snd (mp_sent (core_mempool (core_of Σ i)))).

(** What happens next: [n] messages arrive over the link from [i] to [j], or a mempool
    hands its payloads to another one. *)
Inductive plan_item : Type :=
  | Link (n : nat) (i j : NodeID)
  | Share (i j : NodeID).

Fixpoint over_link (n : nat) i j Σ : option System :=
  match n with
  | O => Some Σ
  | S n => Σ1 ← deliver i j Σ; Σ2 ← settle 100 j Σ1; over_link n i j Σ2
  end.

Fixpoint follow (p : list plan_item) Σ : option System :=
  match p with
  | [] => Some Σ
  | Link n i j :: p => over_link n i j Σ ≫= follow p
  | Share i j :: p => share i j Σ ≫= follow p
  end.

Definition first_node (store : NodeID → Store) (txPool : NodeID → txQueue) i : Member i :=
  let new := NewCore (P := node_port i parameters (service i) (range i)) committee (service i)
               (store i) (NewMempool (store i) (txPool i)) in
  mkNode (match Core_start i parameters (service i) new with Returns _ c => c | Crash _ => new end)
    NewSynchronizer 0 0 [].

Definition first_system store txPool : System := mkSystem (first_node store txPool) (λ _ _, 0%nat).

(** All members handle their own first proposal, then the plan is followed. *)
Definition play_system (store : NodeID → Store) (txPool : NodeID → txQueue) (ids : list NodeID)
    (p : list plan_item) : option System :=
  if forallb (λ i, admissible i (store i) (first_node store txPool i)) ids then
    foldl (λ (o : option System) i, o ≫= settle 100 i) (Some (first_system store txPool)) ids
      ≫= follow p
  else None.

(** ** Computed runs are runs *)

Lemma set_member_same Σ i (n : Member i) : sm_node (set_member Σ i n) i = n.
Proof.
  unfold set_member. simpl. destruct (decide (i = i)) as [e|]; [|done].
  by rewrite (proof_irrel e eq_refl).
Qed.

Lemma set_member_other Σ i (n : Member i) k : k ≠ i → sm_node (set_member Σ i n) k = sm_node Σ k.
Proof. intros Hk. unfold set_member. simpl. by destruct (decide (i = k)) as [->|]. Qed.

Lemma member_move_own i (n n' : Member i) :
  member_move i n = Some n' → own_step i committee parameters (service i) (range i) n n'.
Proof.
  assert (member_turn i n = Some n' → own_step i committee parameters (service i) (range i) n n') as Ht.
  { unfold member_turn. destruct (c_recvCh (nd_core n)) as [|msg rest] eqn:Hq; [done|].
    case_decide; [|done]. destruct (Core_receive _ _ _ _ _ _) as [r c'|] eqn:Hr; [|done].
    intros [= <-]. by eapply own_receive. }
  unfold member_move. destruct (c_threads (nd_core n)) as [|[k t] l2] eqn:Hth; [done|].
  unfold member_thread. rewrite Hth.
  destruct (c_SPbInstances (nd_core n) !! k) as [s|] eqn:Hs; [|done].
  destruct (spb_step _ _ _ _ _) as [[ts es] s'|] eqn:Hstep; [|done].
  intros [= <-]. by eapply (own_thread _ _ _ _ _ _ []).
Qed.

Context (ul : list ConsensusBlock) (Hus : us = Some ul).
Abbreviation U := (λ b, b ∈ ul).
Abbreviation run_step := (λ Σ Σ', system_step committee parameters service range Σ Σ' ∧
  within committee parameters service range U (λ i, c_Store (core_of Σ i)) Σ').

(** All blocks that were proposed are in the list. *)
Definition listed Σ : Prop :=
  ∀ i, i ∈ members committee → ∀ b, proposed i (core_of Σ i) b → b ∈ ul.

Lemma own_blocks_proposed i (c : Core (P := node_port i parameters (service i) (range i))) b :
  proposed i c b → b ∈ own_blocks i (c_sent c).
Proof.
  intros (Hb & to & p & Hin & Hph & HB). apply list_elem_of_omap. eexists. split; [exact Hin|].
  simpl. rewrite decide_True by done. rewrite HB. simpl. by rewrite decide_True.
Qed.

Lemma admissible_spec i st (n' : Member i) :
  admissible i st n' = true →
  undisturbed U st (c_Store (nd_core n')) ∧ ∀ b, proposed i (nd_core n') b → b ∈ ul.
Proof.
  unfold admissible. rewrite Hus. intros [[Hkept Hzero]%andb_true_iff Hown]%andb_true_iff.
  rewrite !forallb_forall in *. split; [split|].
  - intros b v Hb Hv. specialize (Hkept b (proj1 (list_elem_of_In _ _) Hb)).
    unfold entry_kept in Hkept. rewrite Hv in Hkept. apply orb_true_iff in Hkept as [H|H];
      apply bool_decide_eq_true in H; auto.
  - intros v Hv. unfold zero_kept in Hzero. rewrite Hv in Hzero. by apply bool_decide_eq_true in Hzero.
  - intros b Hb%own_blocks_proposed. apply list_elem_of_In in Hb. specialize (Hown b Hb).
    by apply bool_decide_eq_true in Hown.
Qed.

Lemma undisturbed_refl (st : Store) : undisturbed U st st.
Proof. split; auto. Qed.

(** A step of [i] that passes the checks *)
Lemma own_run_step Σ i (n' : Member i) :
  i ∈ members committee → listed Σ →
  own_step i committee parameters (service i) (range i) (sm_node Σ i) n' →
  admissible i (c_Store (core_of Σ i)) n' = true →
  run_step Σ (set_member Σ i n') ∧ listed (set_member Σ i n').
Proof.
  intros Hi Hl Hs [Hu Hp]%admissible_spec.
  assert (∀ k, k ≠ i → core_of (set_member Σ i n') k = core_of Σ k) as Hother.
  { intros k Hk. unfold core_of. by rewrite set_member_other. }
  assert (core_of (set_member Σ i n') i = nd_core n') as Hsame.
  { unfold core_of. by rewrite set_member_same. }
  assert (listed (set_member Σ i n')) as Hl'.
  { intros k Hk b. destruct (decide (k = i)) as [->|]; [rewrite Hsame; apply Hp|].
    rewrite Hother by done. by apply Hl. }
  split; [|done]. split.
  - eapply (system_own _ _ _ _ _ _ i); [done|by rewrite set_member_same| |done].
    intros k Hk. by apply set_member_other.
  - intros k Hk. split; [|by apply Hl']. destruct (decide (k = i)) as [->|]; [by rewrite Hsame|].
    rewrite Hother by done. apply undisturbed_refl.
Qed.

Lemma settle_run fuel i Σ Σ' :
  i ∈ members committee → settle fuel i Σ = Some Σ' → listed Σ → rtc run_step Σ Σ' ∧ listed Σ'.
Proof.
  intros Hi. revert Σ. induction fuel as [|fuel IH]; intros Σ; simpl; [by intros [= <-]|].
  destruct (member_move i (sm_node Σ i)) as [n'|] eqn:Hm; [|by intros [= <-]].
  destruct (admissible _ _ _) eqn:Ha; [|done]. intros Hs Hl.
  destruct (own_run_step Σ i n' Hi Hl (member_move_own _ _ _ Hm) Ha) as [H1 Hl1].
  destruct (IH _ Hs Hl1) as [H2 Hl2]. split; [by eapply rtc_l|done].
Qed.

Lemma deliver_run i j Σ Σ' : deliver i j Σ = Some Σ' → listed Σ → run_step Σ Σ' ∧ listed Σ'.
Proof.
  unfold deliver. case_decide as Hij; [|done]. destruct Hij as (Hi & Hj & Hne).
  intros (m & Hm & [= <-])%bind_Some Hl.
  set (Σ' := mkSystem _ _).
  assert (∀ k, c_sent (core_of Σ' k) = c_sent (core_of Σ k) ∧
    c_Store (core_of Σ' k) = c_Store (core_of Σ k)) as Hsame.
  { intros k. unfold core_of.
    change (sm_node Σ' k) with (sm_node (set_member Σ j (receive m (sm_node Σ j))) k).
    destruct (decide (k = j)) as [->|]; [by rewrite set_member_same|by rewrite set_member_other]. }
  assert (listed Σ') as Hl'.
  { intros k Hk b (? & to & p & Hin & ?). rewrite (proj1 (Hsame k)) in Hin. apply (Hl k Hk).
    split; [done|]. by exists to, p. }
  split; [|done]. split.
  - eapply (system_deliver _ _ _ _ _ _ i j m); try done.
    + apply set_member_same.
    + intros k Hk. by apply set_member_other.
  - intros k Hk. rewrite (proj2 (Hsame k)). split; [apply undisturbed_refl|by apply Hl'].
Qed.

Lemma over_link_run n i j Σ Σ' :
  over_link n i j Σ = Some Σ' → listed Σ → rtc run_step Σ Σ' ∧ listed Σ'.
Proof.
  revert Σ. induction n as [|n IH]; intros Σ; cbn [over_link]; [by intros [= <-]|].
  intros (Σ1 & H1 & (Σ2 & H2 & H3)%bind_Some)%bind_Some Hl.
  assert (j ∈ members committee) as Hj.
  { unfold deliver in H1. case_decide as Hd; [|done]. by destruct Hd as (_ & ? & _). }
  destruct (deliver_run _ _ _ _ H1 Hl) as [R1 Hl1]. destruct (settle_run _ _ _ _ Hj H2 Hl1) as [R2 Hl2].
  destruct (IH _ H3 Hl2) as [R3 Hl3]. split; [|done]. eapply rtc_l; [exact R1|by etrans].
Qed.

Lemma share_run i j Σ Σ' : share i j Σ = Some Σ' → listed Σ → rtc run_step Σ Σ' ∧ listed Σ'.
Proof.
  unfold share. generalize (map snd (mp_sent (core_mempool (core_of Σ i)))) as msgs. intros msgs.
  revert Σ. induction msgs as [|msg msgs IH]; intros Σ; cbn [foldl mbind option_bind]; [by intros [= <-]|].
  destruct (hand_over j msg Σ) as [Σ1|] eqn:Hh.
  2: { intros Hf. exfalso. clear -Hf. induction msgs as [|m msgs IH]; [done|]. by apply IH. }
  intros Hf Hl. unfold hand_over in Hh. case_decide as Hj; [|done]. destruct Hj as [Hj Hruns].
  destruct (mempool_handle _ _ _ _ _ _) as [[] m'|] eqn:Hm; [|done].
  destruct (admissible _ _ _) eqn:Ha; [|done]. simplify_eq.
  edestruct (own_run_step Σ j) as [R1 Hl1]; [done|done| |exact Ha|].
  { by apply (own_mempool _ _ _ _ _ _ (Receive msg)). }
  destruct (IH _ Hf Hl1) as [R2 Hl2]. split; [by eapply rtc_l|done].
Qed.

Lemma follow_run p Σ Σ' : follow p Σ = Some Σ' → listed Σ → rtc run_step Σ Σ' ∧ listed Σ'.
Proof.
  revert Σ. induction p as [|[n i j|i j] p IH]; intros Σ; cbn [follow]; [by intros [= <-]|..];
    intros (Σ1 & H1 & H2)%bind_Some Hl.
  - destruct (over_link_run _ _ _ _ _ H1 Hl) as [R1 Hl1]. destruct (IH _ H2 Hl1) as [R2 Hl2].
    split; [by etrans|done].
  - destruct (share_run _ _ _ _ H1 Hl) as [R1 Hl1]. destruct (IH _ H2 Hl1) as [R2 Hl2].
    split; [by etrans|done].
Qed.

Lemma settle_all_run ids Σ Σ' :
  (∀ i, i ∈ ids → i ∈ members committee) →
  foldl (λ (o : option System) i, o ≫= settle 100 i) (Some Σ) ids = Some Σ' → listed Σ →
  rtc run_step Σ Σ' ∧ listed Σ'.
Proof.
  revert Σ. induction ids as [|i ids IH]; intros Σ Hids; cbn [foldl mbind option_bind];
    [by intros [= <-]|].
  destruct (settle 100 i Σ) as [Σ1|] eqn:Hs.
  2: { intros Hf. exfalso. clear -Hf. induction ids as [|k ids IH]; [done|]. by apply IH. }
  intros Hf Hl. destruct (settle_run _ _ _ _ (Hids i ltac:(left)) Hs Hl) as [R1 Hl1].
  destruct (IH _ (λ k Hk, Hids k ltac:(by right)) Hf Hl1) as [R2 Hl2]. split; [by etrans|done].
Qed.

Lemma first_system_start store txPool :
  system_start committee parameters service range store txPool (first_system store txPool).
Proof.
  split; [|done]. intros i _.
  destruct (safe_run _ _ _
    (Core_start_safe (P := node_port i parameters (service i) (range i)) i committee parameters (service i))
    (NewCore_inv (P := node_port i parameters (service i) (range i)) committee (service i) (store i)
       (NewMempool (store i) (txPool i)))) as ([] & c0 & H0 & _).
  exists c0. split; [done|]. unfold first_system, first_node. cbn [sm_node]. by rewrite H0.
Qed.

(** A computed run that passes the checks is a run. *)
Lemma play_system_run store txPool ids p Σ :
  (∀ i, i ∈ members committee ↔ i ∈ ids) → play_system store txPool ids p = Some Σ →
  system_run committee parameters service range U store txPool Σ.
Proof.
  intros Hids. unfold play_system. destruct (forallb _ ids) eqn:Hf; [|done].
  intros (Σ1 & H1 & H2)%bind_Some.
  assert (within committee parameters service range U store (first_system store txPool)) as Hw.
  { intros i Hi. rewrite forallb_forall in Hf.
    by apply admissible_spec, Hf, list_elem_of_In, Hids. }
  assert (listed (first_system store txPool)) as Hl by (intros i Hi; by apply Hw).
  destruct (settle_all_run _ _ _ (λ i, proj2 (Hids i)) H1 Hl) as [R1 Hl1].
  destruct (follow_run _ _ _ H2 Hl1) as [R2 _].
  exists (first_system store txPool). split; [apply first_system_start|].
  split; [exact Hw|by etrans].
Qed.
End play.
