(* ===== verification/Wire.v ===== *)
(** * The mempool's messages on the wire (src/mempool/message.go, with
    src/mempool/transmit.go and the loop of src/mempool/mempool.go)

    The mempool's table of message types has nine entries: besides the three messages
    that mempools send each other also the commands that the consensus core gives to
    its own mempool, the requests of the mempool to its synchronizer, and the
    loop-back message.  A peer can put any of them on a connection.

    The theorems: a member's mempool receives exactly the messages that were broadcast
    or sent to it, in order; and of all that a peer can write only the three mempool
    messages have an effect, so the internal commands cannot be given from outside. *)

From stdpp Require Import base gmap list strings.
From S2P Require Import Prelude Committee Crypto Pool Store Synchronizer Port Mempool.
From S2P Require Import Network Transport.

(** ** Messages *)

Definition OwnBlockType : Z := 12.
Definition OtherBlockType : Z := 13.
Definition RequestBlockType : Z := 14.
Definition MakeBlockType : Z := 15.
Definition VerifyBlockType : Z := 16.
Definition CleanBlockType : Z := 17.
Definition SyncBlockType : Z := 18.
Definition SyncCleanUpBlockType : Z := 19.
Definition LoopBackType : Z := 20.

Record LoopBackMsg : Type := mkLoopBackMsg { lb_BlockHash : Digest }.

Definition LoopBackMsg_Hash {CL : CryptoLib} (msg : LoopBackMsg) : Digest :=
  (Hasher_Sum256 NewHasher (lb_BlockHash msg)).1.

(** The messages of the table.  A channel field is not part of an encoded value. *)
Inductive wireMsg : Type :=
  | WMempool (m : mempoolMsg)
  | WConnect (m : connectMsg)
  | WInter (m : interMsg)
  | WLoopBack (m : LoopBackMsg).

(** The [MsgType] and [Module] methods *)
Definition OwnBlockMsg_MsgType (b : option Block) : Z := OwnBlockType.
Definition OtherBlockMsg_MsgType (b : option Block) : Z := OtherBlockType.
Definition RequestBlockMsg_MsgType (r : RequestBlockMsg) : Z := RequestBlockType.
Definition MakeConsensusBlockMsg_MsgType (n : Z) : Z := MakeBlockType.
Definition VerifyBlockMsg_MsgType (m : VerifyBlockMsg) : Z := VerifyBlockType.
Definition CleanBlockMsg_MsgType (m : CleanBlockMsg) : Z := CleanBlockType.
Definition SyncBlockMsg_MsgType (r : SyncBlockMsg) : Z := SyncBlockType.
Definition SyncCleanUpBlockMsg_MsgType (e : Z) : Z := SyncCleanUpBlockType.
Definition LoopBackMsg_MsgType (m : LoopBackMsg) : Z := LoopBackType.

Definition OwnBlockMsg_Module (b : option Block) : string := "mempool".
Definition OtherBlockMsg_Module (b : option Block) : string := "mempool".
Definition RequestBlockMsg_Module (r : RequestBlockMsg) : string := "mempool".
Definition MakeConsensusBlockMsg_Module (n : Z) : string := "connect".
Definition VerifyBlockMsg_Module (m : VerifyBlockMsg) : string := "connect".
Definition CleanBlockMsg_Module (m : CleanBlockMsg) : string := "connect".
Definition SyncBlockMsg_Module (r : SyncBlockMsg) : string := "mempool".
Definition SyncCleanUpBlockMsg_Module (e : Z) : string := "mempool".
Definition LoopBackMsg_Module (m : LoopBackMsg) : string := "consensus".

Definition wire_MsgType (w : wireMsg) : Z :=
  match w with
  | WMempool (OwnBlockMsg b) => OwnBlockMsg_MsgType b
  | WMempool (OtherBlockMsg b) => OtherBlockMsg_MsgType b
  | WMempool (RequestMsg r) => RequestBlockMsg_MsgType r
  | WConnect (MakeConsensusBlockMsg n) => MakeConsensusBlockMsg_MsgType n
  | WConnect (VerifyMsg m) => VerifyBlockMsg_MsgType m
  | WConnect (CleanMsg m) => CleanBlockMsg_MsgType m
  | WInter (SyncBlock r) => SyncBlockMsg_MsgType r
  | WInter (SyncCleanUpBlock e) => SyncCleanUpBlockMsg_MsgType e
  | WLoopBack m => LoopBackMsg_MsgType m
  end.

Definition wire_Module (w : wireMsg) : string :=
  match w with
  | WMempool (OwnBlockMsg b) => OwnBlockMsg_Module b
  | WMempool (OtherBlockMsg b) => OtherBlockMsg_Module b
  | WMempool (RequestMsg r) => RequestBlockMsg_Module r
  | WConnect (MakeConsensusBlockMsg n) => MakeConsensusBlockMsg_Module n
  | WConnect (VerifyMsg m) => VerifyBlockMsg_Module m
  | WConnect (CleanMsg m) => CleanBlockMsg_Module m
  | WInter (SyncBlock r) => SyncBlockMsg_Module r
  | WInter (SyncCleanUpBlock e) => SyncCleanUpBlockMsg_Module e
  | WLoopBack m => LoopBackMsg_Module m
  end.

(** Structs with one field, as gob sees them *)
Record BlockField : Type := mkBlockField { bf_Block : option Block }.
Record MakeFields : Type := mkMakeFields { mf_MaxBlockSize : Z }.
Record CleanUpFields : Type := mkCleanUpFields { cu_Epoch : Z }.

Section wire.
Context {GI : Gob Z} {G1 : Gob BlockField} {G2 : Gob RequestBlockMsg} {G3 : Gob MakeFields}.
Context {G4 : Gob VerifyBlockMsg} {G5 : Gob CleanBlockMsg} {G6 : Gob SyncBlockMsg}.
Context {G7 : Gob CleanUpFields} {G8 : Gob LoopBackMsg}.

Definition encode_wire (w : wireMsg) : result (list byte) :=
  match w with
  | WMempool (OwnBlockMsg b) => gob_Encode (mkBlockField b)
  | WMempool (OtherBlockMsg b) => gob_Encode (mkBlockField b)
  | WMempool (RequestMsg r) => gob_Encode r
  | WConnect (MakeConsensusBlockMsg n) => gob_Encode (mkMakeFields n)
  | WConnect (VerifyMsg m) => gob_Encode m
  | WConnect (CleanMsg m) => gob_Encode m
  | WInter (SyncBlock r) => gob_Encode r
  | WInter (SyncCleanUpBlock e) => gob_Encode (mkCleanUpFields e)
  | WLoopBack m => gob_Encode m
  end.

Definition wire_as {A} {G : Gob A} (c : A → wireMsg) (data : list byte) : result wireMsg :=
  match gob_Decode data with Ok a => Ok (c a) | Err e => Err e end.

(** [DefaultMessageTypeMap] of the mempool *)
Definition MempoolMessageTypeMap : gmap Z (list byte → result wireMsg) :=
  list_to_map
    [(OwnBlockType, wire_as (λ b, WMempool (OwnBlockMsg (bf_Block b))));
     (OtherBlockType, wire_as (λ b, WMempool (OtherBlockMsg (bf_Block b))));
     (RequestBlockType, wire_as (λ r, WMempool (RequestMsg r)));
     (MakeBlockType, wire_as (λ m, WConnect (MakeConsensusBlockMsg (mf_MaxBlockSize m))));
     (VerifyBlockType, wire_as (λ m, WConnect (VerifyMsg m)));
     (CleanBlockType, wire_as (λ m, WConnect (CleanMsg m)));
     (SyncBlockType, wire_as (λ r, WInter (SyncBlock r)));
     (SyncCleanUpBlockType, wire_as (λ e, WInter (SyncCleanUpBlock (cu_Epoch e))));
     (LoopBackType, wire_as WLoopBack)].

(** *** [Transmit]

    The mempool's transmitor has the channels and goroutines of the one of the core, with
    the mempool addresses and the mempool's module. *)
Definition NewTransmit : Outgoing wireMsg * Incoming wireMsg := (NewOutgoing, NewIncoming).

Definition Transmit_out (committee : Committee) (up : nat → string → bool) (from : NodeID) :
    out_event wireMsg → Outgoing wireMsg → option (Outgoing wireMsg) :=
  out_exec up (MempoolSend committee from).

Definition Transmit_in : in_event wireMsg → Incoming wireMsg → stepped (Incoming wireMsg) :=
  in_exec MempoolMessageTypeMap wire_Module "mempool".

(** [MempoolRecv] *)
Definition MempoolRecv : Incoming wireMsg → option (Incoming wireMsg) := Transmitor_Recv.

Section laws.
Context {LI : GobLaw Z} {L1 : GobLaw BlockField} {L2 : GobLaw RequestBlockMsg}.
Context {L3 : GobLaw MakeFields} {L4 : GobLaw VerifyBlockMsg} {L5 : GobLaw CleanBlockMsg}.
Context {L6 : GobLaw SyncBlockMsg} {L7 : GobLaw CleanUpFields} {L8 : GobLaw LoopBackMsg}.

Lemma wire_entry {A} {G : Gob A} (c : A → wireMsg) x w :
  MempoolMessageTypeMap !! wire_MsgType w = Some (wire_as c) →
  encode_wire w = gob_Encode x → c x = w →
  (∃ data, gob_Encode x = Ok data ∧ gob_Decode data = Ok x) →
  transmissible wire_MsgType encode_wire MempoolMessageTypeMap w.
Proof.
  intros Htab He Hc (data & Hx & Hd).
  destruct (gob_round_trip (wire_MsgType w)) as (tdata & Ht & Htd).
  exists tdata, data, (wire_as c). rewrite He, Hx. unfold wire_as. rewrite Hd, Hc. done.
Qed.

(** Every message has its own entry of the table. *)
Lemma wire_transmissible w : transmissible wire_MsgType encode_wire MempoolMessageTypeMap w.
Proof.
  destruct w as [[b|b|r]|[n|m|m]|[r|e]|m].
  - by apply (wire_entry (λ b, WMempool (OwnBlockMsg (bf_Block b))) (mkBlockField b)), gob_round_trip.
  - by apply (wire_entry (λ b, WMempool (OtherBlockMsg (bf_Block b))) (mkBlockField b)), gob_round_trip.
  - by apply (wire_entry (λ r, WMempool (RequestMsg r)) r), gob_round_trip.
  - by apply (wire_entry (λ m, WConnect (MakeConsensusBlockMsg (mf_MaxBlockSize m))) (mkMakeFields n)),
      gob_round_trip.
  - by apply (wire_entry (λ m, WConnect (VerifyMsg m)) m), gob_round_trip.
  - by apply (wire_entry (λ m, WConnect (CleanMsg m)) m), gob_round_trip.
  - by apply (wire_entry (λ r, WInter (SyncBlock r)) r), gob_round_trip.
  - by apply (wire_entry (λ e, WInter (SyncCleanUpBlock (cu_Epoch e))) (mkCleanUpFields e)),
      gob_round_trip.
  - by apply (wire_entry WLoopBack m), gob_round_trip.
Qed.

(** Mempools hear each other: if the committee's mempool addresses are distinct and
    the connections to a member can be established, then the member's mempool
    receives from another node exactly the messages that this node's mempool
    broadcast or sent to it, in the order of the sends. *)
Theorem mempool_messages_arrive (committee : Committee) up from id a sends :
  (∀ i j a b, Authorities committee !! i = Some a → Authorities committee !! j = Some b →
     au_MempoolAddr a = au_MempoolAddr b → i = j) →
  Authorities committee !! id = Some a → id ≠ from →
  (∀ n, up n (Committee_MempoolAddress committee id) = true) →
  Forall (λ s, s.1 = NONE ∨ s.1 ∈ members committee) sends →
  let sends := map (λ s, (s.1, WMempool s.2)) sends in
  let sender := Sender_Run up (map (λ s, MempoolSend committee from s.1 s.2) sends) in
  ∃ stream msgs,
    write_all wire_MsgType encode_wire
      (conn_of sender (Committee_MempoolAddress committee id)) [] = Returns tt stream ∧
    serveConn MempoolMessageTypeMap (S (length stream)) stream = Returns msgs [] ∧
    Transmit_route wire_Module msgs = meant_for id sends.
Proof.
  intros Hinj Ha Hid Hup Hsends sends' sender. unfold sender.
  assert (Committee_MempoolAddress committee id = au_MempoolAddr a) as Haddr.
  { unfold Committee_MempoolAddress. by rewrite Ha. }
  rewrite Haddr in *.
  destruct (sends_delivered committee au_MempoolAddr Hinj wire_MsgType encode_wire
    MempoolMessageTypeMap up (MempoolSend committee from) from id a sends')
    as (stream & Hw & Hr); try done.
  { apply Forall_map. exact Hsends. } { apply wire_transmissible. }
  exists stream, (meant_for id sends'). split_and!; [done|done|].
  unfold sends', meant_for. clear. induction sends as [|[to m] sends IH]; [done|]. simpl.
  case_bool_decide; simpl; [|done]. unfold Transmit_route in *. simpl. destruct m; by rewrite IH.
Qed.

(** The mempools' link: what the loop of a member's mempool has received over the
    connection from another node are the first of the mempool's messages that this node
    has broadcast or sent to it, after those that it dropped because the member could not
    be dialled; and when all goroutines wait, no write has failed and the data has
    arrived, it has received all of the others. *)
Theorem mempool_link_fifo (committee : Committee) up from id a evs o evs' i k c :
  (∀ i j a b, Authorities committee !! i = Some a → Authorities committee !! j = Some b →
     au_MempoolAddr a = au_MempoolAddr b → i = j) →
  Authorities committee !! id = Some a → id ≠ from →
  Forall (λ s, s.1 = NONE ∨ s.1 ∈ members committee) (out_sends evs) →
  out_run up (MempoolSend committee from) evs NewOutgoing = Some o →
  in_run MempoolMessageTypeMap wire_Module "mempool" evs' NewIncoming = Steps i →
  rc_conns (ig_receiver i) !! k = Some c →
  ic_arrived c `prefix_of` wire wire_MsgType encode_wire (au_MempoolAddr a) (og_sender o) →
  Transmit_route wire_Module (dropped (au_MempoolAddr a) (og_sender o)) ++ from_conn k (ig_received i)
    `prefix_of` Transmit_route wire_Module (meant_for id (out_sends evs)) ∧
  (out_quiet up (MempoolSend committee from) o →
   in_quiet MempoolMessageTypeMap wire_Module "mempool" i → ic_open c = true →
   lossless (au_MempoolAddr a) (og_sender o) →
   ic_arrived c = wire wire_MsgType encode_wire (au_MempoolAddr a) (og_sender o) →
   Transmit_route wire_Module (dropped (au_MempoolAddr a) (og_sender o)) ++ from_conn k (ig_received i) =
     Transmit_route wire_Module (meant_for id (out_sends evs))).
Proof.
  intros Hinj Ha Hid Hs Ho Hi Hk Hl. split.
  - eapply (link_order wire_MsgType encode_wire MempoolMessageTypeMap wire_Module "mempool" committee
      au_MempoolAddr); try done. apply wire_transmissible.
  - eapply (link_rest wire_MsgType encode_wire MempoolMessageTypeMap wire_Module "mempool" committee
      au_MempoolAddr); try done. apply wire_transmissible.
Qed.
End laws.
End wire.

(** ** What a peer can do *)

Section peers.
Context {CL : CryptoLib} {D : DB} {G : Gob Block}.
Context (Name : NodeID) (committee : Committee) (parameters : Parameters).

(** The turn of the mempool's loop on a message of its channel: the switch has cases
    for the three mempool messages only. *)
Definition Mempool_turn (w : wireMsg) : GoM Mempool (result unit) :=
  match w with
  | WMempool m => Mempool_receive Name committee parameters m
  | _ => mret (Ok tt)
  end.

Fixpoint Mempool_turns (ws : list wireMsg) : GoM Mempool unit :=
  match ws with
  | [] => mret tt
  | w :: ws => _ ← Mempool_turn w; Mempool_turns ws
  end.

(** The messages that mempools send each other *)
Definition own_messages (ws : list wireMsg) : list mempoolMsg :=
  omap (λ w, match w with WMempool m => Some m | _ => None end) ws.

(** A peer cannot give internal commands: whatever messages of the table arrive, the
    mempool's loop does with what the transmitor lets through exactly what it does
    with the own-block, other-block and request messages among them; the commands of
    the core, the requests to the synchronizer and loop-backs have no effect. *)
Theorem foreign_commands_ignored ws m :
  Mempool_turns (Transmit_route wire_Module ws) m =
  Mempool_turns (map WMempool (own_messages ws)) m.
Proof.
  revert m. induction ws as [|w ws IH]; intros m; [done|].
  destruct w as [x|x|x|x]; unfold Transmit_route in *;
    [destruct x as [b|b|r]|destruct x as [n|v|v]|destruct x as [r|e]|]; simpl;
    unfold mbind, GoM_bind; simpl; try done;
    match goal with |- context [match ?h m with _ => _ end] =>
      destruct (h m); [apply IH|done] end.
Qed.
End peers.
