(* ===== verification/TsKeys.v ===== *)
(** * Threshold keys as text (src/crypto/crypto.go, the second half)

    A private share and the public polynomial of a threshold key cannot be encoded
    directly: they are turned into records of bytes with the marshalling of the
    kyber library, and the records into JSON text.  Kyber's data ([KyberKeys]) and
    the JSON encoding of a struct ([JsonStruct]) are parameters.

    The lemmas: decoding an encoded key gives the key back, also when the text is
    followed by other bytes.  Config.v builds on them. *)

From stdpp Require Import base gmap list strings.
From S2P Require Import Prelude Crypto.

(** ** The libraries *)

(** encoding/json on a struct: [Encoder.Encode] and [Decoder.Decode], which reads
    one value and leaves what follows it. *)
Class JsonStruct (A : Type) : Type := {
  js_Encode : A → result (list byte);
  js_Decode : list byte → result A
}.

(** ASCII text *)
Definition is_ascii (b : byte) : Prop := 0 <= b < 128.

(** For a struct of numbers, flags and byte strings, which JSON writes in base 64,
    the text is ASCII. *)
Class JsonStructLaw (A : Type) {J : JsonStruct A} : Prop :=
  js_round_trip : ∀ a, ∃ data, js_Encode a = Ok data ∧ Forall is_ascii data ∧
    ∀ rest, js_Decode (data ++ rest) = Ok a.

(** kyber/share: a private share is an index and a scalar, a public polynomial a
    base point and its commitments; scalars and points marshal to bytes. *)
Class KyberKeys {CL : CryptoLib} : Type := {
  Scalar : Type;
  Point : Type;
  pri_I : PriShare → Z;
  pri_V : PriShare → Scalar;
  mk_PriShare : Z → Scalar → PriShare;
  pub_Info : PubPoly → Point * list Point;
  NewPubPoly : Point → list Point → PubPoly;
  scalar_MarshalBinary : Scalar → result (list byte);
  scalar_UnmarshalBinary : list byte → result Scalar;
  point_MarshalBinary : Point → result (list byte);
  point_UnmarshalBinary : list byte → result Point
}.

Class KyberKeysLaws {CL : CryptoLib} {K : KyberKeys} : Prop := {
  pri_eta : ∀ s, mk_PriShare (pri_I s) (pri_V s) = s;
  pub_eta : ∀ p, NewPubPoly (pub_Info p).1 (pub_Info p).2 = p;
  scalar_round_trip : ∀ v, ∃ b, scalar_MarshalBinary v = Ok b ∧ scalar_UnmarshalBinary b = Ok v;
  point_round_trip : ∀ p, ∃ b, point_MarshalBinary p = Ok b ∧ point_UnmarshalBinary b = Ok p
}.

(** ** Operations *)

Record TSPartialMarshalled : Type := mkTSPartialMarshalled {
  tp_I : Z;
  tp_Binary : list byte
}.

Record TSPublicMarshalled : Type := mkTSPublicMarshalled {
  tm_BaseBytes : list byte;
  tm_CommitBytes : list (list byte)
}.

Section tskeys.
Context {CL : CryptoLib} {K : KyberKeys} {JP : JsonStruct TSPartialMarshalled}
  {JM : JsonStruct TSPublicMarshalled}.

Definition MarshallTSPartialKey (priShare : PriShare) : result TSPartialMarshalled :=
  match scalar_MarshalBinary (pri_V priShare) with
  | Err e => Err e
  | Ok shareAsBytes => Ok (mkTSPartialMarshalled (pri_I priShare) shareAsBytes)
  end.

Definition UnMarshallTSPartialKey (par : TSPartialMarshalled) : result PriShare :=
  match scalar_UnmarshalBinary (tp_Binary par) with
  | Err e => Err e
  | Ok V => Ok (mk_PriShare (tp_I par) V)
  end.

Definition EncodeTSPartialKey (priShare : PriShare) : result (list byte) :=
  match MarshallTSPartialKey priShare with
  | Err e => Err e
  | Ok mtspk => js_Encode mtspk
  end.

Definition DecodeTSPartialKey (data : list byte) : result PriShare :=
  match js_Decode data with
  | Err e => Err e
  | Ok par => UnMarshallTSPartialKey par
  end.

(** The two loops over the commitments stop at the first error. *)
Fixpoint marshal_all {A B} (f : A → result B) (l : list A) : result (list B) :=
  match l with
  | [] => Ok []
  | x :: l =>
      match f x with
      | Err e => Err e
      | Ok b => match marshal_all f l with Err e => Err e | Ok bs => Ok (b :: bs) end
      end
  end.

Definition MarshallTSPublicKey (pubKey : PubPoly) : result TSPublicMarshalled :=
  let '(base, commits) := pub_Info pubKey in
  match point_MarshalBinary base with
  | Err e => Err e
  | Ok baseAsBytes =>
      match marshal_all point_MarshalBinary commits with
      | Err e => Err e
      | Ok commitBytes => Ok (mkTSPublicMarshalled baseAsBytes commitBytes)
      end
  end.

Definition UnMarshallTSPublicKey (tspm : TSPublicMarshalled) : result PubPoly :=
  match point_UnmarshalBinary (tm_BaseBytes tspm) with
  | Err e => Err e
  | Ok baseDecoded =>
      match marshal_all point_UnmarshalBinary (tm_CommitBytes tspm) with
      | Err e => Err e
      | Ok commitsDecoded => Ok (NewPubPoly baseDecoded commitsDecoded)
      end
  end.

Definition EncodeTSPublicKey (pubkey : PubPoly) : result (list byte) :=
  match MarshallTSPublicKey pubkey with
  | Err e => Err e
  | Ok tspm => js_Encode tspm
  end.

Definition DecodeTSPublicKey (data : list byte) : result PubPoly :=
  match js_Decode data with
  | Err e => Err e
  | Ok tspm => UnMarshallTSPublicKey tspm
  end.

(** [generated] is what [ed25519.GenerateKey] returns, the public key first. *)
Definition GenED25519Keys {S} (generated : result (list byte * list byte)) :
    GoM S (list byte * list byte) :=
  match generated with
  | Err _ => panic "ed25519: no random numbers"
  | Ok (pubKey, privKey) => mret (privKey, pubKey)
  end.

(** [hash] is kyber's digest of a share, over its index and scalar. *)
Definition EqualTSPartialKey (hash : PriShare → list byte) (p1 p2 : PriShare) : bool :=
  bool_decide (pri_I p1 = pri_I p2) && bool_decide (hash p1 = hash p2).

(** ** Round trips *)

Context {KL : KyberKeysLaws} {LP : JsonStructLaw TSPartialMarshalled}
  {LM : JsonStructLaw TSPublicMarshalled}.

Lemma marshal_all_round_trip {A B} (f : A → result B) (g : B → result A) l :
  (∀ x, ∃ b, f x = Ok b ∧ g b = Ok x) →
  ∃ bs, marshal_all f l = Ok bs ∧ marshal_all g bs = Ok l ∧ length bs = length l.
Proof.
  intros Hfg. induction l as [|x l (bs & Hm & Hu & Hl)]; [by exists []|].
  destruct (Hfg x) as (b & Hf & Hg). exists (b :: bs). simpl.
  rewrite Hf, Hm, Hg, Hu. by simpl; rewrite Hl.
Qed.

Lemma partial_key_text s :
  ∃ data, EncodeTSPartialKey s = Ok data ∧ Forall is_ascii data ∧
    ∀ rest, DecodeTSPartialKey (data ++ rest) = Ok s.
Proof.
  destruct (scalar_round_trip (pri_V s)) as (b & Hm & Hu).
  destruct (js_round_trip (mkTSPartialMarshalled (pri_I s) b)) as (data & He & Ha & Hd).
  exists data. unfold EncodeTSPartialKey, MarshallTSPartialKey, DecodeTSPartialKey.
  rewrite Hm. split_and!; [done..|]. intros rest. rewrite Hd. unfold UnMarshallTSPartialKey. simpl.
  by rewrite Hu, pri_eta.
Qed.

Lemma public_key_text p :
  ∃ data, EncodeTSPublicKey p = Ok data ∧ Forall is_ascii data ∧
    ∀ rest, DecodeTSPublicKey (data ++ rest) = Ok p.
Proof.
  unfold EncodeTSPublicKey, MarshallTSPublicKey, DecodeTSPublicKey.
  pose proof (pub_eta p) as Hp. destruct (pub_Info p) as [base commits]. simpl in Hp.
  destruct (point_round_trip base) as (b & Hm & Hu).
  destruct (marshal_all_round_trip point_MarshalBinary point_UnmarshalBinary commits
    point_round_trip) as (bs & Hms & Hus & _).
  destruct (js_round_trip (mkTSPublicMarshalled b bs)) as (data & He & Ha & Hd).
  exists data. rewrite Hm, Hms. split_and!; [done..|]. intros rest. rewrite Hd.
  unfold UnMarshallTSPublicKey. simpl. by rewrite Hu, Hus, Hp.
Qed.

(** Where digests of shares of an index do not collide, the comparison decides equality;
    so it holds of a share and what is read back of it. *)
Lemma EqualTSPartialKey_spec hash p1 p2 :
  (pri_I p1 = pri_I p2 → hash p1 = hash p2 → p1 = p2) →
  EqualTSPartialKey hash p1 p2 = true ↔ p1 = p2.
Proof.
  intros Hinj. unfold EqualTSPartialKey. rewrite andb_true_iff, !bool_decide_eq_true.
  split; [by intros [??]; apply Hinj|by intros ->].
Qed.
End tskeys.
