(* ===== verification/Config.v ===== *)
(** * Configuration files (src/config/config.go)

    Key files, threshold key files, the committee file and the default committee.
    The file system is a map from paths to contents; [path_of] is the path that a name
    stands for.  The JSON library is a parameter, [JsonMap]: it turns the Go maps that the files hold into text and
    back.  Such a map has strings, numbers and one level of nested maps; every
    other JSON value is [JOther]; numbers are integers.  A failed type assertion is a
    panic.  Opening a file for writing succeeds.

    The theorems: the key files that are generated can be read back, although
    [savetoFile] does not truncate the file it overwrites; a committee file with
    all fields gives the committee; the committee file that the program generates
    itself cannot be read; and the default committee is a sound one. *)

From stdpp Require Import base gmap list strings pretty.
From Stdlib Require Import DecimalString DecimalZ.
From S2P Require Import Prelude Committee Crypto Pool TsKeys.

(** ** Strings and bytes *)

(** The conversions [string(b)] and [[]byte(s)] *)
Definition string_of_bytes (l : list byte) : string :=
  String.string_of_list_ascii (map (λ b, Ascii.ascii_of_N (Z.to_N b)) l).

Definition bytes_of_string (s : string) : list byte :=
  map (λ a, Z.of_N (Ascii.N_of_ascii a)) (String.list_ascii_of_string s).

Definition plain_string (s : string) : Prop := Forall is_ascii (bytes_of_string s).

#[export] Instance is_ascii_dec b : Decision (is_ascii b).
Proof. unfold is_ascii. apply _. Defined.
#[export] Instance plain_string_dec s : Decision (plain_string s).
Proof. unfold plain_string. apply _. Defined.

(** [plain_literal] shows that a literal is ASCII. *)
Ltac plain_literal := apply (bool_decide_unpack _); vm_compute; exact I.

Lemma bytes_of_string_of_bytes l : Forall is_byte l → bytes_of_string (string_of_bytes l) = l.
Proof.
  intros Hl. unfold bytes_of_string, string_of_bytes.
  rewrite String.list_ascii_of_string_of_list_ascii, map_map.
  induction Hl as [|b l Hb _ IH]; [done|]. simpl. rewrite IH. f_equal.
  unfold is_byte in Hb. rewrite Ascii.N_ascii_embedding; lia.
Qed.

Lemma is_ascii_byte l : Forall is_ascii l → Forall is_byte l.
Proof. intros Hl. eapply Forall_impl; [exact Hl|]. unfold is_ascii, is_byte. intros b. lia. Qed.

Lemma plain_string_of_bytes l : Forall is_ascii l → plain_string (string_of_bytes l).
Proof.
  intros Hl. unfold plain_string. by rewrite bytes_of_string_of_bytes by by apply is_ascii_byte.
Qed.

Lemma hex_ascii l : Forall is_byte l → Forall is_ascii (hex_Encode l).
Proof.
  induction 1 as [|b l Hb _ IH]; [constructor|]. simpl. unfold is_byte in Hb.
  assert (∀ n, 0 <= n < 16 → is_ascii (hex_digit n)) as Hd.
  { intros n Hn. unfold hex_digit, is_ascii. case_decide; lia. }
  constructor; [|constructor; [|done]]; apply Hd.
  - rewrite Z.shiftr_div_pow2 by lia. change (2 ^ 4) with 16.
    split; [apply Z.div_pos; lia|apply Z.div_lt_upper_bound; lia].
  - change 15 with (Z.ones 4). rewrite Z.land_ones by lia. apply Z.mod_pos_bound. lia.
Qed.

(** ** Numerals *)

(** [strconv.Itoa] *)
Definition Itoa (i : Z) : string := NilZero.string_of_int (Z.to_int i).

(** [strconv.Atoi] with its error discarded: 0 for a text that is not a numeral, and
    the nearest 64-bit integer for one that is out of range. *)
Definition clamp64 (z : Z) : Z := Z.max (- 2 ^ 63) (Z.min z (2 ^ 63 - 1)).

Definition plus_sign : Ascii.ascii := Ascii.ascii_of_N 43.
Definition minus_sign : Ascii.ascii := Ascii.ascii_of_N 45.

(** The text after a leading plus sign, which a minus sign may not follow *)
Definition unsigned_text (s : string) : string :=
  match s with
  | String a s' =>
      if decide (a = plus_sign) then
        match s' with
        | String b _ => if decide (b = minus_sign) then "" else s'
        | EmptyString => ""
        end
      else s
  | EmptyString => ""
  end.

Definition Atoi (s : string) : Z :=
  match NilZero.int_of_string (unsigned_text s) with
  | Some i => clamp64 (Z.of_int i)
  | None => 0
  end.

Lemma Itoa_parse i : NilZero.int_of_string (Itoa i) = Some (Z.to_int i).
Proof.
  unfold Itoa. apply NilZero.isi; destruct i as [|p|p]; simpl; try done;
    intros [= H]; by apply (DecimalPos.Unsigned.to_uint_nonnil p).
Qed.

#[export] Instance Itoa_inj : Inj (=) (=) Itoa.
Proof.
  intros i j Hij. pose proof (Itoa_parse i) as Hi. rewrite Hij, Itoa_parse in Hi.
  injection Hi as Hi. symmetry. by apply DecimalZ.to_int_inj.
Qed.

Lemma Atoi_Itoa i : in_int64 i → Atoi (Itoa i) = i.
Proof.
  intros Hi. unfold Atoi.
  assert (unsigned_text (Itoa i) = Itoa i) as ->.
  { pose proof (Itoa_parse i) as Hp. destruct (Itoa i) as [|a s']; [done|]. simpl.
    case_decide as Ha; [|done]. subst a.
    exfalso. revert Hp. simpl. by destruct (NilEmpty.uint_of_string s'). }
  rewrite Itoa_parse, DecimalZ.of_to. unfold clamp64, in_int64 in *. lia.
Qed.

(** ** JSON and files *)

(** The values of an inner map, and of a map *)
Inductive scalar : Type :=
  | SString (s : string)
  | SNumber (z : Z)
  | SOther.

Inductive value : Type :=
  | JString (s : string)
  | JNumber (z : Z)
  | JObject (fields : gmap string scalar)
  | JOther.

(** encoding/json on [map[string]interface{}] *)
Class JsonMap : Type := {
  json_Encode : gmap string value → list byte;
  json_Decode : list byte → result (gmap string value)
}.

(** What survives: ASCII strings, and integers that a float64 represents *)
Definition exact (z : Z) : Prop := - 2 ^ 53 <= z <= 2 ^ 53.

Definition plain_scalar (v : scalar) : Prop :=
  match v with SString s => plain_string s | SNumber z => exact z | SOther => False end.

Definition plain_value (v : value) : Prop :=
  match v with
  | JString s => plain_string s
  | JNumber z => exact z
  | JObject fields => map_Forall (λ k v, plain_string k ∧ plain_scalar v) fields
  | JOther => False
  end.

Definition plain (data : gmap string value) : Prop :=
  map_Forall (λ k v, plain_string k ∧ plain_value v) data.

(** A decoder reads the first value and leaves what follows it. *)
Class JsonMapLaw {J : JsonMap} : Prop :=
  json_round_trip : ∀ data rest, plain data → json_Decode (json_Encode data ++ rest) = Ok data.

(** The parts of a name between slashes *)
Definition slash : Ascii.ascii := Ascii.ascii_of_N 47.

Fixpoint components (s : string) : list string :=
  match s with
  | EmptyString => [""]
  | String c s =>
      if decide (c = slash) then "" :: components s
      else match components s with x :: l => String c x :: l | [] => [String c ""] end
  end.

(** The path of a name, from the root or from the working directory: empty parts and [.]
    do not count.  A part [..] is left as it is. *)
Definition useful (part : string) : bool :=
  negb (bool_decide (part = "")) && negb (bool_decide (part = ".")).

Definition root_of (s : string) : list string :=
  match s with String c _ => if decide (c = slash) then ["/"] else [] | EmptyString => [] end.

Definition path_of (s : string) : list string := root_of s ++ List.filter useful (components s).

(** The path of the names [path/name] *)
Definition dir_of (path : string) : list string :=
  (match path with EmptyString => ["/"] | _ => root_of path end) ++
  List.filter useful (components path).

Definition slash_free (s : string) : Prop := slash ∉ String.list_ascii_of_string s.

#[export] Instance slash_free_dec s : Decision (slash_free s).
Proof. unfold slash_free. apply _. Defined.

Lemma components_ne s : components s ≠ [].
Proof. destruct s as [|c s]; [done|]. simpl. case_decide; [done|]. by destruct (components s). Qed.

Lemma components_free s : slash_free s → components s = [s].
Proof.
  unfold slash_free. induction s as [|c s IH]; [done|]. simpl. rewrite not_elem_of_cons.
  intros [Hc Hs]. rewrite decide_False by done. by rewrite IH.
Qed.

Lemma components_app path name :
  slash_free name → components (path +:+ String slash name) = components path ++ [name].
Proof.
  intros Hn. induction path as [|c path IH].
  { change ("" +:+ String slash name) with (String slash name). cbn [components].
    by rewrite decide_True, components_free. }
  change (String c path +:+ String slash name) with (String c (path +:+ String slash name)).
  cbn [components]. rewrite IH. case_decide; [done|].
  by destruct (components path) eqn:Hp; [destruct (components_ne path)|].
Qed.

Lemma path_of_file path name :
  slash_free name → useful name = true → path_of (path +:+ String slash name) = dir_of path ++ [name].
Proof.
  intros Hn Hu. unfold path_of, dir_of. rewrite components_app, List.filter_app by done. cbn [List.filter].
  rewrite Hu, app_assoc. f_equal. f_equal. by destruct path.
Qed.

Abbreviation files := (@gmap (list string) _ countable.list_countable (list byte)).

Section config.
Context {CL : CryptoLib} {J : JsonMap} {K : KyberKeys} {JP : JsonStruct TSPartialMarshalled}
  {JM : JsonStruct TSPublicMarshalled}.

(** [text] is what the JSON encoder makes of the data.  The file is opened without
    [O_TRUNC]: what is beyond the new text stays. *)
Definition savetoFile (filename : string) (text : result (list byte)) : GoM files unit :=
  match text with
  | Err _ => panic "json"
  | Ok text => modify (λ fs,
      <[path_of filename := text ++ drop (length text) (default [] (fs !! path_of filename))]> fs)
  end.

Definition readFromFile (filename : string) : GoM files (result (gmap string value)) := λ fs,
  match fs !! path_of filename with
  | None => Crash "open: no such file or directory"
  | Some text => Returns (json_Decode text) fs
  end.

(** The type assertions [data[k].(string)] and [data[k].(float64)] *)
Definition string_field (data : gmap string value) (k : string) : GoM files string :=
  match data !! k with
  | Some (JString s) => mret s
  | _ => panic "interface conversion"
  end.

Definition number_field (data : gmap string value) (k : string) : GoM files Z :=
  match data !! k with
  | Some (JNumber z) => mret z
  | _ => panic "interface conversion"
  end.

Definition inner_string (info : gmap string scalar) (k : string) : GoM files string :=
  match info !! k with
  | Some (SString s) => mret s
  | _ => panic "interface conversion"
  end.

(** *** Signature keys *)

Definition key_file (path : string) (i : nat) : string :=
  path +:+ "/.node-key-" +:+ Itoa (Z.of_nat i) +:+ ".json".

Definition key_data (pri pub : list byte) : gmap string value :=
  <["private" := JString (string_of_bytes (EncodePrivateKey (mkPrivateKey pri)))]>
  (<["public" := JString (string_of_bytes (EncodePublicKey pub))]> ∅).

(** [gen i] is the key pair that the [i]-th call of [GenED25519Keys] returns, the
    private key first. *)
Fixpoint GenerateKeyFiles_loop (gen : nat → list byte * list byte) (path : string)
    (n i : nat) : GoM files unit :=
  match n with
  | O => mret tt
  | S n =>
      let '(pri, pub) := gen i in
      savetoFile (key_file path i) (Ok (json_Encode (key_data pri pub)));;
      GenerateKeyFiles_loop gen path n (S i)
  end.

Definition GenerateKeyFiles (gen : nat → list byte * list byte) (pairs : Z) (path : string)
  : GoM files unit := GenerateKeyFiles_loop gen path (Z.to_nat pairs) 0.

Definition GenKeysFromFile (filename : string) : GoM files (result (list byte * PrivateKey)) :=
  data ← readFromFile filename;
  match data with
  | Err e => mret (Err e)
  | Ok data =>
      pub ← string_field data "public";
      pri ← string_field data "private";
      match DecodePublicKey (bytes_of_string pub) with
      | Err e => mret (Err e)
      | Ok pubKey =>
          match DecodePrivateKey (bytes_of_string pri) with
          | Err e => mret (Err e)
          | Ok priKey => mret (Ok (pubKey, priKey))
          end
      end
  end.
(** *** Threshold keys *)

Definition ts_key_file (path : string) (i : nat) : string :=
  path +:+ "/.node-ts-key-" +:+ Itoa (Z.of_nat i) +:+ ".json".

(** An encoding error is discarded and leaves an empty text. *)
Definition text_of (r : result (list byte)) : string :=
  string_of_bytes (match r with Ok l => l | Err _ => [] end).

Definition ts_key_data (share : PriShare) (pub : PubPoly) (N T : Z) : gmap string value :=
  <["T" := JNumber T]> (<["N" := JNumber N]>
  (<["pub" := JString (text_of (EncodeTSPublicKey pub))]>
  (<["share" := JString (text_of (EncodeTSPartialKey share))]> ∅))).

(** [shares] and [pub] are what [GenTSKeys] returns; an index out of range panics. *)
Fixpoint GenerateTsKeyFiles_loop (shares : list PriShare) (pub : PubPoly) (N T : Z)
    (path : string) (n i : nat) : GoM files unit :=
  match n with
  | O => mret tt
  | S n =>
      match shares !! i with
      | None => panic "index out of range"
      | Some share =>
          savetoFile (ts_key_file path i) (Ok (json_Encode (ts_key_data share pub N T)));;
          GenerateTsKeyFiles_loop shares pub N T path n (S i)
      end
  end.

Definition GenerateTsKeyFiles (shares : list PriShare) (pub : PubPoly) (N T : Z)
    (path : string) : GoM files unit :=
  GenerateTsKeyFiles_loop shares pub N T path (Z.to_nat N) 0.

Definition GenTsKeyFromFile (filename : string) : GoM files (result SecretShareKey) :=
  data ← readFromFile filename;
  match data with
  | Err e => mret (Err e)
  | Ok data =>
      share ← string_field data "share";
      pub ← string_field data "pub";
      N ← number_field data "N";
      T ← number_field data "T";
      match DecodeTSPartialKey (bytes_of_string share) with
      | Err e => mret (Err e)
      | Ok priShare =>
          match DecodeTSPublicKey (bytes_of_string pub) with
          | Err e => mret (Err e)
          | Ok pubPoly => mret (Ok (mkSecretShareKey pubPoly priShare N T))
          end
      end
  end.

(** *** Parameters *)

(** [config.Parameters] *)
Record ConfigParameters : Type := mkConfigParameters {
  cp_Pool : PoolParameters;
  cp_Consensus : Parameters
}.

Definition GenDefaultParameters : ConfigParameters :=
  mkConfigParameters DefaultPoolParameters DefaultParameters.

Context {JC : JsonStruct ConfigParameters}.

Definition GenerateSampleParameters : GoM files unit :=
  savetoFile "./.parameters.json" (js_Encode GenDefaultParameters).

(** Here a missing file is an error, not a panic. *)
Definition GenParamatersFromFile (filename : string)
  : GoM files (result (PoolParameters * Parameters)) := λ fs,
  match fs !! path_of filename with
  | None => Returns (Err (ErrLib "open: no such file or directory")) fs
  | Some text =>
      match js_Decode text with
      | Err e => Returns (Err e) fs
      | Ok parameters => Returns (Ok (cp_Pool parameters, cp_Consensus parameters)) fs
      end
  end.

(** *** The committee *)

(** One turn of the loop over the file's members.  An error of the numeral or of the
    key is discarded. *)
Definition read_member (id : string) (item : value) (authorities : gmap NodeID Authority)
  : GoM files (gmap NodeID Authority) :=
  let ID := Atoi id in
  match item with
  | JObject info =>
      text ← inner_string info "name";
      let name := match DecodePublicKey (bytes_of_string text) with Ok k => k | Err _ => [] end in
      addr ← inner_string info "addr";
      mempool_addr ← inner_string info "mempool_addr";
      mret (<[ID := mkAuthority name ID addr mempool_addr]> authorities)
  | _ => panic "interface conversion"
  end.

Fixpoint read_members (items : list (string * value)) (authorities : gmap NodeID Authority)
  : GoM files (gmap NodeID Authority) :=
  match items with
  | [] => mret authorities
  | (id, item) :: items =>
      authorities ← read_member id item authorities;
      read_members items authorities
  end.

(** [range] is the order in which a range over a map visits its entries. *)
Definition GenCommitteeFromFile (range : gmap string value → list (string * value))
    (filename : string) : GoM files (result Committee) :=
  data ← readFromFile filename;
  match data with
  | Err e => mret (Err e)
  | Ok data =>
      authorities ← read_members (range data) ∅;
      mret (Ok (mkCommittee authorities))
  end.

Definition DefaultPort : Z := 9000.

(** A member [i] of [n] on the local host, with the ports from [port] on *)
Definition port_member (port : Z) (pub : list byte) (n i : nat) : Authority :=
  mkAuthority pub (Z.of_nat i)
    ("127.0.0.1:" +:+ Itoa (port + Z.of_nat i))
    ("127.0.0.1:" +:+ Itoa (port + Z.of_nat n + Z.of_nat i)).

(** The loop of [GenDefaultCommittee] over the members *)
Definition default_member (pub : list byte) (n i : nat) : Authority :=
  port_member DefaultPort pub n i.

(** [gen] gives the key pairs of [GenED25519Keys], [ts t n] what [GenTSKeys] returns.
    The result is the committee with the private keys and the share keys. *)
Definition GenDefaultCommittee (gen : nat → list byte * list byte)
    (ts : Z → Z → list PriShare * PubPoly) (n : nat)
  : option (Committee * list PrivateKey * list SecretShareKey) :=
  let committee := mkCommittee (list_to_map
    (map (λ i, (Z.of_nat i, default_member (gen i).2 n i)) (seq 0 n))) in
  let priKeys := map (λ i, mkPrivateKey (gen i).1) (seq 0 n) in
  let T := Committee_HightThreshold committee in
  let '(shares, pub) := ts T (Z.of_nat n) in
  shareKeys ← mapM (λ i, share ← shares !! i; Some (mkSecretShareKey pub share (Z.of_nat n) T))
                (seq 0 n);
  Some (committee, priKeys, shareKeys).

(** The member entries that [GenerateSmapleCommittee] writes *)
Definition sample_entry (a : Authority) : value :=
  JObject (<["addr" := SString (au_Addr a)]> (<["node_id" := SNumber (au_Id a)]>
    (<["name" := SString (string_of_bytes (EncodePublicKey (au_Name a)))]> ∅))).

Definition GenerateSmapleCommittee (gen : nat → list byte * list byte)
    (ts : Z → Z → list PriShare * PubPoly) : GoM files unit :=
  match GenDefaultCommittee gen ts 4 with
  | None => panic "index out of range"
  | Some (committee, _, _) =>
      savetoFile "./.committee.json"
        (Ok (json_Encode (kmap Itoa (sample_entry <$> Authorities committee))))
  end.
(** ** Files *)

Lemma string_field_ok data k s fs :
  data !! k = Some (JString s) → string_field data k fs = Returns s fs.
Proof. unfold string_field. by intros ->. Qed.

Lemma number_field_ok data k z fs :
  data !! k = Some (JNumber z) → number_field data k fs = Returns z fs.
Proof. unfold number_field. by intros ->. Qed.

Lemma inner_string_ok info k s fs :
  info !! k = Some (SString s) → inner_string info k fs = Returns s fs.
Proof. unfold inner_string. by intros ->. Qed.

(** From the file [f] the program reads [data]. *)
Definition holds_data (fs : files) (f : string) (data : gmap string value) : Prop :=
  ∃ text, fs !! path_of f = Some text ∧ json_Decode text = Ok data.

(** [data] was written over what was in the file [f]. *)
Definition saved (fs fs' : files) (f : string) (data : gmap string value) : Prop :=
  let text := json_Encode data in
  fs' !! path_of f = Some (text ++ drop (length text) (default [] (fs !! path_of f))).

(** Saving one data set after another, under different names *)
Fixpoint save_all (file : nat → string) (data : nat → gmap string value) (n i : nat)
  : GoM files unit :=
  match n with
  | O => mret tt
  | S n => savetoFile (file i) (Ok (json_Encode (data i)));; save_all file data n (S i)
  end.

(** The number in a file name can be read off it. *)
Lemma list_ascii_app s t :
  String.list_ascii_of_string (s +:+ t) =
  String.list_ascii_of_string s ++ String.list_ascii_of_string t.
Proof. induction s as [|a s IH]; simpl; [done|]. by rewrite IH. Qed.

Lemma string_app_inv_tail (s1 s2 t : string) : s1 +:+ t = s2 +:+ t → s1 = s2.
Proof.
  intros H. apply (f_equal String.list_ascii_of_string) in H.
  rewrite !list_ascii_app in H. apply app_inv_tail in H.
  apply (f_equal String.string_of_list_ascii) in H.
  by rewrite !String.string_of_list_ascii_of_string in H.
Qed.

(** The names of the key files, apart from the directory *)
Definition key_name (i : nat) : string := ".node-key-" +:+ Itoa (Z.of_nat i) +:+ ".json".
Definition ts_key_name (i : nat) : string := ".node-ts-key-" +:+ Itoa (Z.of_nat i) +:+ ".json".

Lemma slash_free_app s t : slash_free s → slash_free t → slash_free (s +:+ t).
Proof. unfold slash_free. rewrite list_ascii_app. set_solver. Qed.

Lemma slash_free_Itoa i : slash_free (Itoa i).
Proof.
  assert (∀ d, slash_free (NilEmpty.string_of_uint d)) as Hd.
  { unfold slash_free. induction d; simpl; rewrite ?not_elem_of_cons; try (by split);
      apply not_elem_of_nil. }
  assert (∀ d, slash_free (NilZero.string_of_uint d)) as Hz.
  { intros d. unfold NilZero.string_of_uint. destruct d; try apply Hd.
    apply (bool_decide_unpack _). by vm_compute. }
  unfold Itoa. destruct (Z.to_int i); simpl; [apply Hz|]. unfold slash_free. simpl.
  rewrite not_elem_of_cons. split; [done|apply Hz].
Qed.

Lemma slash_free_name a i b :
  slash_free a → slash_free b → slash_free (a +:+ Itoa (Z.of_nat i) +:+ b).
Proof. intros Ha Hb. apply slash_free_app; [done|]. apply slash_free_app; [apply slash_free_Itoa|done]. Qed.

Lemma path_of_key_file path i : path_of (key_file path i) = dir_of path ++ [key_name i].
Proof.
  apply (path_of_file path (key_name i)); [|done].
  apply slash_free_name; apply (bool_decide_unpack _); by vm_compute.
Qed.

Lemma path_of_ts_key_file path i : path_of (ts_key_file path i) = dir_of path ++ [ts_key_name i].
Proof.
  apply (path_of_file path (ts_key_name i)); [|done].
  apply slash_free_name; apply (bool_decide_unpack _); by vm_compute.
Qed.

Lemma key_file_inj path i j : path_of (key_file path i) = path_of (key_file path j) → i = j.
Proof.
  rewrite !path_of_key_file. intros [= H]%(inj (app _)). unfold key_name in H.
  apply (inj _), string_app_inv_tail, (inj _) in H. lia.
Qed.

Lemma ts_key_file_inj path i j : path_of (ts_key_file path i) = path_of (ts_key_file path j) → i = j.
Proof.
  rewrite !path_of_ts_key_file. intros [= H]%(inj (app _)). unfold ts_key_name in H.
  apply (inj _), string_app_inv_tail, (inj _) in H. lia.
Qed.

Section laws.
Context {JL : JsonMapLaw}.

Lemma save_all_saved file data n i fs :
  (∀ j k, path_of (file j) = path_of (file k) → j = k) →
  ∃ fs', save_all file data n i fs = Returns tt fs' ∧
    (∀ k, (i <= k < i + n)%nat → saved fs fs' (file k) (data k)) ∧
    (∀ f, (∀ k, (i <= k < i + n)%nat → f ≠ path_of (file k)) → fs' !! f = fs !! f).
Proof.
  intros Hinj. revert i fs. induction n as [|n IH]; intros i fs; simpl.
  { exists fs. split_and!; [done|lia|done]. }
  unfold mbind, GoM_bind, savetoFile, modify. set (fs1 := insert _ _ fs).
  destruct (IH (S i) fs1) as (fs' & Hrun & Hin & Hout). exists fs'. split_and!; [done| |].
  - intros k Hk. unfold saved. destruct (decide (k = i)) as [->|].
    + rewrite Hout; [apply lookup_insert_eq|]. intros k' Hk' He. apply Hinj in He. lia.
    + rewrite (Hin k) by lia. unfold fs1. rewrite lookup_insert_ne; [done|].
      intros He. apply Hinj in He. lia.
  - intros f Hf. rewrite Hout by (intros; apply Hf; lia). unfold fs1.
    rewrite lookup_insert_ne; [done|]. intros He. by apply (Hf i); [lia|].
Qed.

Lemma saved_holds fs fs' f data : plain data → saved fs fs' f data → holds_data fs' f data.
Proof. intros Hp Hs. eexists. split; [exact Hs|by apply json_round_trip]. Qed.

(** In a new file there is nothing else. *)
Lemma saved_fresh fs fs' f data :
  fs !! path_of f = None → saved fs fs' f data → fs' !! path_of f = Some (json_Encode data).
Proof. unfold saved. intros -> ->. cbn [default from_option]. by rewrite drop_nil, app_nil_r. Qed.

Lemma readFromFile_holds fs f data :
  holds_data fs f data → readFromFile f fs = Returns (Ok data) fs.
Proof. intros (text & Hf & Hd). unfold readFromFile. by rewrite Hf, Hd. Qed.

Lemma GenerateKeyFiles_save gen path n i :
  GenerateKeyFiles_loop gen path n i =
  save_all (key_file path) (λ i, key_data (gen i).1 (gen i).2) n i.
Proof.
  revert i. induction n as [|n IH]; intros i; [done|]. simpl.
  destruct (gen i) as [pri pub] eqn:Hg. simpl. by rewrite IH.
Qed.

Lemma plain_key_data pri pub :
  Forall is_byte pri → Forall is_byte pub → plain (key_data pri pub).
Proof.
  intros Hpri Hpub. unfold plain, key_data.
  apply map_Forall_insert_2; [|apply map_Forall_insert_2; [|apply map_Forall_empty]];
    (split; [plain_literal|]); simpl;
    apply plain_string_of_bytes; by apply hex_ascii.
Qed.

(** ** Key files *)

Lemma GenKeysFromFile_holds fs f pri pub :
  Forall is_byte pri → Forall is_byte pub → holds_data fs f (key_data pri pub) →
  GenKeysFromFile f fs = Returns (Ok (pub, mkPrivateKey pri)) fs.
Proof.
  intros Hpri Hpub Hf. unfold GenKeysFromFile, mbind, GoM_bind.
  rewrite (readFromFile_holds fs f (key_data pri pub)) by done.
  rewrite (string_field_ok _ "public" (string_of_bytes (EncodePublicKey pub))) by reflexivity.
  rewrite (string_field_ok _ "private"
    (string_of_bytes (EncodePrivateKey (mkPrivateKey pri)))) by reflexivity.
  rewrite !bytes_of_string_of_bytes by (apply is_ascii_byte; by apply hex_ascii).
  unfold DecodePublicKey, DecodePrivateKey, EncodePublicKey, EncodePrivateKey. simpl.
  by rewrite !hex_round_trip.
Qed.

Context {KL : KyberKeysLaws} {LP : JsonStructLaw TSPartialMarshalled}
  {LM : JsonStructLaw TSPublicMarshalled}.

Lemma GenerateTsKeyFiles_save shares pub N T path n i d :
  (i + n <= length shares)%nat →
  GenerateTsKeyFiles_loop shares pub N T path n i =
  save_all (ts_key_file path) (λ i, ts_key_data (nth i shares d) pub N T) n i.
Proof.
  revert i. induction n as [|n IH]; intros i Hi; [done|]. simpl.
  destruct (lookup_lt_is_Some_2 shares i) as [share Hs]; [lia|].
  rewrite Hs, IH by lia. by rewrite (nth_lookup_Some _ _ _ _ Hs).
Qed.

Lemma partial_text share :
  plain_string (text_of (EncodeTSPartialKey share)) ∧
  DecodeTSPartialKey (bytes_of_string (text_of (EncodeTSPartialKey share))) = Ok share.
Proof.
  destruct (partial_key_text share) as (data & He & Ha & Hd). unfold text_of. rewrite He.
  split; [by apply plain_string_of_bytes|].
  rewrite bytes_of_string_of_bytes by by apply is_ascii_byte.
  rewrite <-(app_nil_r data). apply Hd.
Qed.

Lemma public_text pub :
  plain_string (text_of (EncodeTSPublicKey pub)) ∧
  DecodeTSPublicKey (bytes_of_string (text_of (EncodeTSPublicKey pub))) = Ok pub.
Proof.
  destruct (public_key_text pub) as (data & He & Ha & Hd). unfold text_of. rewrite He.
  split; [by apply plain_string_of_bytes|].
  rewrite bytes_of_string_of_bytes by by apply is_ascii_byte.
  rewrite <-(app_nil_r data). apply Hd.
Qed.

Lemma plain_ts_key_data share pub N T :
  exact N → exact T → plain (ts_key_data share pub N T).
Proof.
  intros HN HT. unfold plain, ts_key_data.
  repeat (apply map_Forall_insert_2; [split; [plain_literal|]|]); [done|done| | |].
  - apply public_text.
  - apply partial_text.
  - apply map_Forall_empty.
Qed.

Lemma GenTsKeyFromFile_holds fs f share pub N T :
  holds_data fs f (ts_key_data share pub N T) →
  GenTsKeyFromFile f fs = Returns (Ok (mkSecretShareKey pub share N T)) fs.
Proof.
  intros Hf. unfold GenTsKeyFromFile, mbind, GoM_bind.
  rewrite (readFromFile_holds fs f (ts_key_data share pub N T)) by done.
  rewrite (string_field_ok _ "share" (text_of (EncodeTSPartialKey share))) by reflexivity.
  rewrite (string_field_ok _ "pub" (text_of (EncodeTSPublicKey pub))) by reflexivity.
  rewrite (number_field_ok _ "N" N), (number_field_ok _ "T" T) by reflexivity.
  by rewrite (proj2 (partial_text share)), (proj2 (public_text pub)).
Qed.

Lemma key_files_apart path i j : path_of (key_file path i) ≠ path_of (ts_key_file path j).
Proof. rewrite path_of_key_file, path_of_ts_key_file. by intros [= H]%(inj (app _)). Qed.

(** ** The committee file *)

(** The file of a committee: for each member its key and its two addresses, and perhaps
    fields that are not read. *)
Section extra.
Context (extra : Authority → gmap string scalar).

Definition member_entry (a : Authority) : value :=
  JObject (<["mempool_addr" := SString (au_MempoolAddr a)]>
    (<["addr" := SString (au_Addr a)]>
    (<["name" := SString (string_of_bytes (EncodePublicKey (au_Name a)))]> (extra a)))).

Definition committee_data (c : Committee) : gmap string value :=
  kmap Itoa (member_entry <$> Authorities c).

(** A member that a file can describe *)
Definition proper_member (id : NodeID) (a : Authority) : Prop :=
  in_int64 id ∧ au_Id a = id ∧ Forall is_byte (au_Name a) ∧
  plain_string (au_Addr a) ∧ plain_string (au_MempoolAddr a).

Lemma plain_digits d : plain_string (NilEmpty.string_of_uint d).
Proof.
  unfold plain_string. induction d; simpl; try constructor; try done; unfold is_ascii; simpl; lia.
Qed.

Lemma plain_Itoa i : plain_string (Itoa i).
Proof.
  unfold Itoa. assert (∀ d, plain_string (NilZero.string_of_uint d)) as Hd.
  { intros d. unfold NilZero.string_of_uint. destruct d; try apply plain_digits. plain_literal. }
  destruct (Z.to_int i) as [d|d]; simpl; [apply Hd|].
  unfold plain_string. simpl. constructor; [unfold is_ascii; simpl; lia|apply Hd].
Qed.

Lemma plain_committee_data c :
  (∀ id a, Authorities c !! id = Some a → map_Forall (λ k v, plain_string k ∧ plain_scalar v) (extra a)) →
  map_Forall proper_member (Authorities c) → plain (committee_data c).
Proof.
  intros He Hc k v Hk. apply lookup_kmap_Some in Hk as (id & -> & Hv); [|apply _].
  apply lookup_fmap_Some in Hv as (a & <- & Ha).
  destruct (Hc _ _ Ha) as (_ & _ & Hn & Haddr & Hm).
  split; [apply plain_Itoa|]. simpl.
  repeat (apply map_Forall_insert_2; [split; [plain_literal|]|]); simpl; try done.
  - by apply plain_string_of_bytes, hex_ascii.
  - by eapply He.
Qed.

Lemma read_member_entry id a m fs :
  proper_member id a →
  read_member (Itoa id) (member_entry a) m fs = Returns (<[id := a]> m) fs.
Proof.
  intros (Hid & Hi & Hn & _ & _). unfold read_member, member_entry, mbind, GoM_bind.
  rewrite (inner_string_ok _ "name" (string_of_bytes (EncodePublicKey (au_Name a))))
    by (by simplify_map_eq).
  rewrite (inner_string_ok _ "addr" (au_Addr a)), (inner_string_ok _ "mempool_addr"
    (au_MempoolAddr a)) by (by simplify_map_eq).
  rewrite bytes_of_string_of_bytes by by apply is_ascii_byte, hex_ascii.
  unfold DecodePublicKey, EncodePublicKey. rewrite hex_round_trip, Atoi_Itoa by done.
  subst id. by destruct a.
Qed.

(** The loop inserts the members one by one. *)
Lemma read_members_entries (l : list (NodeID * Authority)) m fs :
  Forall (λ p, proper_member p.1 p.2) l → NoDup l.*1 →
  (∀ id, id ∈ l.*1 → m !! id = None) →
  read_members (map (λ p, (Itoa p.1, member_entry p.2)) l) m fs =
  Returns (list_to_map l ∪ m) fs.
Proof.
  intros Hl. revert m. induction Hl as [|[id a] l Hp _ IH]; intros m Hnd Hm.
  { simpl. by rewrite (left_id_L ∅ (∪)). }
  simpl in Hp. rewrite fmap_cons in Hnd, Hm. simpl in Hnd, Hm.
  apply NoDup_cons in Hnd as [Hid Hnd]. cbn [map read_members fst snd]. unfold mbind, GoM_bind.
  rewrite read_member_entry, IH; [|done| |done].
  - f_equal. rewrite <-insert_union_r; [by rewrite insert_union_l|].
    apply not_elem_of_list_to_map_1. done.
  - intros j Hj. rewrite lookup_insert_ne by (intros ->; done). apply Hm. set_solver.
Qed.

Lemma committee_items c :
  map_to_list (committee_data c) ≡ₚ
  map (λ p, (Itoa p.1, member_entry p.2)) (map_to_list (Authorities c)).
Proof.
  unfold committee_data. rewrite map_to_list_kmap, map_to_list_fmap by apply _.
  rewrite <-list_fmap_compose. apply reflexive_eq, list_fmap_ext. by intros ? [].
Qed.
End extra.

(** From the file [f] the program reads the committee [c]. *)
Definition holds_committee (fs : files) (f : string) (c : Committee) : Prop :=
  ∃ extra, holds_data fs f (committee_data extra c).

(** What the two generators leave behind *)
Lemma generated_files gen shares pub pairs N T (path : string) (fs : files) :
  length shares = Z.to_nat N →
  ∃ fs1 fs2,
    GenerateKeyFiles gen pairs path fs = Returns tt fs1 ∧
    GenerateTsKeyFiles shares pub N T path fs1 = Returns tt fs2 ∧
    (∀ i, (i < Z.to_nat pairs)%nat →
       saved fs fs1 (key_file path i) (key_data (gen i).1 (gen i).2)) ∧
    (∀ i share, shares !! i = Some share →
       saved fs fs2 (ts_key_file path i) (ts_key_data share pub N T)) ∧
    (∀ f, (∀ i, f ≠ path_of (key_file path i)) → fs1 !! f = fs !! f) ∧
    (∀ f, (∀ i, f ≠ path_of (ts_key_file path i)) → fs2 !! f = fs1 !! f).
Proof.
  intros Hlen. unfold GenerateKeyFiles, GenerateTsKeyFiles. rewrite GenerateKeyFiles_save.
  destruct (save_all_saved (key_file path) (λ i, key_data (gen i).1 (gen i).2)
    (Z.to_nat pairs) 0 fs (key_file_inj path)) as (fs1 & Hrun1 & Hin1 & Hout1).
  exists fs1. rewrite Hrun1. destruct shares as [|d shares'].
  { simpl in Hlen. rewrite <-Hlen. exists fs1. split_and!; try done.
    - intros i Hi. apply Hin1. lia.
    - intros f Hf. apply Hout1. intros k _. apply Hf. }
  rewrite (GenerateTsKeyFiles_save (d :: shares') pub N T path _ 0 d) by (rewrite Hlen; lia).
  destruct (save_all_saved (ts_key_file path)
    (λ i, ts_key_data (nth i (d :: shares') d) pub N T) (Z.to_nat N) 0 fs1
    (ts_key_file_inj path)) as (fs2 & Hrun2 & Hin2 & Hout2).
  exists fs2. split_and!; [done|done| | | |].
  - intros i Hi. apply Hin1. lia.
  - intros i share Hs. rewrite <-(nth_lookup_Some _ _ d _ Hs). unfold saved.
    rewrite Hin2 by (apply lookup_lt_Some in Hs; lia).
    rewrite Hout1 by (intros k _; apply not_eq_sym, key_files_apart). done.
  - intros f Hf. apply Hout1. intros k _. apply Hf.
  - intros f Hf. apply Hout2. intros k _. apply Hf.
Qed.

Lemma generated_hold gen (shares : list PriShare) pub pairs N T path (fs fs1 fs2 : files) :
  (∀ i, Forall is_byte (gen i).1 ∧ Forall is_byte (gen i).2) → exact N → exact T →
  (∀ i, (i < Z.to_nat pairs)%nat →
     saved fs fs1 (key_file path i) (key_data (gen i).1 (gen i).2)) →
  (∀ i share, shares !! i = Some share →
     saved fs fs2 (ts_key_file path i) (ts_key_data share pub N T)) →
  (∀ f, (∀ i, f ≠ path_of (ts_key_file path i)) → fs2 !! f = fs1 !! f) →
  (∀ i, (i < Z.to_nat pairs)%nat →
     holds_data fs2 (key_file path i) (key_data (gen i).1 (gen i).2)) ∧
  (∀ i share, shares !! i = Some share →
     holds_data fs2 (ts_key_file path i) (ts_key_data share pub N T)).
Proof.
  intros Hgen HN HT H1 H2 Hout. split.
  - intros i Hi. destruct (saved_holds fs fs1 (key_file path i) (key_data (gen i).1 (gen i).2))
      as (text & Hf & Hd); [by apply plain_key_data; apply Hgen|auto|].
    exists text. rewrite Hout by (intros k; apply key_files_apart). done.
  - intros i share Hs. eapply saved_holds; [by apply plain_ts_key_data|eauto].
Qed.

(** Key files: the files that [GenerateKeyFiles] and [GenerateTsKeyFiles] write,
    over whatever files were there before, are read back by [GenKeysFromFile] and
    [GenTsKeyFromFile] as exactly the keys that were generated, for every node. *)
Theorem key_files_round_trip gen shares pub pairs N T path (fs : files) :
  (∀ i, Forall is_byte (gen i).1 ∧ Forall is_byte (gen i).2) →
  exact N → exact T → length shares = Z.to_nat N →
  ∃ fs1 fs2,
    GenerateKeyFiles gen pairs path fs = Returns tt fs1 ∧
    GenerateTsKeyFiles shares pub N T path fs1 = Returns tt fs2 ∧
    (∀ i, (i < Z.to_nat pairs)%nat →
       GenKeysFromFile (key_file path i) fs2 =
         Returns (Ok ((gen i).2, mkPrivateKey (gen i).1)) fs2) ∧
    (∀ i share, shares !! i = Some share →
       GenTsKeyFromFile (ts_key_file path i) fs2 =
         Returns (Ok (mkSecretShareKey pub share N T)) fs2).
Proof.
  intros Hgen HN HT Hlen.
  destruct (generated_files gen shares pub pairs N T path fs Hlen)
    as (fs1 & fs2 & Hrun1 & Hrun2 & H1 & H2 & _ & Hout).
  destruct (generated_hold gen shares pub pairs N T path fs fs1 fs2) as [Hk Hts]; try done.
  exists fs1, fs2. split_and!; [done|done| |].
  - intros i Hi. apply GenKeysFromFile_holds; try apply Hgen. by apply Hk.
  - intros i share Hs. apply GenTsKeyFromFile_holds. by apply Hts.
Qed.

Lemma GenCommitteeFromFile_holds range c f (fs : files) :
  (∀ m, range m ≡ₚ map_to_list m) → map_Forall proper_member (Authorities c) →
  holds_committee fs f c →
  GenCommitteeFromFile range f fs = Returns (Ok c) fs.
Proof.
  intros Hrange Hc (extra & Hf). unfold GenCommitteeFromFile, mbind, GoM_bind.
  rewrite (readFromFile_holds fs f (committee_data extra c)) by done.
  assert (range (committee_data extra c) ≡ₚ
    map (λ p, (Itoa p.1, member_entry extra p.2)) (map_to_list (Authorities c))) as Hperm
    by by rewrite Hrange, committee_items.
  apply Permutation_map_inv in Hperm as (l & Hl & Hp).
  rewrite Hl, read_members_entries.
  - rewrite (right_id_L ∅ (∪)). simpl. destruct c as [A]. simpl in *.
    rewrite <-(list_to_map_proper (map_to_list A) l), list_to_map_to_list; [done| |done].
    apply NoDup_fst_map_to_list.
  - rewrite <-Hp. apply map_Forall_to_list in Hc. eapply Forall_impl; [exact Hc|]. by intros [].
  - rewrite <-Hp. apply NoDup_fst_map_to_list.
  - intros id _. apply lookup_empty.
Qed.

(** The committee file: from a file that lists a committee's members with their
    keys and addresses, in whatever order they are visited and whatever follows
    in the file, [GenCommitteeFromFile] builds exactly this committee. *)
Theorem committee_file_read range extra c f rest (fs : files) :
  (∀ m, range m ≡ₚ map_to_list m) → map_Forall proper_member (Authorities c) →
  (∀ id a, Authorities c !! id = Some a → map_Forall (λ k v, plain_string k ∧ plain_scalar v) (extra a)) →
  fs !! path_of f = Some (json_Encode (committee_data extra c) ++ rest) →
  GenCommitteeFromFile range f fs = Returns (Ok c) fs.
Proof.
  intros Hrange Hc He Hf. apply GenCommitteeFromFile_holds; [done|done|].
  exists extra. eexists. split; [exact Hf|]. by apply json_round_trip, plain_committee_data.
Qed.

(** ** The default committee *)

Definition port_authorities (port : Z) (names : nat → list byte) (n : nat)
  : gmap NodeID Authority :=
  list_to_map (map (λ i, (Z.of_nat i, port_member port (names i) n i)) (seq 0 n)).

Definition default_authorities (gen : nat → list byte * list byte) (n : nat)
  : gmap NodeID Authority := port_authorities DefaultPort (λ i, (gen i).2) n.

Lemma NoDup_numbered {A} (g : nat → A) n : NoDup (map (λ i, (Z.of_nat i, g i)) (seq 0 n)).*1.
Proof.
  rewrite <-list_fmap_compose. apply NoDup_fmap_2; [|apply NoDup_seq].
  intros i j H. simpl in H. lia.
Qed.

Lemma lookup_numbered {A} (g : nat → A) n id a :
  (list_to_map (map (λ i, (Z.of_nat i, g i)) (seq 0 n)) : gmap Z A) !! id = Some a ↔
  ∃ i, (i < n)%nat ∧ id = Z.of_nat i ∧ a = g i.
Proof.
  rewrite <-elem_of_list_to_map by apply NoDup_numbered.
  rewrite list_elem_of_fmap. setoid_rewrite elem_of_seq. split.
  - intros (i & [= -> ->] & Hi). exists i. split_and!; [lia|done|done].
  - intros (i & Hi & -> & ->). exists i. split; [done|lia].
Qed.

Lemma lookup_port_authorities port names n id a :
  port_authorities port names n !! id = Some a ↔
  ∃ i, (i < n)%nat ∧ id = Z.of_nat i ∧ a = port_member port (names i) n i.
Proof. apply lookup_numbered. Qed.

Lemma size_port_authorities port names n : size (port_authorities port names n) = n.
Proof.
  unfold port_authorities.
  rewrite map_size_list_to_map by apply NoDup_numbered. by rewrite length_map, length_seq.
Qed.

Lemma lookup_default_authorities gen n id a :
  default_authorities gen n !! id = Some a ↔
  ∃ i, (i < n)%nat ∧ id = Z.of_nat i ∧ a = default_member (gen i).2 n i.
Proof. apply lookup_port_authorities. Qed.

Lemma size_default_authorities gen n : size (default_authorities gen n) = n.
Proof. apply size_port_authorities. Qed.

Lemma default_share_keys (shares : list PriShare) pub N T n i :
  (i + n <= length shares)%nat →
  ∃ ks, mapM (λ i, share ← shares !! i; Some (mkSecretShareKey pub share N T)) (seq i n) = Some ks ∧
    length ks = n ∧ Forall (λ k, ssk_T k = T ∧ ssk_N k = N ∧ ssk_PubPoly k = pub) ks.
Proof.
  revert i. induction n as [|n IH]; intros i Hi; [by exists []|]. simpl.
  destruct (lookup_lt_is_Some_2 shares i) as [share Hs]; [lia|]. rewrite Hs. simpl.
  destruct (IH (S i)) as (ks & -> & Hl & Hf); [lia|]. simpl.
  eexists. split_and!; [done|simpl; by rewrite Hl|]. by constructor.
Qed.

(** The default committee of [n] nodes is sound: its members are [0 .. n-1], no
    two of the [2n] addresses coincide, every private key belongs to the public key
    of its member, and the share keys are [n] shares of one polynomial whose
    threshold is the committee's [HightThreshold]. *)
Theorem default_committee_sound gen ts n :
  (∀ i, keypair (gen i).2 (gen i).1) → (∀ t m, length (ts t m).1 = Z.to_nat m) →
  ∃ c pris shs, GenDefaultCommittee gen ts n = Some (c, pris, shs) ∧
    Committee_Size c = Z.of_nat n ∧
    (∀ id, id ∈ members c ↔ 0 <= id < Z.of_nat n) ∧
    (∀ i j a b, Authorities c !! i = Some a → Authorities c !! j = Some b →
       (au_Addr a = au_Addr b → i = j) ∧ (au_MempoolAddr a = au_MempoolAddr b → i = j) ∧
       au_Addr a ≠ au_MempoolAddr b) ∧
    (∀ i k, pris !! i = Some k → keypair (Committee_Name c (Z.of_nat i)) (Prikey k)) ∧
    length pris = n ∧ length shs = n ∧
    Forall (λ k, ssk_T k = Committee_HightThreshold c ∧ ssk_N k = Z.of_nat n ∧
                 ssk_PubPoly k = (ts (Committee_HightThreshold c) (Z.of_nat n)).2) shs.
Proof.
  intros Hkeys Hts. unfold GenDefaultCommittee.
  change (list_to_map (map _ (seq 0 n))) with (default_authorities gen n). set (c := mkCommittee (default_authorities gen n)).
  specialize (Hts (Committee_HightThreshold c) (Z.of_nat n)).
  destruct (ts (Committee_HightThreshold c) (Z.of_nat n)) as [shares pub] eqn:Hp. simpl in Hts.
  destruct (default_share_keys shares pub (Z.of_nat n) (Committee_HightThreshold c) n 0)
    as (ks & Hks & Hlen & Hall); [lia|].
  rewrite Hks. do 3 eexists. split; [reflexivity|]. rewrite Hp.
  split; [|split; [|split; [|split; [|split; [by rewrite length_map, length_seq|done]]]]].
  - unfold Committee_Size. simpl. by rewrite size_default_authorities.
  - intros id. unfold members. rewrite elem_of_dom. unfold is_Some. simpl.
    setoid_rewrite lookup_default_authorities. split.
    + intros (a & i & Hi & -> & _). lia.
    + intros Hid. eexists _, (Z.to_nat id). split_and!; [lia|lia|done].
  - intros i j a b (i' & Hi & -> & ->)%lookup_default_authorities
      (j' & Hj & -> & ->)%lookup_default_authorities. simpl. split_and!.
    + intros H%(inj _)%(inj _). lia.
    + intros H%(inj _)%(inj _). lia.
    + intros H%(inj _)%(inj _). lia.
  - intros i k Hk. apply list_lookup_fmap_Some in Hk as (i' & -> & Hi').
    apply lookup_seq in Hi' as [-> Hlt]. simpl. unfold Committee_Name. simpl.
    assert (default_authorities gen n !! Z.of_nat i = Some (default_member (gen i).2 n i)) as ->;
      [|apply Hkeys].
    apply lookup_default_authorities. eauto.
Qed.

(** ** The sample files *)

Lemma plain_app s t : plain_string s → plain_string t → plain_string (s +:+ t).
Proof.
  unfold plain_string, bytes_of_string. rewrite list_ascii_app, map_app, Forall_app. done.
Qed.

Lemma plain_sample_data gen n :
  (n <= 100)%nat → (∀ i, Forall is_byte (gen i).2) →
  plain (kmap Itoa (sample_entry <$> default_authorities gen n)).
Proof.
  intros Hn Hgen k v Hk. apply lookup_kmap_Some in Hk as (id & -> & Hv); [|apply _].
  apply lookup_fmap_Some in Hv as (a & <- & (i & Hi & -> & ->)%lookup_default_authorities).
  split; [apply plain_Itoa|]. simpl.
  repeat (apply map_Forall_insert_2; [split; [plain_literal|]|]); simpl; try done.
  - apply (plain_app "127.0.0.1:"); [plain_literal|apply plain_Itoa].
  - unfold exact. lia.
  - apply plain_string_of_bytes, hex_ascii, Hgen.
Qed.

(** An entry without [mempool_addr] ends the reading. *)
Lemma read_sample_entry k a m fs :
  read_member k (sample_entry a) m fs = Crash "interface conversion".
Proof.
  unfold read_member, sample_entry, mbind, GoM_bind.
  rewrite (inner_string_ok _ "name" (string_of_bytes (EncodePublicKey (au_Name a))))
    by reflexivity.
  by rewrite (inner_string_ok _ "addr" (au_Addr a)) by reflexivity.
Qed.

(** The sample files: the parameters that are generated are read back as the default
    parameters, but the committee that is generated cannot be read: its entries
    have no [mempool_addr], and the type assertion on it panics. *)
Theorem sample_files {LC : JsonStructLaw ConfigParameters} range gen ts (fs : files) :
  (∀ m, range m ≡ₚ map_to_list m) → (∀ i, Forall is_byte (gen i).2) →
  (∀ t m, length (ts t m).1 = Z.to_nat m) →
  ∃ fs1 fs2, GenerateSampleParameters fs = Returns tt fs1 ∧
    GenParamatersFromFile "./.parameters.json" fs1 =
      Returns (Ok (DefaultPoolParameters, DefaultParameters)) fs1 ∧
    GenerateSmapleCommittee gen ts fs1 = Returns tt fs2 ∧
    GenCommitteeFromFile range "./.committee.json" fs2 = Crash "interface conversion".
Proof.
  intros Hrange Hgen Hts.
  destruct (js_round_trip GenDefaultParameters) as (text & He & _ & Hd).
  unfold GenerateSampleParameters, GenParamatersFromFile, savetoFile, modify. rewrite He.
  eexists. set (fs1 := insert _ _ fs). unfold GenerateSmapleCommittee, GenDefaultCommittee.
  change (list_to_map (map _ (seq 0 4))) with (default_authorities gen 4). set (c := mkCommittee (default_authorities gen 4)).
  specialize (Hts (Committee_HightThreshold c) 4). change (Z.of_nat 4) with 4.
  destruct (ts (Committee_HightThreshold c) 4) as [shares pub]. simpl in Hts.
  destruct (default_share_keys shares pub 4 (Committee_HightThreshold c) 4 0)
    as (ks & Hks & _); [simpl; lia|].
  rewrite Hks. eexists. split_and!; [reflexivity| |reflexivity|].
  { unfold fs1. rewrite lookup_insert_eq. by rewrite Hd. }
  unfold GenCommitteeFromFile, mbind, GoM_bind.
  rewrite (readFromFile_holds _ _ (kmap Itoa (sample_entry <$> default_authorities gen 4))).
  2: { eexists. split; [by rewrite lookup_insert_eq|]. apply json_round_trip, plain_sample_data; [lia|done]. }
  destruct (range _) as [|[k v] items] eqn:Hr.
  - pose proof (Hrange (kmap Itoa (sample_entry <$> default_authorities gen 4))) as Hp.
    rewrite Hr, map_to_list_kmap in Hp by apply _. apply Permutation_length in Hp.
    rewrite length_fmap, length_map_to_list, map_size_fmap, size_default_authorities in Hp.
    done.
  - assert ((k, v) ∈ map_to_list (kmap Itoa (sample_entry <$> default_authorities gen 4))) as Hin.
    { rewrite <-Hrange, Hr. apply list_elem_of_here. }
    apply elem_of_map_to_list, lookup_kmap_Some in Hin as (id & -> & Hv); [|apply _].
    apply lookup_fmap_Some in Hv as (a & <- & _). cbn [read_members].
    unfold mbind, GoM_bind. by rewrite read_sample_entry.
Qed.
End laws.
End config.
