(* ===== verification/Boot.v ===== *)
(** * Starting a node (src/main.go, src/node/node.go, src/logger)

    A command of the program works on the files of its machine; [run] reads the
    configuration, sets up the log files and opens the database.  What follows, the
    wait for the other members, is in Cluster.v.

    The theorem: from the files that the commands [keys] and [threshold_keys] write a
    node gets its own keys, and the core starts with them.  The lemma [init_log_spec]:
    the logs of a level go to their file exactly when the level is on. *)

From stdpp Require Import base gmap list strings.
From S2P Require Import Prelude Committee Crypto Message Pool Store NutsDB TsKeys.
From S2P Require Import Config Synchronizer Port Mempool Core Node.

(** ** Logger *)

(** Where a log goes *)
Inductive Writer : Type :=
  | Stdout
  | DiscardWriter
  | FileWriter (path : string).

Definition InfoLevel : Z := 1.
Definition DebugLevel : Z := 2.
Definition ErrorLevel : Z := 4.
Definition WarnLevel : Z := 8.

Definition TestLevel : Z := Z.lor InfoLevel (Z.lor DebugLevel (Z.lor ErrorLevel WarnLevel)).
Definition DeployLevel : Z := Z.lor InfoLevel (Z.lor ErrorLevel WarnLevel).

Definition LevelNum : nat := 4.

(** The package variables [out] and, for each of [logs], its output *)
Record Loggers : Type := mkLoggers { lg_out : list Writer; lg_logs : list Writer }.

Definition Loggers_init : Loggers := mkLoggers (replicate LevelNum Stdout) (replicate LevelNum Stdout).

(** [((level >> i) & 1) == 1] *)
Definition level_on (level : Z) (i : nat) : bool :=
  bool_decide (Z.land (Z.shiftr level (Z.of_nat i)) 1 = 1).

Definition SetLevel_turn (level : Z) (l : Loggers) (i : nat) : Loggers :=
  if level_on level i then mkLoggers (lg_out l) (<[i := default Stdout (lg_out l !! i)]> (lg_logs l))
  else mkLoggers (lg_out l) (<[i := DiscardWriter]> (lg_logs l)).

Definition SetLevel (level : Z) (l : Loggers) : Loggers :=
  foldl (SetLevel_turn level) l (seq 0 LevelNum).

Definition SetOutput_turn (level : Z) (w : Writer) (l : Loggers) (i : nat) : Loggers :=
  if level_on level i then mkLoggers (<[i := w]> (lg_out l)) (<[i := w]> (lg_logs l)) else l.

Definition SetOutput (level : Z) (w : Writer) (l : Loggers) : Loggers :=
  foldl (SetOutput_turn level w) l (seq 0 LevelNum).

(** A level is a set of bits. *)
Lemma level_on_testbit level i : level_on level i = Z.testbit level (Z.of_nat i).
Proof.
  unfold level_on. change (Z.land ?x 1) with (Z.land x (Z.ones 1)).
  rewrite Z.land_ones, Z.shiftr_div_pow2 by lia. change (2 ^ 1) with 2.
  rewrite <-(Z.testbit_spec' level (Z.of_nat i)) by lia. by destruct (Z.testbit _ _).
Qed.

Definition log_target (level : Z) (i : nat) (w : Writer) : Writer :=
  if Z.testbit level (Z.of_nat i) then w else DiscardWriter.

Lemma SetLevel_logs level a b c d logs :
  length logs = LevelNum →
  SetLevel level (mkLoggers [a; b; c; d] logs) =
  mkLoggers [a; b; c; d]
    [log_target level 0 a; log_target level 1 b; log_target level 2 c; log_target level 3 d].
Proof.
  intros Hl. do 5 (destruct logs as [|? logs]; try done). unfold SetLevel, SetLevel_turn.
  cbn [foldl seq LevelNum]. rewrite !level_on_testbit. unfold log_target.
  by destruct (Z.testbit level (Z.of_nat 0)), (Z.testbit level (Z.of_nat 1)),
    (Z.testbit level (Z.of_nat 2)), (Z.testbit level (Z.of_nat 3)).
Qed.

Lemma SetOutput_one a b c d logs w i :
  (i < LevelNum)%nat → length logs = LevelNum →
  SetOutput (2 ^ Z.of_nat i) w (mkLoggers [a; b; c; d] logs) =
  mkLoggers (<[i := w]> [a; b; c; d]) (<[i := w]> logs).
Proof.
  intros Hi Hl. do 5 (destruct logs as [|? logs]; try done).
  do 4 (destruct i as [|i]; [reflexivity|]). unfold LevelNum in Hi. lia.
Qed.

(** ** One machine *)

(** The files of the process and its loggers *)
Record machine : Type := mkMachine { mc_files : files; mc_log : Loggers }.

Definition in_files {A} (m : GoM files A) : GoM machine A := λ s,
  match m (mc_files s) with
  | Returns a fs => Returns a (mkMachine fs (mc_log s))
  | Crash why => Crash why
  end.

Section boot.
Context {CL : CryptoLib} {J : JsonMap} {K : KyberKeys} {JP : JsonStruct TSPartialMarshalled}.
Context {JM : JsonStruct TSPublicMarshalled} {JC : JsonStruct ConfigParameters}.
Context {NU : Nuts} {NL : NutsLaws}.
(** [creatable path] says whether [path] can be opened for writing; [range] is the
    order in which the members of a committee file are visited. *)
Context (creatable : string → bool) (range : gmap string value → list (string * value)).

(** A file that does not exist is created, one that does is not truncated. *)
Definition NewFileWriter (path : string) : GoM machine Writer := λ s,
  if creatable path then
    Returns (FileWriter path)
      (mkMachine (<[path_of path := default [] (mc_files s !! path_of path)]> (mc_files s)) (mc_log s))
  else Crash "open".

Definition log_file (logPath kind : string) (nodeID : Z) : string :=
  logPath +:+ "/node-" +:+ kind +:+ "-" +:+ Itoa nodeID +:+ ".log".

Definition set_log (f : Loggers → Loggers) : GoM machine unit :=
  modify (λ s, mkMachine (mc_files s) (f (mc_log s))).

(** Step 1 of [NewNode] *)
Definition init_log (logPath : string) (logLevel nodeID : Z) : GoM machine unit :=
  info ← NewFileWriter (log_file logPath "info" nodeID);
  set_log (SetOutput InfoLevel info);;
  debug ← NewFileWriter (log_file logPath "debug" nodeID);
  set_log (SetOutput DebugLevel debug);;
  warn ← NewFileWriter (log_file logPath "warn" nodeID);
  set_log (SetOutput WarnLevel warn);;
  error ← NewFileWriter (log_file logPath "error" nodeID);
  set_log (SetOutput ErrorLevel error);;
  set_log (SetLevel logLevel).

(** What [NewNode] has before it starts the mempool and the consensus *)
Record Starter : Type := mkStarter {
  sr_committee : Committee;
  sr_parameters : Parameters;
  sr_txpool : txQueue;
  sr_store : Store;
  sr_sigService : SigService
}.

(** [NewPool]: the queue is allocated with [make]. *)
Definition make_pool (poolParameters : PoolParameters) (N Id : Z) : GoM machine txQueue :=
  if decide (pp_MaxQueueSize poolParameters < 0) then panic "makeslice: len out of range"
  else mret (NewPool poolParameters N Id).

(** [NewDefaultNutsDB] as a step of the process *)
Definition open_store (storePath : string) : GoM machine Store := λ s,
  match NutsDB_open storePath with
  | None => Crash "nutsdb"
  | Some db => Returns (NewStore db) s
  end.

(** [NewNode] up to the start of the mempool *)
Definition NewNode_load (keysFile tssKeyFile committeeFile parametersFile storePath logPath : string)
    (logLevel nodeID : Z) : GoM machine (result Starter) :=
  init_log logPath logLevel nodeID;;
  keys ← in_files (GenKeysFromFile keysFile);
  match keys with
  | Err e => mret (Err e)
  | Ok (_, priKey) =>
  shareKey ← in_files (GenTsKeyFromFile tssKeyFile);
  match shareKey with
  | Err e => mret (Err e)
  | Ok shareKey =>
  committee ← in_files (GenCommitteeFromFile range committeeFile);
  match committee with
  | Err e => mret (Err e)
  | Ok committee =>
  parameters ← in_files (GenParamatersFromFile parametersFile);
  match parameters with
  | Err e => mret (Err e)
  | Ok (poolParameters, coreParameters) =>
      txpool ← make_pool poolParameters (Committee_Size committee) nodeID;
      store ← open_store storePath;
      mret (Ok (mkStarter committee coreParameters txpool store (mkSigService priKey shareKey)))
  end end end end.

(** ** The commands of [main] *)

Inductive command : Type :=
  | keyCmd (nodes : Z) (path : string)
  | tssKeyCmd (N T : Z) (path : string)
  | runCmd (keyFile tssKeyFile committeeFile parametersFile storePath logPath : string)
      (loglevel nodeID : Z)
  | deployCmd (nodes : Z).

(** [gen] and [ts] are the key generators, as in Config.v.  The result is what a node
    is started with; an error of [NewNode] panics; [deploy] has no [Run]. *)
Definition main (gen : nat → list byte * list byte) (ts : Z → Z → list PriShare * PubPoly)
    (cmd : command) : GoM machine (option Starter) :=
  match cmd with
  | keyCmd nodes path => in_files (GenerateKeyFiles gen nodes path);; mret None
  | tssKeyCmd N T path =>
      let '(shares, pub) := ts T N in
      in_files (GenerateTsKeyFiles shares pub N T path);; mret None
  | runCmd keyFile tssKeyFile committeeFile parametersFile storePath logPath loglevel nodeID =>
      node ← NewNode_load keyFile tssKeyFile committeeFile parametersFile storePath logPath
               loglevel nodeID;
      match node with
      | Err _ => panic "NewNode"
      | Ok starter => mret (Some starter)
      end
  | deployCmd _ => mret None
  end.

(** ** What a started node has *)

Lemma NewFileWriter_keeps path s f text :
  mc_files s !! f = Some text →
  <[path := default [] (mc_files s !! path)]> (mc_files s) !! f = Some text.
Proof.
  intros Hf. destruct (decide (path = f)) as [->|]; [|by rewrite lookup_insert_ne].
  by rewrite lookup_insert_eq, Hf.
Qed.

(** The files that exist are not touched, and each log goes to its file if its bit of
    the level is set. *)
Lemma init_log_spec logPath logLevel nodeID s :
  (∀ kind, kind ∈ ["info"; "debug"; "warn"; "error"] →
     creatable (log_file logPath kind nodeID) = true) →
  length (lg_out (mc_log s)) = LevelNum → length (lg_logs (mc_log s)) = LevelNum →
  let w kind := FileWriter (log_file logPath kind nodeID) in
  ∃ s', init_log logPath logLevel nodeID s = Returns tt s' ∧
    (∀ f text, mc_files s !! f = Some text → mc_files s' !! f = Some text) ∧
    lg_logs (mc_log s') = [log_target logLevel 0 (w "info"); log_target logLevel 1 (w "debug");
                           log_target logLevel 2 (w "error"); log_target logLevel 3 (w "warn")].
Proof.
  intros Hc Ho Hl w. destruct s as [fs [out logs]]. simpl in *.
  do 5 (destruct out as [|? out]; try done).
  unfold init_log, NewFileWriter, set_log, modify, mbind, GoM_bind.
  repeat (rewrite Hc by set_solver; simpl).
  change InfoLevel with (2 ^ Z.of_nat 0). change DebugLevel with (2 ^ Z.of_nat 1).
  change WarnLevel with (2 ^ Z.of_nat 3). change ErrorLevel with (2 ^ Z.of_nat 2).
  do 4 (rewrite SetOutput_one by (first [by rewrite ?length_insert|unfold LevelNum; lia]);
        cbn [insert list_insert]).
  rewrite SetLevel_logs by by rewrite !length_insert.
  eexists. split_and!; [reflexivity| |done]. simpl. intros f text Hf.
  repeat first [apply Hf|apply (NewFileWriter_keeps _ (mkMachine _ (mkLoggers [] [])))].
Qed.

Section laws.
Context {JL : JsonMapLaw} {KL : KyberKeysLaws} {LP : JsonStructLaw TSPartialMarshalled}.
Context {LM : JsonStructLaw TSPublicMarshalled} {LC : JsonStructLaw ConfigParameters}.
Hypothesis range_perm : ∀ m, range m ≡ₚ map_to_list m.

(** From the file [f] the program reads the parameters [cp]. *)
Definition holds_parameters (fs : files) (f : string) (cp : ConfigParameters) : Prop :=
  ∃ text, fs !! path_of f = Some text ∧ js_Decode text = Ok cp.

Lemma GenParamatersFromFile_holds fs f cp :
  holds_parameters fs f cp →
  GenParamatersFromFile f fs = Returns (Ok (cp_Pool cp, cp_Consensus cp)) fs.
Proof.
  intros (text & Hf & Hd). unfold GenParamatersFromFile. by rewrite Hf, Hd.
Qed.

Lemma in_files_returns {A} (m : GoM files A) s a :
  m (mc_files s) = Returns a (mc_files s) → in_files m s = Returns a s.
Proof. unfold in_files. intros ->. by destruct s. Qed.

(** What [NewNode] reads *)
Record configured (fs : files) (keysFile tssKeyFile committeeFile parametersFile : string)
    (pri pub : list byte) (share : PriShare) (poly : PubPoly) (N T : Z) (c : Committee)
    (cp : ConfigParameters) : Prop := {
  cf_keys : holds_data fs keysFile (key_data pri pub);
  cf_bytes : Forall is_byte pri ∧ Forall is_byte pub;
  cf_share : holds_data fs tssKeyFile (ts_key_data share poly N T);
  cf_committee : holds_committee fs committeeFile c;
  cf_members : map_Forall proper_member (Authorities c);
  cf_parameters : holds_parameters fs parametersFile cp;
  cf_queue : 0 <= pp_MaxQueueSize (cp_Pool cp)
}.

Lemma NewNode_load_returns keysFile tssKeyFile committeeFile parametersFile storePath logPath
    logLevel nodeID pri pub share poly N T c cp db s :
  configured (mc_files s) keysFile tssKeyFile committeeFile parametersFile pri pub share poly N T
    c cp →
  (∀ kind, creatable (log_file logPath kind nodeID) = true) →
  length (lg_out (mc_log s)) = LevelNum → length (lg_logs (mc_log s)) = LevelNum →
  NutsDB_open storePath = Some db →
  ∃ s', NewNode_load keysFile tssKeyFile committeeFile parametersFile storePath logPath logLevel
          nodeID s =
        Returns (Ok (mkStarter c (cp_Consensus cp) (NewPool (cp_Pool cp) (Committee_Size c) nodeID)
          (NewStore db) (mkSigService (mkPrivateKey pri) (mkSecretShareKey poly share N T)))) s'.
Proof.
  intros [Hk [Hb1 Hb2] Hts [extra Hc] Hm Hp Hq] Hlog Ho Hl Hdb.
  destruct (init_log_spec logPath logLevel nodeID s) as (s' & Hi & Hkeep & _); [auto|done|done|].
  exists s'. unfold NewNode_load, mbind, GoM_bind. rewrite Hi.
  assert (∀ f data, holds_data (mc_files s) f data → holds_data (mc_files s') f data) as Hh.
  { intros f data (text & Hf & Hdata). exists text. auto. }
  rewrite (in_files_returns _ _ _ (GenKeysFromFile_holds _ _ _ _ Hb1 Hb2 (Hh _ _ Hk))).
  rewrite (in_files_returns _ _ _ (GenTsKeyFromFile_holds _ _ _ _ _ _ (Hh _ _ Hts))).
  rewrite (in_files_returns _ _ _ (GenCommitteeFromFile_holds range _ _ _ range_perm Hm
    (ex_intro _ extra (Hh _ _ Hc)))).
  rewrite (in_files_returns _ s' _ (GenParamatersFromFile_holds _ parametersFile cp
    ltac:(destruct Hp as (t & Hf & Ht); exists t; auto))).
  unfold make_pool. rewrite decide_False by lia. simpl. unfold open_store. by rewrite Hdb.
Qed.

(** The keys that the generators make *)
Record keys_generated (gen : nat → list byte * list byte) (ts : Z → Z → list PriShare * PubPoly)
    (n T : Z) : Prop := {
  kg_gen : ∀ i, keypair (gen i).2 (gen i).1 ∧ length (gen i).2 = 32%nat ∧
    Forall is_byte (gen i).1 ∧ Forall is_byte (gen i).2;
  kg_ts : length (ts T n).1 = Z.to_nat n;
  kg_sign : ∀ share d, is_ok (tbls_Sign share d) = true
}.

(** What a node is started with: the committee and the parameters of its files, the
    private key of its own member, and keys with which the core cannot panic *)
Record proper_start {GB : Gob Block} {GC : Gob ConsensusBlock} (i : nat) (c : Committee)
    (cp : ConfigParameters) (n T : Z) (pick : Mempool → list Digest) (st : Starter) : Prop := {
  ps_committee : sr_committee st = c;
  ps_parameters : sr_parameters st = cp_Consensus cp;
  ps_key : keypair (Committee_Name c (Z.of_nat i)) (Prikey (PriKey (sr_sigService st)));
  ps_share : ssk_N (ShareKey (sr_sigService st)) = n ∧ ssk_T (ShareKey (sr_sigService st)) = T;
  ps_keys : keys_ok c (sr_sigService st);
  ps_core : ∃ nd, full_reachable (Z.of_nat i) c (sr_parameters st) (sr_sigService st) pick
    (sr_store st) (sr_txpool st) nd
}.

(** The members [0 .. n-1], with the public keys that were generated *)
Definition named (c : Committee) (gen : nat → list byte * list byte) (n : Z) : Prop :=
  (∀ id, id ∈ members c ↔ 0 <= id < n) ∧
  ∀ i, Z.of_nat i < n → Committee_Name c (Z.of_nat i) = (gen i).2.

(** With its files in place, a node starts. *)
Lemma configured_starts {GB : Gob Block} {GC : Gob ConsensusBlock} gen ts n T keysFile tssKeyFile
    committeeFile parametersFile storePath logPath logLevel i share poly c cp pick s :
  configured (mc_files s) keysFile tssKeyFile committeeFile parametersFile (gen i).1 (gen i).2
    share poly n T c cp →
  keys_generated gen ts n T → named c gen n → Z.of_nat i < n →
  (∀ kind, creatable (log_file logPath kind (Z.of_nat i)) = true) →
  mc_log s = Loggers_init → is_Some (NutsDB_open storePath) →
  ∃ s' st,
    main gen ts (runCmd keysFile tssKeyFile committeeFile parametersFile storePath logPath logLevel
      (Z.of_nat i)) s = Returns (Some st) s' ∧
    proper_start i c cp n T pick st.
Proof.
  intros Hcf [Hgen _ Hsign] [Hmem Hnames] Hi Hlogs Hfresh [db Hdb].
  destruct (NewNode_load_returns _ _ _ _ storePath logPath logLevel (Z.of_nat i) _ _ _ _ _ _ _ _
    db s Hcf) as (s3 & Hrun); [done|by rewrite Hfresh|by rewrite Hfresh|done|].
  set (st := mkStarter _ _ _ _ _) in Hrun. exists s3, st. split.
  { cbn [main]. unfold mbind, GoM_bind. by rewrite Hrun. }
  split; try done.
  - rewrite Hnames by done. apply Hgen.
  - split; [|intros d; rewrite RequestTsSugnature_sign; apply Hsign].
    intros id Hid%Hmem. replace id with (Z.of_nat (Z.to_nat id)) by lia.
    rewrite Hnames by lia. apply Hgen.
  - apply full_node_starts.
Qed.

(** A deployment of [n] nodes: how the keys are generated, and what the operator
    provides, namely the committee file, the parameters, and the directories. *)
Record deployment (gen : nat → list byte * list byte) (ts : Z → Z → list PriShare * PubPoly)
    (n T : Z) (path committeeFile parametersFile storePath logPath : string) (c : Committee)
    (cp : ConfigParameters) (s : machine) : Prop := {
  dp_keys : keys_generated gen ts n T;
  dp_exact : exact n ∧ exact T;
  dp_named : named c gen n;
  dp_proper : map_Forall proper_member (Authorities c);
  dp_committee : holds_committee (mc_files s) committeeFile c;
  dp_parameters : holds_parameters (mc_files s) parametersFile cp;
  dp_queue : 0 <= pp_MaxQueueSize (cp_Pool cp);
  dp_apart : ∀ f i, f ∈ [committeeFile; parametersFile] →
    path_of f ≠ path_of (key_file path i) ∧ path_of f ≠ path_of (ts_key_file path i);
  dp_logs : ∀ kind id, creatable (log_file logPath kind id) = true;
  dp_store : is_Some (NutsDB_open storePath);
  dp_fresh : mc_log s = Loggers_init
}.

(** The files after the two commands that generate keys.  What was there before stays. *)
Lemma keys_generated_files gen ts n T path fs :
  keys_generated gen ts n T →
  ∃ fs1 fs2,
    main gen ts (keyCmd n path) (mkMachine fs Loggers_init) = Returns None (mkMachine fs1 Loggers_init) ∧
    main gen ts (tssKeyCmd n T path) (mkMachine fs1 Loggers_init) =
      Returns None (mkMachine fs2 Loggers_init) ∧
    (∀ i, Z.of_nat i < n → saved fs fs1 (key_file path i) (key_data (gen i).1 (gen i).2)) ∧
    (∀ i, Z.of_nat i < n →
       ∃ share, saved fs fs2 (ts_key_file path i) (ts_key_data share (ts T n).2 n T)) ∧
    (∀ f, (∀ i, f ≠ path_of (key_file path i)) → fs1 !! f = fs !! f) ∧
    (∀ f, (∀ i, f ≠ path_of (ts_key_file path i)) → fs2 !! f = fs1 !! f).
Proof.
  intros [Hgen Hlen _]. destruct (ts T n) as [shares poly] eqn:Ht. simpl in Hlen.
  destruct (generated_files gen shares poly n n T path fs Hlen)
    as (fs1 & fs2 & H1 & H2 & Hk & Hts & Hout1 & Hout2).
  exists fs1, fs2. split_and!; [| | | |exact Hout1|exact Hout2].
  - cbn [main]. unfold mbind, GoM_bind, in_files. simpl. by rewrite H1.
  - cbn [main]. rewrite Ht. unfold mbind, GoM_bind, in_files. simpl. by rewrite H2.
  - intros i Hi. apply Hk. lia.
  - intros i Hi. destruct (lookup_lt_is_Some_2 shares i) as [share Hs]; [lia|]. exists share.
    by apply Hts.
Qed.

(** What the commands leave for a node *)
Lemma keys_generated_hold gen ts n T path fs fs1 fs2 i :
  keys_generated gen ts n T → exact n → exact T → Z.of_nat i < n →
  saved fs fs1 (key_file path i) (key_data (gen i).1 (gen i).2) →
  (∃ share, saved fs fs2 (ts_key_file path i) (ts_key_data share (ts T n).2 n T)) →
  (∀ f, (∀ i, f ≠ path_of (ts_key_file path i)) → fs2 !! f = fs1 !! f) →
  holds_data fs2 (key_file path i) (key_data (gen i).1 (gen i).2) ∧
  ∃ share, holds_data fs2 (ts_key_file path i) (ts_key_data share (ts T n).2 n T).
Proof.
  intros [Hgen _ _] Hn HT Hi H1 (share & H2) Hout. split.
  - destruct (saved_holds fs fs1 (key_file path i) (key_data (gen i).1 (gen i).2))
      as (text & Hf & Hd); [by apply plain_key_data; apply Hgen|done|].
    exists text. rewrite Hout by (intros k; apply key_files_apart). done.
  - exists share. eapply saved_holds; [by apply plain_ts_key_data|eauto].
Qed.

(** From key generation to a running node: after [keys] and [threshold_keys], the
    command [run] on a node's files gives it the committee and the parameters of the
    files and the private key of its own member, its keys are such that the core
    cannot panic for want of them, and the core starts. *)
Theorem generated_node_starts {GB : Gob Block} {GC : Gob ConsensusBlock}
    gen ts n T path committeeFile parametersFile storePath logPath c cp s i logLevel pick :
  deployment gen ts n T path committeeFile parametersFile storePath logPath c cp s →
  Z.of_nat i < n →
  ∃ s1 s2 s3 st,
    main gen ts (keyCmd n path) s = Returns None s1 ∧
    main gen ts (tssKeyCmd n T path) s1 = Returns None s2 ∧
    main gen ts (runCmd (key_file path i) (ts_key_file path i) committeeFile parametersFile
      storePath logPath logLevel (Z.of_nat i)) s2 = Returns (Some st) s3 ∧
    proper_start i c cp n T pick st.
Proof.
  intros [Hk [Hn HT] Hnamed Hm [extra Hc] Hp Hq Hapart Hlogs Hst Hfresh] Hi. destruct s as [fs lg].
  simpl in *. subst lg.
  destruct (keys_generated_files gen ts n T path fs Hk)
    as (fs1 & fs2 & H1 & H2 & Hs1 & Hs2 & Hout1 & Hout2).
  destruct (keys_generated_hold gen ts n T path fs fs1 fs2 i) as (Hkey & share & Hts); auto.
  assert (∀ f, f ∈ [committeeFile; parametersFile] → fs2 !! path_of f = fs !! path_of f) as Hsame.
  { intros f Hf. rewrite Hout2, Hout1; [done| |]; intros k; by apply Hapart. }
  destruct (configured_starts gen ts n T (key_file path i) (ts_key_file path i) committeeFile
    parametersFile storePath logPath logLevel i share (ts T n).2 c cp pick (mkMachine fs2 Loggers_init))
    as (s3 & st & Hrun & Hst'); try done.
  { split; try done; [apply (kg_gen _ _ _ _ Hk)|exists extra; unfold holds_data|unfold holds_parameters];
      by rewrite Hsame by set_solver. }
  by exists (mkMachine fs1 Loggers_init), (mkMachine fs2 Loggers_init), s3, st.
Qed.
End laws.
End boot.
