(* ===== verification/CommandLine.v ===== *)
(** * The command line (src/main.go)

    The flags of the commands and the variables they set, as tables.  The library that
    reads a command line, cobra with pflag, is a parameter, [Cobra]: what the program
    relies on is that [name --flag value --flag value ...] runs the command of that name
    with these values.

    The words of a command, its flags in any order, run that command ([main_args_command]).  A flag
    that is left out has its default ([main_args_run]). *)

From stdpp Require Import base gmap list strings.
From S2P Require Import Prelude Committee Crypto Message Pool Store NutsDB TsKeys.
From S2P Require Import Config Boot.

(** ** Flags *)

Inductive flag_value : Type :=
  | StringVal (s : string)
  | IntVal (z : Z).

Inductive flag_type : Type := StringFlag | IntFlag.

Definition type_of (v : flag_value) : flag_type :=
  match v with StringVal _ => StringFlag | IntVal _ => IntFlag end.

(** The package variables, by name.  [StringVar] and [IntVar] set the default of the flag. *)
Abbreviation variables := (gmap string flag_value).

Record flag : Type := mkFlag { fl_name : string; fl_variable : string; fl_default : flag_value }.

Definition keyFlags : list flag :=
  [mkFlag "path" "path" (StringVal ""); mkFlag "nodes" "nodes" (IntVal 4)].

Definition tssKeyFlags : list flag :=
  [mkFlag "path" "path" (StringVal ""); mkFlag "N" "N" (IntVal 4); mkFlag "T" "T" (IntVal 3)].

Definition runFlags : list flag :=
  [mkFlag "keys" "keyFile" (StringVal "");
   mkFlag "threshold_keys" "tssKeyFile" (StringVal "");
   mkFlag "committee" "committeeFile" (StringVal "");
   mkFlag "parameters" "parametersFile" (StringVal "");
   mkFlag "store" "storePath" (StringVal "");
   mkFlag "log_out" "logPath" (StringVal "");
   mkFlag "log_level" "loglevel" (IntVal DeployLevel);
   mkFlag "node_id" "nodeID" (IntVal 0)].

Definition deployFlags : list flag := [mkFlag "nodes" "nodes" (IntVal 4)].

Definition commands : list (string * list flag) :=
  [("keys", keyFlags); ("threshold_keys", tssKeyFlags); ("run", runFlags); ("deploy", deployFlags)].

(** The variables before the command line is read *)
Definition declare (vars : variables) (f : flag) : variables := <[fl_variable f := fl_default f]> vars.

Definition initial_variables : variables :=
  foldl declare ∅ (keyFlags ++ tssKeyFlags ++ runFlags ++ deployFlags).

(** ** cobra *)

Inductive cobra_outcome : Type :=
  | Runs (use : string) (given : list (string * flag_value))
  | Usage
  | Refused.

Definition flag_text (v : flag_value) : string :=
  match v with StringVal s => s | IntVal z => Itoa z end.

(** The words [--flag value] *)
Definition flag_words (given : list (string * flag_value)) : list string :=
  flat_map (λ p : string * flag_value, ["--" +:+ p.1; flag_text p.2]) given.

(** A value that a flag of the table takes *)
Definition accepts (flags : list flag) (p : string * flag_value) : Prop :=
  (∃ f, f ∈ flags ∧ fl_name f = p.1 ∧ type_of (fl_default f) = type_of p.2) ∧
  match p.2 with IntVal z => in_int64 z | StringVal _ => True end.

Class Cobra : Type := {
  cobra_Execute : list (string * list flag) → list string → cobra_outcome
}.

Class CobraLaw {CO : Cobra} : Prop :=
  cobra_runs : ∀ cmds use flags given,
    NoDup cmds.*1 → (use, flags) ∈ cmds → NoDup (fl_name <$> flags) → Forall (accepts flags) given →
    cobra_Execute cmds (use :: flag_words given) = Runs use given.

Section command_line.
Context {CO : Cobra} {CL : CryptoLib} {J : JsonMap} {K : KyberKeys}.
Context {JP : JsonStruct TSPartialMarshalled} {JM : JsonStruct TSPublicMarshalled}.
Context {JC : JsonStruct ConfigParameters} {NU : Nuts} {NL : NutsLaws}.
Context (creatable : string → bool) (range : gmap string value → list (string * value)).
Context (gen : nat → list byte * list byte) (ts : Z → Z → list PriShare * PubPoly).

(** The flags of a command *)
Definition flags_of (use : string) : list flag :=
  match list_find (λ c : string * list flag, c.1 = use) commands with
  | Some (_, (_, flags)) => flags
  | None => []
  end.

(** pflag sets the variable of a flag each time the flag is given. *)
Definition set_flag (flags : list flag) (vars : variables) (p : string * flag_value) : variables :=
  match list_find (λ f, fl_name f = p.1) flags with
  | Some (_, f) => <[fl_variable f := p.2]> vars
  | None => vars
  end.

Definition set_flags (use : string) (given : list (string * flag_value)) : variables :=
  foldl (set_flag (flags_of use)) initial_variables given.

Definition string_var (vars : variables) (x : string) : string :=
  match vars !! x with Some (StringVal s) => s | _ => "" end.

Definition int_var (vars : variables) (x : string) : Z :=
  match vars !! x with Some (IntVal z) => z | _ => 0 end.

(** The functions [Run] of the commands, on the variables *)
Definition command_of (use : string) (vars : variables) : option command :=
  if decide (use = "keys") then Some (keyCmd (int_var vars "nodes") (string_var vars "path"))
  else if decide (use = "threshold_keys") then
    Some (tssKeyCmd (int_var vars "N") (int_var vars "T") (string_var vars "path"))
  else if decide (use = "run") then
    Some (runCmd (string_var vars "keyFile") (string_var vars "tssKeyFile")
      (string_var vars "committeeFile") (string_var vars "parametersFile")
      (string_var vars "storePath") (string_var vars "logPath") (int_var vars "loglevel")
      (int_var vars "nodeID"))
  else if decide (use = "deploy") then Some (deployCmd (int_var vars "nodes"))
  else None.

(** The program on its arguments *)
Definition main_args (args : list string) : GoM machine (option Starter) :=
  match cobra_Execute commands args with
  | Refused => panic "cobra"
  | Usage => mret None
  | Runs use given =>
      match command_of use (set_flags use given) with
      | Some cmd => main creatable range gen ts cmd
      | None => mret None
      end
  end.

(** ** The words of a command *)

Definition use_of (cmd : command) : string :=
  match cmd with
  | keyCmd _ _ => "keys"
  | tssKeyCmd _ _ _ => "threshold_keys"
  | runCmd _ _ _ _ _ _ _ _ => "run"
  | deployCmd _ => "deploy"
  end.

Definition given_of (cmd : command) : list (string * flag_value) :=
  match cmd with
  | keyCmd nodes path => [("path", StringVal path); ("nodes", IntVal nodes)]
  | tssKeyCmd N T path => [("path", StringVal path); ("N", IntVal N); ("T", IntVal T)]
  | runCmd keyFile tssKeyFile committeeFile parametersFile storePath logPath loglevel nodeID =>
      [("keys", StringVal keyFile); ("threshold_keys", StringVal tssKeyFile);
       ("committee", StringVal committeeFile); ("parameters", StringVal parametersFile);
       ("store", StringVal storePath); ("log_out", StringVal logPath);
       ("log_level", IntVal loglevel); ("node_id", IntVal nodeID)]
  | deployCmd nodes => [("nodes", IntVal nodes)]
  end.

Definition in_range (cmd : command) : Prop :=
  Forall (λ p : string * flag_value, match p.2 with IntVal z => in_int64 z | _ => True end)
    (given_of cmd).

Lemma flags_of_in use flags : (use, flags) ∈ commands → flags_of use = flags.
Proof.
  unfold commands. rewrite !elem_of_cons.
  intros [[= -> ->]|[[= -> ->]|[[= -> ->]|[[= -> ->]|[]%not_elem_of_nil]]]]; reflexivity.
Qed.

Lemma commands_flags use flags :
  (use, flags) ∈ commands → NoDup (fl_name <$> flags) ∧ NoDup (fl_variable <$> flags).
Proof.
  unfold commands. rewrite !elem_of_cons.
  intros [[= -> ->]|[[= -> ->]|[[= -> ->]|[[= -> ->]|[]%not_elem_of_nil]]]];
    split; apply (bool_decide_unpack _); by vm_compute.
Qed.

(** The command runs with the flags that are given, and with the defaults otherwise. *)
Lemma main_args_run {CW : CobraLaw} use flags given :
  (use, flags) ∈ commands → Forall (accepts flags) given →
  main_args (use :: flag_words given) =
  match command_of use (set_flags use given) with
  | Some cmd => main creatable range gen ts cmd
  | None => mret None
  end.
Proof.
  intros Hin Hg. unfold main_args. rewrite (cobra_runs commands use flags given); try done.
  - apply (bool_decide_unpack _). by vm_compute.
  - by apply (commands_flags use).
Qed.

(** Flags that are given once set their variables in any order. *)
Lemma set_flag_comm flags vars p q :
  NoDup (fl_variable <$> flags) → p.1 ≠ q.1 →
  set_flag flags (set_flag flags vars p) q = set_flag flags (set_flag flags vars q) p.
Proof.
  intros Hv Hpq. unfold set_flag.
  destruct (list_find (λ f, fl_name f = p.1) flags) as [[i f]|] eqn:Hf; [|done].
  destruct (list_find (λ f, fl_name f = q.1) flags) as [[j g]|] eqn:Hg; [|done].
  apply list_find_Some in Hf as (Hf & Hfn & _). apply list_find_Some in Hg as (Hg & Hgn & _).
  apply insert_insert_ne. intros Heq.
  assert (j = i) as ->; [|congruence].
  apply (NoDup_lookup (fl_variable <$> flags) j i (fl_variable g)); [done| |];
    rewrite list_lookup_fmap; [by rewrite Hg|by rewrite Hf, Heq].
Qed.

Lemma set_flags_perm flags given given' vars :
  NoDup (fl_variable <$> flags) → given ≡ₚ given' → NoDup given.*1 →
  foldl (set_flag flags) vars given = foldl (set_flag flags) vars given'.
Proof.
  intros Hv Hp. revert vars. induction Hp as [|p l l' Hp IH|p q l|l1 l2 l3 Hp1 IH1 Hp2 IH2];
    intros vars Hnd.
  - done.
  - simpl. apply IH. by apply NoDup_cons in Hnd as [_ ?].
  - simpl. rewrite set_flag_comm; [done|done|].
    apply NoDup_cons in Hnd as [Hnin _]. intros Heq. apply Hnin. simpl. rewrite Heq. left.
  - rewrite IH1 by done. apply IH2. by rewrite <-Hp1.
Qed.

Lemma use_of_in cmd : (use_of cmd, flags_of (use_of cmd)) ∈ commands.
Proof. destruct cmd; unfold commands, flags_of; simpl; set_solver. Qed.

Lemma given_of_accepted cmd : in_range cmd → Forall (accepts (flags_of (use_of cmd))) (given_of cmd).
Proof.
  unfold in_range. rewrite !Forall_forall. intros Hr p Hp. split; [|by apply Hr].
  clear Hr. destruct cmd; simpl in Hp; rewrite ?elem_of_cons in Hp;
    destruct_or! Hp; try (by apply not_elem_of_nil in Hp); subst p;
    refine (ex_intro _ (mkFlag _ _ _) (conj _ (conj eq_refl _))); unfold flags_of; simpl;
    repeat first [apply list_elem_of_here|apply list_elem_of_further|reflexivity].
Qed.

Lemma given_of_names cmd : NoDup (given_of cmd).*1.
Proof. destruct cmd; apply (bool_decide_unpack _); by vm_compute. Qed.

Lemma command_of_given cmd : command_of (use_of cmd) (set_flags (use_of cmd) (given_of cmd)) = Some cmd.
Proof. by destruct cmd. Qed.

(** A command is what its words say: given the flags of a command once each, in any
    order, the program runs that command with those values. *)
Lemma main_args_command {CW : CobraLaw} cmd given :
  given ≡ₚ given_of cmd → in_range cmd →
  main_args (use_of cmd :: flag_words given) = main creatable range gen ts cmd.
Proof.
  intros Hp Hr. rewrite (main_args_run _ _ _ (use_of_in cmd)).
  - unfold set_flags. rewrite (set_flags_perm _ given (given_of cmd)); [|by eapply commands_flags, use_of_in|done|].
    + fold (set_flags (use_of cmd) (given_of cmd)). by rewrite command_of_given.
    + rewrite Hp. apply given_of_names.
  - rewrite Hp. by apply given_of_accepted.
Qed.
End command_line.
