(* ===== verification/Cluster.v ===== *)
(** * The members of a committee coming online
    ([Consensus] of src/core/smvba/consensus/consensus.go, [initmempooltransmit] of
    src/mempool/mempool.go, [Receiver.Run] of src/network/network.go)

    A node that has read its configuration starts a goroutine that binds the port of its
    mempool address, and dials all other members' mempool addresses until each has
    answered; then it does the same for the consensus addresses, and then it starts the
    protocol.  The goroutine of a receiver may bind its port at any later time.  A
    goroutine per address redials until it succeeds; an attempt succeeds when the port of
    the address is bound on the host of the address.  All members run these steps
    interleaved in any way.

    The theorems: with distinct addresses that name the members' own hosts no start
    fails and nobody starts the protocol before all others listen on both their
    addresses; and from every state all members can get to the start of the
    protocol, so the two waits cannot block each other. *)

From stdpp Require Import base gmap list strings.
From Stdlib Require Import DecimalString DecimalZ.
From S2P Require Import Prelude Committee Crypto TsKeys Config.

(** ** Addresses *)

Definition colon : Ascii.ascii := Ascii.ascii_of_N 58.

(** [strings.Split(s, ":")] *)
Fixpoint Split (s : string) : list string :=
  match s with
  | EmptyString => [EmptyString]
  | String a s =>
      if decide (a = colon) then EmptyString :: Split s
      else
        match Split s with
        | [] => [String a EmptyString]
        | w :: ws => String a w :: ws
        end
  end.

(** [fmt.Sprintf(":%s", strings.Split(address, ":")[1])] *)
Definition listen_addr (address : string) : option string :=
  match Split address !! 1%nat with
  | Some port => Some (":" +:+ port)
  | None => None
  end.

(** A bound port: the host, and the address given to [net.Listen] *)
Abbreviation endpoint := (string * string)%type.

(** Where [net.Dial] of an address goes *)
Definition dial_endpoint (address : string) : option endpoint :=
  match Split address with
  | [host; port] => Some (host, ":" +:+ port)
  | _ => None
  end.

Definition dials (bound : gset endpoint) (address : string) : Prop :=
  match dial_endpoint address with
  | Some e => e ∈ bound
  | None => False
  end.

(** ** Stages of a start *)

(** [todo]: the addresses that have not answered yet *)
Inductive stage : Type :=
  | Loaded
  | MempoolWaiting (todo : list string)
  | ConsensusWaiting (todo : list string)
  | Started
  | Failed (why : string).

(** The stage of each member, the goroutines of receivers that have not bound their port
    yet, and the ports that are bound *)
Record cluster : Type := mkCluster {
  cl_stage : gmap NodeID stage;
  cl_receivers : list (NodeID * string);
  cl_bound : gset endpoint
}.

Section cluster.
Context (committee : Committee) (host : NodeID → string).

Definition set_stage (s : cluster) (id : NodeID) (st : stage) : cluster :=
  mkCluster (<[id := st]> (cl_stage s)) (cl_receivers s) (cl_bound s).

(** [NewReceiver(addr, cc)] and [go receiver.Run()], after which the node goes on *)
Definition Receiver_start (id : NodeID) (address : string) (next : stage) (s : cluster) : cluster :=
  match listen_addr address with
  | None => set_stage s id (Failed "index out of range")
  | Some addr =>
      mkCluster (<[id := next]> (cl_stage s)) (cl_receivers s ++ [(id, addr)]) (cl_bound s)
  end.

(** [net.Listen] in the goroutine of a receiver: a port that is in use cannot be bound
    again, and the panic ends all goroutines of the node.  That the ports of a node that
    has failed become free again is left out. *)
Definition Receiver_listen (id : NodeID) (addr : string) (others : list (NodeID * string))
    (s : cluster) : cluster :=
  if decide ((host id, addr) ∈ cl_bound s) then
    mkCluster (<[id := Failed "bind: address already in use"]> (cl_stage s))
      (List.filter (λ p, negb (bool_decide (p.1 = id))) others) (cl_bound s)
  else mkCluster (cl_stage s) others ({[(host id, addr)]} ∪ cl_bound s).

(** [initmempooltransmit] up to its wait *)
Definition initmempooltransmit (id : NodeID) : cluster → cluster :=
  Receiver_start id (Committee_MempoolAddress committee id)
    (MempoolWaiting (Committee_MempoolBroadCast committee id)).

(** [Consensus] up to its wait *)
Definition Consensus_listen (id : NodeID) : cluster → cluster :=
  Receiver_start id (Committee_Address committee id)
    (ConsensusWaiting (Committee_BroadCast committee id)).

Inductive cluster_step : cluster → cluster → Prop :=
  | start_mempool s id :
      cl_stage s !! id = Some Loaded →
      cluster_step s (initmempooltransmit id s)
  | dial_mempool s id l1 address l2 :
      cl_stage s !! id = Some (MempoolWaiting (l1 ++ address :: l2)) →
      dials (cl_bound s) address →
      cluster_step s (set_stage s id (MempoolWaiting (l1 ++ l2)))
  | start_consensus s id :
      cl_stage s !! id = Some (MempoolWaiting []) →
      cluster_step s (Consensus_listen id s)
  | dial_consensus s id l1 address l2 :
      cl_stage s !! id = Some (ConsensusWaiting (l1 ++ address :: l2)) →
      dials (cl_bound s) address →
      cluster_step s (set_stage s id (ConsensusWaiting (l1 ++ l2)))
  | start_protocol s id :
      cl_stage s !! id = Some (ConsensusWaiting []) →
      cluster_step s (set_stage s id Started)
  | bind_port s id addr l1 l2 :
      cl_receivers s = l1 ++ (id, addr) :: l2 →
      cluster_step s (Receiver_listen id addr (l1 ++ l2) s).

(** At first all members have read their files; [taken] are the ports that other
    processes use. *)
Definition cluster_start (taken : gset endpoint) : cluster :=
  mkCluster (gset_to_gmap Loaded (members committee)) [] taken.

Definition cluster_reachable (taken : gset endpoint) : cluster → Prop :=
  rtc cluster_step (cluster_start taken).

(** ** Addresses that work *)

(** The two addresses of a member *)
Definition ep_mempool (id : NodeID) : option endpoint :=
  dial_endpoint (Committee_MempoolAddress committee id).
Definition ep_consensus (id : NodeID) : option endpoint :=
  dial_endpoint (Committee_Address committee id).

(** Every member's addresses name its own host, no two coincide, and no port is in
    use by another process. *)
Record well_addressed (taken : gset endpoint) : Prop := {
  wa_own : ∀ id, id ∈ members committee → ∃ p q,
    Split (Committee_MempoolAddress committee id) = [host id; p] ∧
    Split (Committee_Address committee id) = [host id; q];
  wa_distinct : ∀ i j, i ∈ members committee → j ∈ members committee →
    (Committee_MempoolAddress committee i = Committee_MempoolAddress committee j → i = j) ∧
    (Committee_Address committee i = Committee_Address committee j → i = j) ∧
    Committee_MempoolAddress committee i ≠ Committee_Address committee j;
  wa_free : ∀ id, id ∈ members committee →
    ¬ dials taken (Committee_MempoolAddress committee id) ∧
    ¬ dials taken (Committee_Address committee id)
}.
End cluster.

(** [Split] loses nothing. *)
Lemma Split_join s : String.concat ":" (Split s) = s.
Proof.
  induction s as [|a s IH]; [done|]. simpl. case_decide as Ha.
  - subst a. destruct (Split s) as [|w ws] eqn:Hs; simpl in *; [|by rewrite IH].
    destruct s; simpl in Hs; repeat case_match; done.
  - destruct (Split s) as [|w ws] eqn:Hs; simpl in *; [by rewrite <-IH|].
    destruct ws; simpl in *; by rewrite IH || rewrite <-IH.
Qed.

#[export] Instance Split_inj : Inj (=) (=) Split.
Proof. intros s t H. rewrite <-(Split_join s), H. apply Split_join. Qed.

Section coming_online.
Context (committee : Committee) (host : NodeID → string) (taken : gset endpoint).
Context (Hwa : well_addressed committee host taken).

Local Abbreviation M := (Committee_MempoolAddress committee).
Local Abbreviation A := (Committee_Address committee).
Local Abbreviation member id := (id ∈ members committee).
Implicit Types (bound : gset endpoint) (s : cluster).

Lemma elem_of_column (f : Authority → string) id a :
  a ∈ map (λ p, f p.2) (List.filter (λ p, negb (bool_decide (p.1 = id)))
         (map_to_list (Authorities committee))) ↔
  ∃ i, i ≠ id ∧ member i ∧ a = f (default zero_Authority (Authorities committee !! i)).
Proof.
  rewrite list_elem_of_In, in_map_iff. setoid_rewrite List.filter_In.
  setoid_rewrite <-list_elem_of_In. unfold members. setoid_rewrite elem_of_dom. split.
  - intros ([i au] & <- & Hin & Hne). rewrite elem_of_map_to_list in Hin.
    rewrite negb_true_iff, bool_decide_eq_false in Hne. simpl in *. exists i.
    rewrite Hin. eauto.
  - intros (i & Hne & [au Hau] & ->). exists (i, au). rewrite Hau.
    rewrite elem_of_map_to_list, negb_true_iff, bool_decide_eq_false. auto.
Qed.

(** The ports that are bound or about to be bound *)
Definition receiver_endpoint (p : NodeID * string) : endpoint := (host p.1, p.2).

Definition opened s : gset endpoint :=
  cl_bound s ∪ list_to_set (map receiver_endpoint (cl_receivers s)).

(** The address of a member that a goroutine wants to bind *)
Definition own_address (p : NodeID * string) (a : string) : Prop :=
  member p.1 ∧ (a = M p.1 ∨ a = A p.1) ∧ dial_endpoint a = Some (receiver_endpoint p).

(** No two goroutines want the same port, and none wants a bound one. *)
Definition receivers_ok s : Prop :=
  NoDup (map receiver_endpoint (cl_receivers s)) ∧
  ∀ p, p ∈ cl_receivers s → (receiver_endpoint p ∉ cl_bound s) ∧ ∃ a, own_address p a.

Lemma opened_bound s : cl_receivers s = [] → opened s = cl_bound s.
Proof. intros Hr. unfold opened. rewrite Hr. simpl. set_solver. Qed.

(** Starting the receiver of an address opens this address, and no other. *)
Lemma Receiver_start_ok id address p next s :
  receivers_ok s → member id → address = M id ∨ address = A id →
  Split address = [host id; p] → ¬ dials (opened s) address →
  let s' := Receiver_start id address next s in
  cl_stage s' = <[id := next]> (cl_stage s) ∧ cl_bound s' = cl_bound s ∧ receivers_ok s' ∧
  ∀ a, dials (opened s') a ↔ a = address ∨ dials (opened s) a.
Proof.
  intros [Hnd Hfresh] Hid Haddr Hs Hn. unfold Receiver_start, listen_addr. rewrite Hs. cbn [lookup list_lookup].
  assert ((host id, ":" +:+ p) ∉ opened s) as Hnew.
  { unfold dials, dial_endpoint in Hn. by rewrite Hs in Hn. }
  unfold opened in Hnew. apply not_elem_of_union in Hnew as [Hb Hr].
  rewrite elem_of_list_to_set in Hr. split_and!; [done|done| |].
  - split; cbn [cl_receivers cl_bound].
    + rewrite map_app. apply NoDup_app. split_and!; [done| |apply NoDup_singleton].
      intros x Hx ->%list_elem_of_singleton. done.
    + intros q [Hq| ->%list_elem_of_singleton]%elem_of_app; [by apply Hfresh|]. split; [done|].
      exists address. split_and!; [done|done|]. unfold dial_endpoint. by rewrite Hs.
  - intros a. unfold opened. cbn [cl_receivers cl_bound]. unfold dials, dial_endpoint.
    destruct (Split a) as [|h [|q [|r l]]] eqn:Ha; try (split; [done|]; intros [->|[]]; congruence).
    rewrite map_app, list_to_set_app, !elem_of_union. cbn [map list_to_set].
    unfold receiver_endpoint at 2. cbn [fst snd]. rewrite elem_of_union, elem_of_singleton. split.
    + intros [?|[?|[Heq|[]%elem_of_empty]]]; [by right; left|by right; right|left].
      apply pair_equal_spec in Heq as [-> Hq]. apply (inj _) in Hq as ->.
      apply (inj Split). by rewrite Ha, Hs.
    + intros [->|[?|?]]; [|by left|by right; left]. rewrite Hs in Ha. simplify_eq. right. right. by left.
Qed.

(** *** The invariant *)

Definition stage_ok s (id : NodeID) (st : stage) : Prop :=
  match st with
  | Loaded => ¬ dials (opened s) (M id) ∧ ¬ dials (opened s) (A id)
  | MempoolWaiting todo =>
      dials (opened s) (M id) ∧ ¬ dials (opened s) (A id) ∧
      (∀ a, a ∈ todo → ∃ j, member j ∧ a = M j) ∧
      ∀ j, member j → j ≠ id → M j ∈ todo ∨ dials (cl_bound s) (M j)
  | ConsensusWaiting todo =>
      dials (opened s) (M id) ∧ dials (opened s) (A id) ∧
      (∀ j, member j → j ≠ id → dials (cl_bound s) (M j)) ∧
      (∀ a, a ∈ todo → ∃ j, member j ∧ a = A j) ∧
      ∀ j, member j → j ≠ id → A j ∈ todo ∨ dials (cl_bound s) (A j)
  | Started =>
      dials (opened s) (M id) ∧ dials (opened s) (A id) ∧
      ∀ j, member j → j ≠ id → dials (cl_bound s) (M j) ∧ dials (cl_bound s) (A j)
  | Failed _ => False
  end.

Record cluster_ok s : Prop := {
  co_dom : dom (cl_stage s) = members committee;
  co_stages : ∀ id st, cl_stage s !! id = Some st → stage_ok s id st;
  co_receivers : receivers_ok s
}.

(** Another member's port does not disturb a stage. *)
Lemma stage_ok_more s s' id st :
  (∀ a, dials (cl_bound s) a → dials (cl_bound s') a) →
  (dials (opened s') (M id) ↔ dials (opened s) (M id)) →
  (dials (opened s') (A id) ↔ dials (opened s) (A id)) →
  stage_ok s id st → stage_ok s' id st.
Proof. intros Hmore HM HA. destruct st; simpl; rewrite ?HM, ?HA; naive_solver. Qed.

(** A step of one member that binds no port *)
Lemma cluster_ok_insert s s' id st :
  cluster_ok s → member id → cl_stage s' = <[id := st]> (cl_stage s) → cl_bound s' = cl_bound s →
  receivers_ok s' → stage_ok s' id st →
  (∀ j, member j → j ≠ id → (dials (opened s') (M j) ↔ dials (opened s) (M j)) ∧
     (dials (opened s') (A j) ↔ dials (opened s) (A j))) →
  cluster_ok s'.
Proof.
  intros [Hd Hok _] Hid Hst Hb Hr Hnew Hsame. split; [| |done]; rewrite Hst.
  - rewrite dom_insert_L, Hd. set_solver.
  - intros j st'. intros [[<- <-]|[Hne Hj]]%lookup_insert_Some; [done|].
    assert (member j) as Hmj by (rewrite <-Hd; by apply elem_of_dom_2 in Hj).
    destruct (Hsame j Hmj ltac:(done)). apply (stage_ok_more s); [by rewrite Hb|done|done|by apply Hok].
Qed.

(** ... and starts no receiver *)
Lemma cluster_ok_stage s id st :
  cluster_ok s → member id → stage_ok s id st → cluster_ok (set_stage s id st).
Proof.
  intros Hok Hid Hst. apply (cluster_ok_insert s _ id st); try done. apply Hok.
Qed.

Lemma stage_member s id st : cluster_ok s → cl_stage s !! id = Some st → member id.
Proof. intros [Hd _ _] Hs. rewrite <-Hd. by apply elem_of_dom_2 in Hs. Qed.

Lemma listen_mempool_ok s id :
  cluster_ok s → cl_stage s !! id = Some Loaded →
  cl_stage (initmempooltransmit committee id s) =
    <[id := MempoolWaiting (Committee_MempoolBroadCast committee id)]> (cl_stage s) ∧
  cluster_ok (initmempooltransmit committee id s).
Proof.
  intros Hok Hs. pose proof (stage_member _ _ _ Hok Hs) as Hid.
  destruct (co_stages _ Hok _ _ Hs) as [HM HA]. destruct (wa_own _ _ _ Hwa id Hid) as (p & q & Hp & _).
  destruct (Receiver_start_ok id (M id) p (MempoolWaiting (Committee_MempoolBroadCast committee id)) s
    (co_receivers _ Hok) Hid (or_introl eq_refl) Hp HM) as (Hst & Hb & Hr & Ho).
  split; [exact Hst|]. eapply cluster_ok_insert; try done.
  - simpl. rewrite !Ho. split_and!; [by left| | |].
    + intros [He|?]; [|done]. by apply (wa_distinct _ _ _ Hwa id id).
    + intros a. unfold Committee_MempoolBroadCast. rewrite elem_of_column.
      intros (j & _ & Hj & ->). by exists j.
    + intros j Hj Hne. left. unfold Committee_MempoolBroadCast. rewrite elem_of_column. by exists j.
  - intros j Hj Hne. destruct (wa_distinct _ _ _ Hwa j id Hj Hid) as (H1 & _ & _).
    destruct (wa_distinct _ _ _ Hwa id j Hid Hj) as (_ & _ & H3). rewrite !Ho. naive_solver.
Qed.

Lemma listen_consensus_ok s id :
  cluster_ok s → cl_stage s !! id = Some (MempoolWaiting []) →
  cl_stage (Consensus_listen committee id s) =
    <[id := ConsensusWaiting (Committee_BroadCast committee id)]> (cl_stage s) ∧
  cluster_ok (Consensus_listen committee id s).
Proof.
  intros Hok Hs. pose proof (stage_member _ _ _ Hok Hs) as Hid.
  destruct (co_stages _ Hok _ _ Hs) as (HM & HA & _ & Hall).
  destruct (wa_own _ _ _ Hwa id Hid) as (p & q & _ & Hq).
  destruct (Receiver_start_ok id (A id) q (ConsensusWaiting (Committee_BroadCast committee id)) s
    (co_receivers _ Hok) Hid (or_intror eq_refl) Hq HA) as (Hst & Hb & Hr & Ho).
  split; [exact Hst|]. eapply cluster_ok_insert; try done.
  - simpl. setoid_rewrite Ho. split_and!; [by right|by left| | |].
    + intros j Hj Hne. destruct (Hall j Hj Hne) as [[]%not_elem_of_nil|Hd].
      unfold Consensus_listen. by rewrite Hb.
    + intros a. unfold Committee_BroadCast. rewrite elem_of_column.
      intros (j & _ & Hj & ->). by exists j.
    + intros j Hj Hne. left. unfold Committee_BroadCast. rewrite elem_of_column. by exists j.
  - intros j Hj Hne. destruct (wa_distinct _ _ _ Hwa j id Hj Hid) as (_ & H2 & H3).
    rewrite !Ho. naive_solver.
Qed.

Lemma dial_mempool_ok s id l1 address l2 :
  cluster_ok s → cl_stage s !! id = Some (MempoolWaiting (l1 ++ address :: l2)) →
  dials (cl_bound s) address → cluster_ok (set_stage s id (MempoolWaiting (l1 ++ l2))).
Proof.
  intros Hok Hs Hd. pose proof (stage_member _ _ _ Hok Hs) as Hid.
  destruct (co_stages _ Hok _ _ Hs) as (HM & HA & Htodo & Hall).
  apply cluster_ok_stage; [done|done|]. split_and!; [done|done| |].
  - intros a Ha. apply Htodo. set_solver.
  - intros j Hj Hne. destruct (Hall j Hj Hne) as [Hin|]; [|by right].
    rewrite elem_of_app, elem_of_cons in Hin. rewrite elem_of_app. naive_solver.
Qed.

Lemma dial_consensus_ok s id l1 address l2 :
  cluster_ok s → cl_stage s !! id = Some (ConsensusWaiting (l1 ++ address :: l2)) →
  dials (cl_bound s) address → cluster_ok (set_stage s id (ConsensusWaiting (l1 ++ l2))).
Proof.
  intros Hok Hs Hd. pose proof (stage_member _ _ _ Hok Hs) as Hid.
  destruct (co_stages _ Hok _ _ Hs) as (HM & HA & Hmem & Htodo & Hall).
  apply cluster_ok_stage; [done|done|]. split_and!; [done|done|done| |].
  - intros a Ha. apply Htodo. set_solver.
  - intros j Hj Hne. destruct (Hall j Hj Hne) as [Hin|]; [|by right].
    rewrite elem_of_app, elem_of_cons in Hin. rewrite elem_of_app. naive_solver.
Qed.

Lemma start_protocol_ok s id :
  cluster_ok s → cl_stage s !! id = Some (ConsensusWaiting []) →
  cluster_ok (set_stage s id Started).
Proof.
  intros Hok Hs. pose proof (stage_member _ _ _ Hok Hs) as Hid.
  destruct (co_stages _ Hok _ _ Hs) as (HM & HA & Hmem & _ & Hall).
  apply cluster_ok_stage; [done|done|]. split_and!; [done|done|]. intros j Hj Hne.
  split; [by apply Hmem|]. destruct (Hall j Hj Hne) as [[]%not_elem_of_nil|]; done.
Qed.

(** The goroutine of a receiver binds its port. *)
Lemma bind_port_ok s id addr l1 l2 :
  cluster_ok s → cl_receivers s = l1 ++ (id, addr) :: l2 →
  cl_stage (Receiver_listen host id addr (l1 ++ l2) s) = cl_stage s ∧
  cl_receivers (Receiver_listen host id addr (l1 ++ l2) s) = l1 ++ l2 ∧
  cluster_ok (Receiver_listen host id addr (l1 ++ l2) s).
Proof.
  intros [Hd Hst [Hnd Hfresh]] Hl. unfold Receiver_listen.
  pose proof Hnd as Hnd1. rewrite Hl, map_app in Hnd1. cbn [map] in Hnd1.
  apply NoDup_app in Hnd1 as (Hnd1 & Hdisj & Hnd2). apply NoDup_cons in Hnd2 as [Hno Hnd2].
  rewrite decide_False by (apply (Hfresh (id, addr)); rewrite Hl; set_solver).
  split_and!; [done|done|]. set (s' := mkCluster _ _ _).
  assert (opened s' = opened s) as Ho.
  { unfold opened, s'. cbn [cl_bound cl_receivers]. rewrite Hl, !map_app. cbn [map].
    rewrite !list_to_set_app_L. cbn [list_to_set receiver_endpoint fst snd]. set_solver. }
  split; [done| |].
  - intros j st Hj. apply (stage_ok_more s); [|by rewrite Ho|by rewrite Ho|by apply Hst].
    intros a. unfold dials. destruct (dial_endpoint a); [|done]. unfold s'. simpl. set_solver.
  - split; cbn [cl_receivers cl_bound s'].
    + rewrite map_app. apply NoDup_app. split_and!; [done| |done]. intros x Hx Hx2.
      apply (Hdisj x Hx). by right.
    + intros p Hp. destruct (Hfresh p) as [Hb Hown]; [rewrite Hl; set_solver|]. split; [|done].
      rewrite not_elem_of_union, not_elem_of_singleton. split; [|done].
      intros He. change (host id, addr) with (receiver_endpoint (id, addr)) in He.
      apply elem_of_app in Hp as [Hp|Hp].
      * apply (Hdisj (receiver_endpoint p)); [by apply list_elem_of_fmap_2|]. rewrite He. left.
      * apply Hno. rewrite <-He. by apply list_elem_of_fmap_2.
Qed.

Lemma cluster_step_ok s s' :
  cluster_ok s → cluster_step committee host s s' → cluster_ok s'.
Proof.
  intros Hok Hstep. revert Hok.
  destruct Hstep as [s1 id Hs|s1 id l1 a l2 Hs Hd|s1 id Hs|s1 id l1 a l2 Hs Hd|s1 id Hs|s1 id addr l1 l2 Hl];
    intros Hok.
  - by apply listen_mempool_ok.
  - by eapply dial_mempool_ok.
  - by apply listen_consensus_ok.
  - by eapply dial_consensus_ok.
  - by apply start_protocol_ok.
  - by apply bind_port_ok.
Qed.

Lemma cluster_reachable_ok s : cluster_reachable committee host taken s → cluster_ok s.
Proof.
  intros Hr. apply (rtc_invariant _ cluster_ok _ _ Hr); [|intros a b; apply cluster_step_ok].
  split; simpl; [apply dom_gset_to_gmap| |].
  - intros id st [Hid <-]%lookup_gset_to_gmap_Some.
    destruct (wa_free _ _ _ Hwa id Hid) as [H1 H2]. simpl. by rewrite opened_bound.
  - split; [constructor|]. by intros p Hp%not_elem_of_nil.
Qed.

(** *** Progress *)

Definition rank (st : stage) : nat :=
  match st with
  | Loaded | Failed _ => 0
  | MempoolWaiting _ => 1
  | ConsensusWaiting _ => 2
  | Started => 3
  end.

(** The member [id] has come at least to the stages of rank [k]. *)
Definition at_least (k : nat) s (id : NodeID) : Prop :=
  ∃ st, cl_stage s !! id = Some st ∧ (k <= rank st)%nat.

Local Abbreviation step := (cluster_step committee host).

Lemma at_least_insert k s s' id st st' j :
  cl_stage s !! id = Some st → cl_stage s' = <[id := st']> (cl_stage s) →
  (rank st <= rank st')%nat → at_least k s j → at_least k s' j.
Proof.
  unfold at_least. intros Hs -> Hr (st0 & Hj & Hk). destruct (decide (id = j)) as [->|Hne].
  - exists st'. rewrite lookup_insert_eq. split; [done|]. simplify_eq. lia.
  - exists st0. by rewrite lookup_insert_ne.
Qed.

Lemma at_least_step k s s' j : cluster_ok s → step s s' → at_least k s j → at_least k s' j.
Proof.
  intros Hok Hstep. revert Hok.
  destruct Hstep as [s1 id Hs|s1 id l1 a l2 Hs Hd|s1 id Hs|s1 id l1 a l2 Hs Hd|s1 id Hs|s1 id addr l1 l2 Hl];
    intros Hok.
  - eapply at_least_insert; [exact Hs|by apply listen_mempool_ok|simpl; lia].
  - by eapply at_least_insert; [exact Hs|..].
  - eapply at_least_insert; [exact Hs|by apply listen_consensus_ok|simpl; lia].
  - by eapply at_least_insert; [exact Hs|..].
  - eapply at_least_insert; [exact Hs|done|simpl; lia].
  - unfold at_least. by rewrite (proj1 (bind_port_ok s1 id addr l1 l2 Hok Hl)).
Qed.

Lemma steps_keep s s' :
  cluster_ok s → rtc step s s' →
  cluster_ok s' ∧ ∀ k j, at_least k s j → at_least k s' j.
Proof.
  intros Hok Hs. revert Hok. induction Hs as [|s1 s2 s3 H1 _ IH]; intros Hok; [done|].
  destruct (IH (cluster_step_ok _ _ Hok H1)) as [Hok3 Hk]. split; [done|].
  intros k j Hj. apply Hk. exact (at_least_step k s1 s2 j Hok H1 Hj).
Qed.

(** If each member can be brought from [k] to [k + 1] then all of them can. *)
Lemma advance_all k ids s :
  (∀ s id, cluster_ok s → (∀ j, member j → at_least k s j) → member id →
     ∃ s', rtc step s s' ∧ at_least (S k) s' id) →
  cluster_ok s → (∀ j, member j → at_least k s j) → Forall (λ id, member id) ids →
  ∃ s', rtc step s s' ∧ Forall (at_least (S k) s') ids.
Proof.
  intros Hone Hok Hk. induction ids as [|id ids IH]; intros Hids; [by exists s|].
  apply Forall_cons in Hids as [Hid Hids]. destruct (IH Hids) as (s1 & H1 & Hall).
  destruct (steps_keep s s1 Hok H1) as [Hok1 Hk1].
  destruct (Hone s1 id) as (s2 & H2 & Hnew); [done|auto|done|].
  destruct (steps_keep s1 s2 Hok1 H2) as [_ Hk2].
  exists s2. split; [by etrans|]. constructor; [done|]. eapply Forall_impl; [exact Hall|auto].
Qed.

Lemma advance k s :
  (∀ s id, cluster_ok s → (∀ j, member j → at_least k s j) → member id →
     ∃ s', rtc step s s' ∧ at_least (S k) s' id) →
  cluster_ok s → (∀ j, member j → at_least k s j) →
  ∃ s', rtc step s s' ∧ cluster_ok s' ∧ ∀ j, member j → at_least (S k) s' j.
Proof.
  intros Hone Hok Hk.
  destruct (advance_all k (elements (members committee)) s Hone Hok Hk) as (s' & Hs & Hall).
  { apply Forall_forall. set_solver. }
  exists s'. split_and!; [done|by apply (steps_keep s)|]. intros j Hj.
  rewrite Forall_forall in Hall. apply Hall. set_solver.
Qed.

Lemma drain_mempool todo s id :
  cl_stage s !! id = Some (MempoolWaiting todo) → (∀ a, a ∈ todo → dials (cl_bound s) a) →
  ∃ s', rtc step s s' ∧ cl_stage s' !! id = Some (MempoolWaiting []).
Proof.
  revert s. induction todo as [|a todo IH]; intros s Hs Hall; [by exists s|].
  destruct (IH (set_stage s id (MempoolWaiting todo))) as (s' & Hr & Hs').
  { simpl. by rewrite lookup_insert_eq. } { intros b Hb. apply Hall. set_solver. }
  exists s'. split; [|done]. eapply rtc_l; [|exact Hr].
  apply (dial_mempool committee host s id [] a todo Hs). apply Hall. set_solver.
Qed.

Lemma drain_consensus todo s id :
  cl_stage s !! id = Some (ConsensusWaiting todo) → (∀ a, a ∈ todo → dials (cl_bound s) a) →
  ∃ s', rtc step s s' ∧ cl_stage s' !! id = Some (ConsensusWaiting []).
Proof.
  revert s. induction todo as [|a todo IH]; intros s Hs Hall; [by exists s|].
  destruct (IH (set_stage s id (ConsensusWaiting todo))) as (s' & Hr & Hs').
  { simpl. by rewrite lookup_insert_eq. } { intros b Hb. apply Hall. set_solver. }
  exists s'. split; [|done]. eapply rtc_l; [|exact Hr].
  apply (dial_consensus committee host s id [] a todo Hs). apply Hall. set_solver.
Qed.

(** The receivers can bind all their ports. *)
Lemma drain_receivers s :
  cluster_ok s → ∃ s', rtc step s s' ∧ cl_receivers s' = [] ∧ cl_stage s' = cl_stage s.
Proof.
  remember (cl_receivers s) as l eqn:Hl. revert s Hl.
  induction l as [|[id addr] l IH]; intros s Hl Hok; [by exists s|].
  destruct (bind_port_ok s id addr [] l Hok (eq_sym Hl)) as (Hst & Hrc & Hok').
  destruct (IH _ (eq_sym Hrc) Hok') as (s' & Hr & H1 & H2). exists s'. split_and!; [|done|congruence].
  eapply rtc_l; [|exact Hr]. by apply (bind_port committee host s id addr [] l).
Qed.

(** Once a member is past a stage and its receivers have bound their ports, the port of
    that stage answers. *)
Lemma mempool_answers s j :
  cluster_ok s → cl_receivers s = [] → at_least 1 s j → dials (cl_bound s) (M j).
Proof.
  intros Hok Hrc (st & Hs & Hr). pose proof (co_stages _ Hok _ _ Hs) as Hst.
  rewrite <-(opened_bound s Hrc). destruct st; simpl in *; try lia; naive_solver.
Qed.

Lemma consensus_answers s j :
  cluster_ok s → cl_receivers s = [] → at_least 2 s j → dials (cl_bound s) (A j).
Proof.
  intros Hok Hrc (st & Hs & Hr). pose proof (co_stages _ Hok _ _ Hs) as Hst.
  rewrite <-(opened_bound s Hrc). destruct st; simpl in *; try lia; naive_solver.
Qed.

Lemma advance_mempool s id :
  cluster_ok s → (∀ j, member j → at_least 0 s j) → member id →
  ∃ s', rtc step s s' ∧ at_least 1 s' id.
Proof.
  intros Hok Hk Hid. destruct (Hk id Hid) as (st & Hs & _).
  pose proof (co_stages _ Hok _ _ Hs) as Hst. destruct st; try done;
    try (exists s; split; [done|]; eexists; split; [exact Hs|simpl; lia]).
  eexists. split; [by apply rtc_once, start_mempool|]. unfold at_least.
  rewrite (proj1 (listen_mempool_ok s id Hok Hs)).
  eexists. split; [apply lookup_insert_eq|simpl; lia].
Qed.

Lemma advance_consensus s id :
  cluster_ok s → (∀ j, member j → at_least 1 s j) → member id →
  ∃ s', rtc step s s' ∧ at_least 2 s' id.
Proof.
  intros Hok Hk Hid. destruct (Hk id Hid) as (st & Hs & Hr).
  pose proof (co_stages _ Hok _ _ Hs) as Hst. destruct st as [|todo|todo| |]; simpl in Hr; try lia;
    try (exists s; split; [done|]; eexists; split; [exact Hs|simpl; lia]).
  destruct (drain_receivers s Hok) as (s0 & H0 & Hrc & Hsame).
  destruct (steps_keep _ _ Hok H0) as [Hok0 Hk0].
  destruct (drain_mempool todo s0 id) as (s1 & H1 & Hs1); [by rewrite Hsame| |].
  { destruct Hst as (_ & _ & Htodo & _). intros a Ha. destruct (Htodo a Ha) as (j & Hj & ->).
    apply mempool_answers; auto. }
  destruct (steps_keep _ _ Hok0 H1) as [Hok1 _].
  eexists. split; [eapply rtc_r; [by etrans|by apply start_consensus]|]. unfold at_least.
  rewrite (proj1 (listen_consensus_ok s1 id Hok1 Hs1)).
  eexists. split; [apply lookup_insert_eq|simpl; lia].
Qed.

Lemma advance_started s id :
  cluster_ok s → (∀ j, member j → at_least 2 s j) → member id →
  ∃ s', rtc step s s' ∧ at_least 3 s' id.
Proof.
  intros Hok Hk Hid. destruct (Hk id Hid) as (st & Hs & Hr).
  pose proof (co_stages _ Hok _ _ Hs) as Hst. destruct st as [|todo|todo| |]; simpl in Hr; try lia;
    try (exists s; split; [done|]; eexists; split; [exact Hs|simpl; lia]).
  destruct (drain_receivers s Hok) as (s0 & H0 & Hrc & Hsame).
  destruct (steps_keep _ _ Hok H0) as [Hok0 Hk0].
  destruct (drain_consensus todo s0 id) as (s1 & H1 & Hs1); [by rewrite Hsame| |].
  { destruct Hst as (_ & _ & _ & Htodo & _). intros a Ha. destruct (Htodo a Ha) as (j & Hj & ->).
    apply consensus_answers; auto. }
  eexists. split; [eapply rtc_r; [by etrans|by apply start_protocol]|].
  eexists. split; [apply lookup_insert_eq|simpl; lia].
Qed.

(** A port that is opened is bound, or the goroutine of its receiver will bind it. *)
Lemma opened_pending s id a :
  cluster_ok s → member id → a = M id ∨ a = A id → dials (opened s) a →
  dials (cl_bound s) a ∨ ∃ addr, listen_addr a = Some addr ∧ (id, addr) ∈ cl_receivers s.
Proof.
  intros Hok Hid Ha Hd. assert (∃ p, Split a = [host id; p]) as [p Hp].
  { destruct (wa_own _ _ _ Hwa id Hid) as (p & q & Hp & Hq). destruct Ha as [->| ->]; eauto. }
  unfold dials, dial_endpoint, opened in Hd. unfold dials, dial_endpoint, listen_addr.
  rewrite Hp in *. cbn [lookup list_lookup]. rewrite elem_of_union, elem_of_list_to_set in Hd.
  destruct Hd as [?|Hr]; [by left|right]. apply list_elem_of_fmap in Hr as ([j l] & He & Hj).
  destruct (proj2 (co_receivers _ Hok) _ Hj) as (_ & b & Hmj & Hb & Hdial). cbn [fst] in *.
  assert (a = b) as <-.
  { apply (inj Split). unfold dial_endpoint in Hdial. rewrite <-He in Hdial.
    destruct (Split b) as [|h [|q [|]]]; try done. rewrite Hp.
    apply (inj Some), pair_equal_spec in Hdial as [-> ->%(inj _)]. done. }
  assert (j = id) as ->.
  { destruct (wa_distinct _ _ _ Hwa j id Hmj Hid) as (H1 & H2 & H3).
    destruct (wa_distinct _ _ _ Hwa id j Hid Hmj) as (_ & _ & H3').
    destruct Ha as [->| ->], Hb as [Hb|Hb]; [by apply H1|done|by destruct H3|by apply H2]. }
  exists (":" +:+ p). split; [done|]. unfold receiver_endpoint in He. by simplify_eq/=.
Qed.

(** C38 Nobody starts too early: in every interleaving of the starts, in which receivers
    bind their ports in goroutines of their own, no member fails; when one starts the
    protocol all other members answer on their mempool and on their consensus addresses,
    and its own two ports are bound or about to be bound by its receivers. *)
Theorem started_after_all_listen s id :
  cluster_reachable committee host taken s →
  (∀ why, cl_stage s !! id ≠ Some (Failed why)) ∧
  (cl_stage s !! id = Some Started →
     (∀ j, member j → j ≠ id → dials (cl_bound s) (M j) ∧ dials (cl_bound s) (A j)) ∧
     ∀ a, a = M id ∨ a = A id →
       dials (cl_bound s) a ∨ ∃ addr, listen_addr a = Some addr ∧ (id, addr) ∈ cl_receivers s).
Proof.
  intros Hok%cluster_reachable_ok. split.
  - intros why Hs. by apply (co_stages _ Hok _ _ Hs).
  - intros Hs. destruct (co_stages _ Hok _ _ Hs) as (HM & HA & Hall). split; [done|].
    intros a Ha. pose proof (stage_member _ _ _ Hok Hs) as Hid.
    apply opened_pending; [done|done|done|]. by destruct Ha as [->| ->].
Qed.

(** The committee comes online: however far the members have come, they can all get
    to the start of the protocol; the wait for the mempools and the wait for the
    consensus ports cannot block each other. *)
Theorem cluster_comes_online s :
  cluster_reachable committee host taken s →
  ∃ s', rtc step s s' ∧ ∀ id, member id → cl_stage s' !! id = Some Started.
Proof.
  intros Hok%cluster_reachable_ok.
  destruct (advance 0 s advance_mempool Hok) as (s1 & H1 & Hok1 & Hk1).
  { intros j Hj. destruct Hok as [Hd _ _]. rewrite <-Hd in Hj. apply elem_of_dom in Hj as [st Hs].
    exists st. split; [done|lia]. }
  destruct (advance 1 s1 advance_consensus Hok1 Hk1) as (s2 & H2 & Hok2 & Hk2).
  destruct (advance 2 s2 advance_started Hok2 Hk2) as (s3 & H3 & Hok3 & Hk3).
  exists s3. split; [by etrans; [|etrans]|]. intros id Hid.
  destruct (Hk3 id Hid) as (st & Hs & Hr). destruct st; simpl in Hr; by try lia.
Qed.
End coming_online.

(** ** The default committee *)

Fixpoint no_colon (s : string) : bool :=
  match s with
  | EmptyString => true
  | String a s => negb (bool_decide (a = colon)) && no_colon s
  end.

Lemma Split_no_colon s : no_colon s = true → Split s = [s].
Proof.
  induction s as [|a s IH]; [done|]. simpl. rewrite andb_true_iff, negb_true_iff.
  intros [Ha%bool_decide_eq_false Hs]. by rewrite decide_False, IH.
Qed.

Lemma Split_address h p :
  no_colon h = true → no_colon p = true → Split (h +:+ ":" +:+ p) = [h; p].
Proof.
  intros Hh Hp. induction h as [|a h IH].
  - change (Split (String colon p) = [""; p]). cbn [Split]. by rewrite decide_True, Split_no_colon.
  - simpl in Hh. apply andb_true_iff in Hh as [Ha%negb_true_iff%bool_decide_eq_false Hh].
    change (Split (String a (h +:+ ":" +:+ p)) = [String a h; p]). cbn [Split].
    by rewrite decide_False, IH.
Qed.

Lemma no_colon_digits d : no_colon (NilEmpty.string_of_uint d) = true.
Proof. by induction d. Qed.

Lemma no_colon_Itoa i : 0 <= i → no_colon (Itoa i) = true.
Proof.
  intros Hi. unfold Itoa. destruct (Z.to_int i) as [d|d] eqn:Hd.
  - simpl. unfold NilZero.string_of_uint. destruct d; try done; apply no_colon_digits.
  - by destruct i.
Qed.

(** A committee on one host *)
Lemma port_well_addressed port names n taken :
  0 <= port →
  (∀ k, 0 <= k < 2 * Z.of_nat n → ("127.0.0.1", ":" +:+ Itoa (port + k)) ∉ taken) →
  well_addressed (mkCommittee (port_authorities port names n)) (λ _, "127.0.0.1") taken.
Proof.
  intros Hport Hfree. set (c := mkCommittee _).
  assert (∀ k, 0 <= k → Split ("127.0.0.1:" +:+ Itoa (port + k)) =
                        ["127.0.0.1"; Itoa (port + k)]) as Hsplit.
  { intros k Hk. apply (Split_address "127.0.0.1"); [done|]. apply no_colon_Itoa.
    lia. }
  assert (∀ id, id ∈ members c → ∃ i, (i < n)%nat ∧ id = Z.of_nat i ∧
    Committee_MempoolAddress c id = "127.0.0.1:" +:+ Itoa (port + (Z.of_nat n + Z.of_nat i)) ∧
    Committee_Address c id = "127.0.0.1:" +:+ Itoa (port + Z.of_nat i)) as Hm.
  { intros id Hid. unfold members in Hid. apply elem_of_dom in Hid as [a Ha]. unfold Committee_MempoolAddress, Committee_Address.
    rewrite Ha. apply lookup_port_authorities in Ha as (i & Hi & -> & ->). exists i.
    simpl. by rewrite Z.add_assoc. }
  split.
  - intros id (i & Hi & -> & -> & ->)%Hm. do 2 eexists. split; apply Hsplit; lia.
  - intros i j (i' & Hi & -> & -> & ->)%Hm (j' & Hj & -> & -> & ->)%Hm. split_and!.
    + intros H%(inj _)%(inj _). lia.
    + intros H%(inj _)%(inj _). lia.
    + intros H%(inj _)%(inj _). lia.
  - intros id (i & Hi & -> & -> & ->)%Hm. unfold dials, dial_endpoint.
    rewrite !Hsplit by lia. split; apply Hfree; lia.
Qed.

(** The default committee runs on one host. *)
Lemma default_well_addressed gen n taken :
  (∀ k, 0 <= k < 2 * Z.of_nat n → ("127.0.0.1", ":" +:+ Itoa (DefaultPort + k)) ∉ taken) →
  well_addressed (mkCommittee (default_authorities gen n)) (λ _, "127.0.0.1") taken.
Proof. by apply port_well_addressed. Qed.
