(* ===== verification/Bench.v ===== *)
(** * The local benchmark (src/benchmark/benchmark: local.py, config.py, commands.py, utils.py)

    The script that prepares and runs a set of nodes on one machine: it generates keys
    with the program, reads them back, writes the committee and the parameters, starts
    every node in a session of tmux, waits, and reads the logs.

    The machine is a parameter, [Host]: the shell, the compiler, tmux, and what goes on
    while the script sleeps.  The command [./main] is not: it is the program itself,
    [main_args] of CommandLine.v.  Python's JSON library is a parameter as well,
    [PyJson]; [params_of] says what Go reads from the parameters that Python writes.
    Directories are not modelled, nor are the messages on the terminal.

    The theorems: the sessions that the script starts run the nodes of one committee, each
    with its own keys, the threshold of the shares is the one of the protocol, and the
    addresses are such that all nodes come online ([local_bench_starts]); and no node is
    left running when the script ends, whether it returns or raises ([no_session_left]). *)

From stdpp Require Import base gmap list strings.
From Stdlib Require Import Ascii DecimalString.
From S2P Require Import Prelude Committee Crypto Message Pool Store NutsDB TsKeys.
From S2P Require Import Synchronizer Port Mempool Core Node Config Boot Cluster.
From S2P Require Import CommandLine Regex Python LogStats.

(** ** Paths *)

(** [os.path.join] of two parts *)
Fixpoint ends_with_slash (s : string) : bool :=
  match s with
  | EmptyString => false
  | String c EmptyString => bool_decide (c = slash)
  | String _ s => ends_with_slash s
  end.

Definition join (a b : string) : string :=
  match b with
  | String c _ =>
      if decide (c = slash) then b
      else if bool_decide (a = "") || ends_with_slash a then a +:+ b
      else a +:+ String slash b
  | EmptyString => if bool_decide (a = "") || ends_with_slash a then a else a +:+ String slash ""
  end.

(** [os.path.basename] *)
Definition basename (p : string) : string := default "" (last (components p)).

Definition dot : ascii := ascii_of_nat 46.

Fixpoint before_last_dot (s : string) : option string :=
  match s with
  | EmptyString => None
  | String c s =>
      match before_last_dot s with
      | Some p => Some (String c p)
      | None => if decide (c = dot) then Some "" else None
      end
  end.

(** [os.path.splitext(name)[0]]: dots at the start do not begin an extension. *)
Definition splitext_root (name : string) : string :=
  match before_last_dot name with
  | Some p => if all_chars (λ c, bool_decide (c = dot)) p then name else p
  | None => name
  end.

(** [PathMaker] *)
Definition committee_file : string := ".committee.json".
Definition parameters_file : string := ".parameters.json".
Definition key_path (i : nat) : string := ".node-key-" +:+ Itoa (Z.of_nat i) +:+ ".json".
Definition threshold_key_path (i : nat) : string := ".node-ts-key-" +:+ Itoa (Z.of_nat i) +:+ ".json".
Definition db_path (i : nat) : string := "db-" +:+ Itoa (Z.of_nat i).
Definition logs_path (ts : string) : string := "logs/" +:+ ts.
Definition results_path (ts : string) : string := "results/" +:+ ts.
Definition node_log_info_file (i : nat) (ts : string) : string :=
  join (logs_path ts) ("node-info-" +:+ Itoa (Z.of_nat i) +:+ ".log").
Definition result_file (nodes rate tx_size batch_size faults : Z) (ts : string) : string :=
  join (results_path ts)
    ("bench-" +:+ Itoa nodes +:+ "-" +:+ Itoa rate +:+ "-" +:+ Itoa tx_size +:+ "-" +:+
     Itoa batch_size +:+ "-" +:+ Itoa faults +:+ ".txt").

(** [CommandMaker] *)
Definition cleanup_configs : string := "rm -rf db-* ; rm -f .*.json".
Definition make_logs_and_result_dir (ts : string) : string :=
  "mkdir -p " +:+ logs_path ts +:+ " ; mkdir -p " +:+ results_path ts.
Definition compile : string := "go build ../main.go".
Definition generate_key (path : string) (nodes : Z) : string :=
  "./main keys --path " +:+ path +:+ " --nodes " +:+ Itoa nodes.
Definition generate_tss_key (path : string) (N T : Z) : string :=
  "./main threshold_keys --path " +:+ path +:+ " --N " +:+ Itoa N +:+ " --T " +:+ Itoa T.
Definition run_node (nodeid : nat) (keys threshold_keys committee store parameters ts : string)
    (level : Z) : string :=
  "./main run --keys " +:+ keys +:+ " --threshold_keys " +:+ threshold_keys +:+
  " --committee " +:+ committee +:+ " --store " +:+ store +:+ " --parameters " +:+ parameters +:+
  " --log_level " +:+ Itoa level +:+ " --log_out " +:+ logs_path ts +:+
  " --node_id " +:+ Itoa (Z.of_nat nodeid).
Definition kill : string := "tmux kill-server".

(** ** Configurations *)

(** A dictionary of dictionaries *)
Abbreviation pyjson := (gmap string (gmap string pyval)).

(** [d[k]] *)
Definition py_get {A} (d : gmap string A) (k : string) : outcome A := or_raise (KeyError k) (d !! k).

(** What the constructor of [NodeParameters] asks for *)
Definition required_parameters : list (string * string) :=
  [("consensus", "sync_timeout"); ("consensus", "network_delay"); ("consensus", "min_block_delay");
   ("consensus", "ddos"); ("consensus", "faults"); ("consensus", "retry_delay");
   ("consensus", "protocol"); ("consensus", "max_payload_size"); ("consensus", "max_queen_size");
   ("consensus", "min_Payload_delay"); ("consensus", "sync_retry_delay");
   ("pool", "tx_size"); ("pool", "max_tx_queue_size")].

Record NodeParameters : Type := mkNodeParameters {
  np_sync_timeout : pyval;
  np_network_delay : pyval;
  np_ddos : pyval;
  np_faults : Z;
  np_tx_size : Z;
  np_json : pyjson
}.

Definition get2 (json : pyjson) (p : string * string) : outcome pyval :=
  section ← py_get json p.1; py_get section p.2.

(** [json[s][k] = v] *)
Definition set2 (json : pyjson) (s k : string) (v : pyval) : pyjson :=
  alter (λ section, <[k := v]> section) s json.

(** A [KeyError] becomes a [ConfigError]; the conversions to integers may raise others. *)
Definition config_error {A} (caught : pyexn → bool) (o : outcome A) : outcome A :=
  match o with Raise e => Raise (if caught e then ConfigError else e) | Ret a => Ret a end.

Definition is_key_error (e : pyexn) : bool := match e with KeyError _ => true | _ => false end.
Definition is_key_or_value_error (e : pyexn) : bool :=
  match e with KeyError _ | ValueError => true | _ => false end.

Definition NodeParameters_init (json : pyjson) : outcome NodeParameters :=
  config_error is_key_error (collect (get2 json) required_parameters);;
  sync_timeout ← get2 json ("consensus", "sync_timeout");
  network_delay ← get2 json ("consensus", "network_delay");
  ddos ← get2 json ("consensus", "ddos");
  faults ← (v ← get2 json ("consensus", "faults"); int_of v);
  tx_size ← (v ← get2 json ("pool", "tx_size"); int_of v);
  Ret (mkNodeParameters sync_timeout network_delay ddos faults tx_size
    (set2 json "consensus" "protocol" (VInt 1))).

Record BenchParameters : Type := mkBenchParameters {
  bp_nodes : list Z;
  bp_log_level : Z;
  bp_rate : list Z;
  bp_batch_szie : list Z;
  bp_duration : Z;
  bp_runs : Z;
  bp_node_instance : Z;
  bp_protocol : pyvals
}.

Definition as_list (v : pyvals) : list pyval := match v with One v => [v] | Many l => l end.

(** [x <= 0] *)
Definition at_most_zero (v : pyval) : outcome bool :=
  match v with
  | VInt z => Ret (bool_decide (z <= 0))
  | VBool b => Ret (negb b)
  | VStr _ => Raise TypeError
  end.

(** [any(x <= 0 for x in l)] stops at the first. *)
Fixpoint any_at_most_zero (l : list pyval) : outcome bool :=
  match l with
  | [] => Ret false
  | x :: l => b ← at_most_zero x; if b : bool then Ret true else any_at_most_zero l
  end.

Definition optional_int (json : gmap string pyvals) (k : string) (d : Z) : outcome Z :=
  match json !! k with Some v => int_of_one v | None => Ret d end.

Definition BenchParameters_init (json : gmap string pyvals) : outcome BenchParameters :=
  config_error is_key_or_value_error (
    nodes ← (v ← py_get json "nodes"; Ret (as_list v));
    bad ← (if bool_decide (nodes = []) then Ret true else any_at_most_zero nodes);
    if bad : bool then Raise ConfigError else
    batch_szie ← (v ← py_get json "batch_size"; Ret (as_list v));
    if bool_decide (batch_szie = []) then Raise ConfigError else
    rate ← (v ← py_get json "rate"; Ret (as_list v));
    if bool_decide (rate = []) then Raise ConfigError else
    nodes ← collect int_of nodes;
    log_level ← (v ← py_get json "log_level"; int_of_one v);
    rate ← collect int_of rate;
    batch_szie ← collect int_of batch_szie;
    duration ← (v ← py_get json "duration"; int_of_one v);
    runs ← optional_int json "runs" 1;
    node_instance ← optional_int json "node_instance" 1;
    protocol ← py_get json "protocol";
    Ret (mkBenchParameters nodes log_level rate batch_szie duration runs node_instance protocol)).

(** ** The committee *)

(** The keys of a file, as they are in its JSON *)
Record Key : Type := mkKey { ky_pubkey : value; ky_prikey : value }.

Record TSSKey : Type := mkTSSKey { tk_N : value; tk_T : value; tk_pub : value; tk_share : value }.

(** A member's entry *)
Definition entry_dict (n a : string) (id : Z) (ma : string) : gmap string pyval :=
  <["mempool_addr" := VStr ma]> (<["node_id" := VInt id]>
  (<["addr" := VStr a]> (<["name" := VStr n]> ∅))).

Fixpoint build_consensus (consensus pubkeys : list string) (ids : list Z) (mempool : list string)
    (node : gmap Z (gmap string pyval)) : gmap Z (gmap string pyval) :=
  match consensus, pubkeys, ids, mempool with
  | a :: consensus, n :: pubkeys, id :: ids, ma :: mempool =>
      build_consensus consensus pubkeys ids mempool (<[id := entry_dict n a id ma]> node)
  | _, _, _, _ => node
  end.

Definition Committee_init (pubkeys : list string) (ids : list Z) (consensus_addr mempool_addr : list string)
    : outcome (gmap Z (gmap string pyval)) :=
  py_assert (bool_decide (length pubkeys = length consensus_addr) &&
             bool_decide (length pubkeys = length mempool_addr));;
  Ret (build_consensus consensus_addr pubkeys ids mempool_addr ∅).

Definition is_str (v : value) : outcome string :=
  match v with JString s => Ret s | _ => Raise AssertionError end.

Definition LocalCommittee_init (pubkeys : list value) (ids : list Z) (port : Z)
    : outcome (gmap Z (gmap string pyval)) :=
  pubkeys ← collect is_str pubkeys;
  let size := length pubkeys in
  let consensus := map (λ i, "127.0.0.1:" +:+ Itoa (port + Z.of_nat i)) (seq 0 size) in
  let mempool := map (λ i, "127.0.0.1:" +:+ Itoa (port + Z.of_nat i + Z.of_nat size)) (seq 0 size) in
  Committee_init pubkeys ids consensus mempool.

(** ** JSON between the two languages *)

(** The fields of the structures [pool.Parameters] and [core.Parameters] by their tags:
    one that is missing is zero, one of the wrong type or out of range is an error. *)
Definition int_field (section : gmap string pyval) (tag : string) : option Z :=
  match section !! tag with
  | None => Some 0
  | Some (VInt z) => if decide (in_int64 z) then Some z else None
  | Some _ => None
  end.

Definition uint_field (section : gmap string pyval) (tag : string) : option Z :=
  match section !! tag with
  | None => Some 0
  | Some (VInt z) => if decide (0 <= z < 2 ^ 64) then Some z else None
  | Some _ => None
  end.

Definition bool_field (section : gmap string pyval) (tag : string) : option bool :=
  match section !! tag with
  | None => Some false
  | Some (VBool b) => Some b
  | Some _ => None
  end.

Definition pool_parameters_of (d : gmap string pyval) : option PoolParameters :=
  rate ← int_field d "rate";
  tx_size ← int_field d "tx_size";
  batch_size ← int_field d "batch_size";
  max_tx_queue_size ← int_field d "max_tx_queue_size";
  Some (mkPoolParameters rate tx_size batch_size max_tx_queue_size).

Definition core_parameters_of (d : gmap string pyval) : option Parameters :=
  sync_timeout ← int_field d "sync_timeout";
  network_delay ← int_field d "network_delay";
  min_block_delay ← int_field d "min_block_delay";
  ddos ← bool_field d "ddos";
  faults ← int_field d "faults";
  retry_delay ← int_field d "retry_delay";
  protocol ← int_field d "protocol";
  max_payload_size ← int_field d "max_payload_size";
  max_queen_size ← uint_field d "max_queen_size";
  min_Payload_delay ← int_field d "min_Payload_delay";
  sync_retry_delay ← int_field d "sync_retry_delay";
  Some (mkParameters sync_timeout network_delay min_block_delay ddos faults retry_delay protocol
    max_payload_size max_queen_size min_Payload_delay sync_retry_delay).

Definition params_of (d : pyjson) : option ConfigParameters :=
  pool ← pool_parameters_of (default ∅ (d !! "pool"));
  consensus ← core_parameters_of (default ∅ (d !! "consensus"));
  Some (mkConfigParameters pool consensus).

(** The names that Go looks for.  It also takes other spellings of them, with capital
    letters; a file with these names only leaves no doubt. *)
Definition pool_tags : list string := ["rate"; "tx_size"; "batch_size"; "max_tx_queue_size"].
Definition consensus_tags : list string :=
  ["sync_timeout"; "network_delay"; "min_block_delay"; "ddos"; "faults"; "retry_delay"; "protocol";
   "max_payload_size"; "max_queen_size"; "min_Payload_delay"; "sync_retry_delay"].

Definition tagged (d : pyjson) : bool :=
  bool_decide (map_Forall (λ s section,
    (s = "pool" ∧ map_Forall (λ k _, k ∈ pool_tags) section) ∨
    (s = "consensus" ∧ map_Forall (λ k _, k ∈ consensus_tags) section)) d).

Definition go_scalar (v : pyval) : scalar :=
  match v with VInt z => SNumber z | VBool _ => SOther | VStr s => SString s end.

Definition go_data (d : pyjson) : gmap string value := (λ fields, JObject (go_scalar <$> fields)) <$> d.

(** [load] raises a [ValueError] on a text that is not one value of JSON. *)
Class PyJson : Type := {
  py_load : list byte → outcome (gmap string value);
  py_dump : pyjson → list byte
}.

(** Each language reads what the other has written. *)
Class PyJsonLaws {PJ : PyJson} {J : JsonMap} {JC : JsonStruct ConfigParameters} : Prop := {
  py_reads_go : ∀ data, plain data → py_load (json_Encode data) = Ret data;
  go_reads_py : ∀ d, plain (go_data d) → json_Decode (py_dump d) = Ok (go_data d);
  go_reads_params : ∀ d cp, tagged d = true → params_of d = Some cp → js_Decode (py_dump d) = Ok cp
}.

(** ** The machine *)

(** Its files, and the sessions of tmux with their command lines *)
Record bench : Type := mkBench {
  bn_files : files;
  bn_sessions : list (string * string)
}.

Class Host : Type := {
  (** a line of the shell *)
  host_shell : string → bench → bench;
  (** a program other than [./main], by its words; [None] if there is no such program,
      otherwise whether it succeeds *)
  host_exec : list string → bench → option bool * bench;
  (** what goes on during a number of milliseconds *)
  host_sleep : Z → bench → bench;
  (** the files after [./main] has failed *)
  host_failed : list string → files → files;
  (** how the shell reads the command line of a session: the words of the command and
      the file for its errors *)
  host_argv : string → option (list string * string);
  (** the names that match a pattern, sorted *)
  host_glob : string → files → list string
}.

Section local.
Context {H : Host} {PJ : PyJson} {CO : Cobra} {CL : CryptoLib} {J : JsonMap} {K : KyberKeys}.
Context {JP : JsonStruct TSPartialMarshalled} {JM : JsonStruct TSPublicMarshalled}.
Context {JC : JsonStruct ConfigParameters} {NU : Nuts} {NL : NutsLaws}.
Context (creatable : string → bool) (range : gmap string value → list (string * value)).
Context (gen : nat → list byte * list byte) (ts_keys : Z → Z → list PriShare * PubPoly).
(** [str] of a value, and the offset of the local time *)
Context (py_str : pyvals → string) (utcoffset : Stamp → Z).

Definition read_file (name : string) : PyM bench (list byte) := λ w,
  match bn_files w !! path_of name with
  | Some text => (Ret text, w)
  | None => (Raise OSError, w)
  end.

Definition set_file (name : string) (text : list byte) (w : bench) : bench :=
  mkBench (<[path_of name := text]> (bn_files w)) (bn_sessions w).

Definition write_file (name : string) (text : list byte) : PyM bench unit := λ w,
  if creatable name then (Ret tt, set_file name text w) else (Raise OSError, w).

Definition append_file (name : string) (text : list byte) : PyM bench unit := λ w,
  if creatable name then
    (Ret tt, set_file name (default [] (bn_files w !! path_of name) ++ text) w)
  else (Raise OSError, w).

(** [Key.from_file] and [TSSKey.from_file] *)
Definition Key_from_file (filename : string) : PyM bench Key :=
  text ← read_file filename;
  data ← lift (py_load text);
  pubkey ← lift (py_get data "public");
  prikey ← lift (py_get data "private");
  mret (mkKey pubkey prikey).

Definition TSSKey_from_file (filename : string) : PyM bench TSSKey :=
  text ← read_file filename;
  data ← lift (py_load text);
  N ← lift (py_get data "N");
  T ← lift (py_get data "T");
  pub ← lift (py_get data "pub");
  share ← lift (py_get data "share");
  mret (mkTSSKey N T pub share).

(** [Committee.print] and [NodeParameters.print]; the keys of a dictionary become texts. *)
Definition Committee_print (json : gmap Z (gmap string pyval)) (filename : string) : PyM bench unit :=
  write_file filename (py_dump (kmap Itoa json)).

Definition NodeParameters_print (json : pyjson) (filename : string) : PyM bench unit :=
  write_file filename (py_dump json).

(** [subprocess.run]: whether the program succeeds *)
Definition subprocess_run (argv : list string) : PyM bench bool := λ w,
  match argv with
  | program :: args =>
      if decide (program = "./main") then
        match main_args creatable range gen ts_keys args (mkMachine (bn_files w) Loggers_init) with
        | Returns _ s => (Ret true, mkBench (mc_files s) (bn_sessions w))
        | Crash _ => (Ret false, mkBench (host_failed args (bn_files w)) (bn_sessions w))
        end
      else
        match host_exec argv w with
        | (Some ok, w') => (Ret ok, w')
        | (None, w') => (Raise OSError, w')
        end
  | [] => (Raise IndexError, w)
  end.

(** ... with [check=True] *)
Definition check_run (argv : list string) : PyM bench unit :=
  ok ← subprocess_run argv;
  if ok : bool then mret tt else raise SubprocessError.

Definition sleep (ms : Z) : PyM bench unit :=
  if decide (ms < 0) then raise ValueError else act (host_sleep ms).

(** ** LocalBench *)

Definition BASE_PORT : Z := 6000.

Record LocalBench : Type := mkLocalBench {
  lb_ts : string;
  lb_bench_parameters : BenchParameters;
  lb_node_parameters : NodeParameters
}.

Definition bench_error {A} (o : outcome A) : outcome A :=
  match o with Raise ConfigError => Raise (BenchError ConfigError) | o => o end.

Definition LocalBench_init (now : string) (bench_parameters_dict : gmap string pyvals)
    (node_parameters_dict : pyjson) : outcome LocalBench :=
  bench_error (
    bench_parameters ← BenchParameters_init bench_parameters_dict;
    node_parameters ← NodeParameters_init node_parameters_dict;
    Ret (mkLocalBench now bench_parameters node_parameters)).

Definition background_run (command log_file : string) : PyM bench unit :=
  let name := splitext_root (basename log_file) in
  let cmd := command +:+ " 2> " +:+ log_file in
  check_run ["tmux"; "new"; "-d"; "-s"; name; cmd].

Definition kill_nodes : PyM bench unit :=
  try_except (subprocess_run (py_split kill);; mret tt)
    (λ e, match e with SubprocessError => Some (raise (BenchError e)) | _ => None end).

(** [l[0]] *)
Definition first {A} (l : list A) : outcome A := or_raise IndexError (head l).

(** [json[s][k] = v], which needs a section *)
Definition store2 (json : pyjson) (s k : string) (v : pyval) : outcome pyjson :=
  py_get json s;; Ret (set2 json s k v).

(** The command of node [i] *)
Definition node_command (ts : string) (level : Z) (i : nat) : string :=
  run_node i (key_path i) (threshold_key_path i) committee_file (db_path i) parameters_file ts level.

(** The parts of [run]: the old files are removed and the program is compiled, ... *)
Definition prepare (ts : string) : PyM bench unit :=
  act (host_shell (cleanup_configs +:+ " ; " +:+ make_logs_and_result_dir ts));;
  sleep 500;;
  check_run (py_split compile).

(** ... the keys are generated and read, ... *)
Definition generate_keys (nodes : Z) : PyM bench (list Key) :=
  let range_nodes := seq 0 (Z.to_nat nodes) in
  check_run (py_split (generate_key "./" nodes));;
  keys ← collect_run Key_from_file (map key_path range_nodes);
  let T := 2 * ((nodes - 1) / 3) + 1 in
  check_run (py_split (generate_tss_key "./" nodes T));;
  collect_run TSSKey_from_file (map threshold_key_path range_nodes);;
  mret keys.

(** ... and the committee and the parameters are written. *)
Definition write_configs (nodes : Z) (keys : list Key) (json : pyjson) : PyM bench unit :=
  committee ← lift (LocalCommittee_init (map ky_pubkey keys)
    (map Z.of_nat (seq 0 (Z.to_nat nodes))) BASE_PORT);
  Committee_print committee committee_file;;
  NodeParameters_print json parameters_file.

(** [run] up to the start of the nodes *)
Definition setup (lb : LocalBench) : PyM bench unit :=
  let ts := lb_ts lb in
  nodes ← lift (first (bp_nodes (lb_bench_parameters lb)));
  rate ← lift (first (bp_rate (lb_bench_parameters lb)));
  batch_size ← lift (first (bp_batch_szie (lb_bench_parameters lb)));
  json ← lift (store2 (np_json (lb_node_parameters lb)) "pool" "rate" (VInt rate));
  json ← lift (store2 json "pool" "batch_size" (VInt batch_size));
  prepare ts;;
  keys ← generate_keys nodes;
  write_configs nodes keys json;;
  for_each (λ i, background_run (node_command ts (bp_log_level (lb_bench_parameters lb)) i)
      (node_log_info_file i ts))
    (seq 0 (Z.to_nat nodes)).

(** [2 * sync_timeout / 1000] seconds *)
Definition sync_wait (v : pyval) : outcome Z :=
  match v with
  | VInt z => Ret (2 * z)
  | VBool b => Ret (if b then 2 else 0)
  | VStr _ => Raise TypeError
  end.

(** [LogParser.process] *)
Definition process (directory : string) (faults : Z) : PyM bench LogParser := λ w,
  (texts ← collect_run read_file (host_glob (join directory "node-info-*.log") (bn_files w));
   lift (LogParser_init utcoffset (map string_of_bytes texts) faults)) w.

Definition LogParser_print (lp : LogParser) (protocol ddos filename : string) : PyM bench unit :=
  s ← lift (LogParser_result lp);
  append_file filename (bytes_of_string (summary_text protocol ddos s)).

(** ... and the rest of it *)
Definition observe (lb : LocalBench) : PyM bench LogParser :=
  let np := lb_node_parameters lb in
  let bp := lb_bench_parameters lb in
  wait ← lift (sync_wait (np_sync_timeout np));
  sleep wait;;
  sleep (1000 * bp_duration bp);;
  kill_nodes;;
  log_parser ← process (logs_path (lb_ts lb)) (np_faults np);
  nodes ← lift (first (bp_nodes bp));
  rate ← lift (first (bp_rate bp));
  batch_size ← lift (first (bp_batch_szie bp));
  LogParser_print log_parser (py_str (bp_protocol bp)) (py_str (One (np_ddos np)))
    (result_file nodes rate (np_tx_size np) batch_size (np_faults np) (lb_ts lb));;
  mret log_parser.

Definition run (lb : LocalBench) : PyM bench LogParser :=
  kill_nodes;;
  try_except (setup lb;; observe lb)
    (λ e, match e with
          | SubprocessError | ParseError => Some (kill_nodes;; raise (BenchError e))
          | _ => None
          end).

(** ** What the script relies on *)

(** A word that the shell leaves as it is *)
Definition word_char (c : ascii) : bool :=
  is_digit c ||
  (let n := nat_of_ascii c in
   ((65 <=? n)%nat && (n <=? 90)%nat) || ((97 <=? n)%nat && (n <=? 122)%nat) ||
   bool_decide (n ∈ [45; 46; 47; 58; 95]%nat)).

Definition word (s : string) : Prop := s ≠ "" ∧ all_chars word_char s = true.

(** A name that tmux takes for a session as it is: it gives dots and colons a meaning. *)
Definition session_char (c : ascii) : bool :=
  word_char c && negb (bool_decide (nat_of_ascii c ∈ [46; 58]%nat)).

Definition tmux_name (s : string) : Prop := s ≠ "" ∧ all_chars session_char s = true.

(** The files that the clean-up removes: [.*.json] *)
Definition dot_json (f : list string) : Prop :=
  ∃ name, slash_free name ∧ f = ["." +:+ name +:+ ".json"].

(** Whatever else happens to the files, these stay. *)
Definition same_configs (fs fs' : files) : Prop := ∀ f, dot_json f → fs' !! f = fs !! f.

Class HostLaws : Prop := {
  hl_cleanup : ∀ ts w f, word ts → dot_json f →
    bn_files (host_shell (cleanup_configs +:+ " ; " +:+ make_logs_and_result_dir ts) w) !! f = None;
  hl_cleanup_sessions : ∀ ts w, word ts →
    bn_sessions (host_shell (cleanup_configs +:+ " ; " +:+ make_logs_and_result_dir ts) w) =
    bn_sessions w;
  (** the compiler starts no session, and without nodes the files rest *)
  hl_sessions : ∀ w, bn_sessions (host_exec (py_split compile) w).2 = bn_sessions w;
  hl_sleep : ∀ ms w, bn_sessions w = [] →
    bn_sessions (host_sleep ms w) = [] ∧ same_configs (bn_files w) (bn_files (host_sleep ms w));
  hl_build : ∀ w, same_configs (bn_files w) (bn_files (host_exec (py_split compile) w).2);
  (** tmux is there *)
  hl_tmux : ∀ args w, is_Some (host_exec ("tmux" :: args) w).1;
  hl_kill : ∀ w, bn_sessions (host_exec ["tmux"; "kill-server"] w).2 = [] ∧
    same_configs (bn_files w) (bn_files (host_exec ["tmux"; "kill-server"] w).2);
  hl_new : ∀ name args file w, tmux_name name → name ∉ (bn_sessions w).*1 → Forall word args → word file →
    let cmd := String.concat " " ("./main" :: args) +:+ " 2> " +:+ file in
    let r := host_exec ["tmux"; "new"; "-d"; "-s"; name; cmd] w in
    r.1 = Some true ∧ bn_sessions r.2 = bn_sessions w ++ [(name, cmd)] ∧
    same_configs (bn_files w) (bn_files r.2);
  (** the shell that tmux starts takes a command line of plain words apart *)
  hl_argv : ∀ args file, Forall word args → word file →
    host_argv (String.concat " " ("./main" :: args) +:+ " 2> " +:+ file) = Some ("./main" :: args, file)
}.

Section laws.
Context {HL : HostLaws}.

(** ** The sessions *)

(** Programs that start no session *)
Definition quiet {A} (m : PyM bench A) : Prop := ∀ w,
  bn_sessions w = [] → bn_sessions (m w).2 = [].

Lemma quiet_bind {A B} (m : PyM bench A) (f : A → PyM bench B) :
  quiet m → (∀ a, quiet (f a)) → quiet (m ≫= f).
Proof.
  intros Hm Hf w Hw. unfold mbind, PyM_bind. specialize (Hm w Hw).
  destruct (m w) as [[a|e] w1]; simpl in *; [|done]. by apply Hf.
Qed.

Lemma quiet_ret {A} (a : A) : quiet (mret a).
Proof. by intros w. Qed.

Lemma quiet_lift {A} (o : outcome A) : quiet (lift o).
Proof. by intros w. Qed.

Lemma quiet_raise {A} e : quiet (raise e : PyM bench A).
Proof. by intros w. Qed.

Lemma quiet_read_file name : quiet (read_file name).
Proof. intros w. unfold read_file. by destruct (_ !! _). Qed.

Lemma quiet_write_file name text : quiet (write_file name text).
Proof. intros w. unfold write_file. by destruct (creatable name). Qed.

Lemma quiet_append_file name text : quiet (append_file name text).
Proof. intros w. unfold append_file. by destruct (creatable name). Qed.

Lemma quiet_sleep ms : quiet (sleep ms).
Proof. intros w Hw. unfold sleep. case_decide; [done|]. by apply hl_sleep. Qed.

Lemma quiet_cleanup ts :
  word ts → quiet (act (host_shell (cleanup_configs +:+ " ; " +:+ make_logs_and_result_dir ts))).
Proof. intros Hts w Hw. unfold act. cbn [snd]. by rewrite hl_cleanup_sessions. Qed.

Lemma quiet_collect_run {A B} (f : A → PyM bench B) l : (∀ a, quiet (f a)) → quiet (collect_run f l).
Proof.
  intros Hf. induction l as [|a l IH]; cbn [collect_run]; [apply quiet_ret|].
  apply quiet_bind; [done|]. intros b. apply quiet_bind; [done|]. intros bs. apply quiet_ret.
Qed.

Lemma quiet_check_run argv :
  head argv = Some "./main" ∨ argv = py_split compile → quiet (check_run argv).
Proof.
  intros Hargv. unfold check_run. apply quiet_bind.
  - intros w Hw. unfold subprocess_run. destruct argv as [|p args]; [done|]. case_decide.
    + by destruct (main_args _ _ _ _ _ _).
    + pose proof (hl_sessions w) as Hs. destruct Hargv as [[= ->]|Hargv]; [done|].
      rewrite <-Hargv, Hw in Hs.
      by destruct (host_exec _ w) as [[]].
  - intros []; [apply quiet_ret|apply quiet_raise].
Qed.

Create HintDb quiet.
#[local] Hint Resolve quiet_bind quiet_ret quiet_lift quiet_raise quiet_read_file quiet_write_file
  quiet_append_file quiet_sleep quiet_cleanup quiet_collect_run quiet_check_run : quiet.

Lemma quiet_Key_from_file f : quiet (Key_from_file f).
Proof. unfold Key_from_file. auto 10 with quiet. Qed.

Lemma quiet_TSSKey_from_file f : quiet (TSSKey_from_file f).
Proof. unfold TSSKey_from_file. auto 15 with quiet. Qed.

Lemma quiet_process d faults : quiet (process d faults).
Proof. intros w. unfold process. apply quiet_bind; auto with quiet. Qed.

(** Programs that raise with nodes running only if a command fails *)
Definition tidy {A} (m : PyM bench A) : Prop := ∀ w, bn_sessions w = [] →
  match m w with
  | (Raise e, w') => bn_sessions w' = [] ∨ e = SubprocessError
  | (Ret _, _) => True
  end.

Lemma tidy_bind {A B} (m : PyM bench A) (f : A → PyM bench B) :
  quiet m → (∀ a, tidy (f a)) → tidy (m ≫= f).
Proof.
  intros Hm Hf w Hw. unfold mbind, PyM_bind. specialize (Hm w Hw).
  destruct (m w) as [[a|e] w1]; simpl in *; [|by left]. by apply Hf.
Qed.

Lemma background_run_raises cmd log w e w' : background_run cmd log w = (Raise e, w') → e = SubprocessError.
Proof.
  unfold background_run, check_run, subprocess_run, mbind, PyM_bind. rewrite decide_False by done.
  destruct (hl_tmux ["new"; "-d"; "-s"; splitext_root (basename log); cmd +:+ " 2> " +:+ log] w) as [ok Hok].
  destruct (host_exec _ w) as [o w1]. simpl in Hok. subst o. destruct ok; [done|]. by intros [= <- _].
Qed.

Lemma tidy_launch cmd log (l : list nat) : tidy (for_each (λ i, background_run (cmd i) (log i)) l).
Proof.
  intros w _. assert (∀ w, match for_each (λ i, background_run (cmd i) (log i)) l w with
                           | (Raise e, _) => e = SubprocessError | _ => True end) as Hl.
  { induction l as [|i l IH]; [done|]. intros w1. cbn [for_each]. unfold mbind, PyM_bind.
    destruct (background_run (cmd i) (log i) w1) as [[[]|e] w2] eqn:Hb; [apply IH|].
    by apply background_run_raises in Hb. }
  specialize (Hl w). destruct (for_each _ _ w) as [[]]; auto.
Qed.

(** ** Command lines *)

Lemma word_app s t : word s → all_chars word_char t = true → word (s +:+ t).
Proof.
  intros [Hne Hs] Ht. split; [by destruct s|]. by rewrite all_chars_app, Hs.
Qed.

Lemma word_solid s : word s → solid s.
Proof.
  intros [Hne Hs]. split; [done|]. revert Hs. apply all_chars_impl.
  intros [[] [] [] [] [] [] [] []]; vm_compute; congruence.
Qed.

Lemma tmux_name_word s : tmux_name s → word s.
Proof.
  intros [Hne Hs]. split; [done|]. revert Hs. apply all_chars_impl. by intros c [? _]%andb_true_iff.
Qed.

Lemma tmux_name_Itoa z : tmux_name (Itoa z).
Proof.
  assert (∀ d, all_chars session_char (NilEmpty.string_of_uint d) = true) as Hd by (by induction d).
  assert (∀ d, tmux_name (NilZero.string_of_uint d)) as Hz.
  { intros d. unfold tmux_name. destruct d; try (split; [done|apply (Hd (_ _))]). done. }
  unfold Itoa. destruct (Z.to_int z) as [d|d]; simpl; [apply Hz|].
  split; [done|]. apply Hz.
Qed.

Lemma word_Itoa z : word (Itoa z).
Proof. apply tmux_name_word, tmux_name_Itoa. Qed.

Ltac a_word := split; [done|by vm_compute].

Lemma compile_words : py_split compile = ["go"; "build"; "../main.go"].
Proof. by vm_compute. Qed.

Lemma kill_words : py_split kill = ["tmux"; "kill-server"].
Proof. by vm_compute. Qed.

Lemma generate_key_words n :
  py_split (generate_key "./" n) = "./main" :: "keys" :: flag_words (given_of (keyCmd n "./")).
Proof.
  apply (py_split_concat ["./main"; "keys"; "--path"; "./"; "--nodes"; Itoa n]).
  repeat constructor; first [apply word_solid, word_Itoa|by vm_compute].
Qed.

Lemma generate_tss_key_words N T :
  py_split (generate_tss_key "./" N T) =
  "./main" :: "threshold_keys" :: flag_words (given_of (tssKeyCmd N T "./")).
Proof.
  apply (py_split_concat ["./main"; "threshold_keys"; "--path"; "./"; "--N"; Itoa N; "--T"; Itoa T]).
  repeat constructor; first [apply word_solid, word_Itoa|by vm_compute].
Qed.

(** ** No session is left *)

Lemma quiet_prepare ts : word ts → quiet (prepare ts).
Proof. intros Hts. unfold prepare. rewrite compile_words. auto with quiet. Qed.

Lemma quiet_generate_keys n : quiet (generate_keys n).
Proof.
  unfold generate_keys. rewrite generate_key_words, generate_tss_key_words.
  auto 10 using quiet_Key_from_file, quiet_TSSKey_from_file with quiet.
Qed.

Lemma quiet_write_configs n keys json : quiet (write_configs n keys json).
Proof. unfold write_configs, Committee_print, NodeParameters_print. auto with quiet. Qed.

Lemma tidy_setup lb : word (lb_ts lb) → tidy (setup lb).
Proof.
  intros Hts. unfold setup.
  repeat (apply tidy_bind; [|intros ?]); auto using tidy_launch, quiet_prepare, quiet_generate_keys,
    quiet_write_configs with quiet.
Qed.

Lemma kill_nodes_sessions w :
  ∃ w', kill_nodes w = (Ret tt, w') ∧ bn_sessions w' = [] ∧ same_configs (bn_files w) (bn_files w').
Proof.
  unfold kill_nodes. rewrite kill_words. unfold try_except, mbind, PyM_bind, subprocess_run.
  rewrite decide_False by done. destruct (hl_tmux ["kill-server"] w) as [ok Hok].
  destruct (hl_kill w) as [Hk Hf].
  destruct (host_exec _ w) as [o w1]. simpl in *. subst o. by exists w1.
Qed.

Lemma sleep_runs ms w : 0 <= ms → sleep ms w = (Ret tt, host_sleep ms w).
Proof. intros Hms. unfold sleep. by rewrite decide_False by lia. Qed.

(** Once the nodes are stopped, none is started. *)
Lemma observe_quiet lb wait w :
  sync_wait (np_sync_timeout (lb_node_parameters lb)) = Ret wait → 0 <= wait →
  0 <= bp_duration (lb_bench_parameters lb) → bn_sessions (observe lb w).2 = [].
Proof.
  intros Hwait Hw Hd. unfold observe. rewrite (PyM_bind_Ret _ _ w wait w) by (by rewrite Hwait).
  do 2 (erewrite PyM_bind_Ret; [|apply sleep_runs; lia]).
  set (w1 := host_sleep _ _). destruct (kill_nodes_sessions w1) as (w2 & Hk & Hs & _).
  rewrite (PyM_bind_Ret _ _ _ _ _ Hk).
  clear Hk. revert w2 Hs. apply quiet_bind; [apply quiet_process|]. intros lp. unfold LogParser_print.
  auto 10 with quiet.
Qed.

(** No node is left running: when the script ends, whether it returns the figures or
    raises an exception, all sessions have been stopped, provided that the times to wait
    are not negative. *)
Theorem no_session_left lb wait w :
  word (lb_ts lb) → sync_wait (np_sync_timeout (lb_node_parameters lb)) = Ret wait →
  0 <= wait → 0 <= bp_duration (lb_bench_parameters lb) →
  bn_sessions (run lb w).2 = [].
Proof.
  intros Hts Hwait Hw Hd. unfold run. unfold mbind at 1, PyM_bind at 1.
  destruct (kill_nodes_sessions w) as (w1 & -> & Hs1 & _). unfold try_except.
  unfold mbind at 1, PyM_bind at 1. pose proof (tidy_setup lb Hts w1 Hs1) as Hset.
  destruct (setup lb w1) as [[[]|e] w2].
  - pose proof (observe_quiet lb wait w2 Hwait Hw Hd) as Ho.
    destruct (observe lb w2) as [[lp|e] w3]; [done|]. cbn [snd] in Ho.
    destruct e; try done; unfold mbind, PyM_bind;
      by destruct (kill_nodes_sessions w3) as (w4 & -> & Hs4 & _).
  - destruct e; try (by destruct Hset); unfold mbind, PyM_bind;
      by destruct (kill_nodes_sessions w2) as (w4 & -> & Hs4 & _).
Qed.

(** ** The files of the nodes *)

Lemma path_of_free s : slash_free s → useful s = true → path_of s = [s].
Proof.
  intros Hs Hu. unfold path_of. rewrite components_free by done. cbn [List.filter]. rewrite Hu.
  destruct s as [|c s]; [done|]. unfold slash_free in Hs. cbn in Hs. cbn [root_of].
  rewrite decide_False; [done|]. set_solver.
Qed.

Lemma dot_json_name a i : slash_free a →
  slash_free (a +:+ Itoa (Z.of_nat i)) ∧ dot_json ["." +:+ a +:+ Itoa (Z.of_nat i) +:+ ".json"].
Proof.
  intros Ha. assert (slash_free (a +:+ Itoa (Z.of_nat i))) as Hf.
  { apply slash_free_app; [done|apply slash_free_Itoa]. }
  split; [done|]. exists (a +:+ Itoa (Z.of_nat i)). split; [done|]. by rewrite <-string_app_assoc.
Qed.

Ltac no_slash := apply (bool_decide_unpack _); by vm_compute.

Lemma key_path_spec i :
  path_of (key_path i) = [key_name i] ∧ path_of (key_file "./" i) = [key_name i] ∧
  dot_json [key_name i].
Proof.
  split_and!; [|apply path_of_key_file|by apply (dot_json_name "node-key-"); no_slash].
  apply path_of_free; [|done]. apply slash_free_name; no_slash.
Qed.

Lemma threshold_key_path_spec i :
  path_of (threshold_key_path i) = [ts_key_name i] ∧ path_of (ts_key_file "./" i) = [ts_key_name i] ∧
  dot_json [ts_key_name i].
Proof.
  split_and!; [|apply path_of_ts_key_file|by apply (dot_json_name "node-ts-key-"); no_slash].
  apply path_of_free; [|done]. apply slash_free_name; no_slash.
Qed.

Lemma committee_file_spec : path_of committee_file = [committee_file] ∧ dot_json [committee_file].
Proof. split; [done|]. exists "committee". split; [no_slash|done]. Qed.

Lemma parameters_file_spec : path_of parameters_file = [parameters_file] ∧ dot_json [parameters_file].
Proof. split; [done|]. exists "parameters". split; [no_slash|done]. Qed.

(** ** The sessions of the nodes *)

Lemma ends_with_slash_app s t : t ≠ "" → ends_with_slash (s +:+ t) = ends_with_slash t.
Proof.
  intros Ht. induction s as [|c s IH]; [done|]. rewrite string_cons_app.
  destruct (s +:+ t) as [|c' u] eqn:E; [|exact IH].
  by destruct s; [|discriminate E].
Qed.

Lemma slash_free_ends s : slash_free s → ends_with_slash s = false.
Proof.
  unfold slash_free. induction s as [|c s IH]; [done|]. cbn [String.list_ascii_of_string].
  rewrite not_elem_of_cons. intros [Hc Hs]. destruct s as [|c' s].
  - cbn. by rewrite bool_decide_eq_false_2.
  - by apply IH.
Qed.

Lemma before_last_dot_app s t p : before_last_dot t = Some p → before_last_dot (s +:+ t) = Some (s +:+ p).
Proof.
  intros Ht. induction s as [|c s IH]; [done|]. rewrite !string_cons_app. cbn [before_last_dot].
  by rewrite IH.
Qed.

Section stamp.
Context (ts : string).
Hypothesis ts_word : word ts.
Hypothesis ts_slash : slash_free ts.

Lemma node_log_info_file_eq i :
  node_log_info_file i ts = logs_path ts +:+ String slash ("node-info-" +:+ Itoa (Z.of_nat i) +:+ ".log").
Proof.
  unfold node_log_info_file.
  change ("node-info-" +:+ ?x) with (String "n" ("ode-info-" +:+ x)). unfold join.
  rewrite decide_False by done.
  assert (ends_with_slash (logs_path ts) = false) as ->; [|done].
  unfold logs_path. rewrite ends_with_slash_app by apply ts_word. by apply slash_free_ends.
Qed.

Definition session_name (i : nat) : string := "node-info-" +:+ Itoa (Z.of_nat i).

Lemma session_name_spec i : splitext_root (basename (node_log_info_file i ts)) = session_name i.
Proof.
  unfold basename. rewrite node_log_info_file_eq, components_app, last_snoc.
  - cbn [from_option id]. unfold splitext_root.
    pose proof (before_last_dot_app (session_name i) ".log" "" eq_refl) as Hb.
    unfold session_name in Hb. rewrite <-string_app_assoc, string_app_nil_r in Hb. by rewrite Hb.
  - apply slash_free_name; no_slash.
Qed.

Lemma session_name_tmux i : tmux_name (session_name i).
Proof.
  split; [done|]. unfold session_name. rewrite all_chars_app. apply (tmux_name_Itoa (Z.of_nat i)).
Qed.

#[local] Instance session_name_inj : Inj (=) (=) session_name.
Proof. intros i j Hij. unfold session_name in Hij. apply (inj _), (inj _) in Hij. lia. Qed.

Lemma node_log_info_word i : word (node_log_info_file i ts).
Proof.
  rewrite node_log_info_file_eq. unfold logs_path. destruct ts_word as [_ Ht].
  apply word_app; [by apply word_app; [a_word|]|]. cbn [all_chars].
  apply andb_true_intro; split; [done|]. rewrite !all_chars_app, (proj2 (word_Itoa _)). done.
Qed.

(** Every node gets its session. *)
Lemma launched (args : nat → list string) l w :
  let cmd i := String.concat " " ("./main" :: args i) in
  (∀ i, Forall word (args i)) → NoDup l → (∀ i, i ∈ l → session_name i ∉ (bn_sessions w).*1) →
  ∃ w', for_each (λ i, background_run (cmd i) (node_log_info_file i ts)) l w = (Ret tt, w') ∧
    bn_sessions w' = bn_sessions w ++
      map (λ i, (session_name i, cmd i +:+ " 2> " +:+ node_log_info_file i ts)) l ∧
    same_configs (bn_files w) (bn_files w').
Proof.
  intros cmd Hargs. revert w. induction l as [|i l IH]; intros w Hnd Hfresh.
  { exists w. split_and!; [done|by rewrite app_nil_r|by intros f]. }
  apply NoDup_cons in Hnd as [Hi Hnd].
  set (c := cmd i +:+ " 2> " +:+ node_log_info_file i ts).
  destruct (hl_new (session_name i) (args i) (node_log_info_file i ts) w) as (Hok & Hs & Hf);
    [apply session_name_tmux|apply Hfresh; left|done|apply node_log_info_word|].
  fold (cmd i) in Hok, Hs, Hf. fold c in Hok, Hs, Hf.
  destruct (host_exec _ w) as [o w1] eqn:He. simpl in *. subst o.
  destruct (IH w1 Hnd) as (w' & Hrun & Hs' & Hf').
  { intros j Hj. rewrite Hs, fmap_app, not_elem_of_app. split; [apply Hfresh; by right|].
    simpl. rewrite list_elem_of_singleton. intros [= ->]%(inj _). done. }
  exists w'. split_and!.
  - cbn [for_each]. rewrite (PyM_bind_Ret _ _ w tt w1); [exact Hrun|].
    unfold background_run. rewrite session_name_spec. fold c.
    unfold check_run, subprocess_run, mbind, PyM_bind. rewrite decide_False by done. by rewrite He.
  - rewrite Hs', Hs, <-app_assoc. done.
  - intros f Hd. rewrite Hf', Hf by done. done.
Qed.
End stamp.

(** ** The committee that the script writes *)

Lemma build_consensus_seq (f g h : nat → string) k n node :
  build_consensus (map f (seq k n)) (map g (seq k n)) (map Z.of_nat (seq k n)) (map h (seq k n)) node =
  list_to_map (map (λ i, (Z.of_nat i, entry_dict (g i) (f i) (Z.of_nat i) (h i))) (seq k n)) ∪ node.
Proof.
  revert k node. induction n as [|n IH]; intros k node; cbn [seq map build_consensus].
  { symmetry. apply (left_id_L ∅ (∪)). }
  rewrite IH. cbn [list_to_map foldr fst snd uncurry]. rewrite <-insert_union_l, insert_union_r; [done|].
  apply not_elem_of_list_to_map_1. rewrite <-list_fmap_compose, list_elem_of_fmap.
  intros (i & Hi & Hin%elem_of_seq). simpl in Hi. lia.
Qed.

Definition hex_name (i : nat) : string := string_of_bytes (EncodePublicKey (gen i).2).

Definition local_committee (n : nat) : Committee :=
  mkCommittee (port_authorities BASE_PORT (λ i, (gen i).2) n).

Definition dict_of_member (a : Authority) : gmap string pyval :=
  entry_dict (string_of_bytes (EncodePublicKey (au_Name a))) (au_Addr a) (au_Id a) (au_MempoolAddr a).

Lemma LocalCommittee_init_ok n :
  LocalCommittee_init (map (λ i, JString (hex_name i)) (seq 0 n)) (map Z.of_nat (seq 0 n)) BASE_PORT =
  Ret (dict_of_member <$> Authorities (local_committee n)).
Proof.
  unfold LocalCommittee_init.
  assert (collect is_str (map (λ i, JString (hex_name i)) (seq 0 n)) = Ret (map hex_name (seq 0 n))) as ->.
  { induction (seq 0 n) as [|i l IH]; [done|]. cbn [map collect]. by rewrite IH. }
  cbn [mbind outcome_bind]. unfold Committee_init. rewrite !length_map, !length_seq.
  rewrite !bool_decide_eq_true_2 by done. cbn [mbind outcome_bind py_assert andb].
  rewrite build_consensus_seq, (right_id_L ∅ (∪)). f_equal. cbn [local_committee Authorities].
  unfold port_authorities. rewrite <-list_to_map_fmap, map_map. f_equal. apply map_ext. intros i. simpl.
  unfold dict_of_member, hex_name. simpl. by rewrite <-!Z.add_assoc, (Z.add_comm (Z.of_nat i)).
Qed.

Definition id_field (a : Authority) : gmap string scalar := {["node_id" := SNumber (au_Id a)]}.

(** Go finds the committee in the file. *)
Lemma go_data_committee c :
  go_data (kmap Itoa (dict_of_member <$> Authorities c)) = committee_data id_field c.
Proof.
  unfold go_data, committee_data. rewrite <-(kmap_fmap Itoa), <-map_fmap_compose by apply Itoa_inj. f_equal.
Qed.

Lemma local_proper n :
  (∀ i, Forall is_byte (gen i).2) → BASE_PORT + 2 * Z.of_nat n < 2 ^ 16 →
  map_Forall proper_member (Authorities (local_committee n)).
Proof.
  intros Hgen Hn id a (i & Hi & -> & ->)%lookup_port_authorities. unfold BASE_PORT in *. split_and!; simpl.
  - unfold in_int64. lia.
  - done.
  - apply Hgen.
  - apply (plain_app "127.0.0.1:"); [plain_literal|apply plain_Itoa].
  - apply (plain_app "127.0.0.1:"); [plain_literal|apply plain_Itoa].
Qed.

Lemma local_named n : named (local_committee n) gen (Z.of_nat n).
Proof.
  split.
  - intros id. unfold members. rewrite elem_of_dom. unfold is_Some.
    setoid_rewrite lookup_port_authorities. split.
    + intros (a & i & Hi & -> & _). lia.
    + intros Hid. eexists _, (Z.to_nat id). split_and!; [lia|lia|done].
  - intros i Hi. unfold Committee_Name. simpl.
    assert (port_authorities BASE_PORT (λ i, (gen i).2) n !! Z.of_nat i =
      Some (port_member BASE_PORT (gen i).2 n i)) as ->; [|done].
    apply lookup_port_authorities. exists i. split; [lia|done].
Qed.

Lemma local_threshold n :
  (0 < n)%nat → Committee_HightThreshold (local_committee n) = 2 * ((Z.of_nat n - 1) / 3) + 1.
Proof.
  intros Hn. unfold Committee_HightThreshold, Committee_Size. simpl.
  rewrite size_port_authorities, Z.quot_div_nonneg by lia. done.
Qed.

(** ** The parameters that the script writes *)

Definition final_json (lb : LocalBench) (rate batch_size : Z) : pyjson :=
  set2 (set2 (np_json (lb_node_parameters lb)) "pool" "rate" (VInt rate)) "pool" "batch_size"
    (VInt batch_size).

Lemma get2_Ret json s k v : get2 json (s, k) = Ret v → ∃ d, json !! s = Some d ∧ d !! k = Some v.
Proof.
  unfold get2, py_get. simpl. destruct (json !! s) as [d|]; simpl; [|done].
  destruct (d !! k) as [v'|] eqn:Hv; simpl; [|done]. intros [= ->]. eauto.
Qed.

Lemma outcome_bind_Ret {A B} (m : outcome A) (f : A → outcome B) b :
  m ≫= f = Ret b → ∃ a, m = Ret a ∧ f a = Ret b.
Proof. destruct m; simpl; [eauto|done]. Qed.

Lemma NodeParameters_init_Ret json np :
  NodeParameters_init json = Ret np →
  np_json np = set2 json "consensus" "protocol" (VInt 1) ∧ is_Some (json !! "pool") ∧
  is_Some (json !! "consensus").
Proof.
  unfold NodeParameters_init. intros (? & _ & H1)%outcome_bind_Ret.
  apply outcome_bind_Ret in H1 as (? & (d & Hd & _)%get2_Ret & H2).
  apply outcome_bind_Ret in H2 as (? & _ & H3). apply outcome_bind_Ret in H3 as (? & _ & H4).
  apply outcome_bind_Ret in H4 as (? & _ & H5). apply outcome_bind_Ret in H5 as (? & H6 & H7).
  apply outcome_bind_Ret in H6 as (? & (d' & Hd' & _)%get2_Ret & _).
  injection H7 as <-. eauto.
Qed.

(** The nodes run this protocol, with the rate and the batch size of the benchmark. *)
Lemma final_parameters lb json rate batch_size cp :
  NodeParameters_init json = Ret (lb_node_parameters lb) →
  params_of (final_json lb rate batch_size) = Some cp →
  Protocol (cp_Consensus cp) = SMVBA ∧ pp_Rate (cp_Pool cp) = rate ∧
  pp_BatchSize (cp_Pool cp) = batch_size.
Proof.
  intros (Hj & [dp Hp] & [dc Hc])%NodeParameters_init_Ret. unfold params_of, final_json. rewrite Hj.
  unfold set2. rewrite !lookup_alter_eq, !(lookup_alter_ne _ _ "consensus" "pool"), Hp by done.
  rewrite !(lookup_alter_ne _ _ "pool" "consensus"), lookup_alter_eq, Hc by done. simpl.
  unfold pool_parameters_of, core_parameters_of. intros Hcp.
  repeat match type of Hcp with _ ≫= _ = Some _ => apply bind_Some in Hcp as (? & ? & Hcp) end.
  repeat match goal with Hx : _ ≫= _ = Some _ |- _ => apply bind_Some in Hx as (? & ? & Hx) end.
  simplify_eq. simpl.
  repeat match goal with
    | Hx : int_field (insert _ _ _) _ = Some _ |- _ =>
        unfold int_field in Hx; revert Hx; first [rewrite lookup_insert_eq|rewrite lookup_insert_ne by done; try rewrite lookup_insert_eq]
    end. repeat case_decide; intros; simplify_eq; done.
Qed.

(** The number of nodes is positive. *)
Lemma positive_values l zs :
  any_at_most_zero l = Ret false → collect int_of l = Ret zs → Forall (λ z, 0 < z) zs.
Proof.
  revert zs. induction l as [|v l IH]; intros zs Hany Hzs; [by injection Hzs as <-|].
  cbn [any_at_most_zero] in Hany. apply outcome_bind_Ret in Hany as (b & Hb & Hany).
  destruct b; [done|]. cbn [collect] in Hzs. apply outcome_bind_Ret in Hzs as (z & Hz & Hzs).
  apply outcome_bind_Ret in Hzs as (zs' & Hzs & [= <-]). constructor; [|by apply IH].
  destruct v as [x|[]|]; simpl in *; simplify_eq; [|lia].
  apply bool_decide_eq_false in Hb. lia.
Qed.

Lemma BenchParameters_init_positive json bp :
  BenchParameters_init json = Ret bp → Forall (λ z, 0 < z) (bp_nodes bp).
Proof.
  unfold BenchParameters_init, config_error. destruct (_ ≫= _) as [bp'|] eqn:Hm; [|done].
  intros [= ->]. apply outcome_bind_Ret in Hm as (nodes & _ & Hm).
  apply outcome_bind_Ret in Hm as ([] & Hbad & Hm); [done|].
  apply outcome_bind_Ret in Hm as (batch & _ & Hm). case_bool_decide; [done|].
  apply outcome_bind_Ret in Hm as (rate & _ & Hm). case_bool_decide; [done|].
  apply outcome_bind_Ret in Hm as (zs & Hzs & Hm).
  assert (bp_nodes bp = zs) as ->.
  { repeat (apply outcome_bind_Ret in Hm as (? & _ & Hm)). by injection Hm as <-. }
  case_bool_decide; [done|]. by eapply positive_values.
Qed.

Lemma LocalBench_init_Ret now bd nd lb :
  LocalBench_init now bd nd = Ret lb →
  lb_ts lb = now ∧ BenchParameters_init bd = Ret (lb_bench_parameters lb) ∧
  NodeParameters_init nd = Ret (lb_node_parameters lb).
Proof.
  unfold LocalBench_init, bench_error. destruct (_ ≫= _) as [lb'|e] eqn:Hm; [|by destruct e].
  intros [= ->]. apply outcome_bind_Ret in Hm as (bp & Hbp & Hm).
  apply outcome_bind_Ret in Hm as (np & Hnp & [= <-]). done.
Qed.

(** ** The benchmark is set up *)

Context {PL : PyJsonLaws} {CW : CobraLaw} {JL : JsonMapLaw} {KL : KyberKeysLaws}.
Context {LP : JsonStructLaw TSPartialMarshalled} {LM : JsonStructLaw TSPublicMarshalled}.
Hypothesis range_perm : ∀ m, range m ≡ₚ map_to_list m.

Lemma collect_run_pure {W A B C} (f : B → PyM W C) (h : A → B) (g : A → C) l w :
  (∀ x, x ∈ l → f (h x) w = (Ret (g x), w)) → collect_run f (map h l) w = (Ret (map g l), w).
Proof.
  intros Hf. induction l as [|x l IH]; [done|]. cbn [collect_run map].
  rewrite (PyM_bind_Ret _ _ _ _ _ (Hf x (list_elem_of_here _ _))).
  by erewrite PyM_bind_Ret by (apply IH; intros y Hy; apply Hf; by right).
Qed.

Lemma collect_run_reads {W A B C} (f : B → PyM W C) (h : A → B) l w :
  (∀ x, x ∈ l → ∃ y, f (h x) w = (Ret y, w)) → ∃ ys, collect_run f (map h l) w = (Ret ys, w).
Proof.
  intros Hf. induction l as [|x l IH]; [by exists []|]. cbn [collect_run map].
  destruct (Hf x (list_elem_of_here _ _)) as [y Hy]. destruct IH as [ys Hys].
  { intros z Hz. apply Hf. by right. }
  exists (y :: ys). by rewrite (PyM_bind_Ret _ _ _ _ _ Hy), (PyM_bind_Ret _ _ _ _ _ Hys).
Qed.

Lemma Key_from_file_reads i w :
  Forall is_byte (gen i).1 → Forall is_byte (gen i).2 →
  bn_files w !! [key_name i] = Some (json_Encode (key_data (gen i).1 (gen i).2)) →
  Key_from_file (key_path i) w =
  (Ret (mkKey (JString (hex_name i))
     (JString (string_of_bytes (EncodePrivateKey (mkPrivateKey (gen i).1))))), w).
Proof.
  intros H1 H2 Hf. unfold Key_from_file, mbind, PyM_bind, read_file.
  rewrite (proj1 (key_path_spec i)), Hf. unfold lift. rewrite py_reads_go by by apply plain_key_data.
  unfold py_get, key_data. rewrite lookup_insert_ne, !lookup_insert_eq by done. done.
Qed.

Lemma TSSKey_from_file_reads i share poly N T w :
  exact N → exact T →
  bn_files w !! [ts_key_name i] = Some (json_Encode (ts_key_data share poly N T)) →
  ∃ k, TSSKey_from_file (threshold_key_path i) w = (Ret k, w).
Proof.
  intros HN HT Hf. eexists. unfold TSSKey_from_file, mbind, PyM_bind, read_file.
  rewrite (proj1 (threshold_key_path_spec i)), Hf. unfold lift.
  rewrite py_reads_go by by apply plain_ts_key_data. unfold py_get, ts_key_data. by simplify_map_eq.
Qed.

Lemma main_run cmd argv w s :
  argv = "./main" :: use_of cmd :: flag_words (given_of cmd) → in_range cmd →
  main creatable range gen ts_keys cmd (mkMachine (bn_files w) Loggers_init) = Returns None s →
  check_run argv w = (Ret tt, mkBench (mc_files s) (bn_sessions w)).
Proof.
  intros -> Hr Hm. unfold check_run, subprocess_run, mbind, PyM_bind. rewrite decide_True by done.
  rewrite main_args_command by done. by rewrite Hm.
Qed.

(** What a node of a benchmark relies on, apart from the laws: the time stamp is a word,
    the parameters make sense, the keys are those of a committee of this size, and the
    node can write its files *)
Record node_ready (ts : string) (level : Z) (n : nat) (json : pyjson) (cp : ConfigParameters) : Prop := {
  nr_ts : word ts ∧ slash_free ts;
  nr_level : in_int64 level;
  nr_nodes : Z.of_nat n < 2 ^ 32;
  nr_params : params_of json = Some cp;
  nr_tagged : tagged json = true;
  nr_queue : 0 <= pp_MaxQueueSize (cp_Pool cp);
  nr_keys : keys_generated gen ts_keys (Z.of_nat n) (2 * ((Z.of_nat n - 1) / 3) + 1);
  nr_logs : ∀ kind i, creatable (log_file (logs_path ts) kind i) = true;
  nr_store : ∀ i, is_Some (NutsDB_open (db_path i))
}.

(** ... and what the set-up relies on: the ports exist and the machine lets the script work *)
Record local_ready (lb : LocalBench) (n : nat) (rate batch_size : Z) (cp : ConfigParameters) : Prop := {
  lr_node : node_ready (lb_ts lb) (bp_log_level (lb_bench_parameters lb)) n
    (final_json lb rate batch_size) cp;
  lr_nodes : head (bp_nodes (lb_bench_parameters lb)) = Some (Z.of_nat n);
  lr_rate : head (bp_rate (lb_bench_parameters lb)) = Some rate;
  lr_batch : head (bp_batch_szie (lb_bench_parameters lb)) = Some batch_size;
  lr_ports : BASE_PORT + 2 * Z.of_nat n < 2 ^ 16;
  lr_build : ∀ w, (host_exec (py_split compile) w).1 = Some true;
  lr_writable : creatable committee_file = true ∧ creatable parameters_file = true
}.

Lemma prepare_runs ts w :
  word ts → (∀ w, (host_exec (py_split compile) w).1 = Some true) → bn_sessions w = [] →
  ∃ w', prepare ts w = (Ret tt, w') ∧ bn_sessions w' = [] ∧ ∀ f, dot_json f → bn_files w' !! f = None.
Proof.
  intros Hts Hbuild Hw. unfold prepare. set (sh := host_shell _).
  rewrite (PyM_bind_Ret _ _ w tt (sh w)) by done.
  rewrite (PyM_bind_Ret _ _ _ _ _ (sleep_runs 500 (sh w) ltac:(lia))).
  assert (bn_sessions (sh w) = []) as Hs1 by by unfold sh; rewrite hl_cleanup_sessions.
  destruct (hl_sleep 500 (sh w) Hs1) as [Hs2 Hf2].
  specialize (Hbuild (host_sleep 500 (sh w))).
  pose proof (hl_build (host_sleep 500 (sh w))) as Hf3.
  pose proof (hl_sessions (host_sleep 500 (sh w))) as Hs3.
  unfold check_run, subprocess_run, mbind, PyM_bind. rewrite compile_words in *.
  rewrite decide_False by done. destruct (host_exec _ _) as [o w3]. simpl in *. subst o.
  exists w3. split_and!; [done|by rewrite Hs3|].
  intros f Hf. rewrite Hf3, Hf2 by done. unfold sh. by apply hl_cleanup.
Qed.

(** The keys in the files, after the generation and whatever happens to other files *)
Definition key_files_of (n : nat) (T : Z) (fs : files) : Prop := ∀ i, (i < n)%nat →
  fs !! [key_name i] = Some (json_Encode (key_data (gen i).1 (gen i).2)) ∧
  ∃ share, fs !! [ts_key_name i] =
    Some (json_Encode (ts_key_data share (ts_keys T (Z.of_nat n)).2 (Z.of_nat n) T)).

Lemma generated_key_files n T fs fs1 fs2 :
  (∀ f, dot_json f → fs !! f = None) →
  (∀ i, (i < n)%nat → saved fs fs1 (key_file "./" i) (key_data (gen i).1 (gen i).2)) →
  (∀ i, (i < n)%nat → ∃ share, saved fs fs2 (ts_key_file "./" i)
     (ts_key_data share (ts_keys T (Z.of_nat n)).2 (Z.of_nat n) T)) →
  (∀ f, (∀ i, f ≠ path_of (ts_key_file "./" i)) → fs2 !! f = fs1 !! f) →
  key_files_of n T fs2 ∧
  ∀ i, (i < n)%nat → fs1 !! [key_name i] = Some (json_Encode (key_data (gen i).1 (gen i).2)).
Proof.
  intros Hfree Hs1 Hs2 Hout2.
  assert (∀ i, (i < n)%nat →
    fs1 !! [key_name i] = Some (json_Encode (key_data (gen i).1 (gen i).2))) as Hfs1.
  { intros i Hi. destruct (key_path_spec i) as (_ & Hp & Hd).
    rewrite <-Hp. eapply saved_fresh; [|by apply Hs1]. rewrite Hp. by apply Hfree. }
  split; [|done]. intros i Hi. split.
  - rewrite Hout2; [by apply Hfs1|]. intros k. rewrite <-(proj1 (proj2 (key_path_spec i))).
    apply key_files_apart.
  - destruct (threshold_key_path_spec i) as (_ & Hp & Hd). destruct (Hs2 i Hi) as (share & Hs).
    exists share. rewrite <-Hp. eapply saved_fresh; [|exact Hs]. rewrite Hp. by apply Hfree.
Qed.

Lemma generate_keys_runs n w :
  let T := 2 * ((Z.of_nat n - 1) / 3) + 1 in
  keys_generated gen ts_keys (Z.of_nat n) T → Z.of_nat n < 2 ^ 32 →
  (∀ f, dot_json f → bn_files w !! f = None) →
  ∃ w' keys, generate_keys (Z.of_nat n) w = (Ret keys, w') ∧ bn_sessions w' = bn_sessions w ∧
    map ky_pubkey keys = map (λ i, JString (hex_name i)) (seq 0 n) ∧ key_files_of n T (bn_files w').
Proof.
  intros T Hk Hn Hfree. set (z := Z.of_nat n) in *.
  assert (0 <= z ∧ -1 <= T <= z + 1) as [Hz HT].
  { unfold T. pose proof (Z.div_mod (z - 1) 3). pose proof (Z.mod_pos_bound (z - 1) 3). lia. }
  destruct (keys_generated_files creatable range gen ts_keys z T "./" (bn_files w) Hk)
    as (fs1 & fs2 & H1 & H2 & Hs1 & Hs2 & _ & Hout2).
  destruct (generated_key_files n T (bn_files w) fs1 fs2) as [Hfiles Hfs1]; try done.
  { intros i Hi. apply Hs1. lia. } { intros i Hi. apply Hs2. lia. }
  unfold generate_keys. fold z T. replace (Z.to_nat z) with n by lia.
  rewrite (PyM_bind_Ret _ _ _ _ _ (main_run (keyCmd z "./") _ _ _ (generate_key_words z)
    ltac:(repeat constructor; simpl; unfold in_int64; lia) H1)). cbn [mc_files].
  erewrite PyM_bind_Ret; [|apply collect_run_pure; intros i Hi%elem_of_seq;
    apply Key_from_file_reads; [apply (kg_gen _ _ _ _ Hk)|apply (kg_gen _ _ _ _ Hk)|apply Hfs1; lia]].
  rewrite (PyM_bind_Ret _ _ _ _ _ (main_run (tssKeyCmd z T "./") _ (mkBench fs1 _) _
    (generate_tss_key_words z T) ltac:(repeat constructor; simpl; unfold in_int64; lia) H2)).
  cbn [mc_files bn_sessions]. destruct (collect_run_reads TSSKey_from_file threshold_key_path (seq 0 n)
    (mkBench fs2 (bn_sessions w))) as [ks Hks].
  { intros i Hi%elem_of_seq. destruct (Hfiles i ltac:(lia)) as (_ & share & Hs).
    eapply TSSKey_from_file_reads; [| |exact Hs]; unfold exact; lia. }
  rewrite (PyM_bind_Ret _ _ _ _ _ Hks).
  eexists _, _. split_and!; [done|done|by rewrite map_map|exact Hfiles].
Qed.

Lemma write_configs_runs n keys json w :
  map ky_pubkey keys = map (λ i, JString (hex_name i)) (seq 0 n) →
  creatable committee_file = true → creatable parameters_file = true →
  write_configs (Z.of_nat n) keys json w =
  (Ret tt, mkBench (<[[parameters_file] := py_dump json]>
     (<[[committee_file] := py_dump (kmap Itoa (dict_of_member <$> Authorities (local_committee n)))]>
     (bn_files w))) (bn_sessions w)).
Proof.
  intros Hkeys Hc Hp. unfold write_configs. rewrite Hkeys, Nat2Z.id.
  rewrite (PyM_bind_Ret _ _ w (dict_of_member <$> Authorities (local_committee n)) w)
    by (by rewrite LocalCommittee_init_ok).
  unfold Committee_print, NodeParameters_print, write_file, mbind, PyM_bind. rewrite Hc, Hp. done.
Qed.

(** *** A node *)

(** A committee of the nodes whose keys were generated *)
Record bench_committee (n : nat) (c : Committee) : Prop := {
  bc_named : named c gen (Z.of_nat n);
  bc_proper : map_Forall proper_member (Authorities c)
}.

(** All that node [i] reads *)
Record node_files (n : nat) (c : Committee) (json : pyjson) (i : nat) (fs : files) : Prop := {
  nf_keys : fs !! [key_name i] = Some (json_Encode (key_data (gen i).1 (gen i).2));
  nf_shares : let T := 2 * ((Z.of_nat n - 1) / 3) + 1 in
    ∃ share, fs !! [ts_key_name i] =
      Some (json_Encode (ts_key_data share (ts_keys T (Z.of_nat n)).2 (Z.of_nat n) T));
  nf_committee : fs !! [committee_file] = Some (py_dump (kmap Itoa (dict_of_member <$> Authorities c)));
  nf_parameters : fs !! [parameters_file] = Some (py_dump json)
}.

Lemma node_files_same n c json i fs fs' :
  same_configs fs fs' → node_files n c json i fs → node_files n c json i fs'.
Proof.
  intros Hs [Hk (share & Ht) Hc Hp]. split.
  - rewrite Hs by apply key_path_spec. done.
  - exists share. rewrite Hs by apply threshold_key_path_spec. done.
  - rewrite Hs by apply committee_file_spec. done.
  - rewrite Hs by apply parameters_file_spec. done.
Qed.

Lemma node_configured ts level n json cp c fs i :
  node_ready ts level n json cp → bench_committee n c → node_files n c json i fs →
  ∃ share, configured fs (key_path i) (threshold_key_path i) committee_file parameters_file
    (gen i).1 (gen i).2 share (ts_keys (2 * ((Z.of_nat n - 1) / 3) + 1) (Z.of_nat n)).2
    (Z.of_nat n) (2 * ((Z.of_nat n - 1) / 3) + 1) c cp.
Proof.
  intros [_ _ Hn Hparams Htag Hq [Hgen _ _] _ _] [[Hmem _] Hproper] [Hk1 (share & Hk2) Hc Hp].
  exists share. split; try done.
  - eexists. rewrite (proj1 (key_path_spec i)). split; [exact Hk1|].
    rewrite <-(app_nil_r (json_Encode _)). apply json_round_trip, plain_key_data; apply Hgen.
  - split; apply Hgen.
  - eexists. rewrite (proj1 (threshold_key_path_spec i)). split; [exact Hk2|].
    rewrite <-(app_nil_r (json_Encode _)). apply json_round_trip, plain_ts_key_data; unfold exact; [lia|].
    pose proof (Z.div_mod (Z.of_nat n - 1) 3). pose proof (Z.mod_pos_bound (Z.of_nat n - 1) 3). lia.
  - exists id_field. eexists. split; [exact Hc|]. rewrite <-go_data_committee. apply go_reads_py.
    rewrite go_data_committee. apply plain_committee_data; [|done].
    intros id a Ha. unfold id_field. apply map_Forall_singleton. split; [plain_literal|].
    destruct (Hproper id a Ha) as (_ & -> & _).
    assert (id ∈ members c) as Hid%Hmem by by apply elem_of_dom_2 in Ha. simpl. unfold exact. lia.
  - eexists. split; [exact Hp|]. by apply go_reads_params.
Qed.

Definition node_given (ts : string) (level : Z) (i : nat) : list (string * flag_value) :=
  [("keys", StringVal (key_path i)); ("threshold_keys", StringVal (threshold_key_path i));
   ("committee", StringVal committee_file); ("store", StringVal (db_path i));
   ("parameters", StringVal parameters_file); ("log_level", IntVal level);
   ("log_out", StringVal (logs_path ts)); ("node_id", IntVal (Z.of_nat i))].

Definition node_cmd (ts : string) (level : Z) (i : nat) : command :=
  runCmd (key_path i) (threshold_key_path i) committee_file parameters_file (db_path i)
    (logs_path ts) level (Z.of_nat i).

(** The words of [node_command] *)
Definition node_argv (ts : string) (level : Z) (i : nat) : list string :=
  "run" :: flag_words (node_given ts level i).

Lemma node_given_perm ts level i : node_given ts level i ≡ₚ given_of (node_cmd ts level i).
Proof.
  unfold node_given. simpl. do 3 apply perm_skip. etrans; [apply perm_swap|].
  do 2 apply perm_skip. apply perm_swap.
Qed.

Lemma word_numbered a i b : word a → all_chars word_char b = true → word (a +:+ Itoa (Z.of_nat i) +:+ b).
Proof. intros Ha Hb. apply word_app; [done|]. by rewrite all_chars_app, (proj2 (word_Itoa _)). Qed.

Lemma flag_words_words given :
  Forall (λ p : string * flag_value, word ("--" +:+ p.1) ∧ word (flag_text p.2)) given →
  Forall word (flag_words given).
Proof.
  induction 1 as [|p l [H1 H2] _ IH]; [apply List.Forall_nil|].
  apply List.Forall_cons; [exact H1|]. apply List.Forall_cons; [exact H2|exact IH].
Qed.

Lemma node_argv_words ts level i : word ts → Forall word (node_argv ts level i).
Proof.
  intros Hts. apply List.Forall_cons; [a_word|].
  apply flag_words_words. unfold node_given.
  repeat (apply List.Forall_cons; [split; [a_word|cbn [snd flag_text]]|]); [..|apply List.Forall_nil].
  - apply word_numbered; [a_word|reflexivity].
  - apply word_numbered; [a_word|reflexivity].
  - a_word.
  - apply word_app; [a_word|apply word_Itoa].
  - a_word.
  - apply word_Itoa.
  - apply word_app; [a_word|apply Hts].
  - apply word_Itoa.
Qed.

Lemma node_command_words ts level i :
  node_command ts level i = String.concat " " ("./main" :: node_argv ts level i).
Proof. reflexivity. Qed.

Lemma node_command_argv ts level i :
  word ts → slash_free ts →
  host_argv (node_command ts level i +:+ " 2> " +:+ node_log_info_file i ts) =
  Some ("./main" :: node_argv ts level i, node_log_info_file i ts).
Proof.
  intros Hts Hsl. rewrite node_command_words. apply hl_argv.
  - exact (node_argv_words ts level i Hts).
  - exact (node_log_info_word ts Hts Hsl i).
Qed.

(** With its files in place, the command line of a node starts it. *)
Lemma node_starts {GB : Gob Block} {GC : Gob ConsensusBlock} ts level n json cp c i fs pick :
  node_ready ts level n json cp → bench_committee n c → (i < n)%nat → node_files n c json i fs →
  ∃ st s', main_args creatable range gen ts_keys (node_argv ts level i) (mkMachine fs Loggers_init) =
      Returns (Some st) s' ∧
    proper_start i c cp (Z.of_nat n) (2 * ((Z.of_nat n - 1) / 3) + 1) pick st.
Proof.
  intros Hr Hc Hi Hf. destruct (node_configured _ _ _ _ _ _ _ _ Hr Hc Hf) as (share & Hconf).
  destruct Hr as [[Hts Hsl] Hlevel Hn _ _ _ Hk Hlogs Hst].
  destruct (configured_starts creatable range range_perm gen ts_keys (Z.of_nat n) _ _ _ _ _ (db_path i)
    (logs_path ts) level i share _ _ cp pick
    (mkMachine fs Loggers_init) Hconf Hk (bc_named _ _ Hc)) as (s' & st & Hrun & Hstart); try done; [lia|].
  exists st, s'. split; [|done].
  unfold node_argv. change "run" with (use_of (node_cmd ts level i)).
  rewrite (main_args_command creatable range gen ts_keys (node_cmd ts level i)); [exact Hrun|apply node_given_perm|].
  unfold in_int64 in *.
  repeat (apply List.Forall_cons; [simpl; unfold in_int64; try done; lia|]). apply List.Forall_nil.
Qed.

Lemma local_bench_committee n :
  (∀ i, Forall is_byte (gen i).2) → BASE_PORT + 2 * Z.of_nat n < 2 ^ 16 →
  bench_committee n (local_committee n).
Proof. split; [apply local_named|by apply local_proper]. Qed.

Lemma setup_runs lb n rate batch_size cp np_dict w :
  NodeParameters_init np_dict = Ret (lb_node_parameters lb) →
  local_ready lb n rate batch_size cp → bn_sessions w = [] →
  ∃ w', setup lb w = (Ret tt, w') ∧
    (∀ i, (i < n)%nat →
       node_files n (local_committee n) (final_json lb rate batch_size) i (bn_files w')) ∧
    bn_sessions w' = map (λ i, (session_name i,
      node_command (lb_ts lb) (bp_log_level (lb_bench_parameters lb)) i +:+ " 2> " +:+
      node_log_info_file i (lb_ts lb))) (seq 0 n).
Proof.
  intros (Hj & [dp Hdp] & _)%NodeParameters_init_Ret
    [[[Hts Hsl] _ Hsmall _ _ _ Hk _ _] Hn Hr Hb Hports Hbuild [Hwc Hwp]] Hw.
  unfold setup, first. rewrite Hn, Hr, Hb. do 3 (erewrite PyM_bind_Ret; [|reflexivity]).
  assert (np_json (lb_node_parameters lb) !! "pool" = Some dp) as Hpool.
  { rewrite Hj. unfold set2. by rewrite lookup_alter_ne. }
  unfold store2, py_get. rewrite Hpool. erewrite PyM_bind_Ret; [|reflexivity].
  assert (set2 (np_json (lb_node_parameters lb)) "pool" "rate" (VInt rate) !! "pool" =
    Some (<["rate" := VInt rate]> dp)) as -> by by unfold set2; rewrite lookup_alter_eq, Hpool.
  erewrite PyM_bind_Ret; [|reflexivity]. fold (final_json lb rate batch_size).
  destruct (prepare_runs (lb_ts lb) w Hts Hbuild Hw) as (w1 & H1 & Hs1 & Hfree).
  rewrite (PyM_bind_Ret _ _ _ _ _ H1).
  destruct (generate_keys_runs n w1 Hk Hsmall Hfree) as (w2 & keys & H2 & Hs2 & Hkeys & Hfiles).
  rewrite (PyM_bind_Ret _ _ _ _ _ H2).
  rewrite (PyM_bind_Ret _ _ _ _ _ (write_configs_runs n keys _ w2 Hkeys Hwc Hwp)). set (w3 := mkBench _ _).
  destruct (launched (lb_ts lb) Hts Hsl (node_argv (lb_ts lb) (bp_log_level (lb_bench_parameters lb)))
    (seq 0 n) w3) as (w' & H4 & Hs4 & Hf4).
  { intros i. by apply node_argv_words. } { apply NoDup_seq. } { intros i _. simpl. rewrite Hs2, Hs1. apply not_elem_of_nil. }
  exists w'. rewrite Nat2Z.id. split_and!; [exact H4| |by rewrite Hs4; simpl; rewrite Hs2, Hs1].
  intros i Hi. eapply node_files_same; [exact Hf4|]. destruct (Hfiles i Hi) as [Hk1 Hk2].
  unfold w3. split; cbn [bn_files].
  - by rewrite !lookup_insert_ne.
  - destruct Hk2 as [share Hk2]. exists share. by rewrite !lookup_insert_ne.
  - by rewrite lookup_insert_ne, lookup_insert_eq.
  - by rewrite lookup_insert_eq.
Qed.

(** The nodes of the benchmark find each other. *)
Lemma local_online n taken :
  (∀ k, 0 <= k < 2 * Z.of_nat n → ("127.0.0.1", ":" +:+ Itoa (BASE_PORT + k)) ∉ taken) →
  let c := local_committee n in
  ∃ s', rtc (cluster_step c (λ _, "127.0.0.1")) (cluster_start c taken) s' ∧
    ∀ id, id ∈ members c → cl_stage s' !! id = Some Started.
Proof.
  intros Hfree c. apply (cluster_comes_online c (λ _, "127.0.0.1") taken).
  - by apply port_well_addressed.
  - apply rtc_refl.
Qed.

(** C39 The local benchmark: the script starts one session for each node; the nodes run
    this protocol with the rate and the batch size of the benchmark; the command line of
    each session starts the node with the committee of the benchmark, its own private
    key and threshold keys with the threshold of the committee, whatever the other nodes
    do to the files that are not configurations; and if the ports are free all nodes come
    online. *)
Theorem local_bench_starts {GB : Gob Block} {GC : Gob ConsensusBlock}
    now bench_dict node_dict lb n rate batch_size cp w pick taken :
  LocalBench_init now bench_dict node_dict = Ret lb →
  local_ready lb n rate batch_size cp → bn_sessions w = [] →
  (∀ k, 0 <= k < 2 * Z.of_nat n → ("127.0.0.1", ":" +:+ Itoa (BASE_PORT + k)) ∉ taken) →
  let c := local_committee n in
  let line i := node_command now (bp_log_level (lb_bench_parameters lb)) i +:+ " 2> " +:+
    node_log_info_file i now in
  ∃ w', setup lb w = (Ret tt, w') ∧
    bn_sessions w' = map (λ i, (session_name i, line i)) (seq 0 n) ∧
    Protocol (cp_Consensus cp) = SMVBA ∧ pp_Rate (cp_Pool cp) = rate ∧
    pp_BatchSize (cp_Pool cp) = batch_size ∧
    (∀ i fs, (i < n)%nat → same_configs (bn_files w') fs →
       ∃ argv st s', host_argv (line i) = Some ("./main" :: argv, node_log_info_file i now) ∧
         main_args creatable range gen ts_keys argv (mkMachine fs Loggers_init) = Returns (Some st) s' ∧
         proper_start i c cp (Z.of_nat n) (Committee_HightThreshold c) pick st) ∧
    ∃ s', rtc (cluster_step c (λ _, "127.0.0.1")) (cluster_start c taken) s' ∧
      ∀ id, id ∈ members c → cl_stage s' !! id = Some Started.
Proof.
  intros (<- & Hbp & Hnp)%LocalBench_init_Ret Hr Hw Hfree c line.
  assert (0 < n)%nat as Hn.
  { pose proof (BenchParameters_init_positive _ _ Hbp) as Hpos. pose proof (lr_nodes _ _ _ _ _ Hr) as Hh.
    destruct (bp_nodes _) as [|z l]; [done|]. injection Hh as ->. inversion Hpos. lia. }
  pose proof (lr_node _ _ _ _ _ Hr) as Hnr.
  destruct (final_parameters lb node_dict rate batch_size cp Hnp (nr_params _ _ _ _ _ Hnr)) as (Hp1 & Hp2 & Hp3).
  destruct (setup_runs lb n rate batch_size cp node_dict w Hnp Hr Hw) as (w' & Hset & Hci & Hses).
  exists w'. split_and!; try done; [|by apply local_online].
  intros i fs Hi Hsame. assert (bench_committee n c) as Hc.
  { apply local_bench_committee; [|apply (lr_ports _ _ _ _ _ Hr)].
    intros j. apply (kg_gen _ _ _ _ (nr_keys _ _ _ _ _ Hnr)). }
  destruct (node_starts _ _ _ _ _ _ _ _ pick Hnr Hc Hi (node_files_same _ _ _ _ _ _ Hsame (Hci i Hi)))
    as (st & s' & Hrun & Hstart).
  destruct (nr_ts _ _ _ _ _ Hnr) as [Hts Hsl].
  eexists _, st, s'. split; [exact (node_command_argv _ _ i Hts Hsl)|]. split; [exact Hrun|].
  unfold c. by rewrite local_threshold.
Qed.

(** Otherwise nodes are left: with a negative time to wait the exception is not one that
    the script handles. *)
Lemma negative_wait_leaves_nodes lb node_dict n rate batch_size cp wait w :
  NodeParameters_init node_dict = Ret (lb_node_parameters lb) →
  local_ready lb n rate batch_size cp →
  sync_wait (np_sync_timeout (lb_node_parameters lb)) = Ret wait → wait < 0 →
  (run lb w).1 = Raise ValueError ∧ length (bn_sessions (run lb w).2) = n.
Proof.
  intros Hnp Hr Hwait Hneg. unfold run. destruct (kill_nodes_sessions w) as (w1 & Hk & Hs1 & _).
  rewrite (PyM_bind_Ret _ _ _ _ _ Hk). unfold try_except.
  destruct (setup_runs lb n rate batch_size cp node_dict w1 Hnp Hr Hs1) as (w2 & Hset & _ & Hs2).
  rewrite (PyM_bind_Ret _ _ _ _ _ Hset). unfold observe.
  rewrite (PyM_bind_Ret _ _ w2 wait w2) by (by rewrite Hwait).
  rewrite (PyM_bind_Raise _ _ w2 ValueError w2) by (unfold sleep; by rewrite decide_True).
  cbn [fst snd]. by rewrite Hs2, length_map, length_seq.
Qed.
End laws.
End local.

(** ** The task [local] of fabfile.py *)

Definition local_bench_params : gmap string pyvals := list_to_map
  [("nodes", One (VInt 4)); ("duration", One (VInt 40)); ("rate", Many [VInt 5000]);
   ("batch_size", Many [VInt 512]); ("log_level", One (VInt 15)); ("protocol", One (VStr "sMVBA"))].

Definition local_node_params : pyjson := list_to_map
  [("pool", list_to_map [("tx_size", VInt 256); ("max_tx_queue_size", VInt 10000)]);
   ("consensus", list_to_map
     [("sync_timeout", VInt 1000); ("network_delay", VInt 2000); ("min_block_delay", VInt 0);
      ("ddos", VBool false); ("faults", VInt 0); ("retry_delay", VInt 5000);
      ("protocol", VStr "sMVBA"); ("max_payload_size", VInt 50); ("max_queen_size", VInt 10000);
      ("min_Payload_delay", VInt 0); ("sync_retry_delay", VInt 100000)])].

(** [local]: a [BenchError] is reported, any other exception ends the program. *)
Definition local_task {H : Host} {PJ : PyJson} {CO : Cobra} {CL : CryptoLib} {J : JsonMap}
    {K : KyberKeys} {JP : JsonStruct TSPartialMarshalled} {JM : JsonStruct TSPublicMarshalled}
    {JC : JsonStruct ConfigParameters} {NU : Nuts} {NL : NutsLaws}
    creatable range gen ts_keys py_str utcoffset (now : string) : PyM bench (option Summary) :=
  try_except
    (lb ← lift (LocalBench_init now local_bench_params local_node_params);
     lp ← run creatable range gen ts_keys py_str utcoffset lb;
     s ← lift (LogParser_result lp);
     mret (Some s))
    (λ e, match e with BenchError _ => Some (mret None) | _ => None end).
