(* ===== verification/Testbed.v ===== *)
(** * The benchmark on many machines (src/benchmark/alibaba/remote.py)

    The script that runs a number of nodes on each of several hosts: it generates the
    keys and the committee on the local machine, uploads to every host the files of its
    nodes, starts them in sessions of tmux, waits, and downloads the logs.

    The local machine is the one of Bench.v; the hosts are reached through fabric, which
    is a parameter ([Fabric]).  The hosts themselves come from the cloud's interface
    ([InstanceManager]), which is not modelled: they are a list of addresses.

    The theorem: after the upload and the start each host runs exactly its nodes, the
    command line of each starts it with its own keys and the common committee, and the
    nodes find each other if the two ranges of ports do not overlap
    ([testbed_starts]). *)

From stdpp Require Import base gmap list strings.
From Stdlib Require Import Ascii DecimalString.
From S2P Require Import Prelude Committee Crypto Message Pool Store NutsDB TsKeys.
From S2P Require Import Synchronizer Port Mempool Core Node Config Boot Cluster.
From S2P Require Import CommandLine Regex Python LogStats Bench.

(** ** The machines *)

Record testbed : Type := mkTestbed {
  tb_local : bench;
  tb_hosts : gmap string bench
}.

Definition host_state (w : testbed) (h : string) : bench := default (mkBench ∅ []) (tb_hosts w !! h).

Definition set_host (h : string) (b : bench) (w : testbed) : testbed :=
  mkTestbed (tb_local w) (<[h := b]> (tb_hosts w)).

Class Fabric : Type := {
  (** a line of the shell of a host: whether it succeeds, what it writes to the standard
      error, and the state of the host afterwards *)
  fab_run : string → string → bench → bool * string * bench;
  (** what goes on during a number of milliseconds *)
  fab_sleep : Z → testbed → testbed;
  (** how the shell reads the command line of a session: the words of the command and the
      file to which its output is copied *)
  fab_argv : string → option (list string * string)
}.

Definition quote : string := String (ascii_of_nat 34) "".

(** The parts of [CommandMaker] that only this script uses *)
Definition cleanup_parameters : string := "rm -f .parameters.json".
Definition cleanup_db : string := "rm -rf db-*".
Definition make_logs_dir (ts : string) : string := "mkdir -p " +:+ logs_path ts.

(** The settings that are used here *)
Record Settings : Type := mkSettings { se_consensus_port : Z; se_mempool_port : Z }.

Section remote.
Context {H : Host} {F : Fabric} {PJ : PyJson} {CO : Cobra} {CL : CryptoLib} {J : JsonMap} {K : KyberKeys}.
Context {JP : JsonStruct TSPartialMarshalled} {JM : JsonStruct TSPublicMarshalled}.
Context {JC : JsonStruct ConfigParameters} {NU : Nuts} {NL : NutsLaws}.
Context (creatable : string → bool) (range : gmap string value → list (string * value)).
Context (gen : nat → list byte * list byte) (ts_keys : Z → Z → list PriShare * PubPoly).
Context (py_str : pyvals → string) (utcoffset : Stamp → Z).
Context (settings : Settings).

(** ** Fabric *)

(** A program of the local machine *)
Definition on_local {A} (m : PyM bench A) : PyM testbed A := λ w,
  let '(o, b) := m (tb_local w) in (o, mkTestbed b (tb_hosts w)).

(** [run] of a [Group] of hosts: all hosts run the line; it is an error if one fails. *)
Fixpoint run_all (hosts : list string) (line : string) (w : testbed) : bool * testbed :=
  match hosts with
  | [] => (true, w)
  | h :: hosts =>
      let '(ok, _, b) := fab_run h line (host_state w h) in
      let '(oks, w') := run_all hosts line (set_host h b w) in
      (ok && oks, w')
  end.

Definition group_run (hosts : list string) (line : string) : PyM testbed unit := λ w,
  let '(ok, w') := run_all hosts line w in
  (if ok : bool then Ret tt else Raise GroupException, w').

(** [Connection(host).run(line)], which gives back the standard error *)
Definition connection_run (host line : string) : PyM testbed string := λ w,
  let '(ok, err, b) := fab_run host line (host_state w host) in
  (if ok : bool then Ret err else Raise UnexpectedExit, set_host host b w).

(** [Connection(host).put(name, '.')] and [Connection(host).get(name, local=name)] *)
Definition put (host name : string) : PyM testbed unit := λ w,
  match bn_files (tb_local w) !! path_of name with
  | None => (Raise OSError, w)
  | Some text => (Ret tt, set_host host (set_file name text (host_state w host)) w)
  end.

Definition get (host name : string) : PyM testbed unit := λ w,
  match bn_files (host_state w host) !! path_of name with
  | None => (Raise OSError, w)
  | Some text => (Ret tt, mkTestbed (set_file name text (tb_local w)) (tb_hosts w))
  end.

Definition tb_sleep (ms : Z) : PyM testbed unit :=
  if decide (ms < 0) then raise ValueError else act (fab_sleep ms).

(** ** Bench *)

Definition check_stderr (err : string) : PyM testbed unit :=
  if bool_decide (err = "") then mret tt else raise ExecutionError.

Definition kill_line : string := "true && (" +:+ kill +:+ " || true)".

(** [kill] for a list of hosts that is not empty *)
Definition kill_hosts (hosts : list string) : PyM testbed unit :=
  try_except (group_run hosts kill_line)
    (λ e, match e with GroupException => Some (raise (BenchError e)) | _ => None end).

(** [hosts] are those of the manager, by region. *)
Definition select_hosts (hosts : list (list string)) (nodes : list Z) : outcome (list string) :=
  n ← py_max nodes;
  if decide (Z.of_nat (length (concat hosts)) < n) then Ret []
  else Ret (take (Z.to_nat n) (concat hosts)).

Definition session_line (name command log_file : string) : string :=
  "tmux new -d -s " +:+ quote +:+ name +:+ quote +:+ " " +:+ quote +:+ command +:+ " |& tee " +:+
  log_file +:+ quote.

Definition remote_background_run (host command log_file : string) : PyM testbed unit :=
  err ← connection_run host (session_line (splitext_root (basename log_file)) command log_file);
  check_stderr err.

(** The addresses of the nodes, [k] on each host *)
Definition addresses (hosts : list string) (k : nat) (port : Z) : list string :=
  concat (map (λ ip, map (λ i, ip +:+ ":" +:+ Itoa (port + Z.of_nat i)) (seq 0 k)) hosts).

(** [enumerate] *)
Definition enumerate {A} (l : list A) : list (nat * A) := zip (seq 0 (length l)) l.

Definition upload (k : nat) (p : nat * string) : PyM testbed unit :=
  put p.2 committee_file;;
  for_each (λ j, put p.2 (key_path (p.1 * k + j));; put p.2 (threshold_key_path (p.1 * k + j)))
    (seq 0 k).

(** [_config] *)
Definition config (hosts : list string) (node_instance : Z) : PyM testbed unit :=
  on_local (act (host_shell cleanup_configs));;
  on_local (check_run creatable range gen ts_keys (py_split compile));;
  let nodes := Z.of_nat (length hosts) * node_instance in
  let k := Z.to_nat node_instance in
  keys ← on_local (generate_keys creatable range gen ts_keys nodes);
  names ← lift (collect is_str (map ky_pubkey keys));
  committee ← lift (Committee_init names (map Z.of_nat (seq 0 (Z.to_nat nodes)))
    (addresses hosts k (se_consensus_port settings)) (addresses hosts k (se_mempool_port settings)));
  on_local (Committee_print creatable committee committee_file);;
  group_run hosts (cleanup_configs +:+ " || true");;
  for_each (upload k) (enumerate hosts).

Definition update_line (ts : string) : string :=
  cleanup_parameters +:+ "&&" +:+ cleanup_db +:+ "&&" +:+ make_logs_dir ts.

(** [install], on all hosts *)
Definition install (all_hosts : list string) : PyM testbed unit :=
  try_except (group_run all_hosts "sudo apt-get update")
    (λ e, match e with GroupException | ExecutionError => Some (raise (BenchError e)) | _ => None end).

(** [upload_exec] *)
Definition upload_exec (all_hosts : list string) : PyM testbed unit :=
  on_local (check_run creatable range gen ts_keys (py_split compile));;
  for_each (λ host, put host "main") all_hosts.

(** [_update] *)
Definition update (hosts : list string) (json : pyjson) (ts : string) : PyM testbed unit :=
  on_local (act (host_shell cleanup_parameters));;
  on_local (act (host_shell (make_logs_and_result_dir ts)));;
  group_run hosts (update_line ts);;
  on_local (NodeParameters_print creatable json parameters_file);;
  for_each (λ host, put host parameters_file) hosts.

(** [_run_single]: the nodes are started ... *)
Definition launch_host (k : nat) (ts : string) (level : Z) (p : nat * string) : PyM testbed unit :=
  for_each (λ j, remote_background_run p.2 (node_command ts level (p.1 * k + j))
      (node_log_info_file (p.1 * k + j) ts)) (seq 0 k).

Definition boot (hosts : list string) (node_instance : Z) (ts : string) (level : Z) : PyM testbed unit :=
  kill_hosts hosts;;
  tb_sleep 10000;;
  for_each (launch_host (Z.to_nat node_instance) ts level) (enumerate hosts).

(** ... and stopped after a hundred times a hundredth of the duration. *)
Definition run_single (hosts : list string) (bp : BenchParameters) (ts : string) : PyM testbed unit :=
  boot hosts (bp_node_instance bp) ts (bp_log_level bp);;
  tb_sleep 10000;;
  for_each (λ _ : nat, tb_sleep (10 * bp_duration bp)) (seq 0 100);;
  kill_hosts hosts.

(** [_logs] *)
Definition download (k : nat) (ts : string) (p : nat * string) : PyM testbed unit :=
  for_each (λ j, get p.2 (node_log_info_file (p.1 * k + j) ts)) (seq 0 k).

Definition logs (hosts : list string) (faults node_instance : Z) (ts : string) : PyM testbed LogParser :=
  for_each (download (Z.to_nat node_instance) ts) (enumerate hosts);;
  on_local (process utcoffset (logs_path ts) faults).

(** An exception that is reported, after which the script goes on; [f] runs before the
    report. *)
Definition reported (caught : pyexn → bool) (f : PyM testbed unit) (m : PyM testbed unit)
    : PyM testbed bool :=
  try_except (m;; mret true) (λ e, if caught e then Some (f;; mret false) else None).

Definition is_setup_error (e : pyexn) : bool :=
  match e with SubprocessError | GroupException => true | _ => false end.
Definition is_run_error (e : pyexn) : bool :=
  match e with SubprocessError | GroupException | ParseError => true | _ => false end.

(** One benchmark: [now] is the time, [rate_text] the text of all rates, which is part of
    the name of the file. *)
Definition one_run (hosts : list string) (bp : BenchParameters) (np : NodeParameters) (n : Z)
    (batch_size : Z) (now rate_text : string) : PyM testbed bool :=
  reported is_run_error (kill_hosts hosts)
    (run_single hosts bp now;;
     lp ← logs hosts (np_faults np) (bp_node_instance bp) now;
     on_local (LogParser_print creatable lp (py_str (bp_protocol bp)) (py_str (One (np_ddos np)))
       (join (results_path now) ("bench-" +:+ Itoa n +:+ "-" +:+ rate_text +:+ "-" +:+
         Itoa (np_tx_size np) +:+ "-" +:+ Itoa batch_size +:+ "-" +:+ Itoa (np_faults np) +:+ ".txt")))).

(** [batch_szie[i] if len(batch_szie) > i else batch_szie[0]] *)
Definition batch_for (bp : BenchParameters) (i : nat) : outcome Z :=
  match bp_batch_szie bp !! i with Some b => Ret b | None => first (bp_batch_szie bp) end.

(** The loop over the rates.  The dictionary of the parameters is changed in place.
    [clock] gives the time of the [i]-th turn. *)
Fixpoint rates_loop (hosts : list string) (bp : BenchParameters) (np : NodeParameters) (n : Z)
    (clock : nat → string) (rate_text : string) (rates : list Z) (i : nat) (json : pyjson)
    : PyM testbed pyjson :=
  match rates with
  | [] => mret json
  | rate :: rates =>
      batch_size ← lift (batch_for bp i);
      json ← lift (store2 json "pool" "rate" (VInt rate));
      json ← lift (store2 json "pool" "batch_size" (VInt batch_size));
      ok ← reported is_setup_error (mret tt) (update hosts json (clock i));
      (if ok : bool then
         for_each (λ _ : nat, one_run hosts bp np n batch_size (clock i) rate_text;; mret tt)
           (seq 0 (Z.to_nat (bp_runs bp)))
       else mret tt);;
      rates_loop hosts bp np n clock rate_text rates (S i) json
  end.

(** The loop over the numbers of hosts: if the configuration fails, the script goes on. *)
Fixpoint nodes_loop (selected : list string) (bp : BenchParameters) (np : NodeParameters)
    (clock : nat → nat → string) (rate_text : string) (ns : list Z) (k : nat) (json : pyjson)
    : PyM testbed unit :=
  match ns with
  | [] => mret tt
  | n :: ns =>
      let hosts := take (Z.to_nat n) selected in
      reported is_setup_error (mret tt) (config hosts (bp_node_instance bp));;
      json ← rates_loop hosts bp np n (clock k) rate_text (bp_rate bp) 0 json;
      nodes_loop selected bp np clock rate_text ns (S k) json
  end.

(** [run], with the hosts of the manager *)
Definition remote_run (all_hosts : list (list string)) (bench_parameters_dict : gmap string pyvals)
    (node_parameters_dict : pyjson) (clock : nat → nat → string) (rate_text : string)
    : PyM testbed unit :=
  bp ← lift (bench_error (BenchParameters_init bench_parameters_dict));
  np ← lift (bench_error (NodeParameters_init node_parameters_dict));
  selected ← lift (select_hosts all_hosts (bp_nodes bp));
  match selected with
  | [] => mret tt
  | _ => nodes_loop selected bp np clock rate_text (bp_nodes bp) 0 (np_json np)
  end.

(** ** What the script relies on *)

Class FabricLaws : Prop := {
  fl_local_cleanup : ∀ w f, dot_json f → bn_files (host_shell cleanup_configs w) !! f = None;
  fl_cleanup : ∀ h b, (fab_run h (cleanup_configs +:+ " || true") b).1.1 = true;
  fl_update : ∀ h ts b, word ts →
    (fab_run h (update_line ts) b).1.1 = true ∧
    ∀ f, dot_json f → f ≠ [parameters_file] →
      bn_files (fab_run h (update_line ts) b).2 !! f = bn_files b !! f;
  fl_kill : ∀ h b, (fab_run h kill_line b).1.1 = true ∧
    bn_sessions (fab_run h kill_line b).2 = [] ∧
    same_configs (bn_files b) (bn_files (fab_run h kill_line b).2);
  fl_sleep : ∀ ms w h, bn_sessions (host_state w h) = [] →
    bn_sessions (host_state (fab_sleep ms w) h) = [] ∧
    same_configs (bn_files (host_state w h)) (bn_files (host_state (fab_sleep ms w) h));
  fl_new : ∀ h name args log b, tmux_name name → name ∉ (bn_sessions b).*1 → Forall word args → word log →
    let cmd := String.concat " " ("./main" :: args) in
    let r := fab_run h (session_line name cmd log) b in
    r.1 = (true, "") ∧ bn_sessions r.2 = bn_sessions b ++ [(name, cmd +:+ " |& tee " +:+ log)] ∧
    same_configs (bn_files b) (bn_files r.2);
  (** the shell that tmux starts takes a command line of plain words apart *)
  fl_argv : ∀ args file, Forall word args → word file →
    fab_argv (String.concat " " ("./main" :: args) +:+ " |& tee " +:+ file) = Some ("./main" :: args, file)
}.

#[local] Existing Instance session_name_inj.

Section laws.
Context {HL : HostLaws} {FL : FabricLaws}.

(** ** Loops and hosts *)

(** A loop with an invariant of the elements done *)
Lemma for_each_inv {W A} (f : A → PyM W unit) (I : list A → W → Prop) l w :
  I [] w →
  (∀ l1 x l2 w, l = l1 ++ x :: l2 → I l1 w → ∃ w', f x w = (Ret tt, w') ∧ I (l1 ++ [x]) w') →
  ∃ w', for_each f l w = (Ret tt, w') ∧ I l w'.
Proof.
  intros H0 Hstep.
  assert (∀ l2 l1 w, l = l1 ++ l2 → I l1 w → ∃ w', for_each f l2 w = (Ret tt, w') ∧ I l w') as Hgo;
    [|by apply (Hgo l [])].
  induction l2 as [|x l2 IH]; intros l1 w1 Hl HI.
  - exists w1. split; [done|]. by rewrite Hl, app_nil_r.
  - destruct (Hstep l1 x l2 w1 Hl HI) as (w2 & H2 & HI2).
    destruct (IH (l1 ++ [x]) w2) as (w3 & H3 & HI3); [by rewrite <-app_assoc|done|].
    exists w3. split; [|done]. cbn [for_each]. by rewrite (PyM_bind_Ret _ _ _ _ _ H2).
Qed.

Lemma host_state_set h b w h' :
  host_state (set_host h b w) h' = if decide (h = h') then b else host_state w h'.
Proof.
  unfold host_state, set_host. simpl. case_decide; [subst; by rewrite lookup_insert_eq|].
  by rewrite lookup_insert_ne.
Qed.

Lemma elem_of_enumerate {A} (l : list A) i x : (i, x) ∈ enumerate l ↔ l !! i = Some x.
Proof.
  unfold enumerate. rewrite list_elem_of_lookup. split.
  - intros (k & (Hk & Hx)%lookup_zip_Some). apply lookup_seq in Hk as [-> _]. done.
  - intros Hx. exists i. apply lookup_zip_Some. split; [|done].
    apply lookup_seq. split; [done|by eapply lookup_lt_Some].
Qed.

Lemma enumerate_NoDup {A} (l : list A) : NoDup l → NoDup (enumerate l).*2.
Proof. unfold enumerate. intros Hl. rewrite snd_zip by (rewrite length_seq; lia). done. Qed.

(** What every host does *)
Lemma run_all_hosts hosts line w :
  NoDup hosts → (∀ h b, (fab_run h line b).1.1 = true) →
  ∃ w', run_all hosts line w = (true, w') ∧ tb_local w' = tb_local w ∧
    ∀ h, host_state w' h =
      if decide (h ∈ hosts) then (fab_run h line (host_state w h)).2 else host_state w h.
Proof.
  intros Hnd Hok. revert w. induction hosts as [|h hosts IH]; intros w.
  { exists w. split_and!; [done|done|]. intros h. by rewrite decide_False by apply not_elem_of_nil. }
  apply NoDup_cons in Hnd as [Hh Hnd]. cbn [run_all]. pose proof (Hok h (host_state w h)) as Hh1.
  destruct (fab_run h line (host_state w h)) as [[ok err] b] eqn:Hr. simpl in Hh1. subst ok.
  destruct (IH Hnd (set_host h b w)) as (w' & Hw' & Hl & Hs). exists w'. rewrite Hw'.
  split_and!; [done|done|]. intros h'. rewrite Hs, !host_state_set.
  destruct (decide (h = h')) as [->|Hne].
  - rewrite decide_False by done. rewrite decide_True by left. by rewrite Hr.
  - destruct (decide (h' ∈ hosts)); [rewrite decide_True by (by right)|rewrite decide_False by set_solver]; done.
Qed.

Lemma group_run_hosts hosts line w :
  NoDup hosts → (∀ h b, (fab_run h line b).1.1 = true) →
  ∃ w', group_run hosts line w = (Ret tt, w') ∧ tb_local w' = tb_local w ∧
    ∀ h, host_state w' h =
      if decide (h ∈ hosts) then (fab_run h line (host_state w h)).2 else host_state w h.
Proof.
  intros Hnd Hok. destruct (run_all_hosts hosts line w Hnd Hok) as (w' & Hw & H1 & H2).
  exists w'. unfold group_run. by rewrite Hw.
Qed.

(** ** Uploads *)

(** The host has the local copy of the file. *)
Definition has (h f : string) (w : testbed) : Prop :=
  bn_files (host_state w h) !! path_of f = bn_files (tb_local w) !! path_of f.

(** Files were copied from the local machine to hosts, and nothing else has happened. *)
Record copied (w w' : testbed) : Prop := {
  co_local : tb_local w' = tb_local w;
  co_has : ∀ h f, has h f w → has h f w'
}.

Lemma copied_refl w : copied w w.
Proof. done. Qed.

Lemma copied_trans w1 w2 w3 : copied w1 w2 → copied w2 w3 → copied w1 w3.
Proof. intros [H1 H2] [H3 H4]. split; [congruence|auto]. Qed.

Lemma put_copies h f w :
  is_Some (bn_files (tb_local w) !! path_of f) →
  ∃ w', put h f w = (Ret tt, w') ∧ copied w w' ∧ has h f w'.
Proof.
  intros [text Ht]. unfold put. rewrite Ht. eexists. split; [reflexivity|]. split.
  - split; [done|]. unfold has. intros h' f' Hh. rewrite host_state_set.
    case_decide; [subst h'|done]. cbn [set_file bn_files set_host tb_local].
    destruct (decide (path_of f = path_of f')) as [He|]; [|by rewrite lookup_insert_ne].
    by rewrite He, lookup_insert_eq, <-He, Ht.
  - unfold has. rewrite host_state_set, decide_True by done. simpl. by rewrite lookup_insert_eq, Ht.
Qed.

(** Copying for one element after another *)
Lemma copies_each {A} (f : A → PyM testbed unit) (P : A → testbed → Prop) L l w :
  tb_local w = L → (∀ x w w', copied w w' → P x w → P x w') →
  (∀ x w, x ∈ l → tb_local w = L → ∃ w', f x w = (Ret tt, w') ∧ copied w w' ∧ P x w') →
  ∃ w', for_each f l w = (Ret tt, w') ∧ copied w w' ∧ ∀ x, x ∈ l → P x w'.
Proof.
  intros HLo Hmono Hf.
  apply (for_each_inv f (λ done w', copied w w' ∧ ∀ x, x ∈ done → P x w')).
  - split; [apply copied_refl|]. by intros x Hx%not_elem_of_nil.
  - intros l1 x l2 w1 -> [Hc HP]. destruct (Hf x w1) as (w2 & H2 & Hc2 & HP2).
    { set_solver. } { by rewrite (co_local _ _ Hc). }
    exists w2. split; [done|]. split; [by eapply copied_trans|].
    intros y [Hy| ->%list_elem_of_singleton]%elem_of_app; [eauto|done].
Qed.

(** The files of the nodes of a host *)
Definition uploaded (k : nat) (p : nat * string) (w : testbed) : Prop :=
  has p.2 committee_file w ∧
  ∀ j, (j < k)%nat → has p.2 (key_path (p.1 * k + j)) w ∧ has p.2 (threshold_key_path (p.1 * k + j)) w.

Lemma uploaded_copied k p w w' : copied w w' → uploaded k p w → uploaded k p w'.
Proof. intros [_ Hc] [H1 H2]. split; [auto|]. intros j Hj. destruct (H2 j Hj). auto. Qed.

Lemma upload_copies k p w :
  is_Some (bn_files (tb_local w) !! path_of committee_file) →
  (∀ j, (j < k)%nat → is_Some (bn_files (tb_local w) !! path_of (key_path (p.1 * k + j))) ∧
     is_Some (bn_files (tb_local w) !! path_of (threshold_key_path (p.1 * k + j)))) →
  ∃ w', upload k p w = (Ret tt, w') ∧ copied w w' ∧ uploaded k p w'.
Proof.
  intros Hc Hk. unfold upload. destruct (put_copies p.2 committee_file w Hc) as (w1 & H1 & C1 & P1).
  rewrite (PyM_bind_Ret _ _ _ _ _ H1).
  destruct (copies_each (λ j, put p.2 (key_path (p.1 * k + j));; put p.2 (threshold_key_path (p.1 * k + j)))
    (λ j w, has p.2 (key_path (p.1 * k + j)) w ∧ has p.2 (threshold_key_path (p.1 * k + j)) w)
    (tb_local w) (seq 0 k) w1) as (w2 & H2 & C2 & P2).
  - apply C1.
  - intros j wa wb [_ Hcop] [Ha Hb]. auto.
  - intros j wa Hj%elem_of_seq HLo. destruct (Hk j ltac:(lia)) as [Hk1 Hk2].
    destruct (put_copies p.2 (key_path (p.1 * k + j)) wa) as (wb & Hb & Cb & Pb); [by rewrite HLo|].
    destruct (put_copies p.2 (threshold_key_path (p.1 * k + j)) wb) as (wc & Hc' & Cc & Pc).
    { by rewrite (co_local _ _ Cb), HLo. }
    exists wc. rewrite (PyM_bind_Ret _ _ _ _ _ Hb). split; [done|].
    split; [by eapply copied_trans|]. split; [by apply (co_has _ _ Cc)|done].
  - exists w2. split; [done|]. split; [by eapply copied_trans|].
    split; [by apply (co_has _ _ C2)|]. intros j Hj. apply P2, elem_of_seq. lia.
Qed.

(** ** The committee *)

Section committee.
Context (hosts : list string) (k : nat).

Definition address_at (port : Z) (idx : nat) : string := default "" (addresses hosts k port !! idx).

Definition remote_member (idx : nat) : Authority :=
  mkAuthority (gen idx).2 (Z.of_nat idx) (address_at (se_consensus_port settings) idx)
    (address_at (se_mempool_port settings) idx).

Definition remote_committee : Committee :=
  mkCommittee (list_to_map (map (λ i, (Z.of_nat i, remote_member i)) (seq 0 (length hosts * k)))).

Lemma addresses_lookup l port i h j :
  l !! i = Some h → (j < k)%nat →
  addresses l k port !! (i * k + j)%nat = Some (h +:+ ":" +:+ Itoa (port + Z.of_nat j)).
Proof.
  intros Hi Hj. unfold addresses. revert i Hi. induction l as [|h' l IH]; intros i Hi; [done|].
  cbn [map concat]. destruct i as [|i].
  - injection Hi as ->. rewrite lookup_app_l by (rewrite length_map, length_seq; simpl; lia).
    simpl. rewrite list_lookup_fmap, lookup_seq_lt by done. done.
  - rewrite lookup_app_r by (rewrite length_map, length_seq; simpl; lia).
    rewrite length_map, length_seq.
    replace (S i * k + j - k)%nat with (i * k + j)%nat by (simpl; lia). by apply IH.
Qed.

Lemma length_addresses l port : length (addresses l k port) = (length l * k)%nat.
Proof.
  unfold addresses. induction l as [|h l IH]; [done|]. cbn [map concat]. rewrite length_app, IH.
  rewrite length_map, length_seq. simpl. lia.
Qed.

(** Every number of a node is one of a host. *)
Lemma node_host idx :
  (idx < length hosts * k)%nat → ∃ i h j, hosts !! i = Some h ∧ (j < k)%nat ∧ idx = (i * k + j)%nat.
Proof.
  intros Hidx. assert (k ≠ 0)%nat as Hk by lia.
  destruct (lookup_lt_is_Some_2 hosts (idx / k)%nat) as [h Hh].
  { apply Nat.Div0.div_lt_upper_bound. lia. }
  exists (idx / k)%nat, h, (idx mod k)%nat. split; [done|]. split; [by apply Nat.mod_upper_bound|].
  rewrite (Nat.mul_comm _ k). by apply Nat.div_mod.
Qed.

Lemma address_at_eq port i h j :
  hosts !! i = Some h → (j < k)%nat →
  address_at port (i * k + j) = h +:+ ":" +:+ Itoa (port + Z.of_nat j).
Proof. intros Hi Hj. unfold address_at. by erewrite addresses_lookup. Qed.

Lemma list_by_index {A} (d : A) (l : list A) : l = map (λ i, default d (l !! i)) (seq 0 (length l)).
Proof.
  apply list_eq. intros i. rewrite list_lookup_fmap. destruct (decide (i < length l)%nat) as [Hi|Hi].
  - rewrite lookup_seq_lt by done. simpl. by destruct (lookup_lt_is_Some_2 l i Hi) as [x ->].
  - rewrite lookup_seq_ge by lia. simpl. apply lookup_ge_None. lia.
Qed.

Lemma remote_Committee_init :
  Committee_init (map (hex_name gen) (seq 0 (length hosts * k))) (map Z.of_nat (seq 0 (length hosts * k)))
    (addresses hosts k (se_consensus_port settings)) (addresses hosts k (se_mempool_port settings)) =
  Ret (dict_of_member <$> Authorities remote_committee).
Proof.
  unfold Committee_init. rewrite length_map, length_seq, !length_addresses.
  rewrite bool_decide_eq_true_2 by done. cbn [mbind outcome_bind py_assert andb].
  rewrite (list_by_index "" (addresses hosts k (se_consensus_port settings))).
  rewrite (list_by_index "" (addresses hosts k (se_mempool_port settings))).
  rewrite !length_addresses, build_consensus_seq, (right_id_L ∅ (∪)). f_equal.
  cbn [remote_committee Authorities]. rewrite <-list_to_map_fmap, map_map. done.
Qed.

(** The addresses are fit for an upload to these hosts. *)
Record good_hosts : Prop := {
  gh_nodup : NoDup hosts;
  gh_plain : Forall (λ h, plain_string h ∧ no_colon h = true) hosts;
  gh_ports : 0 <= se_consensus_port settings ∧ 0 <= se_mempool_port settings;
  (** the two ranges of ports do not overlap *)
  gh_apart : Z.of_nat k <= Z.abs (se_consensus_port settings - se_mempool_port settings)
}.

Lemma remote_bench_committee :
  good_hosts → (∀ i, Forall is_byte (gen i).2) → Z.of_nat (length hosts * k) < 2 ^ 32 →
  bench_committee gen (length hosts * k) remote_committee.
Proof.
  intros [_ Hplain _ _] Hgen Hn. split.
  - split.
    + intros id. unfold members. rewrite elem_of_dom. unfold is_Some. setoid_rewrite lookup_numbered. split.
      * intros (a & i & Hi & -> & _). lia.
      * intros Hid. eexists _, (Z.to_nat id). split_and!; [lia|lia|done].
    + intros i Hi. unfold Committee_Name. cbn [remote_committee Authorities].
      assert ((list_to_map (map (λ i, (Z.of_nat i, remote_member i)) (seq 0 (length hosts * k)))
        : gmap Z Authority) !! Z.of_nat i = Some (remote_member i)) as ->; [|done].
      apply lookup_numbered. exists i. split; [lia|done].
  - intros id a (idx & Hidx & -> & ->)%lookup_numbered.
    destruct (node_host idx Hidx) as (i & h & j & Hi & Hj & ->).
    rewrite Forall_forall in Hplain. destruct (Hplain h) as [Hp _]; [by eapply list_elem_of_lookup_2|].
    split_and!; simpl; [unfold in_int64; lia|done|apply Hgen| |];
      rewrite (address_at_eq _ i h j) by done; apply plain_app; [done| |done|];
      (apply (plain_app ":"); [plain_literal|apply plain_Itoa]).
Qed.

Definition host_of_node (id : NodeID) : string := default "" (hosts !! (Z.to_nat id / k)%nat).

Lemma host_of_node_eq i h j : hosts !! i = Some h → (j < k)%nat → host_of_node (Z.of_nat (i * k + j)) = h.
Proof.
  intros Hi Hj. unfold host_of_node. rewrite Nat2Z.id, Nat.div_add_l, Nat.div_small by lia.
  by rewrite Nat.add_0_r, Hi.
Qed.

Lemma remote_members id :
  good_hosts → id ∈ members remote_committee → ∃ i h j, hosts !! i = Some h ∧ (j < k)%nat ∧
    id = Z.of_nat (i * k + j) ∧ host_of_node id = h ∧ no_colon h = true ∧
    Committee_Address remote_committee id = h +:+ ":" +:+ Itoa (se_consensus_port settings + Z.of_nat j) ∧
    Committee_MempoolAddress remote_committee id = h +:+ ":" +:+ Itoa (se_mempool_port settings + Z.of_nat j).
Proof.
  intros [_ Hplain _ _] Hid. unfold members in Hid. apply elem_of_dom in Hid as [a Ha].
  unfold Committee_Address, Committee_MempoolAddress. rewrite Ha.
  apply lookup_numbered in Ha as (idx & Hidx & -> & ->).
  destruct (node_host idx Hidx) as (i & h & j & Hi & Hj & ->). exists i, h, j.
  rewrite Forall_forall in Hplain. destruct (Hplain h) as [_ Hc]; [by eapply list_elem_of_lookup_2|].
  split_and!; try done; [by apply host_of_node_eq|by apply address_at_eq..].
Qed.

(** Two addresses coincide only on one host and at one port. *)
Lemma address_inj h a h' b : no_colon h = true → no_colon h' = true → 0 <= a → 0 <= b →
  h +:+ ":" +:+ Itoa a = h' +:+ ":" +:+ Itoa b → h = h' ∧ a = b.
Proof.
  intros Hh Hh' Ha Hb Heq%(f_equal Split). rewrite !Split_address in Heq by (done || by apply no_colon_Itoa).
  injection Heq as -> He%(inj _). done.
Qed.

Lemma remote_well_addressed taken :
  good_hosts →
  (∀ h j, h ∈ hosts → (j < k)%nat →
     ((h, ":" +:+ Itoa (se_consensus_port settings + Z.of_nat j)) ∉ taken) ∧
     (h, ":" +:+ Itoa (se_mempool_port settings + Z.of_nat j)) ∉ taken) →
  well_addressed remote_committee host_of_node taken.
Proof.
  intros Hg Hfree. pose proof Hg as [Hnd _ [Hc Hm] Hapart]. split.
  - intros id (i & h & j & Hi & Hj & -> & -> & Hn & -> & ->)%remote_members; [|done].
    do 2 eexists. split; apply Split_address; (done || apply no_colon_Itoa; lia).
  - intros x y (i & h & j & Hi & Hj & -> & _ & Hn & -> & ->)%remote_members
      (i' & h' & j' & Hi' & Hj' & -> & _ & Hn' & -> & ->)%remote_members; try done.
    assert (∀ p p', 0 <= p → 0 <= p' →
      h +:+ ":" +:+ Itoa (p + Z.of_nat j) = h' +:+ ":" +:+ Itoa (p' + Z.of_nat j') →
      i = i' ∧ p + Z.of_nat j = p' + Z.of_nat j') as Hinj.
    { intros p p' Hp Hp' [-> Heq]%address_inj; try done; try lia. split; [|done].
      by eapply NoDup_lookup. }
    split_and!.
    + intros [-> ?]%Hinj; lia.
    + intros [-> ?]%Hinj; lia.
    + intros [-> ?]%Hinj; lia.
  - intros id (i & h & j & Hi & Hj & -> & _ & Hn & -> & ->)%remote_members; [|done].
    destruct (Hfree h j) as [H1 H2]; [by eapply list_elem_of_lookup_2|done|].
    unfold dials, dial_endpoint. rewrite !Split_address by (done || apply no_colon_Itoa; lia). done.
Qed.

Lemma remote_threshold : (0 < length hosts * k)%nat →
  Committee_HightThreshold remote_committee = 2 * ((Z.of_nat (length hosts * k) - 1) / 3) + 1.
Proof.
  intros Hn. unfold Committee_HightThreshold, Committee_Size. cbn [remote_committee Authorities].
  rewrite map_size_list_to_map.
  - rewrite length_map, length_seq. set (z := Z.of_nat _). assert (0 < z) by lia.
    rewrite Z.quot_div_nonneg by lia. done.
  - change (NoDup (map (λ i, (Z.of_nat i, remote_member i)) (seq 0 (length hosts * k))).*1).
    rewrite <-list_fmap_compose. apply (NoDup_fmap_2 Z.of_nat), NoDup_seq.
Qed.
End committee.

(** ** Configuration *)

Lemma on_local_Ret {A} (m : PyM bench A) l hs a b :
  m l = (Ret a, b) → on_local m (mkTestbed l hs) = (Ret a, mkTestbed b hs).
Proof. intros Hm. unfold on_local. simpl. by rewrite Hm. Qed.

Section starts.
Context {PL : PyJsonLaws} {CW : CobraLaw} {JL : JsonMapLaw} {KL : KyberKeysLaws}.
Context {LP : JsonStructLaw TSPartialMarshalled} {LM : JsonStructLaw TSPublicMarshalled}.
Context (range_perm : ∀ m, range m ≡ₚ map_to_list m).
Context (hosts : list string) (k : nat).

Local Abbreviation nodes := (length hosts * k)%nat.
Local Abbreviation threshold := (2 * ((Z.of_nat nodes - 1) / 3) + 1).
Local Abbreviation committee := (remote_committee hosts k).

(** The files of a node without the parameters *)
Record keyed (idx : nat) (fs : files) : Prop := {
  kd_keys : fs !! [key_name idx] = Some (json_Encode (key_data (gen idx).1 (gen idx).2));
  kd_shares : ∃ share, fs !! [ts_key_name idx] = Some (json_Encode
    (ts_key_data share (ts_keys threshold (Z.of_nat nodes)).2 (Z.of_nat nodes) threshold));
  kd_committee : fs !! [committee_file] =
    Some (py_dump (kmap Itoa (dict_of_member <$> Authorities committee)))
}.

(** On the local machine *)
Lemma config_local w :
  keys_generated gen ts_keys (Z.of_nat nodes) threshold → Z.of_nat nodes < 2 ^ 32 →
  (∀ b, (host_exec (py_split compile) b).1 = Some true) → creatable committee_file = true →
  ∃ b, (∀ idx, (idx < nodes)%nat → keyed idx (bn_files b)) ∧ is_Some (bn_files b !! [committee_file]) ∧
    config hosts (Z.of_nat k) w =
    (group_run hosts (cleanup_configs +:+ " || true");; for_each (upload k) (enumerate hosts))
      (mkTestbed b (tb_hosts w)).
Proof.
  intros Hk Hn Hbuild Hc. unfold config. destruct w as [l hs]. cbn [tb_hosts].
  set (b1 := host_shell cleanup_configs l).
  rewrite (PyM_bind_Ret _ _ _ _ _ (on_local_Ret (act (host_shell cleanup_configs)) l hs tt b1 eq_refl)).
  specialize (Hbuild b1). pose proof (hl_build b1) as Hf.
  destruct (host_exec (py_split compile) b1) as [o b2] eqn:He. simpl in Hbuild, Hf. subst o.
  rewrite compile_words in *.
  rewrite (PyM_bind_Ret _ _ _ tt (mkTestbed b2 hs)); [|apply on_local_Ret;
    unfold check_run, subprocess_run, mbind, PyM_bind; rewrite decide_False by done; simpl; by rewrite He].
  replace (Z.of_nat (length hosts) * Z.of_nat k) with (Z.of_nat nodes) by lia. rewrite !Nat2Z.id.
  destruct (generate_keys_runs creatable range gen ts_keys nodes b2 Hk Hn) as (b3 & keys & H3 & _ & Hnames & Hfiles).
  { intros f Hd. rewrite Hf by done. by apply fl_local_cleanup. }
  rewrite (PyM_bind_Ret _ _ _ _ _ (on_local_Ret _ _ hs _ _ H3)).
  erewrite PyM_bind_Ret; [|unfold lift; rewrite Hnames, <-(map_map (hex_name gen) JString);
    erewrite (collect_Ret is_str (λ v, match v with JString s => s | _ => "" end));
    [rewrite !map_map; reflexivity|by intros v (s & -> & _)%list_elem_of_fmap]].
  erewrite PyM_bind_Ret; [|unfold lift; rewrite remote_Committee_init; reflexivity].
  erewrite PyM_bind_Ret; [|apply on_local_Ret; unfold Committee_print, write_file; rewrite Hc; reflexivity].
  destruct committee_file_spec as [Hp _]. unfold set_file. rewrite Hp.
  eexists. split; [|split; [|reflexivity]]; cbn [bn_files]; [|by rewrite lookup_insert_eq].
  intros idx Hidx. destruct (Hfiles idx Hidx) as (H1 & share & H2).
  split; [by rewrite lookup_insert_ne|exists share; by rewrite lookup_insert_ne|by rewrite lookup_insert_eq].
Qed.

(** Every host has the files of its nodes. *)
Definition served (P : nat → files → Prop) (w : testbed) : Prop :=
  ∀ i h j, hosts !! i = Some h → (j < k)%nat → P (i * k + j)%nat (bn_files (host_state w h)).

Lemma node_bound i h j : hosts !! i = Some h → (j < k)%nat → (i * k + j < nodes)%nat.
Proof. intros Hi%lookup_lt_Some Hj. nia. Qed.

Lemma served_impl (P Q : nat → files → Prop) w w' :
  (∀ h idx, h ∈ hosts → P idx (bn_files (host_state w h)) → Q idx (bn_files (host_state w' h))) →
  served P w → served Q w'.
Proof. intros HPQ HP i h j Hi Hj. apply HPQ; [by eapply list_elem_of_lookup_2|by apply HP]. Qed.

Lemma keyed_has w h i j :
  hosts !! i = Some h → (j < k)%nat → uploaded k (i, h) w →
  keyed (i * k + j) (bn_files (tb_local w)) → keyed (i * k + j) (bn_files (host_state w h)).
Proof.
  intros Hi Hj [Hc Hks] [H1 (share & H2) H3]. destruct (Hks j Hj) as [Hk Ht]. unfold has in Hc, Hk, Ht.
  cbn [fst snd] in Hc, Hk, Ht.
  destruct (key_path_spec creatable (i * k + j)) as (E1 & _ & _).
  destruct (threshold_key_path_spec creatable (i * k + j)) as (E2 & _ & _). destruct committee_file_spec as [E3 _].
  rewrite E1 in Hk. rewrite E2 in Ht. rewrite E3 in Hc.
  split; [by rewrite Hk|exists share; by rewrite Ht|by rewrite Hc].
Qed.

(** After the configuration every host has the keys of its nodes and the committee. *)
Lemma config_runs w :
  NoDup hosts → keys_generated gen ts_keys (Z.of_nat nodes) threshold → Z.of_nat nodes < 2 ^ 32 →
  (∀ b, (host_exec (py_split compile) b).1 = Some true) → creatable committee_file = true →
  ∃ w', config hosts (Z.of_nat k) w = (Ret tt, w') ∧ served keyed w'.
Proof.
  intros Hnd Hk Hn Hbuild Hc. destruct (config_local w Hk Hn Hbuild Hc) as (b & Hb & Hcf & ->).
  destruct (group_run_hosts hosts (cleanup_configs +:+ " || true") (mkTestbed b (tb_hosts w)) Hnd fl_cleanup)
    as (w1 & H1 & Hl1 & _). rewrite (PyM_bind_Ret _ _ _ _ _ H1).
  destruct (copies_each (upload k) (uploaded k) b (enumerate hosts) w1) as (w2 & H2 & C2 & P2).
  - by rewrite Hl1.
  - intros p wa wb. apply uploaded_copied.
  - intros [i h] wa Hp%elem_of_enumerate HLo. apply upload_copies; rewrite HLo.
    + by destruct committee_file_spec as [-> _].
    + intros j Hj. destruct (Hb _ (node_bound i h j Hp Hj)) as [F1 (share & F2) _].
      destruct (key_path_spec creatable (i * k + j)) as (E1 & _ & _).
      destruct (threshold_key_path_spec creatable (i * k + j)) as (E2 & _ & _). simpl. rewrite E1, E2, F1, F2. done.
  - exists w2. split; [done|]. intros i h j Hi Hj. apply keyed_has; try done.
    + by apply P2, elem_of_enumerate.
    + rewrite (co_local _ _ C2), Hl1. apply Hb. by eapply node_bound.
Qed.

Lemma puts_file f text l w :
  bn_files (tb_local w) !! path_of f = Some text →
  ∃ w', for_each (λ h, put h f) l w = (Ret tt, w') ∧ ∀ h, bn_files (host_state w' h) =
    if decide (h ∈ l) then <[path_of f := text]> (bn_files (host_state w h)) else bn_files (host_state w h).
Proof.
  revert w. induction l as [|h l IH]; intros w Ht.
  { exists w. split; [done|]. intros h. by rewrite decide_False by apply not_elem_of_nil. }
  set (w1 := set_host h (set_file f text (host_state w h)) w).
  destruct (IH w1 Ht) as (w2 & H2 & Hf). exists w2. split.
  { cbn [for_each]. rewrite (PyM_bind_Ret _ _ w tt w1); [done|]. unfold put. by rewrite Ht. }
  intros h'. rewrite Hf. unfold w1. rewrite host_state_set. destruct (decide (h = h')) as [<-|Hne].
  - rewrite (decide_True (P := h ∈ h :: l)) by left. cbn [bn_files set_file].
    case_decide; [|done]. by rewrite insert_insert_eq.
  - destruct (decide (h' ∈ l)); [rewrite decide_True by (by right)|rewrite decide_False by set_solver]; done.
Qed.

Lemma keyed_updated idx fs fs' json :
  (∀ f, dot_json f → f ≠ [parameters_file] → fs' !! f = fs !! f) →
  fs' !! [parameters_file] = Some (py_dump json) →
  keyed idx fs → node_files gen ts_keys nodes committee json idx fs'.
Proof.
  intros Hsame Hp [H1 (share & H2) H3]. destruct (key_path_spec creatable idx) as (_ & _ & D1).
  destruct (threshold_key_path_spec creatable idx) as (_ & _ & D2). destruct committee_file_spec as [_ D3].
  split; [by rewrite Hsame|exists share; by rewrite Hsame|by rewrite Hsame|done].
Qed.

(** After the update every host also has the parameters. *)
Lemma update_runs json ts w :
  NoDup hosts → word ts → creatable parameters_file = true → served keyed w →
  ∃ w', update hosts json ts w = (Ret tt, w') ∧ served (node_files gen ts_keys nodes committee json) w'.
Proof.
  intros Hnd Hts Hc Hk. unfold update. destruct w as [l hs].
  rewrite (PyM_bind_Ret _ _ _ _ _ (on_local_Ret (act (host_shell cleanup_parameters)) l hs tt _ eq_refl)).
  rewrite (PyM_bind_Ret _ _ _ _ _
    (on_local_Ret (act (host_shell (make_logs_and_result_dir ts))) _ hs tt _ eq_refl)).
  destruct (group_run_hosts hosts (update_line ts) (mkTestbed (host_shell (make_logs_and_result_dir ts)
    (host_shell cleanup_parameters l)) hs) Hnd) as (w1 & H1 & _ & Hh1); [by intros h b; apply fl_update|].
  rewrite (PyM_bind_Ret _ _ _ _ _ H1). destruct w1 as [l1 hs1].
  destruct parameters_file_spec as [Hp _].
  erewrite PyM_bind_Ret; [|apply on_local_Ret; unfold NodeParameters_print, write_file; rewrite Hc; reflexivity].
  destruct (puts_file parameters_file (py_dump json) hosts
    (mkTestbed (set_file parameters_file (py_dump json) l1) hs1)) as (w2 & H2 & Hh2).
  { unfold set_file. cbn [tb_local bn_files]. by rewrite Hp, lookup_insert_eq. }
  exists w2. split; [exact H2|]. eapply served_impl; [|exact Hk]. intros h idx Hin.
  apply keyed_updated; rewrite Hh2, decide_True, Hp by done; [|by rewrite lookup_insert_eq].
  intros f Hd Hne. rewrite lookup_insert_ne by done.
  change (host_state (mkTestbed _ hs1) h) with (host_state (mkTestbed l1 hs1) h).
  rewrite Hh1, decide_True by done. by apply fl_update.
Qed.

(** ** Start *)

Section boot.
Context (ts : string) (level : Z).
Hypothesis ts_word : word ts.
Hypothesis ts_slash : slash_free ts.

(** The command line of the session of a node *)
Definition remote_line (idx : nat) : string :=
  node_command ts level idx +:+ " |& tee " +:+ node_log_info_file idx ts.

(** What the start of nodes does to a host *)
Definition started (h : string) (idxs : list nat) (w w' : testbed) : Prop :=
  (∀ h', h' ≠ h → host_state w' h' = host_state w h') ∧
  bn_sessions (host_state w' h) = bn_sessions (host_state w h) ++
    map (λ idx, (session_name idx, remote_line idx)) idxs ∧
  same_configs (bn_files (host_state w h)) (bn_files (host_state w' h)).

Lemma background_starts h idx w :
  session_name idx ∉ (bn_sessions (host_state w h)).*1 →
  ∃ w', remote_background_run h (node_command ts level idx) (node_log_info_file idx ts) w = (Ret tt, w') ∧
    started h [idx] w w'.
Proof.
  intros Hfresh. unfold remote_background_run. rewrite session_name_spec by done.
  rewrite node_command_words.
  destruct (fl_new h (session_name idx) (node_argv ts level idx) (node_log_info_file idx ts)
    (host_state w h)) as (H1 & H2 & H3); [apply session_name_tmux|done|by apply node_argv_words|
    by apply node_log_info_word|].
  rewrite <-node_command_words in *. fold (remote_line idx) in H2.
  destruct (fab_run h _ (host_state w h)) as [r b] eqn:Hr. cbn [fst snd] in H1, H2, H3. subst r.
  exists (set_host h b w). split.
  - rewrite (PyM_bind_Ret _ _ w "" (set_host h b w)); [done|]. unfold connection_run. by rewrite Hr.
  - unfold started. setoid_rewrite host_state_set. rewrite decide_True by done.
    split_and!; [|done|done]. intros h' Hne. by rewrite decide_False.
Qed.

Lemma started_app h l1 l2 w1 w2 w3 : started h l1 w1 w2 → started h l2 w2 w3 → started h (l1 ++ l2) w1 w3.
Proof.
  intros (H1 & H2 & H3) (H4 & H5 & H6). split_and!.
  - intros h' Hne. by rewrite H4, H1.
  - rewrite H5, H2, map_app. by rewrite <-app_assoc.
  - intros f Hf. by rewrite H6, H3.
Qed.

Lemma launch_starts i h w :
  bn_sessions (host_state w h) = [] →
  ∃ w', launch_host k ts level (i, h) w = (Ret tt, w') ∧
    started h (map (λ j, (i * k + j)%nat) (seq 0 k)) w w'.
Proof.
  intros Hw. unfold launch_host. cbn [fst snd].
  apply (for_each_inv _ (λ js w', started h (map (λ j, (i * k + j)%nat) js) w w')).
  - split_and!; [done|by rewrite app_nil_r|by intros f].
  - intros l1 j l2 w1 Hseq Hs. destruct (background_starts h (i * k + j) w1) as (w2 & H2 & Hs2).
    + destruct Hs as (_ & -> & _). rewrite Hw. cbn [app]. rewrite map_map.
      intros (p & Hp & (j' & -> & Hj')%list_elem_of_fmap)%list_elem_of_fmap. cbn [fst] in Hp.
      apply (inj _) in Hp. assert (j = j') as <- by lia.
      pose proof (NoDup_seq 0 k) as Hnd. rewrite Hseq in Hnd.
      apply NoDup_app in Hnd as (_ & Hnd & _). apply (Hnd j Hj'). left.
    + exists w2. split; [exact H2|]. rewrite map_app. by eapply started_app.
Qed.

(** The sessions of the nodes of a host *)
Definition sessions_of (i : nat) : list (string * string) :=
  map (λ idx, (session_name idx, remote_line idx)) (map (λ j, (i * k + j)%nat) (seq 0 k)).

Lemma launches_run w :
  NoDup hosts → (∀ h, h ∈ hosts → bn_sessions (host_state w h) = []) →
  ∃ w', for_each (launch_host k ts level) (enumerate hosts) w = (Ret tt, w') ∧
    ∀ i h, hosts !! i = Some h → bn_sessions (host_state w' h) = sessions_of i ∧
      same_configs (bn_files (host_state w h)) (bn_files (host_state w' h)).
Proof.
  intros Hnd Hw. destruct (for_each_inv (launch_host k ts level) (λ l w', ∀ i h, hosts !! i = Some h →
    bn_sessions (host_state w' h) = (if decide (h ∈ l.*2) then sessions_of i else []) ∧
    same_configs (bn_files (host_state w h)) (bn_files (host_state w' h))) (enumerate hosts) w)
    as (w' & Hrun & HI).
  - intros i h Hi. rewrite decide_False by apply not_elem_of_nil. split; [|by intros f].
    apply Hw. by eapply list_elem_of_lookup_2.
  - intros l1 [i0 h0] l2 w1 Hl HI.
    assert (hosts !! i0 = Some h0) as Hi0 by (apply elem_of_enumerate; rewrite Hl; set_solver).
    assert (h0 ∉ l1.*2) as Hfresh.
    { pose proof (enumerate_NoDup hosts Hnd) as Hn. rewrite Hl, fmap_app in Hn.
      apply NoDup_app in Hn as (_ & Hn & _). intros Hin. apply (Hn h0 Hin). left. }
    destruct (HI i0 h0 Hi0) as [Hs0 _]. rewrite decide_False in Hs0 by done.
    destruct (launch_starts i0 h0 w1 Hs0) as (w2 & H2 & Hother & Hs & Hf). exists w2. split; [done|].
    intros i h Hi. rewrite fmap_app. destruct (HI i h Hi) as [HIs HIf]. destruct (decide (h = h0)) as [->|Hne].
    + assert (i = i0) as -> by by eapply NoDup_lookup. rewrite decide_True by set_solver.
      split; [by rewrite Hs, Hs0|]. intros f Hd. by rewrite Hf, HIf.
    + rewrite Hother, HIs by done. split; [|done]. apply decide_ext. set_solver.
  - exists w'. split; [done|]. intros i h Hi. destruct (HI i h Hi) as [Hs Hf]. split; [|done].
    rewrite Hs, decide_True; [done|]. apply list_elem_of_fmap. exists (i, h). split; [done|].
    by apply elem_of_enumerate.
Qed.

(** Every host runs its nodes and no others. *)
Lemma boot_runs w :
  NoDup hosts →
  ∃ w', boot hosts (Z.of_nat k) ts level w = (Ret tt, w') ∧
    ∀ i h, hosts !! i = Some h → bn_sessions (host_state w' h) = sessions_of i ∧
      same_configs (bn_files (host_state w h)) (bn_files (host_state w' h)).
Proof.
  intros Hnd. unfold boot.
  destruct (group_run_hosts hosts kill_line w Hnd) as (w1 & H1 & _ & Hh1); [by intros h b; apply fl_kill|].
  rewrite (PyM_bind_Ret _ _ w tt w1); [|unfold kill_hosts, try_except; by rewrite H1].
  set (w2 := fab_sleep 10000 w1). rewrite (PyM_bind_Ret _ _ w1 tt w2) by done.
  assert (∀ h, h ∈ hosts → bn_sessions (host_state w2 h) = [] ∧
    same_configs (bn_files (host_state w h)) (bn_files (host_state w2 h))) as Hw2.
  { intros h Hh. specialize (Hh1 h). rewrite decide_True in Hh1 by done.
    destruct (fl_kill h (host_state w h)) as (_ & Hs & Hf). rewrite <-Hh1 in Hs, Hf.
    destruct (fl_sleep 10000 w1 h Hs) as [Hs' Hf']. split; [done|]. intros f Hd. unfold w2. by rewrite Hf', Hf. }
  rewrite Nat2Z.id. destruct (launches_run w2 Hnd) as (w3 & H3 & Hw3); [by intros h Hh; apply Hw2|].
  exists w3. split; [exact H3|]. intros i h Hi. destruct (Hw3 i h Hi) as [Hs Hf]. split; [done|].
  destruct (Hw2 h) as [_ Hf2]; [by eapply list_elem_of_lookup_2|]. intros f Hd. by rewrite Hf, Hf2.
Qed.

Lemma remote_line_argv idx :
  fab_argv (remote_line idx) = Some ("./main" :: node_argv ts level idx, node_log_info_file idx ts).
Proof.
  unfold remote_line. rewrite node_command_words.
  apply fl_argv; [by apply node_argv_words|by apply node_log_info_word].
Qed.
End boot.

(** C40 The benchmark on many machines: the script generates the keys and the committee,
    uploads them and the parameters, and starts the nodes; each host then runs one session
    for each of its nodes and no others; the command line of a session starts the node
    with the common committee, its own private key and threshold keys with the threshold of
    the committee, whatever happens to files that are not configurations; and if the ports
    are free all nodes come online. *)
Theorem testbed_starts {GB : Gob Block} {GC : Gob ConsensusBlock} ts level json cp w pick taken :
  good_hosts hosts k → (0 < nodes)%nat → node_ready creatable gen ts_keys ts level nodes json cp →
  (∀ b, (host_exec (py_split compile) b).1 = Some true) →
  creatable committee_file = true → creatable parameters_file = true →
  (∀ h j, h ∈ hosts → (j < k)%nat →
     ((h, ":" +:+ Itoa (se_consensus_port settings + Z.of_nat j)) ∉ taken) ∧
     (h, ":" +:+ Itoa (se_mempool_port settings + Z.of_nat j)) ∉ taken) →
  ∃ w', (config hosts (Z.of_nat k);; update hosts json ts;; boot hosts (Z.of_nat k) ts level) w =
      (Ret tt, w') ∧
    (∀ i h, hosts !! i = Some h →
       bn_sessions (host_state w' h) = sessions_of ts level i ∧
       ∀ j fs, (j < k)%nat → same_configs (bn_files (host_state w' h)) fs →
         ∃ argv st s', fab_argv (remote_line ts level (i * k + j)) =
             Some ("./main" :: argv, node_log_info_file (i * k + j) ts) ∧
           main_args creatable range gen ts_keys argv (mkMachine fs Loggers_init) = Returns (Some st) s' ∧
           proper_start (i * k + j)%nat committee cp (Z.of_nat nodes) (Committee_HightThreshold committee)
             pick st) ∧
    ∃ s', rtc (cluster_step committee (host_of_node hosts k)) (cluster_start committee taken) s' ∧
      ∀ id, id ∈ members committee → cl_stage s' !! id = Some Started.
Proof.
  intros Hg Hpos Hr Hbuild Hc Hp Hfree. pose proof (gh_nodup _ _ Hg) as Hnd.
  pose proof (nr_keys _ _ _ _ _ _ _ _ Hr) as Hk. destruct (nr_ts _ _ _ _ _ _ _ _ Hr) as [Hts Hsl].
  destruct (config_runs w Hnd Hk (nr_nodes _ _ _ _ _ _ _ _ Hr) Hbuild Hc) as (w1 & H1 & Hs1).
  destruct (update_runs json ts w1 Hnd Hts Hp Hs1) as (w2 & H2 & Hs2).
  destruct (boot_runs ts level Hts Hsl w2 Hnd) as (w3 & H3 & Hw3).
  exists w3. split_and!.
  - by rewrite (PyM_bind_Ret _ _ _ _ _ H1), (PyM_bind_Ret _ _ _ _ _ H2).
  - intros i h Hi. destruct (Hw3 i h Hi) as [Hs Hf]. split; [done|]. intros j fs Hj Hsame.
    assert (bench_committee gen nodes committee) as Hbc.
    { apply remote_bench_committee; [done|apply (kg_gen _ _ _ _ Hk)|apply (nr_nodes _ _ _ _ _ _ _ _ Hr)]. }
    destruct (node_starts creatable range gen ts_keys range_perm ts level nodes json cp committee
      (i * k + j) fs pick Hr Hbc) as (st & s' & Hrun & Hstart).
    { by eapply node_bound. }
    { eapply (node_files_same creatable), Hs2; try done. intros f Hd. by rewrite Hsame, Hf. }
    exists (node_argv ts level (i * k + j)), st, s'. rewrite remote_line_argv, remote_threshold by done. done.
  - apply (cluster_comes_online committee (host_of_node hosts k) taken); [|apply rtc_refl].
    by apply remote_well_addressed.
Qed.
End starts.
End laws.
End remote.
