(* ===== verification/SampleWorld.v ===== *)
(** * A sample node

    Concrete instances of the interfaces that stand for code outside the
    repository: the laws of the sample cryptographic library of SampleLib.v, an
    in-memory database, and a serialiser.  With them the whole model can be
    evaluated; they show that the hypotheses of the theorems can hold together. *)

From stdpp Require Import base gmap list strings countable.
From S2P Require Import Prelude Committee Crypto SampleLib Message Aggreator Elector Commitor.
From S2P Require Import Pool Store Synchronizer Port Mempool Spb Core.

(** ** The laws of the sample library *)

Lemma sample_point_bytes d : Forall is_byte (sample_point d).
Proof.
  unfold sample_point. apply Forall_fmap, Forall_true. intros b. unfold is_byte. simpl.
  pose proof (Z.mod_pos_bound b 256). lia.
Qed.

#[export] Instance sample_coin_law : CoinLaw (CL := sampleLib).
Proof.
  intros pub d shares t n coin. simpl. unfold sample_Recover. case_match; [|done].
  intros [= <-]. split; [|apply sample_point_bytes].
  unfold sample_point. rewrite length_map, length_take, length_app.
  unfold RANDOM_LEN. cbn [length]. lia.
Qed.

#[export] Instance sample_bls_laws : BlsLaws (CL := sampleLib).
Proof.
  split.
  - intros pub d shares t n s _. simpl. unfold sample_Recover. case_match; [|done].
    intros [= <-]. by rewrite decide_True.
  - intros pub d s s'. simpl. repeat case_decide; congruence.
Qed.

(** ** An in-memory database

    A missing key is an error of the database itself, as with nutsdb. *)

Definition sample_missing : goerror := ErrLib "key not found in the bucket".

#[export] Instance sampleDB : DB := {|
  db_state := gmap (list byte) (list byte);
  db_Get := λ m k, match m !! k with Some v => Ok v | None => Err sample_missing end;
  db_Put := λ m k v, (Ok tt, <[k := v]> m)
|}.

#[export] Instance sampleDB_laws : DBLaws (D := sampleDB).
Proof.
  split; [done|]. intros d k v k'. simpl. case_decide as Hk.
  - subst k'. by rewrite lookup_insert_eq.
  - by rewrite lookup_insert_ne.
Qed.

Lemma readable_ok st d : is_ok (Store_Read st d) = true → readable st d.
Proof. unfold readable. destruct (Store_Read st d); [eauto|done]. Qed.

Lemma forall_readable st ds :
  forallb (λ d, is_ok (Store_Read st d)) ds = true → ∀ d, d ∈ ds → readable st d.
Proof.
  rewrite forallb_forall. intros H d Hd. apply readable_ok, H. by apply list_elem_of_In.
Qed.

Lemma Forall_readable st ds :
  forallb (λ d, is_ok (Store_Read st d)) ds = true → Forall (readable st) ds.
Proof.
  intros H. induction ds as [|d ds IH]; [done|]. simpl in H. apply andb_true_iff in H as [Hd H].
  constructor; [by apply readable_ok|auto].
Qed.

(** ** A serialiser *)

#[export] Instance Batch_countable : Countable Batch.
Proof.
  apply (inj_countable' (λ b, (bt_ID b, bt_Txs b)) (λ p, mkBatch p.1 p.2)). by intros [].
Defined.

#[export] Instance Block_countable : Countable Block.
Proof.
  apply (inj_countable' (λ b, (bl_Proposer b, bl_Batch b, bl_Signature b))
    (λ p, mkBlock p.1.1 p.1.2 p.2)). by intros [].
Defined.

#[export] Instance ConsensusBlock_countable : Countable ConsensusBlock.
Proof.
  apply (inj_countable' (λ b, (cb_Proposer b, cb_PayLoads b, cb_Epoch b))
    (λ p, mkConsensusBlock p.1.1 p.1.2 p.2)). by intros [].
Defined.

#[export] Instance SPBProposal_countable : Countable SPBProposal.
Proof.
  apply (inj_countable' (λ p, (sp_Author p, sp_B p, sp_Epoch p, sp_Round p, sp_Phase p,
      sp_Signature p))
    (λ p, mkSPBProposal p.1.1.1.1.1 p.1.1.1.1.2 p.1.1.1.2 p.1.1.2 p.1.2 p.2)). by intros [].
Defined.
#[export] Instance SPBVote_countable : Countable SPBVote.
Proof.
  apply (inj_countable' (λ p, (sv_Author p, sv_Proposer p, sv_BlockHash p, sv_Epoch p,
      sv_Round p, sv_Phase p, sv_Signature p))
    (λ p, mkSPBVote p.1.1.1.1.1.1 p.1.1.1.1.1.2 p.1.1.1.1.2 p.1.1.1.2 p.1.1.2 p.1.2 p.2)).
  by intros [].
Defined.
#[export] Instance Finish_countable : Countable Finish.
Proof.
  apply (inj_countable' (λ p, (fi_Author p, fi_BlockHash p, fi_Epoch p, fi_Round p,
      fi_Signature p))
    (λ p, mkFinish p.1.1.1.1 p.1.1.1.2 p.1.1.2 p.1.2 p.2)). by intros [].
Defined.
#[export] Instance Done_countable : Countable Done.
Proof.
  apply (inj_countable' (λ p, (dn_Author p, dn_Epoch p, dn_Round p, dn_Signature p))
    (λ p, mkDone p.1.1.1 p.1.1.2 p.1.2 p.2)). by intros [].
Defined.

#[export] Instance ElectShare_countable : Countable ElectShare.
Proof.
  apply (inj_countable' (λ p, (es_Author p, es_Epoch p, es_Round p, es_SigShare p))
    (λ p, mkElectShare p.1.1.1 p.1.1.2 p.1.2 p.2)). by intros [].
Defined.
#[export] Instance Prevote_countable : Countable Prevote.
Proof.
  apply (inj_countable' (λ p, (pv_Author p, pv_Leader p, pv_Epoch p, pv_Round p, pv_Flag p,
      pv_BlockHash p, pv_Signature p))
    (λ p, mkPrevote p.1.1.1.1.1.1 p.1.1.1.1.1.2 p.1.1.1.1.2 p.1.1.1.2 p.1.1.2 p.1.2 p.2)).
  by intros [].
Defined.
#[export] Instance FinVote_countable : Countable FinVote.
Proof.
  apply (inj_countable' (λ p, (fv_Author p, fv_Leader p, fv_Epoch p, fv_Round p, fv_Flag p,
      fv_BlockHash p, fv_Signature p))
    (λ p, mkFinVote p.1.1.1.1.1.1 p.1.1.1.1.1.2 p.1.1.1.1.2 p.1.1.1.2 p.1.1.2 p.1.2 p.2)).
  by intros [].
Defined.
#[export] Instance Halt_countable : Countable Halt.
Proof.
  apply (inj_countable' (λ p, (ha_Author p, ha_Epoch p, ha_Round p, ha_Leader p,
      ha_BlockHash p, ha_Signature p))
    (λ p, mkHalt p.1.1.1.1.1 p.1.1.1.1.2 p.1.1.1.2 p.1.1.2 p.1.2 p.2)). by intros [].
Defined.

#[export] Instance sampleGob `{Countable A} : Gob A := {|
  gob_Encode := λ a, Ok [Z.pos (encode a)];
  gob_Decode := λ data,
    match data with
    | [Z.pos p] => match decode p with Some a => Ok a | None => Err (ErrLib "gob: bad data") end
    | _ => Err (ErrLib "gob: bad data")
    end
|}.

#[export] Instance sampleGob_law `{Countable A} : GobLaw A.
Proof. intros a. eexists. split; [done|]. simpl. by rewrite decode_encode. Qed.

(** ** Nodes of a committee of four *)

Definition committee4 : Committee := sample_Committee 4.

Definition sample_store : Store := NewStore (D := sampleDB) ∅.

Definition sample_range (m : Mempool) : list Digest := elements (mp_Queue m).

#[export] Instance port0 : MempoolPort (D := sampleDB) :=
  Mempool_port 0 DefaultParameters (sample_svc 0 4 3) sample_range.

#[export] Instance port0_laws : MempoolPortLaws (P := port0) :=
  Mempool_port_laws 0 DefaultParameters (sample_svc 0 4 3) sample_range (λ m, reflexivity _).

(** ** Running a node *)

Section play.
Context {CL : CryptoLib} {D : DB} {P : MempoolPort} {G : Gob ConsensusBlock}.
Context (Name : NodeID) (committee : Committee) (parameters : Parameters)
  (sigService : SigService).

(** What can happen to a node, except for its mempool *)
Inductive node_move : Type :=
  | Turn
  | LoopBack (h : Digest)
  | Deliver (m : Message)
  | Thread (i : nat).

Definition node_play_move (mv : node_move) (c : Core) : option Core :=
  match mv with
  | Turn =>
      match c_recvCh c with
      | [] => None
      | msg :: rest =>
          match Core_receive Name committee parameters sigService msg
                  (set_c_out (c_sent c) rest c) with
          | Returns _ c' => Some c'
          | Crash _ => None
          end
      end
  | LoopBack h =>
      match handleLoopBack sigService h c with
      | Returns _ c' => Some c'
      | Crash _ => None
      end
  | Deliver m => Some (set_c_out (c_sent c) (c_recvCh c ++ [m]) c)
  | Thread i =>
      match c_threads c !! i with
      | None => None
      | Some (k, t) =>
          match c_SPbInstances c !! k with
          | None => None
          | Some s =>
              match spb_step Name committee sigService t s with
              | Crash _ => None
              | Returns (ts, es) s' =>
                  Some (emit es (set_c_spb (<[k := s']> (c_SPbInstances c))
                    (take i (c_threads c) ++ map (pair k) ts ++ drop (S i) (c_threads c)) c))
              end
          end
      end
  end.

Fixpoint node_play (mvs : list node_move) (c : Core) : option Core :=
  match mvs with
  | [] => Some c
  | mv :: mvs => node_play_move mv c ≫= node_play mvs
  end.

Lemma node_play_move_step mv c c' :
  node_play_move mv c = Some c' → node_step Name committee parameters sigService c c'.
Proof.
  destruct mv as [|h|m|i]; simpl.
  - destruct (c_recvCh c) as [|msg rest] eqn:Hq; [done|].
    destruct (Core_receive _ _ _ _ _ _) as [r c1|] eqn:Hr; [|done]. intros [= <-].
    by eapply node_receive.
  - destruct (handleLoopBack _ _ _) as [r c1|] eqn:Hr; [|done]. intros [= <-].
    by eapply node_loopback.
  - intros [= <-]. apply node_deliver.
  - destruct (c_threads c !! i) as [[k t]|] eqn:Ht; [|done].
    destruct (c_SPbInstances c !! k) as [s|] eqn:Hs; [|done].
    destruct (spb_step _ _ _ _ _) as [[ts es] s'|] eqn:Hstep; [|done]. intros [= <-].
    eapply node_thread; [|done|done]. symmetry. by apply take_drop_middle.
Qed.

Lemma node_play_steps mvs c c' :
  node_play mvs c = Some c' → rtc (node_step Name committee parameters sigService) c c'.
Proof.
  revert c. induction mvs as [|mv mvs IH]; simpl; intros c Hp; [by simplify_eq|].
  apply bind_Some in Hp as (c1 & H1 & H2).
  eapply rtc_l; [by eapply node_play_move_step|by apply IH].
Qed.
End play.

(** Node 0 of the committee, after its first proposal *)
Definition node0_mempool : Mempool := NewMempool sample_store (NewPool DefaultPoolParameters 4 0).
Definition node0_new : Core := NewCore committee4 (sample_svc 0 4 3) sample_store node0_mempool.

Definition node0_started : Core :=
  match Core_start 0 DefaultParameters (sample_svc 0 4 3) node0_new with
  | Returns _ c => c
  | Crash _ => node0_new
  end.

(** Its state after some moves, or the first one if they are not possible *)
Definition node0_after (mvs : list node_move) : Core :=
  default node0_started
    (node_play 0 committee4 DefaultParameters (sample_svc 0 4 3) mvs node0_started).

Lemma node0_reachable mvs :
  node_reachable 0 committee4 DefaultParameters (sample_svc 0 4 3) sample_store node0_mempool
    (node0_after mvs).
Proof.
  exists node0_started. split.
  { assert (match Core_start 0 DefaultParameters (sample_svc 0 4 3) node0_new with
            | Returns _ _ => true | Crash _ => false end = true) as Hret by by vm_compute.
    unfold node0_started. by destruct (Core_start _ _ _ _) as [[] c|]. }
  unfold node0_after.
  destruct (node_play _ _ _ _ mvs node0_started) as [c|] eqn:Hp; simpl; [|done].
  by eapply node_play_steps.
Qed.

(** The first block of node 0, and a halt of node 1 for it *)
Definition node0_block : ConsensusBlock :=
  match c_recvCh node0_started with
  | MSPBProposal p :: _ => default (mkConsensusBlock 0 [] 0) (sp_B p)
  | _ => mkConsensusBlock 0 [] 0
  end.

Definition halt0 : Halt :=
  match NewHalt 1 0 (ConsensusBlock_Hash node0_block) 0 0 (sample_svc 1 4 3) with
  | Ok h => h
  | Err _ => mkHalt 1 0 0 0 [] []
  end.

(** Node 0 has handled its own proposal and then the halt. *)
Definition node0_halted : Core := node0_after [Turn; Deliver (MHalt halt0); Turn].
