(* ===== verification/Witnesses.v ===== *)
(** * The theorems at work

    Each theorem with hypotheses is applied here to a concrete run of the sample
    node, or of one of its components, in which the hypotheses hold. *)

From stdpp Require Import base gmap list strings.
From S2P Require Import Prelude Committee Crypto SampleLib Message VoteLog Aggreator Elector.
From S2P Require Import Commitor Pool Store Synchronizer Port Mempool Report Spb.
From S2P Require Import Core Errors Typing Network SampleWorld Coin.

(** ** Runs *)

(** A broadcast instance of node 0 after some moves *)
Definition spb0_after (ms : list move) : sys :=
  default (initial 0 0 0) (play 0 committee4 (sample_svc 0 4 3) ms (initial 0 0 0)).

Lemma spb0_reachable ms : reachable 0 committee4 (sample_svc 0 4 3) 0 0 0 (spb0_after ms).
Proof.
  unfold spb0_after.
  destruct (play _ _ _ ms _) as [y|] eqn:Hp; simpl; [by eapply play_reachable|apply rtc_refl].
Qed.

(** The proposal, then three votes of each phase, each run to its end *)
Definition spb0_moves : list move :=
  [GetProposal (sample_proposal []); Run 0; Run 0; Run 0; Run 0] ++
  concat (map (λ v, [GetVote v; Run 0; Run 0; Run 0])
    [sample_vote 0 0; sample_vote 1 0; sample_vote 2 0;
     sample_vote 0 1; sample_vote 1 1; sample_vote 3 1]).

Lemma node0_halted_reachable :
  node_reachable 0 committee4 DefaultParameters (sample_svc 0 4 3) sample_store
    node0_mempool node0_halted.
Proof. apply node0_reachable. Qed.

Lemma committee4_keys : keys_ok committee4 (sample_svc 0 4 3).
Proof.
  split; [|done]. intros id Hid.
  assert (set_Forall (λ id, length (Committee_Name committee4 id) = 32%nat)
    (members committee4)) as Hall by (apply (bool_decide_unpack _); by vm_compute).
  by apply Hall.
Qed.

(** ** Core and broadcast *)

Lemma node_runs_broadcast_instances_witness :
  ∃ tr ps vs,
    reachable 0 committee4 (sample_svc 0 4 3) 0 0 0 (view (0, 0, 0) node0_halted tr ps vs) ∧
    (SPB_IsLock (spb_of (0, 0, 0) node0_halted) = true →
     ∃ h, SPB_GetBlockHash (spb_of (0, 0, 0) node0_halted) = Some h ∧
          seen_hash ps (spb_Proposer (spb_of (0, 0, 0) node0_halted)) h).
Proof.
  exact (node_runs_broadcast_instances (P := port0) 0 committee4 DefaultParameters (sample_svc 0 4 3)
    sample_store node0_mempool node0_halted (0, 0, 0) node0_halted_reachable).
Defined.

Lemma spb_announces_once_witness :
  (∃ m, announcements SPB_TWO_PHASE (sys_trace (spb0_after spb0_moves)) = [Send 0 NONE m; Enqueue m]) ∧
  3 <= Z.of_nat (countb (in_phase SPB_TWO_PHASE) (sys_votes (spb0_after spb0_moves))).
Proof.
  destruct (spb_announces_once 0 committee4 (sample_svc 0 4 3) 0 0 0
    (spb0_after spb0_moves) SPB_TWO_PHASE (spb0_reachable _) (or_intror eq_refl))
    as (Hone & Hq & _).
  assert (announcements SPB_TWO_PHASE (sys_trace (spb0_after spb0_moves)) ≠ []) as Hne.
  { intros H. vm_compute in H. discriminate H. }
  split; [destruct Hone as [He|Hm]; [destruct (Hne He)|exact Hm]|].
  specialize (Hq Hne). assert (Committee_HightThreshold committee4 = 3) as Ht by (vm_compute; reflexivity).
  rewrite Ht in Hq. exact Hq.
Defined.

Lemma spb_messages_justified_witness :
  (∀ e, e ∈ sys_trace (spb0_after spb0_moves) →
     justified 0 committee4 (sys_proposals (spb0_after spb0_moves))
       (sys_spb (spb0_after spb0_moves)) (effect_msg e)) ∧
  sys_trace (spb0_after spb0_moves) ≠ [].
Proof.
  split; [|by vm_compute].
  exact (proj1 (spb_messages_justified 0 committee4 (sample_svc 0 4 3) 0 0 0
    (spb0_after spb0_moves) (spb0_reachable _))).
Defined.

Lemma spb_goroutines_finish_witness :
  length (sys_threads (spb0_after [GetProposal (sample_proposal [])])) = 1%nat ∧
  ∀ k y', nsteps (thread_step 0 committee4 (sample_svc 0 4 3)) k
    (spb0_after [GetProposal (sample_proposal [])]) y' → (k <= 6)%nat.
Proof.
  split; [by vm_compute|].
  exact (proj2 (spb_goroutines_finish 0 committee4 (sample_svc 0 4 3) 0 0 0
    (spb0_after [GetProposal (sample_proposal [])]) (spb0_reachable _))).
Defined.

Lemma core_never_panics_witness :
  ∃ r c', Core_receive 0 committee4 DefaultParameters (sample_svc 0 4 3)
            (MHalt halt0) node0_halted = Returns r c'.
Proof.
  apply (proj1 (core_never_panics (P := port0) 0 committee4 DefaultParameters (sample_svc 0 4 3)
    sample_store node0_mempool node0_halted node0_halted_reachable committee4_keys
    ltac:(by vm_compute))).
  split; [|done]. apply (bool_decide_unpack _). by vm_compute.
Defined.

Lemma committed_blocks_complete_witness :
  node0_block ∈ cm_committed (c_Commitor node0_halted) ∧
  ∀ d, d ∈ cb_PayLoads node0_block → readable (c_Store node0_halted) d.
Proof.
  assert (node0_block ∈ cm_committed (c_Commitor node0_halted)) as Hb
    by (apply (bool_decide_unpack _); by vm_compute).
  split; [exact Hb|].
  exact (committed_blocks_complete (P := port0) 0 committee4 DefaultParameters (sample_svc 0 4 3)
    sample_store node0_mempool node0_halted node0_block node0_halted_reachable Hb).
Defined.

Lemma node0_started_halted :
  rtc (node_step 0 committee4 DefaultParameters (sample_svc 0 4 3))
    (node0_after []) node0_halted.
Proof.
  unfold node0_halted, node0_after at 2.
  destruct (node_play _ _ _ _ [Turn; Deliver (MHalt halt0); Turn] node0_started)
    as [c|] eqn:Hp; simpl; [|apply rtc_refl]. by eapply node_play_steps.
Qed.

Lemma node_progress_monotone_witness :
  cm_committed (c_Commitor (node0_after [])) `prefix_of` cm_committed (c_Commitor node0_halted) ∧
  cm_committed (c_Commitor node0_halted) = [node0_block].
Proof.
  split; [|by vm_compute].
  apply (node_progress_monotone (P := port0) 0 committee4 DefaultParameters (sample_svc 0 4 3)
    sample_store node0_mempool (node0_after []) node0_halted (node0_reachable [])
    node0_started_halted).
Defined.

(** Finish messages of nodes 1 to 3 for their own blocks *)
Definition finish_of (i : Z) : Message :=
  match NewFinish i (sample_hash [i]) 0 0 (sample_svc i 4 3) with
  | Ok f => MFinish f
  | Err _ => MHalt halt0
  end.

Definition node0_done : Core :=
  node0_after [Turn; Deliver (finish_of 1); Deliver (finish_of 2); Deliver (finish_of 3);
    Turn; Turn; Turn].

Lemma done_and_share_sent_once_witness :
  countb (is_done (0, 0)) (c_sent node0_done) = 1%nat ∧
  countb (is_share (0, 0)) (c_sent node0_done) = 1%nat.
Proof.
  destruct (done_and_share_sent_once (P := port0) 0 committee4 DefaultParameters (sample_svc 0 4 3)
    sample_store node0_mempool node0_done (0, 0) (node0_reachable _)) as [-> ->].
  split; by vm_compute.
Defined.

(** Done messages and coin shares of the others: the round is ready and has a
    leader. *)
Definition done_of (i : Z) : Message :=
  match NewDone i 0 0 (sample_svc i 4 3) with Ok d => MDone d | Err _ => MHalt halt0 end.
Definition share_of (i : Z) : Message :=
  match NewElectShare i 0 0 (sample_svc i 4 3) with
  | Ok s => MElectShare s
  | Err _ => MHalt halt0
  end.

Definition node0_ready : Core :=
  node0_after [Turn; Deliver (done_of 1); Deliver (done_of 2); Deliver (done_of 3);
    Turn; Turn; Turn; Turn; Turn; Deliver (share_of 1); Deliver (share_of 2); Turn; Turn].

Lemma leader_vote_sent_witness :
  ∃ c' m, processLeader 0 (sample_svc 0 4 3) 0 0 node0_ready = Returns (Ok tt) c' ∧
    leader_vote 0 (sample_svc 0 4 3) node0_ready 0 0 m ∧
    c_sent c' = c_sent node0_ready ++ [Send 0 NONE m].
Proof.
  destruct (leader_vote_sent (P := port0) 0 committee4 DefaultParameters (sample_svc 0 4 3)
    sample_store node0_mempool node0_ready 0 0 (node0_reachable _)) as (c' & Hrun & Hc).
  rewrite decide_True in Hc; [|apply (bool_decide_unpack _); by vm_compute].
  destruct Hc as (m & Hm & Hs & _). exists c', m.
  split; [exact Hrun|]. split; [exact Hm|exact Hs].
Defined.

(** The node has stored its own block. *)
Lemma halt_decides_witness :
  ∃ c' p, Core_receive 0 committee4 DefaultParameters (sample_svc 0 4 3) (MHalt halt0)
            (node0_after [Turn]) = Returns (Ok tt) c' ∧
    c_Epoch c' = 1 ∧ c_Commitor c' = Committor_Commit NewCommittor node0_block ∧
    c_recvCh c' = [MSPBProposal p] ∧ sp_Epoch p = 1.
Proof.
  destruct (halt_decides (P := port0) 0 committee4 DefaultParameters (sample_svc 0 4 3) halt0
    [Z.pos (countable.encode node0_block)] node0_block (node0_after [Turn]))
    as (c' & p & Hrun & He & _ & _ & Hc & _ & Hrecv & _ & Hep & _).
  - by vm_compute.
  - by vm_compute.
  - by vm_compute.
  - apply (bool_decide_unpack _). by vm_compute.
  - by vm_compute.
  - by vm_compute.
  - apply forall_readable. by vm_compute.
  - exists c', p. split; [exact Hrun|]. split; [exact He|]. split; [exact Hc|].
    split; [exact Hrecv|exact Hep].
Defined.

(** Epoch 5 is over and node 1 was its leader. *)
Definition node0_late : Core :=
  set_c_HaltFlags {[5]} (set_c_Epoch 6
    (set_c_Elector (Elector_SetLeader (c_Elector node0_started) 5 0 1) node0_started)).

Definition late_block : ConsensusBlock := NewConsensusBlock 1 [] 0.

Definition late_proposal : SPBProposal :=
  match NewSPBProposal 1 (Some late_block) 5 0 SPB_ONE_PHASE (sample_svc 1 4 3) with
  | Ok p => p
  | Err _ => mkSPBProposal 1 None 5 0 SPB_ONE_PHASE []
  end.

Lemma late_proposal_commits_witness :
  ∃ c', Core_receive 0 committee4 DefaultParameters (sample_svc 0 4 3)
          (MSPBProposal late_proposal) node0_late = Returns (Ok tt) c' ∧
    late_block ∈ cm_committed (c_Commitor c').
Proof.
  destruct (late_proposal_commits (P := port0) 0 committee4 DefaultParameters
    (sample_svc 0 4 3) late_proposal late_block node0_late) as (c' & Hrun & _ & Hc).
  - by vm_compute.
  - by vm_compute.
  - by vm_compute.
  - apply (bool_decide_unpack _). by vm_compute.
  - by vm_compute.
  - by vm_compute.
  - apply forall_readable. by vm_compute.
  - exists c'. split; [exact Hrun|]. exact (Hc ltac:(by vm_compute)).
Defined.

(** A serial run: a message arrives only while no goroutine runs. *)
Definition may_move (m : move) (y : sys) : bool :=
  match m, sys_threads y with Run _, _ => true | _, [] => true | _, _ => false end.

Fixpoint serial_play (ms : list move) (y : sys) : option sys :=
  match ms with
  | [] => Some y
  | m :: ms =>
      if may_move m y then play_move 0 committee4 (sample_svc 0 4 3) m y ≫= serial_play ms
      else None
  end.

Lemma serial_play_steps ms y y' :
  serial_play ms y = Some y' → rtc (serial_step 0 committee4 (sample_svc 0 4 3)) y y'.
Proof.
  revert y. induction ms as [|m ms IH]; simpl; intros y Hp; [by simplify_eq|].
  destruct (may_move m y) eqn:Hm; [|done]. apply bind_Some in Hp as (y1 & H1 & H2).
  eapply rtc_l; [|by apply IH].
  apply play_move_kind in H1. unfold may_move in Hm.
  destruct m, (sys_threads y) eqn:Ht; try done; by constructor.
Qed.

Definition spb0_serial : sys := default (initial 0 0 0) (serial_play spb0_moves (initial 0 0 0)).

Lemma spb0_serially_reachable :
  serially_reachable 0 committee4 (sample_svc 0 4 3) 0 0 0 spb0_serial.
Proof.
  unfold spb0_serial. destruct (serial_play _ _) eqn:Hp; simpl;
    [by apply serial_play_steps in Hp|apply rtc_refl].
Qed.

Lemma spb_serial_exact_witness :
  votes_of (sys_spb spb0_serial) SPB_TWO_PHASE = 3 ∧
  countb (announces SPB_TWO_PHASE) (sys_trace spb0_serial) = 1%nat.
Proof.
  destruct (spb_serial_exact 0 committee4 (sample_svc 0 4 3) 0 0 0 spb0_serial
    SPB_TWO_PHASE spb0_serially_reachable (or_intror eq_refl)) as (_ & _ & Hv & Ha & _).
  - apply (bool_decide_unpack _). by vm_compute.
  - by vm_compute.
  - rewrite Hv, Ha. split; by vm_compute.
Defined.

(** ** Votes, leaders and logs *)

Definition block_of (e : Z) : ConsensusBlock := NewConsensusBlock e [] e.

Lemma committed_iff_contiguous_witness :
  1 < cm_Index (commits [block_of 1; block_of 0; block_of 3]) ↔
  ∀ j, 0 <= j <= 1 → ∃ b, b ∈ [block_of 1; block_of 0; block_of 3] ∧ cb_Epoch b = j.
Proof. exact (committed_iff_contiguous [block_of 1; block_of 0; block_of 3] 1 ltac:(lia)). Defined.

Lemma committed_logs_agree_witness :
  cm_committed (commits [block_of 1; block_of 0]) `prefix_of`
    cm_committed (commits [block_of 0; block_of 3]) ∨
  cm_committed (commits [block_of 0; block_of 3]) `prefix_of`
    cm_committed (commits [block_of 1; block_of 0]).
Proof.
  apply (committed_logs_agree [block_of 1; block_of 0] [block_of 0; block_of 3]).
  intros b1 b2 H1 H2. repeat (apply elem_of_cons in H1 as [->|H1]);
    repeat (apply elem_of_cons in H2 as [->|H2]); try done;
    by apply not_elem_of_nil in H1 || by apply not_elem_of_nil in H2.
Defined.

Definition vote_of (a flag : Z) : FinVote := mkFinVote a 0 0 0 flag zero_Digest [].

(** Nodes 0 and 3 give contrary votes. *)
Lemma contrary_verdicts_need_contrary_votes_witness :
  ∃ S : gset NodeID, S ⊆ members committee4 ∧ max_faults committee4 + 1 <= Z.of_nat (size S) ∧
    max_faults committee4 = 1.
Proof.
  destruct (contrary_verdicts_need_contrary_votes committee4
    [vote_of 0 VOTE_FLAG_YES; vote_of 1 VOTE_FLAG_YES; vote_of 3 VOTE_FLAG_YES]
    [vote_of 3 VOTE_FLAG_NO; vote_of 0 VOTE_FLAG_NO; vote_of 2 VOTE_FLAG_NO]) as (S & Hm & Hs & _).
  - by vm_compute.
  - apply Forall_forall. apply (bool_decide_unpack _). by vm_compute.
  - apply (bool_decide_unpack _). by vm_compute.
  - apply (bool_decide_unpack _). by vm_compute.
  - exists S. split; [exact Hm|split; [exact Hs|by vm_compute]].
Defined.

Definition shares_of (ids : list Z) : list ElectShare :=
  omap (λ i, match NewElectShare i 0 0 (sample_svc i 4 3) with Ok s => Some s | Err _ => None end)
    ids.

Lemma leader_election_witness :
  ∃ nodes el, AddShareVotes (NewElector (sample_svc 0 4 3) committee4)
                (shares_of [1; 1; 3; 0; 2]) = Returns nodes el ∧
    (Elector_Leader el 0 0).1 =
      default NONE (elected committee4 (sample_svc 0 4 3) 0 0 (shares_of [1; 1; 3; 0; 2])).
Proof.
  destruct (leader_election committee4 (sample_svc 0 4 3) 0 0 (shares_of [1; 1; 3; 0; 2]))
    as (nodes & el & Hrun & _ & Hl & _).
  - by vm_compute.
  - repeat constructor.
  - exists nodes, el. split; [exact Hrun|exact Hl].
Defined.

Lemma same_leader_witness :
  ∃ l1 l2, elected committee4 (sample_svc 0 4 3) 0 0 (shares_of [0; 1; 2]) = Some l1 ∧
    elected committee4 (sample_svc 3 4 3) 0 0 (shares_of [3; 1; 2; 0]) = Some l2 ∧ l1 = l2.
Proof.
  destruct (elected committee4 (sample_svc 0 4 3) 0 0 (shares_of [0; 1; 2])) as [l1|] eqn:H1;
    [|by vm_compute in H1].
  destruct (elected committee4 (sample_svc 3 4 3) 0 0 (shares_of [3; 1; 2; 0]))
    as [l2|] eqn:H2; [|by vm_compute in H2].
  exists l1, l2. split; [done|]. split; [done|].
  exact (same_leader committee4 (sample_svc 0 4 3) (sample_svc 3 4 3) 0 0 _ _ l1 l2
    eq_refl ltac:(by vm_compute) ltac:(by vm_compute) H1 H2).
Defined.

(** Polynomials whose shares are numbered *)
#[export] Instance samplePoly : KyberPoly (CL := sampleLib) := {|
  Random := unit;
  Secret := unit;
  PriPoly := unit;
  scalar_Pick := λ _, tt;
  NewPriPoly := λ _ _ _, tt;
  poly_Commit := λ _, tt;
  poly_Shares := λ _ n, map Z.of_nat (seq 0 (Z.to_nat n))
|}.

#[export] Instance samplePoly_laws : KyberPolyLaws (KP := samplePoly).
Proof.
  split.
  - intros t s r Ht. simpl. lia.
  - intros p n. simpl. by rewrite length_map, length_seq.
  - intros t s r n d holders sigs p _ _ _ Hs. simpl. unfold sample_Recover.
    assert (forallb (λ s, match s with i :: m => bool_decide (m = d) | [] => false end) sigs = true)
      as ->; [|done].
    induction Hs as [|i sig hs sigs (share & _ & [= <-]) _ IH]; [done|]. simpl.
    by rewrite bool_decide_eq_true_2.
Qed.

Lemma sample_dealt (i : nat) : (i < 4)%nat → dealt committee4 tt tt i (sample_svc (Z.of_nat i) 4 3).
Proof.
  intros Hi. exists (Z.of_nat i). split; [|done].
  do 4 (destruct i as [|i]; [reflexivity|]). lia.
Qed.

Lemma sample_honest ids :
  Forall (λ i, (i < 4)%nat) ids → Forall (honest_share committee4 tt tt 0 0) (shares_of (map Z.of_nat ids)).
Proof.
  induction 1 as [|i ids Hi _ IH]; [apply Forall_nil_2|]. apply Forall_cons_2; [|exact IH].
  exists i, (sample_svc (Z.of_nat i) 4 3). split; [by apply sample_dealt|reflexivity].
Qed.

Lemma quorum_elects_leader_witness :
  ∃ ld nodes nodes' el el',
    AddShareVotes (NewElector (sample_svc 0 4 3) committee4) (shares_of [1; 1; 3; 0; 2]) =
      Returns nodes el ∧
    AddShareVotes (NewElector (sample_svc 3 4 3) committee4) (shares_of [3; 1; 2]) =
      Returns nodes' el' ∧
    (Elector_Leader el 0 0).1 = ld ∧ (Elector_Leader el' 0 0).1 = ld.
Proof.
  destruct (quorum_elects_leader (KP := samplePoly) committee4 tt tt 0 0 0 (sample_svc 0 4 3) (shares_of [1; 1; 3; 0; 2])
    3 (sample_svc 3 4 3) (shares_of [3; 1; 2])) as (ld & _ & Hall).
  - by vm_compute.
  - apply (sample_dealt 0). lia.
  - apply (sample_dealt 3). lia.
  - apply (sample_honest [1; 1; 3; 0; 2]%nat). repeat constructor.
  - apply (sample_honest [3; 1; 2]%nat). repeat constructor.
  - apply (bool_decide_unpack _). by vm_compute.
  - apply (bool_decide_unpack _). by vm_compute.
  - destruct (Hall _ _ (list_elem_of_here _ _)) as (nodes & el & H1 & _ & H2).
    destruct (Hall _ _ (list_elem_of_further _ _ _ (list_elem_of_here _ _)))
      as (nodes' & el' & H3 & _ & H4).
    exists ld, nodes, nodes', el, el'. split; [exact H1|]. split; [exact H3|]. split; [exact H2|exact H4].
Defined.

(** ** Mempool, synchronizer, store and pool *)

Definition block1 : Block :=
  match NewBlock 1 (mkBatch 1 [[7]]) (sample_svc 1 4 3) with
  | Ok b => b
  | Err _ => mkBlock 1 (mkBatch 1 [[7]]) []
  end.

(** Node 0's mempool after it has received a block of node 1, while the core has stored a
    consensus block *)
Definition shared0 : list shared_event :=
  [MempoolTurn (Receive (OtherBlockMsg (Some block1))); CoreWrite (ConsensusBlock_Hash node0_block) [1]].

Definition mempool0 : Mempool :=
  match shared_run 0 committee4 DefaultParameters (sample_svc 0 4 3) shared0 node0_mempool with
  | Returns _ m => m
  | Crash _ => node0_mempool
  end.

Lemma mempool0_run :
  shared_run 0 committee4 DefaultParameters (sample_svc 0 4 3) shared0 node0_mempool =
  Returns tt mempool0.
Proof.
  assert (match shared_run 0 committee4 DefaultParameters (sample_svc 0 4 3) shared0 node0_mempool with
          | Returns _ _ => true | Crash _ => false end = true) as Hr by by vm_compute.
  unfold mempool0. by destruct (shared_run _ _ _ _ _ _) as [[]|].
Qed.

Definition order0 : list Digest := elements (mp_Queue mempool0).

Lemma make_block_payloads_witness :
  ∃ ds m', HandleMakeBlockMsg 0 DefaultParameters (sample_svc 0 4 3) order0 10 mempool0 =
             Returns (Ok ds) m' ∧ NoDup ds.
Proof.
  destruct (make_block_payloads 0 committee4 DefaultParameters (sample_svc 0 4 3)
    sample_store (NewPool DefaultPoolParameters 4 0) shared0 mempool0 order0 10 ltac:(by vm_compute)
    mempool0_run (reflexivity _)) as (_ & _ & ds & m' & Hrun & Hnd & _).
  exists ds, m'. split; [exact Hrun|exact Hnd].
Defined.

(** The digest of node 1's block goes into node 0's consensus block. *)
Definition made0 : list Digest * Mempool :=
  match HandleMakeBlockMsg 0 DefaultParameters (sample_svc 0 4 3) order0 10 mempool0 with
  | Returns (Ok ds) m => (ds, m)
  | _ => ([], mempool0)
  end.

Lemma made0_run :
  HandleMakeBlockMsg 0 DefaultParameters (sample_svc 0 4 3) order0 10 mempool0 =
  Returns (Ok made0.1) made0.2.
Proof.
  assert (match HandleMakeBlockMsg 0 DefaultParameters (sample_svc 0 4 3) order0 10 mempool0 with
          | Returns (Ok _) _ => true | _ => false end = true) as Hr by by vm_compute.
  unfold made0. by destruct (HandleMakeBlockMsg _ _ _ _ _ _) as [[]|].
Qed.

Lemma proposed_payloads_served_witness :
  ∃ bs m3, HandleRequestBlock (mkRequestBlockMsg 0 made0.1 2) made0.2 = Returns (Ok tt) m3 ∧
    map Block_Hash bs = [Block_Hash block1].
Proof.
  destruct (proposed_payloads_served 0 committee4 DefaultParameters (sample_svc 0 4 3)
    sample_store (NewPool DefaultPoolParameters 4 0) shared0 mempool0 order0 10 made0.1 made0.2 []
    made0.2 2 ltac:(by vm_compute) mempool0_run (reflexivity _) made0_run eq_refl)
    as (bs & m3 & Hrun & Hbs & _).
  { apply Forall_forall. apply (bool_decide_unpack _). by vm_compute. }
  exists bs, m3. split; [exact Hrun|]. rewrite Hbs. by vm_compute.
Defined.

Lemma other_block_received_witness :
  ∃ r m', HandleOthorBlock 0 committee4 DefaultParameters (Some block1) node0_mempool =
            Returns r m' ∧ readable (mp_Store m') (Block_Hash block1).
Proof.
  destruct (HandleOthorBlock 0 committee4 DefaultParameters (Some block1) node0_mempool)
    as [r m'|] eqn:Hrun.
  - pose proof (other_block_received 0 committee4 DefaultParameters block1 node0_mempool
      r m' Hrun) as Hspec.
    rewrite decide_True in Hspec; [|apply (bool_decide_unpack _); by vm_compute].
    exists r, m'. split; [done|]. exact (proj1 (proj2 (proj2 Hspec))).
  - exfalso. assert (match HandleOthorBlock 0 committee4 DefaultParameters (Some block1)
      node0_mempool with Returns _ _ => true | Crash _ => false end = true) as Hr
      by by vm_compute. by rewrite Hrun in Hr.
Defined.

(** A consensus block with a payload that has to be fetched from node 1 *)
Definition request0 : SyncBlockMsg := mkSyncBlockMsg [[1]] 1 0 [2].

Definition sync0 : syncState := handle_SyncBlock 0 0 request0 NewSynchronizer.

(** The request was taken and the payload has arrived. *)
Definition syncsys0 : syncSys :=
  mkSyncSys (Store_Write sample_store [1] [9]).2 [] sync0 [request0].

Lemma syncsys0_reachable : sync_reachable 0 DefaultParameters sample_store syncsys0.
Proof.
  eapply rtc_l; [apply (env_inter 0 DefaultParameters _ _ _ (SyncBlock request0))|].
  eapply rtc_l; [by apply (loop_inter 0 DefaultParameters _ _ _ 0)|].
  apply rtc_once, env_write.
Qed.

Lemma synchronizer_safe_witness :
  ∃ s', handle_SyncCleanUp 0 sync0 = Returns tt s' ∧
    ∀ h e, sy_pending s' !! h = Some e → 0 < pe_Epoch e.
Proof.
  exact (proj2 (synchronizer_safe 0 DefaultParameters sample_store syncsys0 syncsys0_reachable) 0).
Defined.

Lemma pending_block_completes_witness :
  ∃ y', rtc sync_internal syncsys0 y' ∧ [2] ∈ sy_LoopBackChan (ss_sync y').
Proof.
  apply (pending_block_completes 0 DefaultParameters sample_store syncsys0 [2]
    (mkPending 0 0 0 [[1]] 1) syncsys0_reachable).
  - by vm_compute.
  - by vm_compute.
  - apply Forall_singleton, readable_ok. by vm_compute.
Defined.

Lemma tick_repeats_overdue_witness :
  (NONE, mkRequestBlockMsg 0 [[1]] 0) ∈
    sy_sent (handle_tick 0 DefaultParameters 20000000000 [[2]] sync0).
Proof.
  destruct (tick_repeats_overdue 0 DefaultParameters 20000000000 [[2]] sync0)
    as (_ & Hsent & _).
  - by vm_compute.
  - by vm_compute.
  - apply (Hsent [2] (mkPending 0 0 0 [[1]] 1)); by vm_compute.
Defined.

(** A notification, a write that wakes it, and a read *)
Definition requests0 : list storeReq :=
  [mkStoreReq NOTIFYREAD [1] [] 0; mkStoreReq WRITE [1] [9] 1; mkStoreReq READ [1] [] 2;
   mkStoreReq NOTIFYREAD [5] [] 3].

Lemma store_answers_witness :
  outputs store_step (NewStore (D := sampleDB) ∅) requests0 !! 1%nat =
  Some [mkStoreResp 1 (Ok [9]); mkStoreResp 0 (Ok [9])].
Proof.
  exact (store_answers (D := sampleDB) (λ _, sample_missing) ∅ requests0 1
    (mkStoreReq WRITE [1] [9] 1) (λ k, eq_refl) eq_refl).
Defined.

Lemma store_no_lost_wakeup_witness :
  answered 0 (concat (outputs store_step (NewStore (D := sampleDB) ∅) requests0)) = [Ok [9]].
Proof.
  refine (proj1 (store_no_lost_wakeup (D := sampleDB) (λ _, sample_missing) ∅ []
    (mkStoreReq NOTIFYREAD [1] [] 0)
    [mkStoreReq WRITE [1] [9] 1; mkStoreReq READ [1] [] 2; mkStoreReq NOTIFYREAD [5] [] 3] _ _ _)).
  - done.
  - apply (bool_decide_unpack _). by vm_compute.
  - done.
Defined.

Lemma pool_batches_stream_witness :
  ∃ q, txQueue_run [[1]; [2]; [3]; [4]; [5]] (newTxQueue 3 2 4 1) = Returns tt q ∧
    tq_batchChannel q = batches 2 4 1 2 [[1]; [2]; [3]; [4]; [5]].
Proof.
  destruct (pool_batches_stream 3 2 4 1 [[1]; [2]; [3]; [4]; [5]]) as (q & Hrun & Hb & _);
    [lia|].
  exists q. split; [exact Hrun|exact Hb].
Defined.

(** ** Messages and keys *)

Lemma built_messages_verify_witness : Verify committee4 (MHalt halt0) = Some true.
Proof.
  apply (built_messages_verify committee4 (sample_svc 1 4 3) 1).
  - exact (sample_keypair 1).
  - by apply (built_Halt _ _ 0 (ConsensusBlock_Hash node0_block) 0 0).
Defined.

Lemma key_hex_round_trip_witness :
  DecodePublicKey (EncodePublicKey (sample_pub 3)) = Ok (sample_pub 3).
Proof.
  apply (key_hex_round_trip (sample_pub 3)). unfold is_byte. by repeat constructor.
Defined.

Definition prevote_of (flag : Z) (d : Digest) : Prevote := mkPrevote 1 2 0 0 flag d [].

Lemma vote_digest_binds_witness :
  SPBVote_Hash (sample_vote 1 0) = SPBVote_Hash (sample_vote 1 1) →
  (sv_Phase (sample_vote 1 0) = sv_Phase (sample_vote 1 1) ∧
   sv_BlockHash (sample_vote 1 0) = sv_BlockHash (sample_vote 1 1)) ∨
  collide (spbvote_text (sample_vote 1 0)) (spbvote_text (sample_vote 1 1)).
Proof.
  apply (vote_digest_binds (prevote_of 0 zero_Digest) (prevote_of 1 zero_Digest)
    (sample_vote 1 0) (sample_vote 1 1)); done.
Defined.

Lemma stale_messages_ignored_witness :
  ∃ r, Core_receive 0 committee4 DefaultParameters (sample_svc 0 4 3) (MHalt halt0)
         node0_halted = Returns r node0_halted.
Proof.
  destruct (Core_receive 0 committee4 DefaultParameters (sample_svc 0 4 3) (MHalt halt0)
    node0_halted) as [r c'|] eqn:Hrun.
  - exists r. f_equal.
    apply (stale_messages_ignored 0 committee4 DefaultParameters (sample_svc 0 4 3)
      (MHalt halt0) node0_halted r c').
    + by vm_compute.
    + done.
    + exact Hrun.
  - exfalso. assert (match Core_receive 0 committee4 DefaultParameters (sample_svc 0 4 3)
      (MHalt halt0) node0_halted with Returns _ _ => true | Crash _ => false end = true) as Hr
      by by vm_compute. by rewrite Hrun in Hr.
Defined.

(** ** Network and reports *)

(** Three members with addresses of their own *)
Definition committee3 : Committee :=
  mkCommittee (list_to_map
    [(0, mkAuthority [0] 0 "a:1" "a:2"); (1, mkAuthority [1] 1 "b:1" "b:2");
     (2, mkAuthority [2] 2 "c:1" "c:2")]).

Lemma committee3_addresses i j a b :
  Authorities committee3 !! i = Some a → Authorities committee3 !! j = Some b →
  au_Addr a = au_Addr b → i = j.
Proof.
  intros Hi%elem_of_list_to_map_2 Hj%elem_of_list_to_map_2. revert Hi Hj.
  rewrite !elem_of_cons, !elem_of_nil.
  intros [[= -> ->]|[[= -> ->]|[[= -> ->]|[]]]] [[= -> ->]|[[= -> ->]|[[= -> ->]|[]]]]; done.
Qed.

Definition sends0 : list (NodeID * Message) :=
  [(NONE, MHalt halt0); (2, MSPBVote (sample_vote 1 0)); (1, MSPBVote (sample_vote 1 1))].

Lemma sent_messages_arrive_witness :
  ∃ stream msgs,
    write_all MsgType encode_Message (conn_of
      (Sender_Run (λ _ _, true) (map (λ s, Transmitor_Send committee3 0 s.1 s.2) sends0)) "b:1")
      [] = Returns tt stream ∧
    serveConn DefaultMessageTypeMap (S (length stream)) stream = Returns msgs [] ∧
    Transmitor_route Module_ msgs = [MHalt halt0; MSPBVote (sample_vote 1 1)].
Proof.
  apply (sent_messages_arrive committee3 (λ _ _, true) 0 1 (mkAuthority [1] 1 "b:1" "b:2") sends0).
  - exact committee3_addresses.
  - done.
  - done.
  - done.
  - repeat constructor; (by left) || (right; apply (bool_decide_unpack _); by vm_compute).
Defined.

Lemma sender_keeps_order_witness :
  se_conns (Sender_Run (λ n _, bool_decide (n = 1%nat))
    ([mkNetMessage 1 ["x"]; mkNetMessage 2 ["x"]] ++ [mkNetMessage 3 ["y"; "x"]])) !! "x" =
  Some ([2] ++ [3]).
Proof.
  exact (proj2 (sender_keeps_order (λ n _, bool_decide (n = 1%nat))
    [mkNetMessage 1 ["x"]; mkNetMessage 2 ["x"]] [mkNetMessage 3 ["y"; "x"]] "x" [2] eq_refl)).
Defined.

(** A consensus block of epoch 0 whose payload is node 1's block *)
Definition decided0 : ConsensusBlock := mkConsensusBlock 1 [Block_Hash block1] 0.

Lemma committed_blocks_reported_witness :
  ∃ r, Committor_run (mp_Store mempool0) (cm_committed (commits [decided0])) (mkReporter [] 0) =
         Returns tt r ∧
       re_log r = [CommitBlock 1 1; CommitConsensusBlock 0 1] ∧ re_callBack r = 1%nat.
Proof.
  destruct (committed_blocks_reported (mp_Store mempool0) [decided0]) as (r & Hr & Hl & Hn & _).
  - repeat constructor. exists block1. by split; vm_compute.
  - exists r. split_and!; [exact Hr|rewrite Hl; by vm_compute|rewrite Hn; by vm_compute].
Defined.

(** ** Types, errors and bounds of the node *)

Lemma epoch_bounds_witness : c_Epoch node0_halted = 1 ∧ 0 <= c_Epoch node0_halted < 2 ^ 63.
Proof.
  split; [by vm_compute|].
  exact (proj1 (epoch_bounds (P := port0) 0 committee4 DefaultParameters (sample_svc 0 4 3)
    sample_store node0_mempool node0_halted node0_halted_reachable)).
Defined.

Lemma node_well_typed_witness :
  is_Some (c_SPbInstances node0_halted !! (0, 0, 0)) ∧
  ∀ s, c_SPbInstances node0_halted !! (0, 0, 0) = Some s → instance_at (0, 0, 0) s.
Proof.
  split; [apply (bool_decide_unpack _); by vm_compute|].
  exact (proj1 (node_well_typed (P := port0) 0 committee4 DefaultParameters (sample_svc 0 4 3)
    sample_store node0_mempool node0_halted node0_halted_reachable) (0, 0, 0)).
Defined.

(** The first message that node 0 has sent *)
Definition sent0 : Message :=
  match c_sent node0_halted with Send _ _ m :: _ => m | _ => MHalt halt0 end.

Lemma sent_messages_verify_witness :
  msg_Author sent0 = 0 ∧ Verify committee4 sent0 = Some true.
Proof.
  apply (sent_messages_verify (P := port0) 0 committee4 DefaultParameters (sample_svc 0 4 3)
    sample_store node0_mempool node0_halted 0 NONE sent0 node0_halted_reachable
    (sample_keypair 0)).
  apply (bool_decide_unpack _). by vm_compute.
Defined.

(** A second finish message of node 1 *)
Lemma receive_errors_witness :
  ∃ e c', Core_receive 0 committee4 DefaultParameters (sample_svc 0 4 3) (finish_of 1)
            node0_done = Returns (Err e) c' ∧ quiet node0_done c'.
Proof.
  destruct (Core_receive 0 committee4 DefaultParameters (sample_svc 0 4 3) (finish_of 1)
    node0_done) as [[[]|e] c'|] eqn:Hrun.
  2: { exists e, c'. split; [done|].
       exact (proj1 (receive_errors 0 committee4 DefaultParameters (sample_svc 0 4 3)
         (finish_of 1) node0_done e c' Hrun)). }
  all: exfalso; assert (match Core_receive 0 committee4 DefaultParameters (sample_svc 0 4 3)
         (finish_of 1) node0_done with Returns (Err _) _ => true | _ => false end = true) as Hb
         by (by vm_compute); by rewrite Hrun in Hb.
Defined.

(** Node 0 with a block of node 1 in its store *)
Definition foreign_block : ConsensusBlock := NewConsensusBlock 1 [] 0.
Definition foreign_data : list byte :=
  match gob_Encode foreign_block with Ok data => data | Err _ => [] end.
Definition node0_foreign : Core :=
  set_c_world (Store_Write sample_store [5] foreign_data).2 node0_mempool node0_started.

Lemma reproposed_block_ignored_witness :
  ∃ p c', advanceNextRound 0 DefaultParameters (sample_svc 0 4 3) 0 0 ACTION_YES [5] node0_foreign =
            Returns (Ok tt) c' ∧
    sp_B p = Some foreign_block ∧
    spb_step 2 committee4 (sample_svc 2 4 3) (TProposal p) (NewSPB 0 1 0) =
      Returns ([], []) (NewSPB 0 1 0).
Proof.
  destruct (reproposed_block_ignored (P := port0) 0 committee4 DefaultParameters (sample_svc 0 4 3)
    node0_foreign 0 0 [5] foreign_data foreign_block) as (p & c' & Hrun & _ & Hb & Hr & Hstep).
  - by vm_compute.
  - by vm_compute.
  - by vm_compute.
  - done.
  - exists p, c'. split; [exact Hrun|]. split; [exact Hb|].
    apply Hstep. rewrite Hr. exact (NewSPB_at (0, 1, 0)).
Defined.
