(* ===== verification/NodeWitnesses.v ===== *)
(** * The composed node at work

    Concrete runs of the node of Node.v, to which its theorems are applied. *)

From stdpp Require Import base gmap list strings countable.
From S2P Require Import Prelude Committee Crypto SampleLib Message Commitor Pool Store.
From S2P Require Import Synchronizer Port Mempool Spb Core Node SampleWorld.

(** ** Running the composed node *)

Section play.
Context (Name : NodeID) (committee : Committee) (parameters : Parameters)
  (sigService : SigService) (pick : Mempool → list Digest).

#[local] Instance play_port : MempoolPort := node_port Name parameters sigService pick.
Local Abbreviation node := (Node Name parameters sigService pick).
Local Abbreviation step := (full_step Name committee parameters sigService pick).

Inductive full_move : Type :=
  | FDeliver (m : Message)
  | FTurn
  | FMempool (ev : mempool_event)
  | FInter (now : Z)
  | FWaiterRead
  | FWaiterFinish
  | FWaiting.

Definition run_of {S A} (o : outcome S A) : option S :=
  match o with Returns _ s => Some s | Crash _ => None end.

Definition full_play_move (mv : full_move) (n : node) : option node :=
  let c := nd_core n in
  match mv with
  | FDeliver m => Some (with_core (set_c_out (c_sent c) (c_recvCh c ++ [m]) c) n)
  | FTurn =>
      match c_recvCh c with
      | [] => None
      | m :: rest =>
          c' ← run_of (Core_receive Name committee parameters sigService m (set_c_out (c_sent c) rest c));
          Some (with_core c' n)
      end
  | FMempool ev =>
      if own_event ev then
        m' ← run_of (mempool_handle Name committee parameters sigService ev
                       (mp_set_Store (c_Store c) (core_mempool c)));
        Some (with_core (set_c_world (mp_Store m') m' c) n)
      else None
  | FInter now =>
      match mp_interChan (core_mempool c) !! nd_taken n with
      | None => None
      | Some im =>
          s' ← run_of (handle_interMsg Name now im (nd_sync n));
          Some (mkNode c s' (S (nd_taken n)) (nd_looped n) (nd_requests n ++ request_of im))
      end
  | FWaiterRead =>
      match sy_waiters (nd_sync n) with
      | mkWaiter (d :: ds) h k :: ws =>
          if is_ok (Store_Read (c_Store c) d) then
            Some (with_sync (with_waiters (mkWaiter ds h k :: ws) (sy_waiting (nd_sync n))
              (nd_sync n)) n)
          else None
      | _ => None
      end
  | FWaiterFinish =>
      match sy_waiters (nd_sync n) with
      | mkWaiter [] h k :: ws =>
          Some (with_sync (with_waiters ws (sy_waiting (nd_sync n) ++ [h]) (nd_sync n)) n)
      | _ => None
      end
  | FWaiting =>
      match sy_waiting (nd_sync n) with
      | block :: rest =>
          Some (with_sync (handle_waiting block
            (with_waiters (sy_waiters (nd_sync n)) rest (nd_sync n))) n)
      | [] => None
      end
  end.

Fixpoint full_play (mvs : list full_move) (n : node) : option node :=
  match mvs with
  | [] => Some n
  | mv :: mvs => full_play_move mv n ≫= full_play mvs
  end.

Lemma run_of_Some {S A} (o : outcome S A) s : run_of o = Some s → ∃ a, o = Returns a s.
Proof. destruct o as [a s'|]; [|done]. intros [= ->]. eauto. Qed.

(** The moves of the synchronizer *)
Lemma full_sync_move n s' :
  runs Name parameters →
  sync_internal (sync_view n) (mkSyncSys (ss_store (sync_view n)) (ss_inter (sync_view n)) s'
    (nd_requests n)) →
  step n (with_sync s' n).
Proof. intros Hruns Hs. exact (full_own _ _ _ _ _ _ _ (own_sync _ _ _ _ _ _ _ Hruns Hs)). Qed.

Lemma full_play_move_step mv n n' :
  runs Name parameters → full_play_move mv n = Some n' → step n n'.
Proof.
  intros Hruns. destruct mv as [m| |ev|now| | |]; simpl.
  - intros [= <-]. apply full_deliver.
  - destruct (c_recvCh (nd_core n)) as [|m rest] eqn:Hq; [done|].
    intros (c' & [r Hr]%run_of_Some & [= <-])%bind_Some. by eapply full_own, own_receive.
  - destruct (own_event ev) eqn:Hev; [|done].
    intros (m' & [[] Hr]%run_of_Some & [= <-])%bind_Some. by eapply full_own, own_mempool.
  - destruct (_ !! nd_taken n) as [im|] eqn:Him; [|done].
    intros (s' & [[] Hr]%run_of_Some & [= <-])%bind_Some. by eapply full_own, own_inter.
  - destruct (sy_waiters (nd_sync n)) as [|[[|d ds] h k] ws] eqn:Hw; try done.
    destruct (is_ok _) eqn:Hok; [|done]. intros [= <-]. apply full_sync_move; [done|].
    refine (waiter_read (c_Store (nd_core n)) _ (nd_sync n) [] d ds h k ws (nd_requests n) Hw _).
    unfold readable. simpl. destruct (_ !! d); [eauto|done].
  - destruct (sy_waiters (nd_sync n)) as [|[[|d ds] h k] ws] eqn:Hw; try done.
    intros [= <-]. apply full_sync_move; [done|]. 
    exact (waiter_finish (c_Store (nd_core n)) _ (nd_sync n) [] h k ws (nd_requests n) Hw).
  - destruct (sy_waiting (nd_sync n)) as [|b rest] eqn:Hw; [done|].
    intros [= <-]. apply full_sync_move; [done|].
    exact (loop_waiting (c_Store (nd_core n)) _ (nd_sync n) b rest (nd_requests n) Hw).
Qed.

Lemma full_play_steps mvs n n' :
  runs Name parameters → full_play mvs n = Some n' → rtc step n n'.
Proof.
  intros Hruns. revert n. induction mvs as [|mv mvs IH]; simpl; intros n Hp; [by simplify_eq|].
  apply bind_Some in Hp as (n1 & H1 & H2).
  eapply rtc_l; [by eapply full_play_move_step|by apply IH].
Qed.
End play.

(** ** Node 0 waits for a payload of node 1

    Node 1 proposes a block whose payload node 0 does not have: the request goes to
    the synchronizer, and then the payload arrives. *)

Definition payload1 : Block :=
  match NewBlock 1 (mkBatch 1 [[7]]) (sample_svc 1 4 3) with
  | Ok b => b
  | Err _ => mkBlock 1 (mkBatch 1 [[7]]) []
  end.

Definition cblock1 : ConsensusBlock := NewConsensusBlock 1 [Block_Hash payload1] 0.

Definition proposal1 : SPBProposal :=
  match NewSPBProposal 1 (Some cblock1) 0 0 SPB_ONE_PHASE (sample_svc 1 4 3) with
  | Ok p => p
  | Err _ => mkSPBProposal 1 None 0 0 0 []
  end.

Local Abbreviation node0 := (Node 0 DefaultParameters (sample_svc 0 4 3) sample_range).

Definition fnode_start : node0 := mkNode node0_started NewSynchronizer 0 0 [].

Definition fnode_after (mvs : list full_move) : node0 :=
  default fnode_start (full_play 0 committee4 DefaultParameters (sample_svc 0 4 3) sample_range
    mvs fnode_start).

Lemma runs0 : runs 0 DefaultParameters.
Proof. by vm_compute. Qed.

Lemma fnode_reachable mvs :
  full_reachable 0 committee4 DefaultParameters (sample_svc 0 4 3) sample_range sample_store
    (NewPool DefaultPoolParameters 4 0) (fnode_after mvs).
Proof.
  exists node0_started. split.
  { assert (match Core_start 0 DefaultParameters (sample_svc 0 4 3) node0_new with
            | Returns _ _ => true | Crash _ => false end = true) as Hret by by vm_compute.
    unfold node0_started. by destruct (Core_start _ _ _ _) as [[] c|]. }
  unfold fnode_after.
  destruct (full_play _ _ _ _ _ mvs fnode_start) as [n|] eqn:Hp; simpl; [|done].
  eapply full_play_steps; [exact runs0|exact Hp].
Qed.

Definition waiting_moves : list full_move :=
  [FTurn; FDeliver (MSPBProposal proposal1); FTurn; FInter 0;
   FMempool (Receive (OtherBlockMsg (Some payload1)))].

Definition fnode_waiting : node0 := fnode_after waiting_moves.

Definition fnode_completed : node0 :=
  fnode_after (waiting_moves ++ [FWaiterRead; FWaiterFinish; FWaiting]).

Lemma sample_store_errors (st : Store) k : Store_Read st k ≠ Err ErrNotFoundKey.
Proof. unfold Store_Read. simpl. by case_match. Qed.


Lemma loopback_complete_witness :
  ∃ b, ConsensusBlock_Hash b = ConsensusBlock_Hash cblock1 ∧
    Forall (readable (c_Store (nd_core fnode_completed))) (cb_PayLoads b).
Proof.
  destruct (loopback_complete 0 committee4 DefaultParameters (sample_svc 0 4 3) sample_range
    sample_store (NewPool DefaultPoolParameters 4 0) fnode_completed
    (ConsensusBlock_Hash cblock1) (fnode_reachable _)) as (b & Hb & Hall & _).
  - apply (bool_decide_unpack _). by vm_compute.
  - exists b. split; [exact Hb|exact Hall].
Defined.

(** The entry of the waiting block, and the stored block *)
Definition entry1 : pendingEntry :=
  default (mkPending 0 0 0 [] 0) (sy_pending (nd_sync fnode_waiting) !! ConsensusBlock_Hash cblock1).
Definition cdata1 : list byte :=
  match gob_Encode cblock1 with Ok data => data | Err _ => [] end.

Lemma waiting_proposal_resumes_witness :
  ∃ n' p, rtc (full_step 0 committee4 DefaultParameters (sample_svc 0 4 3) sample_range)
      fnode_waiting n' ∧
    ((0, 0, 1), TProposal p) ∈ c_threads (nd_core n') ∧ sp_B p = Some cblock1.
Proof.
  destruct (waiting_proposal_resumes 0 committee4 DefaultParameters (sample_svc 0 4 3) sample_range
    sample_store (NewPool DefaultPoolParameters 4 0) fnode_waiting (ConsensusBlock_Hash cblock1)
    entry1 cdata1 cblock1 runs0 (fnode_reachable _)) as (n' & p & Hs & Hin & Hp & _).
  - intros k. apply sample_store_errors.
  - assert (is_Some (sy_pending (nd_sync fnode_waiting) !! ConsensusBlock_Hash cblock1)) as [e He]
      by (apply (bool_decide_unpack _); by vm_compute).
    unfold entry1. by rewrite He.
  - by vm_compute.
  - apply Forall_readable. by vm_compute.
  - by vm_compute.
  - by vm_compute.
  - by vm_compute.
  - exists n', p. split; [exact Hs|]. split; [exact Hin|exact Hp].
Defined.
