(* ===== verification/BootWitnesses.v ===== *)
(** * The configuration and the start at work

    Concrete instances of the libraries behind Config.v, NutsDB.v and Boot.v, a
    deployment of four nodes, and a run of a cluster, to which the theorems of these
    files are applied. *)

From stdpp Require Import base gmap list strings countable.
From S2P Require Import Prelude Committee Crypto SampleLib Message Pool Store NutsDB.
From S2P Require Import Synchronizer Port Mempool Core Node TsKeys Config Boot.
From S2P Require Import Cluster SampleWorld.

(** ** JSON *)

#[export] Instance scalar_eq_dec : EqDecision scalar.
Proof. solve_decision. Defined.
#[export] Instance scalar_countable : Countable scalar.
Proof.
  apply (inj_countable'
    (λ v, match v with SString s => inl s | SNumber z => inr (Some z) | SOther => inr None end)
    (λ v, match v with inl s => SString s | inr (Some z) => SNumber z | inr None => SOther end)).
  by intros [].
Defined.

#[export] Instance value_eq_dec : EqDecision value.
Proof. solve_decision. Defined.
#[export] Instance value_countable : Countable value.
Proof.
  apply (inj_countable'
    (λ v, match v with
          | JString s => inl (inl s) | JNumber z => inl (inr z)
          | JObject o => inr (Some o) | JOther => inr None
          end)
    (λ v, match v with
          | inl (inl s) => JString s | inl (inr z) => JNumber z
          | inr (Some o) => JObject o | inr None => JOther
          end)). by intros [].
Defined.

#[export] Instance sampleJson : JsonMap := {|
  json_Encode := λ data, [Z.neg (encode data)];
  json_Decode := λ text,
    match text with
    | Z.neg p :: _ => match decode p with Some d => Ok d | None => Err (ErrLib "json") end
    | _ => Err (ErrLib "json")
    end
|}.

#[export] Instance sampleJson_law : JsonMapLaw (J := sampleJson).
Proof. intros data rest _. simpl. by rewrite decode_encode. Qed.

(** Structs are written as the digits of a number in base two, ended by a 2. *)
Fixpoint digits (p : positive) : list byte :=
  match p with
  | xH => [2]
  | xO p => 0 :: digits p
  | xI p => 1 :: digits p
  end.

Fixpoint number (l : list byte) : option positive :=
  match l with
  | 0 :: l => xO <$> number l
  | 1 :: l => xI <$> number l
  | 2 :: _ => Some xH
  | _ => None
  end.

Lemma number_digits p rest : number (digits p ++ rest) = Some p.
Proof. induction p as [p IH|p IH|]; simpl; by rewrite ?IH. Qed.

Lemma digits_ascii p : Forall is_ascii (digits p).
Proof. induction p; simpl; constructor; try done; unfold is_ascii; lia. Qed.

#[export] Instance sampleStruct `{Countable A} : JsonStruct A := {|
  js_Encode := λ a, Ok (digits (encode a));
  js_Decode := λ text,
    match number text ≫= decode with Some a => Ok a | None => Err (ErrLib "json") end
|}.

#[export] Instance sampleStruct_law `{Countable A} : JsonStructLaw A.
Proof.
  intros a. eexists. split_and!; [done|apply digits_ascii|]. intros rest. simpl.
  rewrite number_digits. simpl. by rewrite decode_encode.
Qed.

#[export] Instance TSPartialMarshalled_eq_dec : EqDecision TSPartialMarshalled.
Proof. solve_decision. Defined.
#[export] Instance TSPartialMarshalled_countable : Countable TSPartialMarshalled.
Proof.
  apply (inj_countable' (λ m, (tp_I m, tp_Binary m)) (λ p, mkTSPartialMarshalled p.1 p.2)).
  by intros [].
Defined.
#[export] Instance TSPublicMarshalled_eq_dec : EqDecision TSPublicMarshalled.
Proof. solve_decision. Defined.
#[export] Instance TSPublicMarshalled_countable : Countable TSPublicMarshalled.
Proof.
  apply (inj_countable' (λ m, (tm_BaseBytes m, tm_CommitBytes m))
    (λ p, mkTSPublicMarshalled p.1 p.2)). by intros [].
Defined.
#[export] Instance PoolParameters_eq_dec : EqDecision PoolParameters.
Proof. solve_decision. Defined.
#[export] Instance PoolParameters_countable : Countable PoolParameters.
Proof.
  apply (inj_countable' (λ p, (pp_Rate p, pp_TxSize p, pp_BatchSize p, pp_MaxQueueSize p))
    (λ p, mkPoolParameters p.1.1.1 p.1.1.2 p.1.2 p.2)). by intros [].
Defined.
#[export] Instance Parameters_eq_dec : EqDecision Parameters.
Proof. solve_decision. Defined.
#[export] Instance Parameters_countable : Countable Parameters.
Proof.
  apply (inj_countable' (λ p, (SyncTimeout p, NetwrokDelay p, MinBlockDelay p, DDos p, Faults p,
      RetryDelay p, (Protocol p, MaxPayloadSize p, MaxQueenSize p, MinPayloadDelay p,
      SyncRetryDelay p)))
    (λ p, mkParameters p.1.1.1.1.1.1 p.1.1.1.1.1.2 p.1.1.1.1.2 p.1.1.1.2 p.1.1.2 p.1.2
      p.2.1.1.1.1 p.2.1.1.1.2 p.2.1.1.2 p.2.1.2 p.2.2)). by intros [].
Defined.
#[export] Instance ConfigParameters_eq_dec : EqDecision ConfigParameters.
Proof. solve_decision. Defined.
#[export] Instance ConfigParameters_countable : Countable ConfigParameters.
Proof.
  apply (inj_countable' (λ p, (cp_Pool p, cp_Consensus p)) (λ p, mkConfigParameters p.1 p.2)).
  by intros [].
Defined.

(** ** Keys and the database *)

#[export] Instance sampleKyber : KyberKeys (CL := sampleLib) := {|
  Scalar := unit;
  Point := unit;
  pri_I := λ s : PriShare (CryptoLib := sampleLib), s;
  pri_V := λ _, tt;
  mk_PriShare := λ i _, i;
  pub_Info := λ _, (tt, []);
  NewPubPoly := λ _ _, tt;
  scalar_MarshalBinary := λ _, Ok [0];
  scalar_UnmarshalBinary := λ _, Ok tt;
  point_MarshalBinary := λ _, Ok [0];
  point_UnmarshalBinary := λ _, Ok tt
|}.

#[export] Instance sampleKyber_laws : KyberKeysLaws (K := sampleKyber).
Proof. split; simpl; try done; [by intros []|intros []; eauto|intros []; eauto]. Qed.

#[export] Instance sampleNuts : Nuts := {|
  nuts_db := gmap (list byte) (list byte);
  nuts_Open := λ _, Ok ∅;
  tx_begin := λ _, None;
  tx_NewBucket := λ db _, (Ok tt, db);
  tx_Get := λ db _ k, match db !! k with Some v => Ok v | None => Err sample_missing end;
  tx_Put := λ db _ k v _, (Ok tt, <[k := v]> db)
|}.

#[export] Instance sampleNuts_laws : NutsLaws (NU := sampleNuts).
Proof.
  refine {| usable := λ _ _, true |}; try done. intros db b k v k' _. simpl. case_decide as Hk.
  - subst k'. by rewrite lookup_insert_eq.
  - by rewrite lookup_insert_ne.
Defined.

(** ** A deployment of four nodes *)

Definition gen4 (i : nat) : list byte * list byte :=
  let b := Z.of_nat i mod 256 in (Prikey (sample_key b), sample_pub b).

Definition ts4 (t n : Z) : list (PriShare (CryptoLib := sampleLib)) * PubPoly (CryptoLib := sampleLib) :=
  (map Z.of_nat (seq 0 (Z.to_nat n)), tt).

Definition deployed : Committee := mkCommittee (default_authorities gen4 4).

Definition machine4 : machine :=
  mkMachine
    (<[["committee.json"] := json_Encode (committee_data (λ _, ∅) deployed)]>
     (<[["parameters.json"] := digits (encode GenDefaultParameters)]> ∅))
    Loggers_init.

Lemma gen4_bytes i : Forall is_byte (gen4 i).1 ∧ Forall is_byte (gen4 i).2.
Proof.
  assert (Forall is_byte (sample_pub (Z.of_nat i mod 256))) as H.
  { constructor; [unfold is_byte; pose proof (Z.mod_pos_bound (Z.of_nat i) 256); lia|].
    apply Forall_replicate. unfold is_byte. lia. }
  split; [|done]. by apply Forall_app.
Qed.

Lemma deployed_proper : map_Forall proper_member (Authorities deployed).
Proof.
  intros id a (i & Hi & -> & ->)%lookup_default_authorities. split_and!; simpl.
  - unfold in_int64. lia.
  - done.
  - apply gen4_bytes.
  - apply (plain_app "127.0.0.1:"); [plain_literal|apply plain_Itoa].
  - apply (plain_app "127.0.0.1:"); [plain_literal|apply plain_Itoa].
Qed.

Lemma gen4_generated : keys_generated gen4 ts4 4 3.
Proof.
  split; [|done|done]. intros i. split; [apply sample_keypair|]. split; [done|apply gen4_bytes].
Qed.

Lemma deployed_named : named deployed gen4 4.
Proof.
  split.
  - intros id. unfold members. rewrite elem_of_dom. unfold is_Some.
    setoid_rewrite lookup_default_authorities. split.
    + intros (a & i & Hi & -> & _). lia.
    + intros Hid. eexists _, (Z.to_nat id). split_and!; [lia|lia|done].
  - intros i Hi. unfold Committee_Name. simpl.
    assert (default_authorities gen4 4 !! Z.of_nat i = Some (default_member (gen4 i).2 4 i)) as ->;
      [|done]. apply lookup_default_authorities. exists i. split; [lia|done].
Qed.

Lemma deployment4 :
  deployment (λ _, true) gen4 ts4 4 3 "." "committee.json" "parameters.json" "store" "logs"
    deployed GenDefaultParameters machine4.
Proof.
  split.
  - exact gen4_generated.
  - unfold exact. lia.
  - exact deployed_named.
  - exact deployed_proper.
  - exists (λ _, ∅). eexists. split; [apply lookup_insert_eq|]. apply (sampleJson_law _ []).
    apply plain_committee_data; [done|exact deployed_proper].
  - eexists. split; [unfold machine4; simpl; rewrite lookup_insert_ne by done; apply lookup_insert_eq|].
    destruct (sampleStruct_law GenDefaultParameters) as (text & [= <-] & _ & Hd).
    rewrite <-(Hd []). by rewrite app_nil_r.
  - by vm_compute.
  - intros f i Hf. rewrite !elem_of_cons in Hf.
    rewrite path_of_key_file, path_of_ts_key_file.
    destruct Hf as [->|[->|[]%not_elem_of_nil]]; done.
  - done.
  - by eexists.
  - done.
Qed.

Definition map_order (m : gmap string value) : list (string * value) := map_to_list m.

Lemma generated_node_starts_witness :
  ∃ s2 s3 st, main (λ _, true) map_order gen4 ts4
      (runCmd (key_file "." 2) (ts_key_file "." 2) "committee.json" "parameters.json" "store" "logs"
        DeployLevel 2) s2 = Returns (Some st) s3 ∧
    sr_committee st = deployed ∧ sr_parameters st = DefaultParameters ∧
    keypair (Committee_Name deployed 2) (Prikey (PriKey (sr_sigService st))).
Proof.
  destruct (generated_node_starts (λ _, true) map_order (λ m, reflexivity _) gen4 ts4 4 3 "."
    "committee.json" "parameters.json" "store" "logs" deployed GenDefaultParameters machine4 2
    DeployLevel (λ m, elements (mp_Queue m)) deployment4 eq_refl)
    as (s1 & s2 & s3 & st & _ & _ & Hrun & [Hc Hp Hk _ _ _]).
  exists s2, s3, st. split; [exact Hrun|]. split; [exact Hc|]. split; [exact Hp|exact Hk].
Defined.

Lemma key_files_round_trip_witness :
  ∃ fs, GenKeysFromFile (key_file "." 1) fs = Returns (Ok ((gen4 1).2, mkPrivateKey (gen4 1).1)) fs ∧
    GenTsKeyFromFile (ts_key_file "." 1) fs =
      Returns (Ok (mkSecretShareKey tt (1 : PriShare (CryptoLib := sampleLib)) 4 3)) fs.
Proof.
  destruct (key_files_round_trip gen4 (ts4 3 4).1 tt 4 4 3 "." ∅)
    as (fs1 & fs2 & _ & _ & Hk & Hts).
  - apply gen4_bytes.
  - unfold exact. lia.
  - unfold exact. lia.
  - done.
  - exists fs2. split; [apply Hk; simpl; lia|by apply (Hts 1%nat 1)].
Defined.

(** ** Two nodes come online *)

#[export] Instance dials_dec bound address : Decision (dials bound address).
Proof. unfold dials. destruct (dial_endpoint address); apply _. Defined.

Section cluster_play.
Context (committee : Committee) (host : NodeID → string).

(** The next step of a member, or the receiver at a place binds its port. *)
Inductive cluster_event : Type :=
  | Next (id : NodeID)
  | Bind (k : nat).

Definition cluster_move (ev : cluster_event) (s : cluster) : option cluster :=
  match ev with
  | Next id =>
      match cl_stage s !! id with
      | Some Loaded => Some (initmempooltransmit committee id s)
      | Some (MempoolWaiting (a :: l)) =>
          if decide (dials (cl_bound s) a) then Some (set_stage s id (MempoolWaiting l)) else None
      | Some (MempoolWaiting []) => Some (Consensus_listen committee id s)
      | Some (ConsensusWaiting (a :: l)) =>
          if decide (dials (cl_bound s) a) then Some (set_stage s id (ConsensusWaiting l)) else None
      | Some (ConsensusWaiting []) => Some (set_stage s id Started)
      | _ => None
      end
  | Bind k =>
      match cl_receivers s !! k with
      | Some (id, addr) =>
          Some (Receiver_listen host id addr (take k (cl_receivers s) ++ drop (S k) (cl_receivers s)) s)
      | None => None
      end
  end.

Fixpoint cluster_play (evs : list cluster_event) (s : cluster) : option cluster :=
  match evs with
  | [] => Some s
  | ev :: evs => cluster_move ev s ≫= cluster_play evs
  end.

Lemma cluster_move_step ev s s' :
  cluster_move ev s = Some s' → cluster_step committee host s s'.
Proof.
  destruct ev as [id|k]; simpl.
  - destruct (cl_stage s !! id) as [[|[|a l]|[|a l]| |]|] eqn:Hs; try done;
      try case_decide; try done; intros [= <-].
    + by apply start_mempool.
    + by apply start_consensus.
    + by apply (dial_mempool _ _ _ _ [] a l).
    + by apply start_protocol.
    + by apply (dial_consensus _ _ _ _ [] a l).
  - destruct (cl_receivers s !! k) as [[id addr]|] eqn:Hk; [|done]. intros [= <-].
    apply bind_port. by rewrite take_drop_middle.
Qed.

Lemma cluster_play_steps ids s s' :
  cluster_play ids s = Some s' → rtc (cluster_step committee host) s s'.
Proof.
  revert s. induction ids as [|id ids IH]; simpl; intros s Hp; [by simplify_eq|].
  apply bind_Some in Hp as (s1 & H1 & H2). eapply rtc_l; [by eapply cluster_move_step|by apply IH].
Qed.
End cluster_play.

Definition pair2 : Committee := mkCommittee (default_authorities gen4 2).
Definition localhost (id : NodeID) : string := "127.0.0.1".

Lemma pair2_addressed : well_addressed pair2 localhost ∅.
Proof. apply default_well_addressed. intros k _. apply not_elem_of_empty. Qed.

(** Member 0 has started the protocol before its own receiver has bound the consensus port;
    member 1 has not started. *)
Definition cluster2 : cluster :=
  default (cluster_start pair2 ∅)
    (cluster_play pair2 localhost
      [Next 0; Next 1; Bind 1; Next 0; Next 0; Bind 0; Next 1; Next 1; Bind 1; Next 0; Next 0]
      (cluster_start pair2 ∅)).

Lemma cluster2_reachable : cluster_reachable pair2 localhost ∅ cluster2.
Proof.
  unfold cluster2, cluster_reachable.
  destruct (cluster_play _ _ _ _) as [s|] eqn:Hp; simpl; [|done].
  by eapply cluster_play_steps.
Qed.

Lemma started_after_all_listen_witness :
  cl_stage cluster2 !! 0 = Some Started ∧
  (dials (cl_bound cluster2) (Committee_MempoolAddress pair2 1) ∧
   dials (cl_bound cluster2) (Committee_Address pair2 1)) ∧
  ¬ dials (cl_bound cluster2) (Committee_Address pair2 0).
Proof.
  assert (cl_stage cluster2 !! 0 = Some Started) as Hs by by vm_compute. split; [exact Hs|]. split.
  - apply (started_after_all_listen pair2 localhost ∅ pair2_addressed cluster2 0 cluster2_reachable).
    + exact Hs.
    + apply (bool_decide_unpack _). by vm_compute.
    + done.
  - apply (bool_decide_unpack _). by vm_compute.
Defined.

Lemma cluster_comes_online_witness :
  ∃ s', rtc (cluster_step pair2 localhost) cluster2 s' ∧ cl_stage s' !! 1 = Some Started.
Proof.
  destruct (cluster_comes_online pair2 localhost ∅ pair2_addressed cluster2 cluster2_reachable)
    as (s' & Hs & Hall).
  exists s'. split; [exact Hs|]. apply Hall. apply (bool_decide_unpack _). by vm_compute.
Defined.
