(* ===== verification/BenchWitnesses.v ===== *)
(** * The benchmarks at work

    A small machine, a command-line parser and a JSON library that satisfy what Bench.v
    relies on, and the benchmark of the task [local] with four nodes; hosts that satisfy
    what Testbed.v relies on, and the benchmark with two nodes on each of two hosts. *)

From stdpp Require Import base gmap list strings countable.
From Stdlib Require Import Ascii.
From S2P Require Import Prelude Committee Crypto SampleLib Message Pool Store NutsDB.
From S2P Require Import Synchronizer Port Mempool Core Node TsKeys Config Boot.
From S2P Require Import Cluster CommandLine Regex Python LogStats Bench BootWitnesses.
From S2P Require Import SampleWorld Testbed.

(** ** The command line *)

Definition read_flag (flags : list flag) (name value : string) : option (string * flag_value) :=
  '(_, f) ← list_find (λ f, "--" +:+ fl_name f = name) flags;
  Some (fl_name f, match type_of (fl_default f) with
                   | StringFlag => StringVal value
                   | IntFlag => IntVal (Atoi value)
                   end).

Fixpoint read_flags (flags : list flag) (args : list string) : option (list (string * flag_value)) :=
  match args with
  | [] => Some []
  | name :: value :: args => p ← read_flag flags name value; l ← read_flags flags args; Some (p :: l)
  | _ => None
  end.

#[export] Instance sampleCobra : Cobra := {|
  cobra_Execute := λ cmds args,
    match args with
    | use :: args =>
        match list_find (λ c : string * list flag, c.1 = use) cmds with
        | Some (_, (_, flags)) =>
            match read_flags flags args with Some given => Runs use given | None => Refused end
        | None => Refused
        end
    | [] => Usage
    end
|}.

Lemma read_flag_accepted flags p :
  NoDup (fl_name <$> flags) → accepts flags p → read_flag flags ("--" +:+ p.1) (flag_text p.2) = Some p.
Proof.
  intros Hnd ((f & Hf & Hn & Ht) & Hr). unfold read_flag.
  destruct (list_find _ flags) as [[i g]|] eqn:Hg.
  - apply list_find_Some in Hg as (Hi & Hg & _). apply (inj _) in Hg.
    apply list_elem_of_lookup in Hf as [j Hj].
    assert (i = j) as ->.
    { apply (NoDup_lookup (fl_name <$> flags) i j (fl_name g)); [done| |];
        rewrite list_lookup_fmap; [by rewrite Hi|by rewrite Hj; simpl; congruence]. }
    simplify_eq. simpl. rewrite Ht. destruct p as [n [v|z]]; simpl in *; subst; [done|].
    by rewrite Atoi_Itoa.
  - exfalso. apply list_find_None in Hg. eapply Forall_forall in Hg; [|by apply list_elem_of_In, Hf]. by rewrite Hn in Hg.
Qed.

#[export] Instance sampleCobra_law : CobraLaw (CO := sampleCobra).
Proof.
  intros cmds use flags given Hnd Hin Hflags Hg. simpl.
  destruct (list_find _ cmds) as [[i [u fl]]|] eqn:Hf.
  - apply list_find_Some in Hf as (Hi & Hu & _). simpl in Hu. subst u.
    apply list_elem_of_lookup in Hin as [j Hj].
    assert (i = j) as ->.
    { apply (NoDup_lookup cmds.*1 i j use); [done| |]; rewrite list_lookup_fmap; [by rewrite Hi|by rewrite Hj]. }
    simplify_eq. assert (read_flags flags (flag_words given) = Some given) as ->; [|done].
    induction Hg as [|p l Hp Hl IH]; [done|]. cbn [flag_words flat_map app read_flags].
    rewrite read_flag_accepted by done. simpl. change (flat_map _ l) with (flag_words l). by rewrite IH.
  - exfalso. apply list_find_None in Hf. eapply Forall_forall in Hf; [|by apply list_elem_of_In, Hin]. done.
Qed.

(** ** JSON *)

#[export] Instance pyval_countable : Countable pyval.
Proof.
  apply (inj_countable'
    (λ v, match v with VInt z => inl z | VBool b => inr (inl b) | VStr s => inr (inr s) end)
    (λ v, match v with inl z => VInt z | inr (inl b) => VBool b | inr (inr s) => VStr s end)).
  by intros [].
Defined.

(** The parameters are read from what Python writes, or from what Go writes. *)
#[export] Instance sampleParams : JsonStruct ConfigParameters := {|
  js_Encode := λ a, Ok (digits (encode a));
  js_Decode := λ text,
    match text with
    | Z.neg _ :: Z.pos q :: _ =>
        match decode q ≫= params_of with Some cp => Ok cp | None => Err (ErrLib "json") end
    | _ => match number text ≫= decode with Some a => Ok a | None => Err (ErrLib "json") end
    end
|}.

#[export] Instance samplePyJson : PyJson := {|
  py_load := λ text,
    match text with
    | [Z.neg p] => match decode p with Some d => Ret d | None => Raise ValueError end
    | _ => Raise ValueError
    end;
  py_dump := λ d, [Z.neg (encode (go_data d)); Z.pos (encode d)]
|}.

#[export] Instance samplePyJson_laws : PyJsonLaws (J := sampleJson) (JC := sampleParams).
Proof.
  split; simpl.
  - intros data _. by rewrite decode_encode.
  - intros d _. by rewrite decode_encode.
  - intros d cp _ Hd. rewrite decode_encode. simpl. by rewrite Hd.
Qed.

(** ** The machine *)

Definition sample_exec (argv : list string) (w : bench) : option bool * bench :=
  if decide (argv = ["tmux"; "kill-server"]) then (Some true, mkBench (bn_files w) [])
  else match argv with
       | [a; b; c; d; name; cmd] =>
           if decide ([a; b; c; d] = ["tmux"; "new"; "-d"; "-s"]) then
             (Some true, mkBench (bn_files w) (bn_sessions w ++ [(name, cmd)]))
           else (Some true, w)
       | _ => (Some true, w)
       end.

#[export] Instance sampleHost : Host := {|
  host_shell := λ _ w, mkBench ∅ (bn_sessions w);
  host_exec := sample_exec;
  host_sleep := λ _ w, w;
  host_failed := λ _ fs, fs;
  host_argv := λ s,
    match reverse (py_split s) with file :: _ :: words => Some (reverse words, file) | _ => None end;
  host_glob := λ _ _, []
|}.

Lemma sample_exec_files argv w : (sample_exec argv w).1 = Some true ∧ bn_files (sample_exec argv w).2 = bn_files w.
Proof.
  unfold sample_exec. case_decide; [done|]. do 7 (destruct argv as [|? argv]; try done).
  by case_decide.
Qed.

Lemma concat_app ws vs :
  ws ≠ [] → vs ≠ [] → String.concat " " (ws ++ vs) = String.concat " " ws +:+ " " +:+ String.concat " " vs.
Proof.
  intros Hws Hvs. induction ws as [|w ws IH]; [done|]. clear Hws. destruct ws as [|w' ws]; [by destruct vs|].
  change (w +:+ " " +:+ String.concat " " ((w' :: ws) ++ vs) =
    (w +:+ " " +:+ String.concat " " (w' :: ws)) +:+ " " +:+ String.concat " " vs).
  rewrite IH by done. by rewrite <-!string_app_assoc.
Qed.

Lemma main_words args : Forall word args → Forall word ("./main" :: args).
Proof. intros Hargs. constructor; [split; [done|by vm_compute]|done]. Qed.

#[export] Instance sampleHost_laws : HostLaws.
Proof.
  split; try done.
  - intros args w. simpl. by rewrite (proj1 (sample_exec_files _ _)).
  - intros args file Hargs Hf. set (words := "./main" :: args).
    assert (Forall word words) as Hw by by apply main_words.
    assert (words ≠ []) as Hne by done. clearbody words. simpl.
    assert (py_split (String.concat " " words +:+ " 2> " +:+ file) = words ++ ["2>"; file]) as ->.
    { rewrite <-(py_split_concat (words ++ ["2>"; file])); [by rewrite concat_app|].
      apply Forall_app. split; [eapply Forall_impl; [exact word_solid|exact Hw]|].
      repeat constructor; [done|by apply word_solid|by apply word_solid]. }
    rewrite reverse_app. simpl. by rewrite reverse_involutive.
Qed.

(** ** The task [local] *)

Definition stamp4 : string := "2025-07-01v15-12-59".

Definition bench4 : LocalBench :=
  match LocalBench_init stamp4 local_bench_params local_node_params with
  | Ret lb => lb
  | Raise _ => mkLocalBench "" (mkBenchParameters [] 0 [] [] 0 0 0 (Many []))
      (mkNodeParameters (VInt 0) (VInt 0) (VInt 0) 0 0 ∅)
  end.

Lemma bench4_init : LocalBench_init stamp4 local_bench_params local_node_params = Ret bench4.
Proof. by vm_compute. Qed.

Definition parameters4 : ConfigParameters :=
  mkConfigParameters (mkPoolParameters 5000 256 512 10000)
    (mkParameters 1000 2000 0 false 0 5000 SMVBA 50 10000 0 100000).

Lemma bench4_node_ready :
  node_ready (CL := sampleLib) (λ _, true) gen4 ts4 stamp4 15 4
    (final_json bench4 5000 512) parameters4.
Proof.
  split.
  - split; [split; [by vm_compute|by vm_compute]|apply (bool_decide_unpack _); by vm_compute].
  - by vm_compute.
  - by vm_compute.
  - by vm_compute.
  - by vm_compute.
  - by vm_compute.
  - exact gen4_generated.
  - done.
  - intros i. by eexists.
Qed.

Lemma bench4_ready :
  local_ready (CL := sampleLib) (λ _, true) gen4 ts4 bench4 4 5000 512 parameters4.
Proof.
  split.
  - exact bench4_node_ready.
  - by vm_compute.
  - by vm_compute.
  - by vm_compute.
  - by vm_compute.
  - intros w. apply sample_exec_files.
  - done.
Qed.

(** Before the benchmark *)
Definition idle : bench := mkBench ∅ [].

Lemma local_bench_starts_witness :
  ∃ w' argv st s', bn_sessions w' = map (λ i, (session_name i,
      node_command stamp4 15 i +:+ " 2> " +:+ node_log_info_file i stamp4)) (seq 0 4) ∧
    main_args (λ _, true) map_order gen4 ts4 argv (mkMachine (bn_files w') Loggers_init) =
      Returns (Some st) s' ∧
    sr_committee st = local_committee gen4 4 ∧ sr_parameters st = cp_Consensus parameters4 ∧
    keypair (Committee_Name (local_committee gen4 4) 2) (Prikey (PriKey (sr_sigService st))).
Proof.
  destruct (local_bench_starts (λ _, true) map_order gen4 ts4 (λ m, reflexivity _) stamp4
    local_bench_params local_node_params bench4 4 5000 512 parameters4 idle
    (λ m, elements (mp_Queue m)) ∅ bench4_init bench4_ready eq_refl (λ k _, not_elem_of_empty _))
    as (w' & _ & Hs & _ & _ & _ & Hnodes & _).
  destruct (Hnodes 2%nat (bn_files w') ltac:(lia) (λ f _, eq_refl))
    as (argv & st & s' & _ & Hrun & [Hc Hp Hk _ _ _]).
  exists w', argv, st, s'. split; [exact Hs|]. split; [exact Hrun|]. split; [exact Hc|].
  split; [exact Hp|exact Hk].
Defined.

Lemma no_session_left_witness :
  bn_sessions (run (λ _, true) map_order gen4 ts4 (λ _, "") (λ _, 0) bench4
    (mkBench ∅ [("node-info-0", "./main run")])).2 = [].
Proof.
  apply (no_session_left (λ _, true) map_order gen4 ts4 (λ _, "") (λ _, 0) bench4 2000).
  - apply bench4_node_ready.
  - by vm_compute.
  - by vm_compute.
  - by vm_compute.
Defined.

(** ** Many machines *)

(** The text before the first quotation mark, and the rest *)
Fixpoint until_quote (s : string) : string * string :=
  match s with
  | EmptyString => ("", "")
  | String c s =>
      if decide (c = ascii_of_nat 34) then ("", s) else let '(a, r) := until_quote s in (String c a, r)
  end.

Definition read_session (line : string) : option (string * string) :=
  rest ← strip ("tmux new -d -s " +:+ quote) line;
  let '(name, rest) := until_quote rest in
  rest ← strip (" " +:+ quote) rest;
  Some (name, (until_quote rest).1).

Definition sample_run (line : string) (b : bench) : bench :=
  if decide (line = kill_line) then mkBench (bn_files b) []
  else match read_session line with
       | Some s => mkBench (bn_files b) (bn_sessions b ++ [s])
       | None => b
       end.

#[export] Instance sampleFabric : Fabric := {|
  fab_run := λ _ line b, ((true, ""), sample_run line b);
  fab_sleep := λ _ w, w;
  fab_argv := λ s,
    match reverse (py_split s) with file :: _ :: _ :: words => Some (reverse words, file) | _ => None end
|}.

Definition unquoted (c : ascii) : bool := negb (bool_decide (c = ascii_of_nat 34)).

Lemma until_quote_app s t : all_chars unquoted s = true → until_quote (s +:+ quote +:+ t) = (s, t).
Proof.
  induction s as [|c s IH]; [done|]. cbn [all_chars]. intros [Hc Hs]%andb_true_iff.
  rewrite string_cons_app. cbn [until_quote]. unfold unquoted in Hc.
  rewrite decide_False by (by intros ->). by rewrite IH.
Qed.

Lemma word_unquoted s : word s → all_chars unquoted s = true.
Proof.
  intros [_ Hs]. eapply all_chars_impl; [|exact Hs]. intros c Hc. unfold unquoted.
  rewrite bool_decide_eq_false_2; [done|]. by intros ->.
Qed.

Lemma concat_unquoted ws : Forall word ws → all_chars unquoted (String.concat " " ws) = true.
Proof.
  induction 1 as [|w ws Hw Hws IH]; [done|]. destruct ws as [|w' ws]; [by apply word_unquoted|].
  change (String.concat " " (w :: w' :: ws)) with (w +:+ " " +:+ String.concat " " (w' :: ws)).
  rewrite !all_chars_app, IH, word_unquoted by done. done.
Qed.

Lemma read_session_line name words log :
  word name → Forall word words → word log →
  read_session (session_line name (String.concat " " words) log) =
  Some (name, String.concat " " words +:+ " |& tee " +:+ log).
Proof.
  intros Hn Hw Hl. unfold session_line, read_session. set (cmd := String.concat " " words).
  rewrite (string_app_assoc "tmux new -d -s " quote), strip_app. cbn [mbind option_bind].
  rewrite until_quote_app by by apply word_unquoted.
  rewrite (string_app_assoc " " quote), strip_app. cbn [mbind option_bind].
  rewrite (string_app_assoc " |& tee " log quote), (string_app_assoc cmd).
  rewrite <-(string_app_nil_r quote), until_quote_app; [done|].
  rewrite !all_chars_app. unfold cmd. by rewrite concat_unquoted, (word_unquoted log).
Qed.

Lemma session_line_argv words file : words ≠ [] → Forall word words → word file →
  py_split (String.concat " " words +:+ " |& tee " +:+ file) = words ++ ["|&"; "tee"; file].
Proof.
  intros Hne Hw Hf. rewrite <-(py_split_concat (words ++ ["|&"; "tee"; file])).
  - by rewrite concat_app.
  - apply Forall_app. split; [eapply Forall_impl; [exact word_solid|exact Hw]|].
    do 2 (apply Forall_cons_2; [by split|]). apply Forall_singleton. by apply word_solid.
Qed.

#[export] Instance sampleFabric_laws : FabricLaws (H := sampleHost).
Proof.
  split; try done.
  - intros h name args log b Hn%tmux_name_word _ Hw%main_words Hl cmd r. unfold r. cbn [fab_run sampleFabric snd fst].
    unfold sample_run. rewrite decide_False by done. unfold cmd. rewrite read_session_line by done. done.
  - intros args file Hw%main_words Hf. cbn [fab_argv sampleFabric]. rewrite session_line_argv by done.
    rewrite reverse_app. simpl. by rewrite reverse_involutive.
Qed.

Definition hosts2 : list string := ["10.0.0.1"; "10.0.0.2"].
Definition settings2 : Settings := mkSettings 6000 7000.

Lemma hosts2_good : good_hosts settings2 hosts2 2.
Proof.
  split.
  - apply (bool_decide_unpack _). by vm_compute.
  - repeat constructor; by vm_compute.
  - done.
  - done.
Qed.

Lemma testbed_starts_witness :
  let c := remote_committee gen4 settings2 hosts2 2 in
  ∃ w' argv st s', bn_sessions (host_state w' "10.0.0.2") = sessions_of 2 stamp4 15 1 ∧
    main_args (λ _, true) map_order gen4 ts4 argv
      (mkMachine (bn_files (host_state w' "10.0.0.2")) Loggers_init) = Returns (Some st) s' ∧
    sr_committee st = c ∧ keypair (Committee_Name c 3) (Prikey (PriKey (sr_sigService st))).
Proof.
  destruct (testbed_starts (λ _, true) map_order gen4 ts4 settings2 (λ m, reflexivity _) hosts2 2 stamp4 15
    (final_json bench4 5000 512) parameters4 (mkTestbed idle ∅) (λ m, elements (mp_Queue m)) ∅
    hosts2_good ltac:(simpl; lia) bench4_node_ready
    (λ b, proj1 (sample_exec_files _ b)) eq_refl eq_refl
    (λ h j _ _, conj (not_elem_of_empty _) (not_elem_of_empty _)))
    as (w' & _ & Hhosts & _).
  destruct (Hhosts 1%nat "10.0.0.2" eq_refl) as [Hs Hnodes].
  destruct (Hnodes 1%nat (bn_files (host_state w' "10.0.0.2")) ltac:(lia) (λ f _, eq_refl))
    as (argv & st & s' & _ & Hrun & [Hc _ Hk _ _ _]).
  exists w', argv, st, s'. split; [exact Hs|]. split; [exact Hrun|]. split; [exact Hc|exact Hk].
Defined.
