(* ===== verification/SystemWitnesses.v ===== *)
(** * A committee of four at work

    Four members run the program, each with its own keys, store and mempool; the run is
    computed by SystemPlay.v.  It ends with two members that have committed different
    blocks for the first epoch ([agreement_violated]), and the theorems of System.v are
    applied to it. *)

From stdpp Require Import base gmap list strings countable.
From S2P Require Import Prelude Committee Crypto SampleLib Message Aggreator Elector Commitor.
From S2P Require Import Pool Store Synchronizer Port Mempool Spb Core Typing.
From S2P Require Import Origin Node System SystemPlay SampleWorld.

#[export] Instance sampleDB_errors : DBErrors (D := sampleDB).
Proof. intros d k. simpl. by case_match. Qed.

(** *** Cryptography

    The library of the run: a digest is the text itself, with eight bytes at least, and
    the coin of a round is the second byte of what the shares sign, so that epoch 0 elects
    member 0 in round 0 and member 1 in round 1. *)
Definition plain_point (d : list byte) : list byte := [0; 0; nth 1 d 0].

#[local] Instance plainLib : CryptoLib := {|
  sha256_Sum256 := λ m, m ++ replicate (8 - length m) 0;
  ed25519_Sign := λ priv m, take 32 priv ++ m;
  ed25519_Verify := λ pub m sig, bool_decide (sig = pub ++ m);
  PriShare := Z;
  PubPoly := unit;
  tbls_Sign := λ i m, Ok (i :: m);
  tbls_Recover := λ _ d shares _ _,
    if forallb (λ s, match s with i :: m => bool_decide (m = d) | [] => false end) shares
    then Ok (plain_point d)
    else Err (ErrLib "bls: invalid signature");
  bls_Verify := λ _ d s,
    if decide (s = plain_point d) then Ok tt else Err (ErrLib "bls: invalid signature");
  poly_Threshold := λ _, 3
|}.

#[local] Instance plain_bls_laws : BlsLaws (CL := plainLib).
Proof.
  split.
  - intros pub d shares t n s _. simpl. case_match; [|done]. intros [= <-]. by rewrite decide_True.
  - intros pub d s s'. simpl. repeat case_decide; congruence.
Qed.

Definition service4 (i : NodeID) : SigService :=
  mkSigService (sample_key i) (mkSecretShareKey tt i 4 3).
Definition range4 (_ : NodeID) : Mempool → list Digest := sample_range.
Definition store4 (_ : NodeID) : Store := sample_store.
Definition pool4 (i : NodeID) : txQueue := NewPool DefaultPoolParameters 4 i.
Definition ids4 : list NodeID := [0; 1; 2; 3].

(** *** The plan

    All mempools have each other's payloads.  Members 1, 2 and 3 finish their broadcasts
    among themselves, and 1 and 2 learn that member 0 is the leader of the first round.
    Its broadcast has not begun for them, so they vote NO.  Member 0 is late: it learns
    that the round is over before its own broadcast finishes, and votes NO as well.
    Nothing stops 1 and 2 from still voting for its broadcast, which finishes; but the
    three go on to the next round, whose leader is member 1, and decide its block.
    Member 3 receives the finish message of member 0 before it knows the leader: when it
    does, it decides the block of member 0. *)
Definition split_plan : list plan_item :=
  [Share 0 1; Share 0 2; Share 0 3; Share 1 0; Share 1 2; Share 1 3;
   Share 2 0; Share 2 1; Share 2 3; Share 3 0; Share 3 1; Share 3 2] ++
  concat (replicate 5
    [Link 1 1 2; Link 1 1 3; Link 1 2 1; Link 1 2 3; Link 1 3 1; Link 1 3 2]) ++
  [Link 2 3 1; Link 2 3 2; Link 2 1 2; Link 2 2 1; Link 6 1 0; Link 6 2 0; Link 5 3 0;
   Link 1 1 2; Link 1 2 1; Link 7 0 1; Link 7 0 2; Link 1 1 2; Link 1 2 1] ++
  map (λ l, Link 1 l.1 l.2)
    [(1,0);(1,2);(2,0);(2,1);(0,1);(0,2);(1,0);(1,2);(2,0);(2,1);(0,1);(0,2);(1,0);(2,0);(0,1);(0,2);
     (1,0);(1,2);(2,0);(2,1);(0,1);(0,2);(1,0);(1,2);(2,0);(2,1);(0,1);(0,2);(1,0);(2,0);(0,1);(0,2);
     (1,0);(1,2);(2,0);(2,1);(0,1);(0,2);(1,0);(1,2);(2,0);(2,1);(0,1);(0,2);(1,0);(1,2);(2,0);(2,1);
     (0,1);(0,2);(1,0);(1,2);(2,0)] ++
  [Link 10 0 3; Link 2 1 3; Link 2 2 3].

Definition play4 (us : option (list ConsensusBlock)) (p : list plan_item) :
    option (System DefaultParameters service4 range4) :=
  play_system committee4 DefaultParameters service4 range4 us store4 pool4 ids4 p.

Definition blocks4 (o : option (System DefaultParameters service4 range4)) : list ConsensusBlock :=
  match o with
  | None => []
  | Some Σ => concat (map (λ i, own_blocks i (c_sent (core_of Σ i))) ids4)
  end.

(** The blocks that are proposed in the run *)
Definition split_blocks : list ConsensusBlock :=
  Eval vm_compute in remove_dups (blocks4 (play4 None split_plan)).

Definition split_run : option (System DefaultParameters service4 range4) :=
  play4 (Some split_blocks) split_plan.

(** What is looked at: for each member the first block it has committed, its first halt,
    and the block of member 0 in its instance of the first broadcast of member 0 *)
Definition first_block (Σ : System DefaultParameters service4 range4) i : option ConsensusBlock :=
  head (cm_committed (c_Commitor (core_of Σ i))).

Definition first_halt (Σ : System DefaultParameters service4 range4) i :
    option (NodeID * NodeID * Halt) :=
  head (omap (λ e, match e with Send from to (MHalt h) => Some (from, to, h) | _ => None end)
    (c_sent (core_of Σ i))).

Definition first_hash (Σ : System DefaultParameters service4 range4) i : option Digest :=
  c_SPbInstances (core_of Σ i) !! (0, 0, 0) ≫= SPB_GetBlockHash.

Definition split_view :=
  Σ ← split_run; Some (map (λ i, (first_block Σ i, first_halt Σ i, first_hash Σ i)) ids4).

Definition split_seen := Eval vm_compute in default [] split_view.

Lemma split_view_seen : split_view = Some split_seen.
Proof. by vm_compute. Qed.

Definition seen (i : NodeID) := default (None, None, None) (split_seen !! Z.to_nat i).

Lemma ids4_members i : i ∈ members committee4 ↔ i ∈ ids4.
Proof.
  assert (members committee4 = list_to_set ids4) as -> by (apply (bool_decide_unpack _); by vm_compute).
  by rewrite elem_of_list_to_set.
Qed.

Lemma split_run_system Σ :
  split_run = Some Σ →
  system_run committee4 DefaultParameters service4 range4 (λ b, b ∈ split_blocks) store4 pool4 Σ.
Proof.
  apply (play_system_run committee4 DefaultParameters service4 range4 (Some split_blocks)
    split_blocks eq_refl). apply ids4_members.
Qed.

Lemma split_blocks_distinct : distinct_digests (λ b, b ∈ split_blocks).
Proof.
  assert (NoDup (map ConsensusBlock_Hash split_blocks)) as Hnd
    by (apply (bool_decide_unpack _); by vm_compute).
  assert (zero_Digest ∉ map ConsensusBlock_Hash split_blocks) as Hz
    by (apply (bool_decide_unpack _); by vm_compute).
  split.
  - intros b b' [k Hk]%list_elem_of_lookup [k' Hk']%list_elem_of_lookup Heq.
    assert (k = k') as ->; [|congruence].
    eapply NoDup_lookup; [exact Hnd|by rewrite list_lookup_fmap, Hk|].
    rewrite list_lookup_fmap, Hk'. simpl. by rewrite Heq.
  - intros b Hb Heq. apply Hz. rewrite <-Heq. by apply list_elem_of_fmap_2.
Qed.

Lemma store4_ok i : i ∈ members committee4 → store_ok (λ b, b ∈ split_blocks) (store4 i).
Proof.
  intros _. split; [|done]. intros b v _. unfold store4, sample_store. done.
Qed.

Lemma keys4 i : i ∈ members committee4 → group_key tt (service4 i).
Proof. intros _. split; [done|by vm_compute]. Qed.

Lemma none4 : NONE ∉ members committee4.
Proof. rewrite ids4_members. apply (bool_decide_unpack _). by vm_compute. Qed.

(** The run, and what is seen of it *)
Lemma split_system :
  ∃ Σ, system_run committee4 DefaultParameters service4 range4 (λ b, b ∈ split_blocks)
         store4 pool4 Σ ∧
    ∀ i, i ∈ members committee4 → (first_block Σ i, first_halt Σ i, first_hash Σ i) = seen i.
Proof.
  pose proof split_view_seen as Hs. unfold split_view in Hs.
  destruct split_run as [Σ|] eqn:Hr; [|done]. exists Σ. split; [by apply split_run_system|].
  apply (inj Some) in Hs. intros i Hi%ids4_members. unfold seen. rewrite <-Hs. clear Hs Hr.
  unfold ids4 in Hi. rewrite !elem_of_cons, elem_of_nil in Hi.
  destruct Hi as [->|[->|[->|[->|[]]]]]; reflexivity.
Qed.

Lemma member4 i : bool_decide (i ∈ ids4) = true → i ∈ members committee4.
Proof. intros Hi. apply ids4_members. by apply bool_decide_eq_true in Hi. Qed.

Lemma first_block_committed Σ i b : first_block Σ i = Some b → b ∈ cm_committed (c_Commitor (core_of Σ i)).
Proof. intros Hb. apply head_Some_elem_of in Hb. done. Qed.

Lemma first_halt_sent Σ i from to h :
  first_halt Σ i = Some (from, to, h) → Send from to (MHalt h) ∈ c_sent (core_of Σ i).
Proof.
  intros Hh%head_Some_elem_of. apply list_elem_of_omap in Hh as ([f t m|] & Hin & Hm); [|done].
  by destruct m; simplify_eq.
Qed.

(** C13 Agreement can fail although nobody deviates from the program: four members, with
    keys, stores and links that work, reach a state in which members 1 and 3 have
    committed different blocks as the first of their logs, both for epoch 0. *)
Theorem agreement_violated :
  ∃ U Σ b b',
    distinct_digests U ∧
    system_run committee4 DefaultParameters service4 range4 U store4 pool4 Σ ∧
    head (cm_committed (c_Commitor (core_of Σ 1))) = Some b ∧
    head (cm_committed (c_Commitor (core_of Σ 3))) = Some b' ∧
    cb_Epoch b = 0 ∧ cb_Epoch b' = 0 ∧ b ≠ b'.
Proof.
  destruct split_system as (Σ & Hrun & Hseen).
  pose proof (Hseen 1 (member4 1 eq_refl)) as [= H1 _ _].
  pose proof (Hseen 3 (member4 3 eq_refl)) as [= H3 _ _].
  eexists _, Σ, _, _. split_and!; [apply split_blocks_distinct|exact Hrun|exact H1|exact H3|done..].
Qed.

(** ** The theorems of System.v, for this run *)

Definition committed_first (i : NodeID) : ConsensusBlock :=
  default (mkConsensusBlock 0 [] 0) (seen i).1.1.

Lemma committed_blocks_proposed_witness :
  ∃ Σ, first_block Σ 3 = Some (committed_first 3) ∧
    original committee4 DefaultParameters service4 range4 Σ (committed_first 3).
Proof.
  destruct split_system as (Σ & Hrun & Hseen).
  pose proof (Hseen 3 (member4 3 eq_refl)) as [= H3 _ _].
  exists Σ. split; [exact H3|].
  apply (committed_blocks_proposed committee4 DefaultParameters service4 range4 tt
    (λ b, b ∈ split_blocks) keys4 split_blocks_distinct none4 store4 pool4 store4_ok Σ 3
    (committed_first 3) Hrun (member4 3 eq_refl)).
  left. apply first_block_committed. exact H3.
Defined.

(** The instances of members 1 and 3 for the first broadcast of member 0 *)
Lemma broadcast_consistent_witness :
  ∃ Σ h, first_hash Σ 1 = Some h ∧ first_hash Σ 3 = Some h ∧
    ∃ b, h = ConsensusBlock_Hash b ∧
      original committee4 DefaultParameters service4 range4 Σ b ∧ cb_Epoch b = 0 ∧ cb_Proposer b = 0.
Proof.
  destruct split_system as (Σ & Hrun & Hseen).
  pose proof (Hseen 1 (member4 1 eq_refl)) as [= _ _ H1].
  pose proof (Hseen 3 (member4 3 eq_refl)) as [= _ _ H3].
  destruct (proj1 (bind_Some _ _ _) H1) as (s & Hs & Hh).
  destruct (proj1 (bind_Some _ _ _) H3) as (s' & Hs' & Hh').
  exists Σ. eexists. split; [exact H1|]. split; [exact H3|].
  exact (proj2 (broadcast_consistent committee4 DefaultParameters service4 range4 tt
    (λ b, b ∈ split_blocks) keys4 split_blocks_distinct none4 store4 pool4 store4_ok Σ 1 3 0 0 0
    s s' _ _ Hrun (member4 1 eq_refl) (member4 3 eq_refl) Hs Hh Hs' Hh')).
Defined.

Definition halted_first (i : NodeID) : NodeID * NodeID * Halt :=
  default (0, 0, mkHalt 0 0 0 0 [] []) (seen i).1.2.

Lemma halts_decide_leader_block_witness :
  ∃ Σ, first_halt Σ 3 = Some (halted_first 3) ∧
    leadership committee4 tt 0 0 (ha_Leader (halted_first 3).2) ∧
    ∃ b, ha_BlockHash (halted_first 3).2 = ConsensusBlock_Hash b ∧
      original committee4 DefaultParameters service4 range4 Σ b ∧ cb_Epoch b = 0 ∧
      leadership committee4 tt 0 0 (cb_Proposer b).
Proof.
  destruct split_system as (Σ & Hrun & Hseen).
  pose proof (Hseen 3 (member4 3 eq_refl)) as [= _ H3 _].
  exists Σ. split; [exact H3|].
  exact (halts_decide_leader_block committee4 DefaultParameters service4 range4 tt
    (λ b, b ∈ split_blocks) keys4 split_blocks_distinct none4 store4 pool4 store4_ok Σ 3 3 NONE
    (halted_first 3).2 Hrun (member4 3 eq_refl) (first_halt_sent Σ 3 3 NONE _ H3)).
Defined.

(** Members 1 and 2 have halted in the second round. *)
Lemma halts_agree_in_round_witness :
  ∃ Σ, first_halt Σ 1 = Some (halted_first 1) ∧ first_halt Σ 2 = Some (halted_first 2) ∧
    (ha_BlockHash (halted_first 2).2 = ha_BlockHash (halted_first 1).2 ∨
     ∃ b, original committee4 DefaultParameters service4 range4 Σ b ∧ cb_Proposer b = 0 ∧
       cb_Epoch b = 0 ∧
       (ha_BlockHash (halted_first 1).2 = ConsensusBlock_Hash b ∨
        ha_BlockHash (halted_first 2).2 = ConsensusBlock_Hash b)).
Proof.
  destruct split_system as (Σ & Hrun & Hseen).
  pose proof (Hseen 1 (member4 1 eq_refl)) as [= _ H1 _].
  pose proof (Hseen 2 (member4 2 eq_refl)) as [= _ H2 _].
  exists Σ. split; [exact H1|]. split; [exact H2|].
  exact (halts_agree_in_round committee4 DefaultParameters service4 range4 tt
    (λ b, b ∈ split_blocks) keys4 split_blocks_distinct none4 store4 pool4 store4_ok Σ
    1 1 NONE (halted_first 1).2 2 2 NONE (halted_first 2).2 Hrun
    (member4 1 eq_refl) (member4 2 eq_refl) (first_halt_sent Σ 1 1 NONE _ H1)
    (first_halt_sent Σ 2 2 NONE _ H2) eq_refl eq_refl).
Defined.
