(* ===== verification/TransportWitnesses.v ===== *)
(** * The transport at work

    Runs of the goroutines of Transport.v, to which its theorems are applied. *)

From stdpp Require Import base gmap list strings countable.
From S2P Require Import Prelude Committee Crypto SampleLib Message Network Transport SampleWorld.
From S2P Require Import Aggreator Spb Witnesses.

(** ** A link from node 0 to node 1 *)

Definition always (_ : nat) (_ : string) : bool := true.

(** Node 1 does not listen yet when it is dialled first. *)
Definition late (n : nat) (addr : string) : bool :=
  bool_decide (addr ≠ "b:1") || bool_decide (2 <= n)%nat.

(** Node 0 broadcasts a halt and sends two votes; everything is written, to node 1 in [w]
    steps. *)
Definition out_evs (w : nat) : list (out_event Message) :=
  map (λ s, OSend s.1 s.2) sends0 ++ replicate 6 OForward ++ replicate 10 ORun ++
  replicate w (OWrite true "b:1") ++ replicate 4 (OWrite true "c:1").

Definition out_end (up : nat → string → bool) (w : nat) : Outgoing Message :=
  default NewOutgoing (out_run up (Transmitor_Send committee3 0) (out_evs w) NewOutgoing).

Lemma out_end_run :
  out_run always (Transmitor_Send committee3 0) (out_evs 4) NewOutgoing = Some (out_end always 4).
Proof. vm_compute. reflexivity. Qed.

Lemma out_late_run :
  out_run late (Transmitor_Send committee3 0) (out_evs 2) NewOutgoing = Some (out_end late 2).
Proof. vm_compute. reflexivity. Qed.

Definition link_wire (o : Outgoing Message) : list (list byte) :=
  wire MsgType encode_Message "b:1" (og_sender o).

(** Node 1 accepts the connection and receives the first [n] values of it. *)
Definition in_evs (o : Outgoing Message) (n m : nat) : list (in_event Message) :=
  [IAccept true; IArrive 0 (take n (link_wire o))] ++ replicate (2 * m) (IServe 0) ++
  replicate (2 * m) IRoute ++ replicate m IRecv.

Definition in_end (o : Outgoing Message) (n m : nat) : Incoming Message :=
  match in_run DefaultMessageTypeMap Module_ "consensus" (in_evs o n m) NewIncoming with
  | Steps i => i
  | _ => NewIncoming
  end.

Definition in_conn (o : Outgoing Message) (n m : nat) : InConn Message :=
  default (mkInConn [] [] true None true) (rc_conns (ig_receiver (in_end o n m)) !! 0%nat).

(** The halt was dropped, and the vote has arrived. *)
Lemma link_fifo_witness :
  dropped "b:1" (og_sender (out_end late 2)) = [MHalt halt0] ∧
  from_conn 0 (ig_received (in_end (out_end late 2) 2 1)) = [MSPBVote (sample_vote 1 1)] ∧
  dropped "b:1" (og_sender (out_end late 2)) ++ from_conn 0 (ig_received (in_end (out_end late 2) 2 1))
    `prefix_of` meant_for 1 sends0.
Proof.
  split_and!; [by vm_compute|by vm_compute|].
  apply (link_fifo committee3 late 0 committee3_addresses 1 (mkAuthority [1] 1 "b:1" "b:2")
    (out_evs 2) (out_end late 2) (in_evs (out_end late 2) 2 1) (in_end (out_end late 2) 2 1) 0
    (in_conn (out_end late 2) 2 1)).
  - done.
  - done.
  - repeat constructor; (by left) || (right; apply (bool_decide_unpack _); by vm_compute).
  - exact out_late_run.
  - by vm_compute.
  - by vm_compute.
  - exists []. by vm_compute.
Defined.

Lemma out_end_quiet : out_quiet always (Transmitor_Send committee3 0) (out_end always 4).
Proof.
  split_and!; [by vm_compute|by vm_compute|]. intros addr. cbn [out_exec].
  destruct (sq_conns (og_sender (out_end always 4)) !! addr) as [c|] eqn:Hc; [|done].
  apply elem_of_map_to_list, list_elem_of_In in Hc.
  assert (forallb (λ p, match connect_write true p.2 with None => true | Some _ => false end)
    (map_to_list (sq_conns (og_sender (out_end always 4)))) = true) as Hall by by vm_compute.
  rewrite forallb_forall in Hall. specialize (Hall _ Hc). cbn [snd] in Hall. clear Hc.
  cbn [mbind option_bind]. destruct (connect_write true c); [discriminate Hall|reflexivity].
Qed.

Lemma link_delivers_witness :
  dropped "b:1" (og_sender (out_end always 4)) ++ from_conn 0 (ig_received (in_end (out_end always 4) 4 2)) =
    meant_for 1 sends0 ∧
  meant_for 1 sends0 = [MHalt halt0; MSPBVote (sample_vote 1 1)].
Proof.
  split; [|by vm_compute].
  apply (link_delivers committee3 always 0 committee3_addresses 1 (mkAuthority [1] 1 "b:1" "b:2")
    (out_evs 4) (out_end always 4) (in_evs (out_end always 4) 4 2) (in_end (out_end always 4) 4 2) 0
    (in_conn (out_end always 4) 4 2)).
  - done.
  - done.
  - repeat constructor; (by left) || (right; apply (bool_decide_unpack _); by vm_compute).
  - exact out_end_run.
  - by vm_compute.
  - by vm_compute.
  - exists []. by vm_compute.
  - exact out_end_quiet.
  - split_and!; [|by vm_compute|by vm_compute]. intros [|k]; by vm_compute.
  - by vm_compute.
  - by vm_compute.
  - by vm_compute.
Defined.

(** The second write to node 1 fails; of two messages for it only the first arrives. *)
Definition broken_evs : list (out_event Message) :=
  map (λ s, OSend s.1 s.2) sends0 ++ replicate 6 OForward ++ replicate 10 ORun ++
  replicate 2 (OWrite true "b:1") ++ replicate 2 (OWrite false "b:1").

Lemma broken_end :
  match out_run always (Transmitor_Send committee3 0) broken_evs NewOutgoing with
  | Some o => broken "b:1" [MHalt halt0] o
  | None => False
  end.
Proof. vm_compute. eexists. split_and!; reflexivity. Qed.

(** Node 0 broadcasts twice; nothing is written to node 2. *)
Definition slow_evs : list (out_event Message) :=
  [OSend NONE (MHalt halt0); OSend NONE (MHalt halt0)] ++ replicate 4 OForward ++ replicate 8 ORun ++
  replicate 4 (OWrite true "b:1").

Definition slow_end : Outgoing Message :=
  default NewOutgoing (out_run always (Transmitor_Send committee3 0) slow_evs NewOutgoing).

Lemma slow_end_run :
  out_run always (Transmitor_Send committee3 0) slow_evs NewOutgoing = Some slow_end.
Proof. vm_compute. reflexivity. Qed.

Lemma slow_peer_stops_all_witness :
  length (put_on "b:1" (og_sender slow_end)) = 2%nat ∧
  Z.of_nat (length (dropped "b:1" (og_sender slow_end) ++ put_on "b:1" (og_sender slow_end))) <=
  Z.of_nat (length (dropped "c:1" (og_sender slow_end) ++
    from_option (λ c, cn_written c ++ cn_lost c) [] (sq_conns (og_sender slow_end) !! "c:1"))) + 1002.
Proof.
  split; [by vm_compute|].
  apply (slow_peer_stops_all committee3 always 0 committee3_addresses slow_evs slow_end
    1 (mkAuthority [1] 1 "b:1" "b:2") 2 (mkAuthority [2] 2 "c:1" "c:2")).
  - done.
  - done.
  - done.
  - done.
  - by repeat constructor.
  - exact slow_end_run.
Defined.

(** ** A full channel *)

Definition core_start : CoreLoop (M := nat) := mkCoreLoop NewIncoming None.

Lemma core_run_app {M} types {GI : Gob Z} Module_of module (evs evs' : list (core_event (M := M))) c c1 :
  core_run types Module_of module evs c = Steps c1 →
  core_run types Module_of module (evs ++ evs') c = core_run types Module_of module evs' c1.
Proof.
  revert c. induction evs as [|ev evs IH]; intros c; simpl; [by intros [= <-]|].
  destruct (core_exec _ _ _ ev c); [done| |done]. apply IH.
Qed.

(** Other goroutines fill the channel while a handler is at work. *)
Lemma fill_channel {M} types {GI : Gob Z} Module_of module n (m : M) i own :
  Z.of_nat (length (ig_recvCh i)) + Z.of_nat n <= CHANNEL →
  ∃ i', core_run types Module_of module (replicate n (KOther (IOwn m))) (mkCoreLoop i own) =
          Steps (mkCoreLoop i' own) ∧
    (length (ig_recvCh i') = length (ig_recvCh i) + n)%nat.
Proof.
  revert i. induction n as [|n IH]; intros i Hn; [exists i; split; [done|lia]|].
  cbn [replicate core_run core_exec cl_handler cl_incoming in_exec]. unfold RecvChannel_send.
  rewrite (proj2 (chan_send_Some _ _ _ (ig_recvCh i ++ [(None, m)]))) by (split; [lia|done]).
  cbn [mbind option_bind steps].
  edestruct (IH (mkIncoming (ig_receiver i) (ig_route i) (ig_recvCh i ++ [(None, m)]) (ig_received i)))
    as (i' & Hr & Hl).
  { cbn [ig_recvCh]. rewrite length_app. simpl. lia. }
  exists i'. split; [exact Hr|]. cbn [ig_recvCh] in Hl. rewrite length_app in Hl. simpl in Hl. lia.
Qed.

(** The core handles its first message, for which it has one for itself. *)
Lemma self_send_deadlock_witness :
  ∃ n c, core_run ∅ (λ _, "consensus") "consensus"
           ([KOther (IOwn 0%nat); KTake [1%nat]] ++ replicate n (KOther (IOwn 2%nat))) core_start = Steps c ∧
    stuck [1%nat] c ∧
    ∀ evs c', core_run ∅ (λ _, "consensus") "consensus" evs c = Steps c' →
      ig_received (cl_incoming c') = ig_received (cl_incoming c).
Proof.
  destruct (fill_channel ∅ (λ _, "consensus") "consensus" (Z.to_nat CHANNEL) 2%nat
    (mkIncoming NewReceiver None [] [(None, 0%nat)]) (Some [1%nat])) as (i & Hr & Hl).
  { cbn [ig_recvCh length]. unfold CHANNEL. lia. }
  exists (Z.to_nat CHANNEL), (mkCoreLoop i (Some [1%nat])).
  assert (stuck [1%nat] (mkCoreLoop i (Some [1%nat]))) as Hst.
  { split_and!; [done|done|]. cbn [cl_incoming]. rewrite Hl. cbn [ig_recvCh length].
    unfold CHANNEL. lia. }
  split; [|split; [exact Hst|]].
  - rewrite (core_run_app _ _ _ [_; _] _ _ (mkCoreLoop (mkIncoming NewReceiver None [] [(None, 0%nat)])
      (Some [1%nat]))) by done. exact Hr.
  - intros evs c' Hc.
    exact (proj2 (proj2 (self_send_deadlock ∅ (λ _, "consensus") "consensus" [1%nat] _ evs c' Hst Hc))).
Defined.
