(* ===== verification/ServiceWitnesses.v ===== *)
(** * The signing service, the pool and the consistency check at work

    Concrete runs to which the theorems of SigServer.v, PoolRun.v and Consistency.v are
    applied. *)

From stdpp Require Import base gmap list strings countable pretty.
From S2P Require Import Prelude Committee Crypto SigServer SampleLib Message Commitor Pool.
From S2P Require Import PoolRun Store Mempool Report Consistency SampleWorld Witnesses.

(** ** Signing *)

(** Two goroutines ask for a signature and for a share; the second request is sent first. *)
Definition sign_evs : list sig_event :=
  [SRequest SIG [1]; SRequest SHARE [2]; SSend 1; SSend 0; SServe; SServe; SShare 0; SRecv 1; SRecv 0].

Definition sign_end : SigSys :=
  default NewSigServer (sig_run (sample_svc 0 4 3) sign_evs NewSigServer).

Lemma sign_requests_answered_witness :
  map ca_state (sg_calls sign_end) = [Returned; Returned] ∧
  ∀ n c, sg_calls sign_end !! n = Some c → ca_state c = Returned →
    return_of (ca_req c) = call_answer (sample_svc 0 4 3) (ca_req c).
Proof.
  split; [by vm_compute|].
  apply (sign_requests_answered (sample_svc 0 4 3) sign_evs sign_end).
  - repeat constructor; by vm_compute.
  - by vm_compute.
Defined.

(** ** The pool *)

Definition small_pool : PoolParameters := mkPoolParameters 60 1 2 4.
Definition pool_evs : list pool_event :=
  [PGet; PTick; PMake; PMake; PQueue; PMake; PQueue; PGet; PQueue; PTick; PMake].

Lemma pool_hands_out_once_witness :
  ∃ p n, pool_run pool_evs (Pool_New small_pool 4 1) = Some (Returns tt p) ∧
    po_made p = (n + length (po_txChannel p))%nat ∧
    real (po_got p) ++ BatchChannel p = batches 2 4 1 (n / 2) (replicate n [0]).
Proof.
  destruct (pool_run pool_evs (Pool_New small_pool 4 1)) as [r|] eqn:Hr.
  - destruct (pool_hands_out_once small_pool 4 2 4 1 pool_evs r) as (p & n & -> & Hm & Hb & _);
      [done|done|lia|exact Hr|].
    exists p, n. split; [done|]. split; [exact Hm|exact Hb].
  - exfalso. assert (is_Some (pool_run pool_evs (Pool_New small_pool 4 1))) as [? Hs].
    { apply (bool_decide_unpack _). by vm_compute. }
    by rewrite Hr in Hs.
Defined.

(** ** The consistency check *)

Definition header : string := "[INFO] 2025/06/10 11:27:22.123456 commitor.go:50: ".

Definition log_files : list (string * list string) :=
  [("node-info-0.log", [header +:+ "commit Block node 1 batch_id 5 ";
                        header +:+ "commit ConsensusBlock epoch 0 node 1"]);
   ("node-info-1.log", [header +:+ "commit Block node 1 batch_id 5 ";
                        header +:+ "commit Block node 2 batch_id 6 "])].

Lemma consistency_check_exact_witness :
  ∃ ok, compare_digest_sequences log_files = Some ok ∧ ok = true ∧
    ∀ x y, x ∈ log_files → y ∈ log_files → agree (sequence_of x) (sequence_of y).
Proof.
  destruct (consistency_check_exact log_files) as (ok & Hc & Hok).
  - done.
  - apply (bool_decide_unpack _). by vm_compute.
  - exists ok. assert (ok = true) as ->; [|split; [exact Hc|split; [done|by apply Hok]]].
    assert (compare_digest_sequences log_files = Some true) as Ht by by vm_compute.
    congruence.
Defined.

(** Two nodes of which one has committed the block of epoch 0 *)
Definition node_logs : list node_log :=
  [mkNodeLog "node-info-0.log" (mp_Store mempool0) [decided0]
     [(header, CommitBlock 1 1); (header, CommitConsensusBlock 0 1)];
   mkNodeLog "node-info-1.log" (mp_Store mempool0) [] []].

Lemma consistent_logs_accepted_witness :
  compare_digest_sequences (map nl_file node_logs) = Some true.
Proof.
  apply (consistent_logs_accepted node_logs).
  - done.
  - apply (bool_decide_unpack _). by vm_compute.
  - repeat constructor; by vm_compute.
  - intros x y Hx Hy. unfold node_logs in *.
    apply elem_of_cons in Hx as [->|Hx]; [|apply list_elem_of_singleton in Hx as ->];
      (apply elem_of_cons in Hy as [->|Hy]; [|apply list_elem_of_singleton in Hy as ->]);
      unfold agree; cbn [nl_blocks]; auto using prefix_nil.
  - intros x y b d Hx Hy _ _ _. unfold node_logs in *.
    by apply elem_of_cons in Hx as [->|Hx]; [|apply list_elem_of_singleton in Hx as ->];
      (apply elem_of_cons in Hy as [->|Hy]; [|apply list_elem_of_singleton in Hy as ->]).
Defined.

(** Repetitions are not compared: of two sequences that differ in their order the script
    finds that they agree. *)
Lemma repetitions_ignored :
  (remove_duplicates [1; 2; 1; 3]).1 = (remove_duplicates [1; 2; 3]).1 ∧
  ¬ agree [1; 2; 1; 3] [1; 2; 3].
Proof. split; [by vm_compute|]. by intros [[k [=]]|[k [=]]]. Qed.
