(* ===== verification/LogWitnesses.v ===== *)
(** * The statistics of the logs at work

    The logs of two nodes, to which the theorem of LogStats.v is applied. *)

From stdpp Require Import base gmap list strings.
From S2P Require Import Prelude Regex Python LogStats.

(** ** The statistics of two logs *)

Definition at_second (sec : Z) : Stamp := mkStamp 2025 7 1 15 12 sec 250000.

Definition settings : list entry :=
  [mkEntry (at_second 1) 136 (TxSizeSet 256); mkEntry (at_second 1) 137 (BatchSizeSet 512);
   mkEntry (at_second 1) 138 (RateSet 5000); mkEntry (at_second 2) 31 (DDosFaults false 0)].

Definition log0 : list entry :=
  settings ++ [mkEntry (at_second 3) 64 (ReceivedBatch 0);
    mkEntry (at_second 4) 165 (CreateConsensusBlock 0 0);
    mkEntry (at_second 6) 50 (CommittedBlock 0 0);
    mkEntry (at_second 6) 57 (CommittedConsensusBlock 0 0)].

Definition log1 : list entry :=
  settings ++ [mkEntry (at_second 5) 50 (CommittedBlock 0 0);
    mkEntry (at_second 7) 57 (CommittedConsensusBlock 0 0)].

(** The batch was first committed by the second node, the block by the first. *)
Lemma log_parser_exact_witness :
  ∃ lp, LogParser_init (λ _, 0) (map log_text [log0; log1]) 0 = Ret lp ∧
    earliest (map (events (λ _, 0) commit_of) [log0; log1]) "0" (pn_commits (lp_parsed lp) !! "0").
Proof.
  destruct (log_parser_exact (λ _, 0) [log0; log1] 0) as (lp & Hlp & _ & _ & _ & Hall).
  - discriminate.
  - repeat constructor; try done; first [lia|apply (bool_decide_unpack _); by vm_compute].
  - exists lp. split; [exact Hlp|]. apply Hall.
Defined.
